(* ===== verification/_CoqProject ===== *)
-Q . S2P
Prelude.v
Os.v
Machine.v
Log.v
Warn.v
Options.v
Mem.v
Wp.v
Sigtrp.v
Data.v
Stack.v
StackSpec.v
DataSpec.v
Text.v
Proctab.v
Frame.v
Instr.v
Calls.v
Results.v
Load.v
Arith.v
Logic.v
Branch.v
Real.v
Float.v
FloatSpec.v
Pointer.v
Misc.v
Mon.v
MonStr.v
MonLogic.v
MonSpec.v
Move.v
Descr.v
Switch.v
Interp.v
Tally.v
Decode.v
PrInstr.v
Disasm.v
Silent.v
Dump.v
DumpSpec.v
Core.v
Boot.v
Main.v
Flt.v
FltStr.v
FltSpec.v
FltMul.v
FltText.v
Witnesses.v
MonWitnesses.v
MainWitnesses.v
FltWitnesses.v
