(* ===== verification/Prelude.v ===== *)
(** * The EM interpreter of the Amsterdam Compiler Kit

    The kit compiles to EM, the code of an abstract stack machine.  [src/util/int]
    is its interpreter: it loads an EM load file and executes it, with checks on
    every access.  This library models the interpreter, in C on a host with 64-bit
    [long], as Rocq functions, and proves what its parts promise.  It also models the
    floating point package with which the compilers evaluate constants
    ([modules/src/flt_arith]), a component of its own.  The other phases of the kit
    (front ends, optimizers, code generators, linker, driver, run-time libraries)
    and the emulators it carries are not modelled.

    ** The machine and its interpreter

    A machine ([Machine]) has a data area (global data and heap, upwards from 0),
    a stack (downwards from [ML]), a Function Return Area, program text, a table of
    procedures, and registers.  Every byte of memory has a shadow byte with the
    kinds of value it may hold and a protection mark ([shadow.h]).  The parameters
    read from the command line and the load file are the class [Config], and what
    [rd_header] and [init] check of them is the class [ConfigOk].

    A routine is a computation [M A]: from a state it returns ([Ret]), traps with a
    trap number ([Trap], the [longjmp] of [trap.c]), ends the interpreter with a
    message ([Fatal]), or does something without a meaning in C, or that does not
    end ([Undef]).  The main loop runs [do_trap] on a trap, so a trap never returns
    to its caller.

    ** Files and sources

    - [Prelude]: host integers, pointer addition, bytes, list and map lemmas.
    - [Os]: the system calls, the replies of a host, the state of the monitor calls.
    - [Machine] (global.c, global.h, mem.h, alloc.h): parameters, state, monad.
    - [Log] (log.c): the logging variables of the command line, the log mask, which
      actions are logged, and the request to stop.
    - [Warn] (warn.c, warn.h): counters of warnings and the decision to print them.
    - [Options] (main.c): the command line, and what the text of options means.
    - [Mem] (mem.h, memdirect.h, shadow.h): single bytes, range and alignment checks.
    - [Wp]: program logic [wp], the machine invariant [Inv], [keeps] and the hint
      databases of the proofs by walking through a routine.
    - [Sigtrp] (io.c, m_sigtrp.c): system calls, the descriptor of the message file,
      the map of signals and their handlers.
    - [Data] (data.c) and [DataSpec]: data area and heap; their specification.
    - [Stack] (stack.c, mem.h) and [StackSpec]: stack; its specification.
    - [Text] (text.h, text.c): operand fetch, argument checks, [newPC].
    - [Proctab] (proctab.c): the procedure table and its fragments.
    - [Frame] (segment.c, fra.c, rsb.c, do_proc.c, trap.c, do_misc.c): frame list,
      function results, Return Status Block, calls, returns, traps.
    - [Instr]: rules for popping operands and pushing results.
    - [Calls], [Results]: what a call, a return and their composition do.
    - [Load] (do_load.c, do_store.c), [Arith] (do_intar.c, do_unsar.c,
      do_incdec.c), [Logic] (do_logic.c, do_sets.c, do_comp.c), [Branch]
      (do_branch.c, do_conv.c), [Pointer] (do_ptrar.c, do_array.c), [Misc]
      (do_proc.c, do_misc.c): the instructions on other values than reals.
    - [Real]: [double] and [float] of the host, over the floating point numbers of
      the Standard Library.  [Float] (do_fpar.c, str2double.c and the parts under
      NOFLOAT of stack.c, data.c, do_conv.c, do_comp.c and do_incdec.c): the
      instructions on reals; [FloatSpec]: their specification.
    - [Mon] (moncalls.c, monstruct.c, m_ioctl.c): the monitor calls; [MonStr]: their
      string and vector parameters; [MonLogic]: rules for their contracts; [MonSpec]:
      the contracts, after the list of the EM manual (doc/em/env.nr).
    - [Move], [Descr]: specifications of instructions on blocks and on descriptors.
    - [Switch] (switch/mkiswitch.c, switch.c, etc/ip_spec.t, h/em_table): the
      generator of the instruction switch as a function of the opcode table, and
      [do_instr].
    - [Interp] (main.c): a turn of the machine, its runs, reachable states.
    - [Tally] (tally.c): counts of entries and instructions per file and line; what
      [int.tally] lists, and what it should list.
    - [Decode]: the encoding of instructions.
    - [PrInstr], [Disasm] (disassemble.c, switch/mkswitch.c): the routines that print
      an instruction, the generator of their calls, and the disassembler.
    - [Dump], [DumpSpec] (dump.c, log_eoi of log.c): the dumps of the memory, and
      what they show.  [Core] (core.c): the core after a fatal error.
    - [Silent]: warnings do not influence execution.
    - [Boot] (init.c, read.c): from the bytes of a load file, the arguments and the
      environment to the initial state.
    - [Main] (main.c): the program: the machine with the command line, the
      disassembly, the logging machine's dumps and request to stop and the tally
      around it, and how it ends.
    - [Flt] (modules/src/flt_arith: b64_sft.c, b64_add.c, flt_nrm.c, flt_chk.c, split.c,
      flt_add.c, flt_umin.c, flt_cmp.c, flt_mul.c, flt_div.c, flt_ar2flt.c, flt_flt2ar.c,
      flt_modf.c): reals with a mantissa of two words.  [FltStr] (flt_str2fl.c): their text.
      [FltSpec]: the numbers they mean, sums, comparison and parts; [FltMul]: products
      and quotients; [FltText]: integers, the powers of ten, and the package's test.c.
    - [Witnesses], [MonWitnesses], [MainWitnesses], [FltWitnesses]: the theorems at
      concrete states and numbers.

    [Main.main] is the whole: [read_options] and [init_log] read the command line,
    [boot] loads the machine, [start] calls the first procedure, and [main_loop]
    takes turns.  The theorems on the machine are about [step] and [run_loop] of
    [Interp], which leave the logging machine, the dumps and the tally out;
    [loop_runs_machine] ties the loop of the program to them.

    Definitions carry the names of the C functions and macros; a macro with a
    parameter for the area ([st_] or [dt_]) is a function per area, as in the C.

    ** What the theorems show

    - Safety: from any load file and with any limit that is an [int] on the Function
      Return Area, in every reachable state the registers, areas and
      Function Return Area satisfy [Inv] ([machine_safe]); a turn of the main loop
      never ends in a trap ([step_traps]), the trap sequence is not nested deeper
      than two ([do_trap_depth]), and warnings have no effect on the machine
      ([warnings_have_no_effect]).
    - Memory: [newSP] and [newHP] on every branch; the fast paths [incSP] and
      [decSP] are [newSP]; what is stored, pushed or copied is loaded or popped.
    - Control: a call enters the procedure and a return restores the caller, also
      composed, with the function result ([call_return_roundtrip]); the program
      counter stays in the fragment of its procedure.
    - Instructions: integer arithmetic, shifts, rotations, logical operations and
      sets are refinements of operations on Z, with their overflow and range traps
      ([signed_arithmetic] is about all operands but 0 minus the smallest integer, which
      SBI does not check: [sbi_unchecked]); conversions, comparisons, branches, block
      instructions.  Array accesses and indexed case jumps do what the EM manual says of
      their descriptors where the C routines read these in the same way
      ([array_address], [indexed_case_jump]); [array_access_run] and [csa_run] are
      about all descriptors.
    - Reals: a real that is pushed is popped, rounded to its size; FEF splits a
      finite real exactly, and ends; integers survive the conversion to a double.
    - Monitor calls: a parameter that points to a string is read whole or fails
      ([string_parameter]); Read and Write pass exactly the bytes of memory; every
      call of the manual takes its parameters and leaves its results and error code
      ([monitor_calls]); a signal that is mapped onto a trap raises the trap at the
      end of the turn in which it comes in ([mapped_signal_traps]).
    - The program: the loop of the program is the machine's unless it is stopped on
      request, up to a dump that goes wrong ([loop_runs_machine]); with STOP=n it is
      stopped after the nth turn of the loop if the machine has not ended before, and
      it goes wrong only if the machine, the tally table or a dump does
      ([stop_ends_program]); the tally that is written when a program
      ends lists exactly the lines on which the machine has executed instructions,
      with their numbers ([program_tally]); options and log masks are read as they
      are written ([command_line], for one -I at most, [log_mask]).
    - Decoding: the generated switch is unambiguous, and encoded instructions are
      decoded ([instruction_roundtrip]).
    - The disassembler prints every instruction of an encoded program, in order, with
      its name and operand, and each procedure at its entry point
      ([disassembly_lists_program]); the exchange loops sort the entry points
      ([entry_points_sorted]).
    - The dumps of the stack, the global data area and the heap account for every
      byte ([stack_dump_complete], [data_dumps_complete]), and that of the stack for the
      Return Status Blocks, the Function Return Area and the registers; the dumps end and leave
      the machine as it is ([dumps_end]), as long as no run of undefined bytes is
      longer than 4000 ([short_runs]), as its text may overflow a buffer
      ([long_run_overflows]); every register, by its name, and the memory can be read back from a
      core ([core_complete]).
    - The reals of the compilers: a product is rounded to the nearest number
      ([product_rounded]); a quotient is cut off, by Knuth's algorithm
      ([quotient_cut_off]); a sum is within a unit in the last place
      ([sum_of_numbers]); numbers are compared as they are meant ([comparison]) and split
      exactly ([modf_splits]); integers are converted exactly, and reals below 2 ** 32
      are truncated ([arith_roundtrip]; [arith_there_and_back] for larger ones); the text of an integer is read exactly
      ([integer_text_read]); the tables of powers of ten are as near as they can be
      ([powers_of_ten]).  These are about numbers that are [valid]: normal or zero, with
      an exponent in range.  [number] is the result with the overflow and underflow of
      flt_chk, and [mean] the number that is meant, an integer in units of
      2 ** -(UNIT + 63), below every number that occurs.
    The statements speak of states whose operands lie within the stack; without that
    the C routines may leave their arrays, which is [Undef] in the model.

    ** Decisions

    - [long], [ptr] and [size] have 64 bits, [int] 32, [char] is signed, [>>] of a
      negative number is arithmetic, integers wrap (as gcc compiles the shifts).  A
      register is a Z, with wrap-around written where the C type wraps; an area is a
      map from offsets to bytes with its allocated size.
    - The build is the default one: LOGGING and SEGCHECK are on and NOFLOAT is not
      defined.  The text that is logged is left out, except for the dumps.
      Of the systems, SYS_V is chosen, with V7IOCTL and HAS_ACCT and without the
      optional calls mount, umount and stime, whose numbers then trap.
    - The host is a function from the system calls made so far to the reply to the
      latest ([os_reply] of class [Os]); [OsOk] states what its manual says of the
      replies, and only the theorems of [MonLogic] and [MonSpec] use it.  A signal
      comes in before or after an instruction, where the model asks the host for
      signals; so the handlers run between two instructions.  [execve] returns only
      if it fails, and ends the run otherwise; in the child of a fork the
      interpreter overwrites a string literal, which is [Undef].
    - Reals are IEEE binary32 and binary64, rounded to nearest even, the [double]
      and [float] of a little-endian host.  NaNs are not told apart: the bits of a
      stored NaN are a parameter (class [Host]).  A cast of a real that does not fit
      the integer type is [Undef].
    - [Malloc] and [Realloc] succeed, or end the interpreter; the contents of fresh
      memory are arbitrary ([fresh] of [Boot]).  They cast the size to [unsigned int]
      ([malloc_size]): a data area of 4 GB or more gets a smaller array, and the
      loop that clears it runs past its end, which is [Undef] ([newHP_contract]).
      The frame list, the buffers of the monitor calls, the table of procedures and
      those of the tally are maps whose size is not limited: they are the C arrays as
      long as they are smaller than 4 GB.
    - A signal without a handler takes the default action of the host: it ends the
      process ([FKilled]) or does nothing to the machine ([sig_kills] of class [Os]).
    - Operands of C operators whose order of evaluation is not specified are
      evaluated from left to right.
    - The position in messages is (FIL, LIN); the texts of messages are omitted.
    - Loops over a count are structural.  The loops of [savestr] and [vec] have a turn
      for each byte of memory and one more, which is enough ([string_parameter],
      [wp_vec]); [highestfd] has 101, as it stops above descriptor 99.  The fuel of [gto] is ML + 2 - SP, one turn
      per frame address, and that of [pop_frames] the number of frames; [do_trap]
      nests to depth two, which [do_trap_depth] shows to be enough; the loops of
      FEF and FIF that double or halve a real take at most [exponents] turns, more
      than a double has exponents ([float_split]), and do not end on an infinite
      real, which is [Undef]; the fuel of
      [run_loop] and [main_loop] is a number of turns, as a program need not stop.
      [lmask_loop] has a turn per character of the mask, as each takes a digit;
      The loop that corrects the estimate of flt_div has as many turns as the estimate,
      which it counts down; the loop of add_exponent one per power that it may take off.
      The loops of flt_ecvt that scale a number have 64 turns, where a number of the
      format takes about ten, and lead to [None] beyond; so do a search that leaves its
      table and a shift by a negative number.
      [disasm_loop] has one per byte of the text, and the loops of the dumps one per
      byte of the area ([dumps_end]).

    ** Not modelled

    Of the floating point package, [flt_status] after a conversion to text, except
    [FLT_BTSM], and calls of flt_sub with twice the same object.
    The messages that instructions write to the log have no effect on the machine and
    are left out; what the disassembler and the dumps write is a list of lines with
    the numbers in them, not the characters.  A core is a value, not a file; that it
    is written before the interpreter closes down ([fatal_core]) is not part of
    [main].  The file system is a function from names to load
    files ([files] of [Main]).  The magic number and the version of a load file are parameters of [boot].  The requests of Ioctl that
    V7 had are not supported by this build ([do_ioctl] fails).
*)
From Stdlib Require Import ZArith Lia Bool.
From Stdlib Require Export ZifyBool.
From stdpp Require Import base gmap list.

Declare Scope em_scope.
Delimit Scope em_scope with em.
#[export] Set Default Goal Selector "!".
Global Open Scope Z_scope.

(** ** Host integers: [unsigned long], [long], [int], [char] *)

Definition u64 (x : Z) : Z := x mod 2 ^ 64.
Definition sext (w x : Z) : Z :=
  let y := x mod 2 ^ w in if y <? 2 ^ (w - 1) then y else y - 2 ^ w.
Definition s64 (x : Z) : Z := sext 64 x.
Definition s32 (x : Z) : Z := sext 32 x.
Definition s8 (x : Z) : Z := sext 8 x.
Definition char (x : Z) : Z := x mod 256.

(** Pointer addition: EM pointers are [unsigned long]s, so it wraps. *)
Definition padd (a n : Z) : Z := u64 (a + n).
Notation "a +p n" := (padd a n) (at level 50, left associativity) : em_scope.
Global Open Scope em_scope.

Lemma u64_small x : 0 <= x < 2 ^ 64 -> u64 x = x.
Proof. apply Z.mod_small. Qed.
Lemma u64_range x : 0 <= u64 x < 2 ^ 64.
Proof. apply Z.mod_pos_bound. lia. Qed.
Lemma padd_small a n : 0 <= a + n < 2 ^ 64 -> a +p n = a + n.
Proof. apply u64_small. Qed.
Lemma padd_assoc a m n : a +p m +p n = a +p (m + n).
Proof. unfold padd, u64. rewrite Zplus_mod_idemp_l. f_equal. lia. Qed.

Lemma sext_range w x : 0 < w -> - 2 ^ (w - 1) <= sext w x < 2 ^ (w - 1).
Proof.
  intros Hw. unfold sext.
  assert (2 ^ w = 2 * 2 ^ (w - 1)).
  { rewrite <- Z.pow_succ_r by lia. f_equal. lia. }
  pose proof (Z.mod_pos_bound x (2 ^ w) ltac:(lia)).
  destruct (Z.ltb_spec (x mod 2 ^ w) (2 ^ (w - 1))); lia.
Qed.

Lemma sext_small w x : 0 < w -> - 2 ^ (w - 1) <= x < 2 ^ (w - 1) -> sext w x = x.
Proof.
  intros Hw Hx. unfold sext.
  assert (2 ^ w = 2 * 2 ^ (w - 1)).
  { rewrite <- Z.pow_succ_r by lia. f_equal. lia. }
  destruct (Z.ltb_spec x 0).
  - replace (x mod 2 ^ w) with (x + 2 ^ w).
    + destruct (Z.ltb_spec (x + 2 ^ w) (2 ^ (w - 1))); lia.
    + rewrite <- (Z.mod_small (x + 2 ^ w) (2 ^ w)) by lia.
      rewrite <- (Z_mod_plus_full x 1 (2 ^ w)). f_equal. lia.
  - rewrite Z.mod_small by lia. destruct (Z.ltb_spec x (2 ^ (w - 1))); lia.
Qed.

Lemma sext_mod w x : 0 < w -> sext w x mod 2 ^ w = x mod 2 ^ w.
Proof.
  intros Hw. unfold sext.
  destruct (_ <? _).
  - apply Z.mod_mod. lia.
  - rewrite <- (Z_mod_plus_full _ 1), Z.mul_1_l, Z.sub_add. apply Z.mod_mod. lia.
Qed.

Lemma sext_eqm w x y : x mod 2 ^ w = y mod 2 ^ w -> sext w x = sext w y.
Proof. unfold sext. by intros ->. Qed.

Lemma char_range x : 0 <= char x < 256.
Proof. apply Z.mod_pos_bound. lia. Qed.

(** Bytes put together with shifts and ors. *)
Lemma lor_byte b r : 0 <= b < 256 -> Z.lor b (Z.shiftl r 8) = b + 256 * r.
Proof.
  intros Hb. rewrite Z.shiftl_mul_pow2 by lia. change (2 ^ 8) with 256.
  assert (Z.land b (r * 256) = 0) as H.
  { apply Z.bits_inj'. intros i Hi. rewrite Z.land_spec, Z.bits_0.
    destruct (Z.ltb_spec i 8).
    - change 256 with (2 ^ 8). rewrite Z.mul_pow2_bits_low by lia. apply andb_false_r.
    - destruct (Z.eq_dec b 0) as [->|]; [by rewrite Z.bits_0|].
      rewrite (Z.bits_above_log2 b i); [done|lia|].
      apply Z.log2_lt_pow2; [lia|]. apply Z.lt_le_trans with (2 ^ 8); [lia|].
      apply Z.pow_le_mono_r; lia. }
  rewrite <- Z.lxor_lor by done. rewrite <- Z.add_nocarry_lxor by done. lia.
Qed.

(** A bit of a number, tested as C does. *)
Lemma land_bit x k : 0 <= k -> (Z.land x (2 ^ k) =? 0) = negb (Z.testbit x k).
Proof.
  intros Hk. apply eq_true_iff_eq. rewrite Z.eqb_eq, negb_true_iff. split; intros H.
  - pose proof (Z.land_spec x (2 ^ k) k) as E. rewrite H, Z.bits_0, Z.pow2_bits_true in E by done.
    by rewrite andb_true_r in E.
  - apply Z.bits_inj'. intros i Hi. rewrite Z.land_spec, Z.bits_0, Z.pow2_bits_eqb by done.
    destruct (Z.eqb_spec k i) as [<-|]; [by rewrite H | apply andb_false_r].
Qed.

(** ** Bytes in memory

    An area of host memory is a map from addresses to bytes.  [ldn] and [stn]
    are the little-endian value of [n] bytes and its inverse; [fill] and [copyn]
    set and move runs of bytes. *)

Definition mget (m : gmap Z Z) (a : Z) : Z := default 0 (m !! a).

Fixpoint ldn (m : gmap Z Z) (a : Z) (n : nat) : Z :=
  match n with
  | O => 0
  | S n' => mget m a + 256 * ldn m (a + 1) n'
  end.

Fixpoint stn (m : gmap Z Z) (a l : Z) (n : nat) : gmap Z Z :=
  match n with
  | O => m
  | S n' => stn (<[a := char l]> m) (a + 1) (Z.shiftr l 8) n'
  end.

Fixpoint fill (m : gmap Z Z) (a v : Z) (n : nat) : gmap Z Z :=
  match n with
  | O => m
  | S n' => fill (<[a := v]> m) (a + 1) v n'
  end.

(** Every byte that is set is a byte. *)
Definition bytes_ok (m : gmap Z Z) : Prop := forall a v, m !! a = Some v -> 0 <= v < 256.

Lemma mget_range m a : bytes_ok m -> 0 <= mget m a < 256.
Proof.
  intros H. unfold mget. destruct (m !! a) eqn:E; simpl; [eauto | lia].
Qed.
Lemma mget_insert_eq m a v : mget (<[a := v]> m) a = v.
Proof. unfold mget. by rewrite lookup_insert_eq. Qed.
Lemma mget_insert_ne m a b v : a <> b -> mget (<[a := v]> m) b = mget m b.
Proof. intros. unfold mget. by rewrite lookup_insert_ne. Qed.
Lemma bytes_ok_insert m a v : bytes_ok m -> 0 <= v < 256 -> bytes_ok (<[a := v]> m).
Proof.
  intros Hm Hv b w. destruct (decide (a = b)) as [->|].
  - rewrite lookup_insert_eq. congruence.
  - rewrite lookup_insert_ne by done. apply Hm.
Qed.
Lemma bytes_ok_stn n : forall m a l, bytes_ok m -> bytes_ok (stn m a l n).
Proof.
  induction n as [|n IH]; intros m a l Hm; simpl; [done|].
  apply IH, bytes_ok_insert; [done | apply char_range].
Qed.
Lemma bytes_ok_fill n : forall m a v, bytes_ok m -> 0 <= v < 256 -> bytes_ok (fill m a v n).
Proof.
  induction n as [|n IH]; intros m a v Hm Hv; simpl; [done|].
  apply IH; [by apply bytes_ok_insert | done].
Qed.

Lemma stn_lookup_out n : forall m a l b,
  b < a \/ a + Z.of_nat n <= b -> mget (stn m a l n) b = mget m b.
Proof.
  induction n as [|n IH]; intros m a l b Hb; simpl; [done|].
  rewrite IH by lia. apply mget_insert_ne. lia.
Qed.
Lemma stn_lookup_in n : forall m a l i,
  0 <= i < Z.of_nat n -> mget (stn m a l n) (a + i) = char (Z.shiftr l (8 * i)).
Proof.
  induction n as [|n IH]; intros m a l i Hi; simpl; [lia|].
  destruct (decide (i = 0)) as [->|].
  - rewrite stn_lookup_out by lia. rewrite Z.add_0_r, mget_insert_eq. done.
  - replace (a + i) with (a + 1 + (i - 1)) by lia. rewrite IH by lia.
    rewrite Z.shiftr_shiftr by lia. do 2 f_equal. lia.
Qed.
Lemma fill_lookup_opt n : forall m a v b,
  fill m a v n !! b =
  if (a <=? b) && (b <? a + Z.of_nat n) then Some v else m !! b.
Proof.
  induction n as [|n IH]; intros m a v b; cbn [fill].
  - replace ((a <=? b) && (b <? a + Z.of_nat 0)) with false by lia. done.
  - rewrite IH. destruct (decide (a = b)) as [->|].
    + rewrite lookup_insert_eq.
      replace ((b <=? b) && (b <? b + Z.of_nat (S n))) with true by lia.
      by destruct (_ && _).
    + rewrite lookup_insert_ne by done.
      replace ((a + 1 <=? b) && (b <? a + 1 + Z.of_nat n))
        with ((a <=? b) && (b <? a + Z.of_nat (S n))); [done|].
      apply eq_true_iff_eq. rewrite !andb_true_iff. lia.
Qed.
Lemma fill_lookup n m a v b :
  mget (fill m a v n) b =
  if (a <=? b) && (b <? a + Z.of_nat n) then v else mget m b.
Proof. unfold mget. rewrite fill_lookup_opt. by destruct (_ && _). Qed.
Lemma fill_S_last n m a v : fill m a v (S n) = fill (<[a + Z.of_nat n := v]> m) a v n.
Proof.
  apply map_eq. intros b. rewrite !fill_lookup_opt.
  destruct (decide (a + Z.of_nat n = b)) as [<-|].
  - rewrite lookup_insert_eq.
    replace ((a <=? a + Z.of_nat n) && (a + Z.of_nat n <? a + Z.of_nat (S n))) with true by lia.
    by destruct (_ && _).
  - rewrite lookup_insert_ne by done.
    replace ((a <=? b) && (b <? a + Z.of_nat (S n)))
      with ((a <=? b) && (b <? a + Z.of_nat n)); [done|].
    apply eq_true_iff_eq. rewrite !andb_true_iff. lia.
Qed.

Lemma ldn_range n : forall m a, bytes_ok m -> 0 <= ldn m a n < 2 ^ (8 * Z.of_nat n).
Proof.
  induction n as [|n IH]; intros m a Hm; simpl ldn; [simpl; lia|].
  pose proof (mget_range m a Hm). pose proof (IH m (a + 1) Hm).
  replace (8 * Z.of_nat (S n)) with (8 + 8 * Z.of_nat n) by lia.
  rewrite Z.pow_add_r by lia. lia.
Qed.
Lemma ldn_ext n : forall m m' a a',
  (forall i, 0 <= i < Z.of_nat n -> mget m (a + i) = mget m' (a' + i)) ->
  ldn m a n = ldn m' a' n.
Proof.
  induction n as [|n IH]; intros m m' a a' H; simpl; [done|].
  pose proof (H 0 ltac:(lia)) as H0. rewrite !Z.add_0_r in H0. rewrite H0. do 2 f_equal.
  apply IH. intros i Hi.
  replace (a + 1 + i) with (a + (1 + i)) by lia.
  replace (a' + 1 + i) with (a' + (1 + i)) by lia. apply H. lia.
Qed.
Lemma ldn_stn_eq n : forall m a l, ldn (stn m a l n) a n = l mod 2 ^ (8 * Z.of_nat n).
Proof.
  induction n as [|n IH]; intros m a l; [simpl; by rewrite Z.mod_1_r|].
  change (stn m a l (S n)) with (stn (<[a := char l]> m) (a + 1) (Z.shiftr l 8) n).
  cbn [ldn]. rewrite stn_lookup_out by lia. rewrite mget_insert_eq, IH.
  rewrite Z.shiftr_div_pow2 by lia. unfold char.
  replace (8 * Z.of_nat (S n)) with (8 + 8 * Z.of_nat n) by lia.
  rewrite Z.pow_add_r by lia. change (2 ^ 8) with 256.
  rewrite Z.rem_mul_r by lia. lia.
Qed.
Lemma ldn_stn_ne n k m a b l :
  b + Z.of_nat n <= a \/ a + Z.of_nat k <= b -> ldn (stn m a l k) b n = ldn m b n.
Proof.
  intros H. apply ldn_ext. intros i Hi. apply stn_lookup_out. lia.
Qed.
Lemma ldn_fill_ne n k m a b v :
  b + Z.of_nat n <= a \/ a + Z.of_nat k <= b -> ldn (fill m a v k) b n = ldn m b n.
Proof.
  intros H. apply ldn_ext. intros i Hi. rewrite fill_lookup.
  replace ((a <=? b + i) && (b + i <? a + Z.of_nat k)) with false by lia. done.
Qed.
Lemma ldn_app n k : forall m a,
  ldn m a (n + k) = ldn m a n + 2 ^ (8 * Z.of_nat n) * ldn m (a + Z.of_nat n) k.
Proof.
  induction n as [|n IH]; intros m a.
  - rewrite Z.add_0_r. simpl. lia.
  - change (S n + k)%nat with (S (n + k)). cbn [ldn]. rewrite IH.
    replace (a + 1 + Z.of_nat n) with (a + Z.of_nat (S n)) by lia.
    replace (8 * Z.of_nat (S n)) with (8 + 8 * Z.of_nat n) by lia.
    rewrite (Z.pow_add_r 2 8) by lia. change (2 ^ 8) with 256. lia.
Qed.
Lemma ldn_S_last m a n :
  ldn m a (S n) = ldn m a n + 2 ^ (8 * Z.of_nat n) * mget m (a + Z.of_nat n).
Proof.
  replace (S n) with (n + 1)%nat by lia. rewrite ldn_app. cbn [ldn]. f_equal. f_equal. lia.
Qed.

Lemma ldn_prefix n k m a : (n <= k)%nat -> bytes_ok m -> ldn m a n = ldn m a k mod 2 ^ (8 * Z.of_nat n).
Proof.
  intros H Hm. replace k with (n + (k - n))%nat by lia. rewrite ldn_app.
  rewrite Z.mul_comm, Z_mod_plus_full. symmetry. apply Z.mod_small. by apply ldn_range.
Qed.
Lemma ldn_stn_prefix n k m a l :
  (n <= k)%nat -> bytes_ok m -> ldn (stn m a l k) a n = l mod 2 ^ (8 * Z.of_nat n).
Proof.
  intros H Hm. rewrite (ldn_prefix n k), ldn_stn_eq by (done || by apply bytes_ok_stn).
  apply Z.mod_mod_divide. exists (2 ^ (8 * Z.of_nat (k - n))). rewrite <- Z.pow_add_r by lia.
  f_equal. lia.
Qed.

Create HintDb mem discriminated.
Create Rewrite HintDb memrw.
#[export] Hint Resolve bytes_ok_stn bytes_ok_fill bytes_ok_insert char_range : mem.
#[export] Hint Rewrite mget_insert_eq ldn_stn_eq : memrw.
