(* ===== verification/Os.v ===== *)
(** * The operating system, as the interpreter sees it

    The system calls that [moncalls.c], [m_sigtrp.c] and [io.c] make, and the replies
    of the host.  A host is a function from the calls made so far, the latest first,
    to the reply to the latest: nothing is assumed about it here. *)
From Stdlib Require Import ZArith.
From stdpp Require Import base gmap list.
From S2P Require Import Prelude.

(** What happens upon a signal: the second argument of [signal]. *)
Inductive disposition := SIG_DFL | SIG_IGN | HndlIntSig | HndlEmSig.
#[export] Instance disposition_eq_dec : EqDecision disposition.
Proof. solve_decision. Defined.

(** A string is its bytes without the zero byte at its end. *)
Definition cstr : Type := list Z.

Inductive syscall :=
| s_fork | s_read (fd nbytes : Z) | s_write (fd : Z) (bs : list Z) | s_open (path : cstr) (flag : Z)
| s_close (fd : Z) | s_wait | s_creat (path : cstr) (mode : Z) | s_link (path1 path2 : cstr)
| s_unlink (path : cstr) | s_chdir (path : cstr) | s_mknod (path : cstr) (mode address : Z)
| s_chmod (path : cstr) (mode : Z) | s_chown (path : cstr) (owner group : Z) | s_stat (path : cstr)
| s_lseek (fd off whence : Z) | s_getpid | s_setuid (userid : Z) | s_getuid | s_geteuid
| s_alarm (seconds : Z) | s_fstat (fd : Z) | s_pause | s_utime (path : cstr) (actime modtime : Z)
| s_access (path : cstr) (mode : Z) | s_nice (incr : Z) | s_time | s_sync | s_kill (pid sig : Z)
| s_dup (fd : Z) | s_fcntl_dupfd (fd fdnew : Z) | s_pipe | s_times | s_setgid (groupid : Z)
| s_getgid | s_getegid | s_signal (sn : Z) (d : disposition) | s_acct (path : cstr)
| s_execve (path : cstr) (argv envp : list cstr) | s_umask (mode : Z) | s_chroot (path : cstr)
| s_fdopen (fd : Z)
| s_signals.  (* not a call: the signals that have come in since the last one *)

(** The value of the call, [errno] after it, and what it stores: the bytes that are
    read; the fields of a [struct stat] or [struct tms], in the order in which
    [monstruct.c] copies them; the descriptors of a pipe; the status of a child; the
    numbers of the signals. *)
Record reply := mkReply { r_val : Z; r_errno : Z; r_out : list Z }.

Class Os := {
  os_reply : list syscall -> reply;
  NSIG : Z; SIGILL : Z; SIGSYS : Z;                       (* signal.h *)
  SIGCHLD : Z; SIGIO : Z; SIGWINCH : Z;
  sig_kills : Z -> bool;     (* the default action upon the signal ends the process *)
  EMFILE : Z;                                             (* errno.h *)
  timezone : Z; daylight : Z                              (* time.h *)
}.

(** The state of the monitor calls. *)
Record monst := mkMon {
  errno : Z;
  buf_cnt : gmap Z Z;                 (* current sizes of the buffers *)
  sig_map : gmap Z Z;                 (* maps signals onto trap numbers *)
  caught : gmap Z disposition;        (* the handlers that are installed *)
  signalled : Z;                      (* signal that came in *)
  fd_limit : Z;                       (* first non-available file descriptor *)
  mess_id : Z;                        (* id of the message file of the next child *)
  calls : list syscall                (* the calls made, the latest first *)
}.
Definition set_errno (v : Z) (m : monst) : monst :=
  mkMon v (buf_cnt m) (sig_map m) (caught m) (signalled m) (fd_limit m) (mess_id m) (calls m).
Definition set_buf_cnt (v : gmap Z Z) (m : monst) : monst :=
  mkMon (errno m) v (sig_map m) (caught m) (signalled m) (fd_limit m) (mess_id m) (calls m).
Definition set_sig_map (v : gmap Z Z) (m : monst) : monst :=
  mkMon (errno m) (buf_cnt m) v (caught m) (signalled m) (fd_limit m) (mess_id m) (calls m).
Definition set_caught (v : gmap Z disposition) (m : monst) : monst :=
  mkMon (errno m) (buf_cnt m) (sig_map m) v (signalled m) (fd_limit m) (mess_id m) (calls m).
Definition set_signalled (v : Z) (m : monst) : monst :=
  mkMon (errno m) (buf_cnt m) (sig_map m) (caught m) v (fd_limit m) (mess_id m) (calls m).
Definition set_fd_limit (v : Z) (m : monst) : monst :=
  mkMon (errno m) (buf_cnt m) (sig_map m) (caught m) (signalled m) v (mess_id m) (calls m).
Definition set_mess_id (v : Z) (m : monst) : monst :=
  mkMon (errno m) (buf_cnt m) (sig_map m) (caught m) (signalled m) (fd_limit m) v (calls m).
Definition set_calls (v : list syscall) (m : monst) : monst :=
  mkMon (errno m) (buf_cnt m) (sig_map m) (caught m) (signalled m) (fd_limit m) (mess_id m) v.
Definition mon0 : monst := mkMon 0 ∅ ∅ ∅ 0 100 0 [].
