(* ===== verification/Machine.v ===== *)
(** * The EM machine: configuration, state, monad

    [global.h], [global.c], [mem.h]: the capacity parameters and program
    parameters are the class [Config] (the interpreter sets them while it reads
    the load file and never again), the registers and the memory are the record
    [state], and an interpreter routine is a computation of type [M A]. *)
From Stdlib Require Import ZArith Lia Bool.
From stdpp Require Import base gmap list.
From S2P Require Import Prelude Os.

(** ** Trap numbers ([h/em_abs.h]) *)
Definition EARRAY := 0.
Definition ERANGE := 1.
Definition ESET := 2.
Definition EIOVFL := 3.
Definition EFOVFL := 4.
Definition EFUNFL := 5.
Definition EIDIVZ := 6.
Definition EFDIVZ := 7.
Definition EIUND := 8.
Definition EFUND := 9.
Definition ECONV := 10.
Definition ESTACK := 16.
Definition EHEAP := 17.
Definition EILLINS := 18.
Definition EODDZ := 19.
Definition ECASE := 20.
Definition EMEMFLT := 21.
Definition EBADPTR := 22.
Definition EBADPC := 23.
Definition EBADLAE := 24.
Definition EBADMON := 25.
Definition EBADLIN := 26.
Definition EBADGTO := 27.
Definition LINO_AD := 0.
Definition FILN_AD := 4.

(** ** Constants of [global.h] *)
Definition I_MAXU1 := 255.
Definition I_MAXS1 := 127.
Definition I_MINS1 := -127 - 1.
Definition I_MAXU2 := 65535.
Definition I_MAXS2 := 32767.
Definition I_MINS2 := -32767 - 1.
Definition I_MAXU4 := 4294967295.
Definition I_MAXS4 := 2147483647.
Definition I_MINS4 := -2147483647 - 1.
Definition BIT (n : Z) : Z := Z.shiftl 1 n.
Definition SIGNBIT2 := BIT 15.
Definition SIGNBIT4 := BIT 31.
Definition MASK1 := 0xFF.
Definition MASK2 := 0xFFFF.
Definition LINSIZE := 4.

(** [UNDEFINED] and [DEFINED], and the shadow bytes of [shadow.h]. *)
Definition UNDEFINED := 0.
Definition DEFINED := 1.
Definition SH_INT := 0x01.
Definition SH_FLOAT := 0x02.
Definition SH_DATAP := 0x04.
Definition SH_INSP := 0x08.
Definition SH_PROT := 0x80.

(** What to do upon a trap. *)
Inductive trapmode := TR_ABORT | TR_HALT | TR_TRAP.
#[export] Instance trapmode_eq_dec : EqDecision trapmode.
Proof. solve_decision. Defined.

(** A [struct proc] of [proctab.h]. *)
Record proc := mkProc { pr_nloc : Z; pr_ep : Z; pr_ff : Z }.
#[export] Instance proc_eq_dec : EqDecision proc.
Proof. solve_decision. Defined.

(** ** Capacity and program parameters *)
Class Config := {
  wsize : Z;                      (* wordsize *)
  psize : Z;                      (* pointersize *)
  maxstack : Z;                   (* if set, max stack size *)
  maxheap : Z;                    (* if set, max heap size *)
  FRALimit : Z;                   (* Function Return Area maximum size *)
  PreIgnMask : Z;                 (* Preset Ignore Mask, from command line *)
  must_test : bool;               (* TEST-bit on in EM header word 2 *)
  warnmask : Z -> bool;           (* warnings disabled on the command line *)
  HB : Z;                         (* Heap Base *)
  DB : Z;                         (* Procedure Descriptor Base, end of text *)
  NProc : Z;                      (* Number of Procedure Descriptors *)
  ENTRY : Z;
  NLINE : Z;
  text : list Z;                  (* program text *)
  proctab : list proc
}.

Section Derived.
Context {cfg : Config}.

(** The wsize- and psize-dependent variables that [init] computes. *)
Definition dwsize : Z := 2 * wsize.
Definition wsizem1 : Z := wsize - 1.
Definition i_minsw : Z := if wsize =? 2 then I_MINS2 else I_MINS4.
Definition i_maxsw : Z := if wsize =? 2 then I_MAXS2 else I_MAXS4.
Definition i_maxuw : Z := if wsize =? 2 then I_MAXU2 else I_MAXU4.
Definition MAX_OFF2 := I_MAXS2.
Definition MAX_OFF4 := I_MAXS4.
Definition min_off : Z := if psize =? 2 then - MAX_OFF2 - 1 else - MAX_OFF4 - 1.
Definition max_off : Z := if psize =? 2 then MAX_OFF2 else MAX_OFF4.
Definition max_addr : Z := (if psize =? 2 then I_MAXU2 else I_MAXS4) / wsize * wsize - 1.
Definition ML : Z := max_addr.

(** Offsets to be added to a local base ([init_rsb] of [rsb.c]). *)
Definition rsb_rsbcode : Z := 0.
Definition rsb_PI : Z := wsize.
Definition rsb_PC : Z := rsb_PI + psize.
Definition rsb_LB : Z := rsb_PC + psize.
Definition rsb_LIN : Z := rsb_LB + psize.
Definition rsb_FIL : Z := rsb_LIN + LINSIZE.
Definition rsbsize : Z := rsb_FIL + psize.

(** [allocfrac], the reallocation factor of [alloc.h]. *)
Definition allocfrac (s : Z) : Z := Z.quot (s * 3) 2.

(** The bytes that [Malloc(sz)] and [Realloc(old, sz)] ask for: the size is cast to
    [unsigned int]. *)
Definition malloc_size (sz : Z) : Z := sz mod 2 ^ 32.

End Derived.

(** ** State *)

(** A malloc'ed host array of bytes with its array of shadow bytes.  [alloc] is
    the size passed to [Malloc]/[Realloc]. *)
Record area := mkArea { bytes : gmap Z Z; shad : gmap Z Z; alloc : Z }.
Definition set_bytes (v : gmap Z Z) (a : area) := mkArea v (shad a) (alloc a).
Definition set_shad (v : gmap Z Z) (a : area) := mkArea (bytes a) v (alloc a).
Definition set_alloc (v : Z) (a : area) := mkArea (bytes a) (shad a) v.

(** [struct warn_cnt]: one counter per warning, file and line. *)
Record warn_counter := mkCnt { wc_fil : Z; wc_lin : Z; wc_cnt : Z }.

(** What [do_warn], [warningcont] and [message] write on the message file; the
    file and line that [position()] prints are kept as numbers. *)
Inductive messline :=
| MWarning (nr cnt fil lin : Z)
| MCont (nr fil lin : Z)
| MTrap (nr fil lin : Z)
| MNop (fil lin : Z).

Record warnst := mkWarn {
  warn_cnt : gmap Z (list warn_counter);
  latest_warning_printed : bool;
  mess : list messline
}.

Record state := mkState {
  PI : Z;  (* Procedure Identifier of running proc *)
  PC : Z;  (* Program Counter *)
  HP : Z;  (* Heap Pointer *)
  SP : Z;  (* Stack Pointer *)
  LB : Z;  (* Local Base *)
  AB : Z;  (* Actual Base *)
  ES : Z;  (* program Exit Status *)
  ES_def : bool;  (* set iff Exit Status legal *)
  OnTrap : trapmode;  (* what to do upon trap *)
  IgnMask : Z;  (* Ignore Mask for traps *)
  TrapPI : Z;  (* Procedure Identifier of trap routine *)
  FRA : area;  (* Function Return Area *)
  FRASize : Z;  (* its actual size *)
  FRA_def : Z;  (* set iff FRA legal *)
  data : area;  (* global data & heap space *)
  HL : Z;  (* Heap Limit *)
  stack : area;  (* stack space and local data *)
  SL : Z;  (* Stack Limit *)
  AB_list : gmap Z Z;  (* actual bases of the stack frames *)
  frame_limit : Z;  (* size of AB_list *)
  curr_frame : Z;  (* index of the top frame *)
  LIN : Z;  (* present line number *)
  FIL : Z;  (* present file name pointer *)
  running : bool;  (* set if EM machine is running *)
  rec_trap : bool;  (* a trap is being processed *)
  rec_nr : Z;  (* its number *)
  warn : warnst;  (* warning administration *)
  mon : monst  (* state of the monitor calls *)
}.

Definition set_PI (v : Z) (s : state) : state :=
  mkState v (PC s) (HP s) (SP s) (LB s) (AB s) (ES s) (ES_def s) (OnTrap s) (IgnMask s) (TrapPI s) (FRA s) (FRASize s) (FRA_def s) (data s) (HL s) (stack s) (SL s) (AB_list s) (frame_limit s) (curr_frame s) (LIN s) (FIL s) (running s) (rec_trap s) (rec_nr s) (warn s) (mon s).
Definition set_PC (v : Z) (s : state) : state :=
  mkState (PI s) v (HP s) (SP s) (LB s) (AB s) (ES s) (ES_def s) (OnTrap s) (IgnMask s) (TrapPI s) (FRA s) (FRASize s) (FRA_def s) (data s) (HL s) (stack s) (SL s) (AB_list s) (frame_limit s) (curr_frame s) (LIN s) (FIL s) (running s) (rec_trap s) (rec_nr s) (warn s) (mon s).
Definition set_HP (v : Z) (s : state) : state :=
  mkState (PI s) (PC s) v (SP s) (LB s) (AB s) (ES s) (ES_def s) (OnTrap s) (IgnMask s) (TrapPI s) (FRA s) (FRASize s) (FRA_def s) (data s) (HL s) (stack s) (SL s) (AB_list s) (frame_limit s) (curr_frame s) (LIN s) (FIL s) (running s) (rec_trap s) (rec_nr s) (warn s) (mon s).
Definition set_SP (v : Z) (s : state) : state :=
  mkState (PI s) (PC s) (HP s) v (LB s) (AB s) (ES s) (ES_def s) (OnTrap s) (IgnMask s) (TrapPI s) (FRA s) (FRASize s) (FRA_def s) (data s) (HL s) (stack s) (SL s) (AB_list s) (frame_limit s) (curr_frame s) (LIN s) (FIL s) (running s) (rec_trap s) (rec_nr s) (warn s) (mon s).
Definition set_LB (v : Z) (s : state) : state :=
  mkState (PI s) (PC s) (HP s) (SP s) v (AB s) (ES s) (ES_def s) (OnTrap s) (IgnMask s) (TrapPI s) (FRA s) (FRASize s) (FRA_def s) (data s) (HL s) (stack s) (SL s) (AB_list s) (frame_limit s) (curr_frame s) (LIN s) (FIL s) (running s) (rec_trap s) (rec_nr s) (warn s) (mon s).
Definition set_AB (v : Z) (s : state) : state :=
  mkState (PI s) (PC s) (HP s) (SP s) (LB s) v (ES s) (ES_def s) (OnTrap s) (IgnMask s) (TrapPI s) (FRA s) (FRASize s) (FRA_def s) (data s) (HL s) (stack s) (SL s) (AB_list s) (frame_limit s) (curr_frame s) (LIN s) (FIL s) (running s) (rec_trap s) (rec_nr s) (warn s) (mon s).
Definition set_ES (v : Z) (s : state) : state :=
  mkState (PI s) (PC s) (HP s) (SP s) (LB s) (AB s) v (ES_def s) (OnTrap s) (IgnMask s) (TrapPI s) (FRA s) (FRASize s) (FRA_def s) (data s) (HL s) (stack s) (SL s) (AB_list s) (frame_limit s) (curr_frame s) (LIN s) (FIL s) (running s) (rec_trap s) (rec_nr s) (warn s) (mon s).
Definition set_ES_def (v : bool) (s : state) : state :=
  mkState (PI s) (PC s) (HP s) (SP s) (LB s) (AB s) (ES s) v (OnTrap s) (IgnMask s) (TrapPI s) (FRA s) (FRASize s) (FRA_def s) (data s) (HL s) (stack s) (SL s) (AB_list s) (frame_limit s) (curr_frame s) (LIN s) (FIL s) (running s) (rec_trap s) (rec_nr s) (warn s) (mon s).
Definition set_OnTrap (v : trapmode) (s : state) : state :=
  mkState (PI s) (PC s) (HP s) (SP s) (LB s) (AB s) (ES s) (ES_def s) v (IgnMask s) (TrapPI s) (FRA s) (FRASize s) (FRA_def s) (data s) (HL s) (stack s) (SL s) (AB_list s) (frame_limit s) (curr_frame s) (LIN s) (FIL s) (running s) (rec_trap s) (rec_nr s) (warn s) (mon s).
Definition set_IgnMask (v : Z) (s : state) : state :=
  mkState (PI s) (PC s) (HP s) (SP s) (LB s) (AB s) (ES s) (ES_def s) (OnTrap s) v (TrapPI s) (FRA s) (FRASize s) (FRA_def s) (data s) (HL s) (stack s) (SL s) (AB_list s) (frame_limit s) (curr_frame s) (LIN s) (FIL s) (running s) (rec_trap s) (rec_nr s) (warn s) (mon s).
Definition set_TrapPI (v : Z) (s : state) : state :=
  mkState (PI s) (PC s) (HP s) (SP s) (LB s) (AB s) (ES s) (ES_def s) (OnTrap s) (IgnMask s) v (FRA s) (FRASize s) (FRA_def s) (data s) (HL s) (stack s) (SL s) (AB_list s) (frame_limit s) (curr_frame s) (LIN s) (FIL s) (running s) (rec_trap s) (rec_nr s) (warn s) (mon s).
Definition set_FRA (v : area) (s : state) : state :=
  mkState (PI s) (PC s) (HP s) (SP s) (LB s) (AB s) (ES s) (ES_def s) (OnTrap s) (IgnMask s) (TrapPI s) v (FRASize s) (FRA_def s) (data s) (HL s) (stack s) (SL s) (AB_list s) (frame_limit s) (curr_frame s) (LIN s) (FIL s) (running s) (rec_trap s) (rec_nr s) (warn s) (mon s).
Definition set_FRASize (v : Z) (s : state) : state :=
  mkState (PI s) (PC s) (HP s) (SP s) (LB s) (AB s) (ES s) (ES_def s) (OnTrap s) (IgnMask s) (TrapPI s) (FRA s) v (FRA_def s) (data s) (HL s) (stack s) (SL s) (AB_list s) (frame_limit s) (curr_frame s) (LIN s) (FIL s) (running s) (rec_trap s) (rec_nr s) (warn s) (mon s).
Definition set_FRA_def (v : Z) (s : state) : state :=
  mkState (PI s) (PC s) (HP s) (SP s) (LB s) (AB s) (ES s) (ES_def s) (OnTrap s) (IgnMask s) (TrapPI s) (FRA s) (FRASize s) v (data s) (HL s) (stack s) (SL s) (AB_list s) (frame_limit s) (curr_frame s) (LIN s) (FIL s) (running s) (rec_trap s) (rec_nr s) (warn s) (mon s).
Definition set_data (v : area) (s : state) : state :=
  mkState (PI s) (PC s) (HP s) (SP s) (LB s) (AB s) (ES s) (ES_def s) (OnTrap s) (IgnMask s) (TrapPI s) (FRA s) (FRASize s) (FRA_def s) v (HL s) (stack s) (SL s) (AB_list s) (frame_limit s) (curr_frame s) (LIN s) (FIL s) (running s) (rec_trap s) (rec_nr s) (warn s) (mon s).
Definition set_HL (v : Z) (s : state) : state :=
  mkState (PI s) (PC s) (HP s) (SP s) (LB s) (AB s) (ES s) (ES_def s) (OnTrap s) (IgnMask s) (TrapPI s) (FRA s) (FRASize s) (FRA_def s) (data s) v (stack s) (SL s) (AB_list s) (frame_limit s) (curr_frame s) (LIN s) (FIL s) (running s) (rec_trap s) (rec_nr s) (warn s) (mon s).
Definition set_stack (v : area) (s : state) : state :=
  mkState (PI s) (PC s) (HP s) (SP s) (LB s) (AB s) (ES s) (ES_def s) (OnTrap s) (IgnMask s) (TrapPI s) (FRA s) (FRASize s) (FRA_def s) (data s) (HL s) v (SL s) (AB_list s) (frame_limit s) (curr_frame s) (LIN s) (FIL s) (running s) (rec_trap s) (rec_nr s) (warn s) (mon s).
Definition set_SL (v : Z) (s : state) : state :=
  mkState (PI s) (PC s) (HP s) (SP s) (LB s) (AB s) (ES s) (ES_def s) (OnTrap s) (IgnMask s) (TrapPI s) (FRA s) (FRASize s) (FRA_def s) (data s) (HL s) (stack s) v (AB_list s) (frame_limit s) (curr_frame s) (LIN s) (FIL s) (running s) (rec_trap s) (rec_nr s) (warn s) (mon s).
Definition set_AB_list (v : gmap Z Z) (s : state) : state :=
  mkState (PI s) (PC s) (HP s) (SP s) (LB s) (AB s) (ES s) (ES_def s) (OnTrap s) (IgnMask s) (TrapPI s) (FRA s) (FRASize s) (FRA_def s) (data s) (HL s) (stack s) (SL s) v (frame_limit s) (curr_frame s) (LIN s) (FIL s) (running s) (rec_trap s) (rec_nr s) (warn s) (mon s).
Definition set_frame_limit (v : Z) (s : state) : state :=
  mkState (PI s) (PC s) (HP s) (SP s) (LB s) (AB s) (ES s) (ES_def s) (OnTrap s) (IgnMask s) (TrapPI s) (FRA s) (FRASize s) (FRA_def s) (data s) (HL s) (stack s) (SL s) (AB_list s) v (curr_frame s) (LIN s) (FIL s) (running s) (rec_trap s) (rec_nr s) (warn s) (mon s).
Definition set_curr_frame (v : Z) (s : state) : state :=
  mkState (PI s) (PC s) (HP s) (SP s) (LB s) (AB s) (ES s) (ES_def s) (OnTrap s) (IgnMask s) (TrapPI s) (FRA s) (FRASize s) (FRA_def s) (data s) (HL s) (stack s) (SL s) (AB_list s) (frame_limit s) v (LIN s) (FIL s) (running s) (rec_trap s) (rec_nr s) (warn s) (mon s).
Definition set_LIN (v : Z) (s : state) : state :=
  mkState (PI s) (PC s) (HP s) (SP s) (LB s) (AB s) (ES s) (ES_def s) (OnTrap s) (IgnMask s) (TrapPI s) (FRA s) (FRASize s) (FRA_def s) (data s) (HL s) (stack s) (SL s) (AB_list s) (frame_limit s) (curr_frame s) v (FIL s) (running s) (rec_trap s) (rec_nr s) (warn s) (mon s).
Definition set_FIL (v : Z) (s : state) : state :=
  mkState (PI s) (PC s) (HP s) (SP s) (LB s) (AB s) (ES s) (ES_def s) (OnTrap s) (IgnMask s) (TrapPI s) (FRA s) (FRASize s) (FRA_def s) (data s) (HL s) (stack s) (SL s) (AB_list s) (frame_limit s) (curr_frame s) (LIN s) v (running s) (rec_trap s) (rec_nr s) (warn s) (mon s).
Definition set_running (v : bool) (s : state) : state :=
  mkState (PI s) (PC s) (HP s) (SP s) (LB s) (AB s) (ES s) (ES_def s) (OnTrap s) (IgnMask s) (TrapPI s) (FRA s) (FRASize s) (FRA_def s) (data s) (HL s) (stack s) (SL s) (AB_list s) (frame_limit s) (curr_frame s) (LIN s) (FIL s) v (rec_trap s) (rec_nr s) (warn s) (mon s).
Definition set_rec_trap (v : bool) (s : state) : state :=
  mkState (PI s) (PC s) (HP s) (SP s) (LB s) (AB s) (ES s) (ES_def s) (OnTrap s) (IgnMask s) (TrapPI s) (FRA s) (FRASize s) (FRA_def s) (data s) (HL s) (stack s) (SL s) (AB_list s) (frame_limit s) (curr_frame s) (LIN s) (FIL s) (running s) v (rec_nr s) (warn s) (mon s).
Definition set_rec_nr (v : Z) (s : state) : state :=
  mkState (PI s) (PC s) (HP s) (SP s) (LB s) (AB s) (ES s) (ES_def s) (OnTrap s) (IgnMask s) (TrapPI s) (FRA s) (FRASize s) (FRA_def s) (data s) (HL s) (stack s) (SL s) (AB_list s) (frame_limit s) (curr_frame s) (LIN s) (FIL s) (running s) (rec_trap s) v (warn s) (mon s).
Definition set_warn (v : warnst) (s : state) : state :=
  mkState (PI s) (PC s) (HP s) (SP s) (LB s) (AB s) (ES s) (ES_def s) (OnTrap s) (IgnMask s) (TrapPI s) (FRA s) (FRASize s) (FRA_def s) (data s) (HL s) (stack s) (SL s) (AB_list s) (frame_limit s) (curr_frame s) (LIN s) (FIL s) (running s) (rec_trap s) (rec_nr s) v (mon s).

Definition set_mon (v : monst) (s : state) : state :=
  mkState (PI s) (PC s) (HP s) (SP s) (LB s) (AB s) (ES s) (ES_def s) (OnTrap s) (IgnMask s) (TrapPI s) (FRA s) (FRASize s) (FRA_def s) (data s) (HL s) (stack s) (SL s) (AB_list s) (frame_limit s) (curr_frame s) (LIN s) (FIL s) (running s) (rec_trap s) (rec_nr s) (warn s) v.

(** ** The monad

    [Trap nr s] is a call of [trap(nr)] in state [s]: [do_trap] never returns to
    its caller (it ends in [fatal] or [longjmp]), so it is run by the main loop
    on the state in which the trap was raised.  [Undef] is behaviour the host
    language leaves undefined: an access outside a malloc'ed array, a division
    by zero, a shift by an illegal distance; or a loop that never ends. *)
Inductive load_error :=
| LBadMagic | LUnresolved | LBadVersion | LBadWordsize | LBadPointersize | LFRASmall
| LBadEntry | LType0OnType0 | LBadIntegersize | LBadFloatsize | LFloatTooLong | LFloatGarbled
| LUnknownInitializer | LEof.

Inductive fatal_msg :=
| FTrapBeforeStart (nr : Z)
| FTrapNotCaught (nr : Z)
| FRecursiveTrap (nr : Z)
| FEntryOutside                   (* procedure entry point outside text segment *)
| FLoad (e : load_error)
| FMessagefile                    (* the message file cannot be created *)
| FSignal (sn : Z)                (* a signal that the program did not catch *)
| FKilled (sn : Z)                (* the host ends the process upon a signal *)
| FExec                           (* another program runs in this process *)
| FTooManyLog                     (* more than 20 logging arguments *)
| FLogmask                        (* bad logmask initialization string *)
| FLogfile                        (* the log file cannot be created *)
| FLoadfile                       (* the load file cannot be opened *)
| FBadOption                      (* exit(1) with a message about an option *)
| FStopped.                       (* the program is stopped on request *)

Inductive result (A : Type) : Type :=
| Ret (a : A) (s : state)
| Trap (nr : Z) (s : state)
| Fatal (m : fatal_msg) (s : state)
| Undef.
Arguments Ret {A} a s.
Arguments Trap {A} nr s.
Arguments Fatal {A} m s.
Arguments Undef {A}.

Definition M (A : Type) : Type := state -> result A.
Definition ret {A} (a : A) : M A := fun s => Ret a s.
Definition bind {A B} (m : M A) (k : A -> M B) : M B := fun s =>
  match m s with
  | Ret a s' => k a s'
  | Trap nr s' => Trap nr s'
  | Fatal f s' => Fatal f s'
  | Undef => Undef
  end.
Notation "x ← m ; k" := (bind m (fun x => k))
  (at level 20, m at level 100, k at level 200, only parsing) : em_scope.
Notation "m ;; k" := (bind m (fun _ => k)) (at level 100, k at level 200, right associativity) : em_scope.

Definition gets {A} (f : state -> A) : M A := fun s => Ret (f s) s.
Definition modify (f : state -> state) : M unit := fun s => Ret tt (f s).
Definition trap {A} (nr : Z) : M A := fun s => Trap nr s.
Definition fatal {A} (f : fatal_msg) : M A := fun s => Fatal f s.
Definition undef {A} : M A := fun _ => Undef.
Definition skip : M unit := ret tt.
Definition when (b : bool) (m : M unit) : M unit := if b then m else skip.

(** [run]: execute the monad operations at the head of a computation that is
    applied to a state. *)
Arguments ret {A} a s /.
Arguments bind {A B} m k s /.
Arguments gets {A} f s /.
Arguments modify f s /.
Arguments trap {A} nr s /.
Arguments fatal {A} f s /.
Arguments undef {A} s /.
Ltac run := cbn [bind ret gets modify trap fatal undef skip when negb andb orb].
Tactic Notation "run" "in" hyp(H) :=
  cbn [bind ret gets modify trap fatal undef skip when negb andb orb] in H.
