(* ===== verification/Log.v ===== *)
(** * Strings of the command line and the logging machine ([log.c])

    The assignments to logging variables on the command line, the log mask, the
    number of the instruction after which to stop.  What is written to the log is
    output only. *)
From Stdlib Require Import ZArith Lia Bool Ascii String.
From stdpp Require Import base gmap list.
From S2P Require Import Prelude Os Machine.
Local Open Scope Z_scope.
Local Open Scope list_scope.

(** ** Strings *)

(** A string literal. *)
Definition str (s : string) : cstr := map (fun c => Z.of_N (N_of_ascii c)) (list_ascii_of_string s).

Definition is_digit (c : Z) : bool := (48 <=? c) && (c <=? 57).
Definition is_space (c : Z) : bool := (c =? 32) || ((9 <=? c) && (c <=? 13)).
(** The value of the digits at the head of a string. *)
Fixpoint digits_value (s : cstr) (v : Z) : Z :=
  match s with
  | c :: s' => if is_digit c then digits_value s' (v * 10 + (c - 48)) else v
  | [] => v
  end.
Definition signed_value (s : cstr) : Z :=
  match s with
  | 45 :: s' => - digits_value s' 0
  | 43 :: s' => digits_value s' 0
  | _ => digits_value s 0
  end.
Fixpoint skip_spaces (s : cstr) : cstr :=
  match s with c :: s' => if is_space c then skip_spaces s' else s | [] => [] end.
(** [atol], [atoi]: undefined for a number that does not fit. *)
Definition ato (w : Z) (s : cstr) : M Z :=
  let v := signed_value (skip_spaces s) in
  if (- 2 ^ (w - 1) <=? v) && (v <? 2 ^ (w - 1)) then ret v else undef.
Definition atol (s : cstr) : M Z := ato 64 s.
Definition atoi (s : cstr) : M Z := ato 32 s.

(** [strcpy] into an array of [n] characters. *)
Definition strcpy_to (n : Z) (s : cstr) : M cstr :=
  if Z.of_nat (length s) <? n then ret s else undef.

(** ** Logging variables *)

(** What [logarg] looks for: a character [=]. *)
Definition is_assignment (s : cstr) : bool := existsb (Z.eqb 61) s.
(** [logarg(str)]: true is stored. *)
Definition logarg (s : cstr) (arglist : list cstr) : M (option (list cstr)) :=
  if is_assignment s then
    if Z.of_nat (length arglist) =? 20 then fatal FTooManyLog else ret (Some (arglist ++ [s]))
  else ret None.

(** [strncmp(var, arg, strlen(var)) == 0 && arg\[ln\] == '=']: the rest of [arg]. *)
Fixpoint assigned (var arg : cstr) : option cstr :=
  match var, arg with
  | [], 61 :: v => Some v
  | c :: var', d :: arg' => if c =? d then assigned var' arg' else None
  | _, _ => None
  end.
Fixpoint getpar (var : cstr) (arglist : list cstr) : option cstr :=
  match arglist with
  | [] => None
  | a :: l => match assigned var a with Some v => Some v | None => getpar var l end
  end.
Definition longpar (var : cstr) (def : Z) (arglist : list cstr) : M Z :=
  match getpar var arglist with Some v => atol v | None => ret def end.

(** ** The log mask *)
Definition is_layout (c : Z) : bool := (c =? 32) || (c =? 9) || (c =? 44).
Definition is_class (c : Z) : bool :=
  ((97 <=? c) && (c <=? 122)) || ((65 <=? c) && (c <=? 90)) || (c =? 43) || (c =? 42).

(** The classes from [c] to [last], which are [char]s. *)
Definition set_range (c last lev : Z) (levels : gmap Z Z) : M (gmap Z Z) :=
  if last <? c then ret levels
  else if (c <? 0) || (last =? 127) then undef
  else ret (fill levels c lev (Z.to_nat (last - c + 1))).
(** A range that takes the digit as its end: the loop misses the end of its part and
    runs until a character that is not allowed, at the latest the zero byte. *)
Fixpoint overrun (prev : Z) (s : cstr) : M (gmap Z Z) :=
  match s with
  | [] => fatal FLogmask
  | mc :: s' =>
      if is_class mc then overrun mc s'
      else if mc =? 45 then
        match s' with q :: s'' => _ ← set_range (s8 prev + 1) (s8 q) 0 ∅; overrun q s'' | [] => undef end
      else if is_layout mc then overrun mc s'
      else fatal FLogmask
  end.
(** The classes of [seg], with [tail] after it; [prev] is the character before it. *)
Fixpoint set_classes (prev : option Z) (seg tail : cstr) (lev : Z) (levels : gmap Z Z) : M (gmap Z Z) :=
  match seg with
  | [] => ret levels
  | mc :: seg' =>
      if is_class mc then set_classes (Some mc) seg' tail lev (<[mc := lev]> levels)
      else if mc =? 45 then
        match prev, seg', tail with
        | Some p, q :: seg'', _ =>
            levels ← set_range (s8 p + 1) (s8 q) lev levels; set_classes (Some q) seg'' tail lev levels
        | Some p, [], d :: tail' => _ ← set_range (s8 p + 1) (s8 d) lev levels; overrun d tail'
        | _, _, _ => undef
        end
      else if is_layout mc then set_classes (Some mc) seg' tail lev levels
      else fatal FLogmask
  end.
Fixpoint skip_layout (prev : option Z) (s : cstr) : option Z * cstr :=
  match s with
  | c :: s' => if is_layout c then skip_layout (Some c) s' else (prev, s)
  | [] => (prev, [])
  end.
(** The part before the first digit, and from there. *)
Fixpoint split_level (s : cstr) : cstr * cstr :=
  match s with
  | c :: s' => if is_digit c then ([], s) else let p := split_level s' in (c :: p.1, p.2)
  | [] => ([], [])
  end.
(** A turn takes at least a digit. *)
Fixpoint lmask_loop (turns : nat) (prev : option Z) (mask : cstr) (levels : gmap Z Z) : M (gmap Z Z) :=
  match mask with
  | [] => ret levels
  | _ :: _ =>
      match turns with
      | O => undef
      | S k =>
          let q := skip_layout prev mask in
          let p := split_level q.2 in
          match p.2 with
          | [] => levels ← set_classes q.1 p.1 [] (-48) levels; undef
          | d :: mask' =>
              levels ← set_classes q.1 p.1 p.2 (d - 48) levels;
              lmask_loop k (Some d) mask' levels
          end
      end
  end.
(** [set_lmask(mask)], with the character before the mask, if there is one: the mask
    may be the value of an assignment. *)
Definition set_lmask (prev : option Z) (mask : cstr) (levels : gmap Z Z) : M (gmap Z Z) :=
  lmask_loop (length mask) prev mask levels.

(** ** The state of the logging machine *)
Record logst := mkLog {
  arglist : list cstr;
  l_inr : Z; must_log : bool; log_start : Z; logging : bool;
  l_stop : Z; gdump : Z; gmin : Z; gmax : Z; hdump : Z; stdsize : Z; stdrawflag : Z;
  log_file : cstr; at_inr : Z; lmask : option cstr; log_level : gmap Z Z
}.

(** The static variables before they are set. *)
Definition log0 : logst := mkLog [] 0 false 0 false 0 0 0 0 0 0 0 (str "int.log") 0 None ∅.

Definition init_log (args : list cstr) : M logst :=
  stop ← longpar (str "STOP") 0 args;
  gdump ← longpar (str "GDA") 0 args;
  g ← (if negb (gdump =? 0) then
         gmin ← longpar (str "GMIN") 0 args; gmax ← longpar (str "GMAX") 0 args;
         levels ← set_lmask None (str "+1") ∅; ret (u64 gmin, u64 gmax, levels)
       else ret (0, 0, ∅));
  hdump ← longpar (str "HEAP") 0 args;
  levels ← (if negb (hdump =? 0) then set_lmask None (str "*1") g.2 else ret g.2);
  stdsize ← longpar (str "STDSIZE") 0 args;
  raw ← longpar (str "RAWSTACK") 0 args;
  file ← (match getpar (str "LOGFILE") args with Some f => strcpy_to 64 f | None => ret (str "int.log") end);
  at_ ← longpar (str "AT") 0 args;
  let stop := if at_ =? 0 then stop else s64 (at_ + 1) in
  let lm := getpar (str "L") args in
  ret (mkLog args 0 (match lm with Some _ => true | None => false end) 0 false
         stop gdump g.1.1 g.1.2 hdump stdsize (s32 raw) file at_ lm levels).

(** [open_log(1)] up to the creation of the file. *)
Definition open_log_settings (lg : logst) : M logst :=
  p ← (if negb (at_inr lg =? 0) then ret (true, s64 (at_inr lg - 1))
       else if negb (must_log lg) then
         match getpar (str "LOG") (arglist lg) with
         | Some v => n ← atoi v; ret (true, n)
         | None => ret (false, log_start lg)
         end
       else ret (must_log lg, log_start lg));
  let mask := match lmask lg with
              | Some m => (Some 61, m)
              | None => match getpar (str "LOGMASK") (arglist lg) with
                        | Some m => (Some 61, m)
                        | None => (None, str "A-Z9d2twx9")
                        end
              end in
  levels ← set_lmask mask.1 mask.2 (log_level lg);
  ret (mkLog (arglist lg) (l_inr lg) p.1 p.2 (p.1 && (p.2 <=? l_inr lg))
         (l_stop lg) (gdump lg) (gmin lg) (gmax lg) (hdump lg) (stdsize lg) (stdrawflag lg)
         (log_file lg) (at_inr lg) (lmask lg) levels).

(** [check_log(mark)]: is an action of class [class] and level [level] logged? *)
Definition check_log (lg : logst) (class level : Z) : bool :=
  logging lg && (level <=? mget (log_level lg) class).

(** The instruction is counted; logging starts when its number is [log_start]. *)
Definition count_instr (lg : logst) : logst :=
  let n := s64 (l_inr lg + 1) in
  mkLog (arglist lg) n (must_log lg) (log_start lg) (logging lg || (must_log lg && (log_start lg <=? n)))
    (l_stop lg) (gdump lg) (gmin lg) (gmax lg) (hdump lg) (stdsize lg) (stdrawflag lg)
    (log_file lg) (at_inr lg) (lmask lg) (log_level lg).
(** [log_eoi]: does the interpreter stop after this instruction? *)
Definition log_eoi (lg : logst) : bool := l_inr lg =? l_stop lg.

(** ** What a log mask means *)

(** Classes are single characters or ranges; a mask is a list of groups of classes,
    each with a level. *)
Inductive mask_item := Class_ (c : Z) | Range_ (a b : Z).
Definition mask : Type := list (list mask_item * Z).
Definition item_text (i : mask_item) : cstr := match i with Class_ c => [c] | Range_ a b => [a; 45; b] end.
Definition mask_text (m : mask) : cstr :=
  flat_map (fun g => flat_map item_text g.1 ++ [48 + g.2]) m.
Definition item_ok (i : mask_item) : Prop :=
  match i with Class_ c => is_class c = true | Range_ a b => is_class a = true /\ is_class b = true end.
Definition mask_ok (m : mask) : Prop := Forall (fun g => Forall item_ok g.1 /\ 0 <= g.2 <= 9) m.

(** The level of a class: that of the last group with the class. *)
Definition covers (c : Z) (i : mask_item) : bool :=
  match i with Class_ d => c =? d | Range_ a b => (c =? a) || ((a <=? c) && (c <=? b)) end.
Definition level_of (m : mask) (c lev : Z) : Z :=
  fold_left (fun lev g => if existsb (covers c) g.1 then g.2 else lev) m lev.

Lemma class_range c : is_class c = true -> 42 <= c <= 122 /\ is_digit c = false /\ is_layout c = false /\ (c =? 45) = false /\ s8 c = c.
Proof.
  intros H. unfold is_class in H. unfold is_digit, is_layout.
  assert (42 <= c <= 122) by lia. split_and!; [lia..|]. unfold s8. apply sext_small; lia.
Qed.
Lemma item_set i prev seg tail lev levels s :
  item_ok i ->
  exists prev' levels',
    set_classes prev (item_text i ++ seg) tail lev levels s = set_classes prev' seg tail lev levels' s /\
    forall c, mget levels' c = if covers c i then lev else mget levels c.
Proof.
  destruct i as [c|a b]; cbn [item_ok item_text app set_classes].
  - intros H. rewrite H. do 2 eexists. split; [reflexivity|]. intros d. cbn [covers].
    destruct (Z.eqb_spec d c) as [->|]; [apply mget_insert_eq | by apply mget_insert_ne].
  - intros [Ha Hb]. destruct (class_range a Ha) as (? & _ & _ & _ & Ea), (class_range b Hb) as (? & _ & _ & _ & Eb).
    rewrite Ha. change (is_class 45) with false. change (45 =? 45) with true. cbv iota. unfold set_range. rewrite Ea, Eb.
    destruct (Z.ltb_spec b (a + 1)); run.
    + do 2 eexists. split; [reflexivity|]. intros d. cbn [covers].
      replace ((d =? a) || _) with (d =? a) by lia.
      destruct (Z.eqb_spec d a) as [->|]; [apply mget_insert_eq | by apply mget_insert_ne].
    + replace ((a + 1 <? 0) || (b =? 127)) with false by lia. run. do 2 eexists. split; [reflexivity|]. intros d.
      cbn [covers]. rewrite fill_lookup.
      destruct (Z.eqb_spec d a) as [->|]; cbn [orb].
      * replace ((a + 1 <=? a) && _) with false by lia. apply mget_insert_eq.
      * rewrite mget_insert_ne by done. replace ((a + 1 <=? d) && _) with ((a <=? d) && (d <=? b)) by lia. done.
Qed.
Lemma group_set its prev tail lev s :
  Forall item_ok its -> forall levels,
  exists levels', set_classes prev (flat_map item_text its) tail lev levels s = Ret levels' s /\
    forall c, mget levels' c = if existsb (covers c) its then lev else mget levels c.
Proof.
  intros Hok. revert prev. induction Hok as [|i its Hi _ IH]; intros prev levels; [by exists levels|].
  cbn [flat_map]. destruct (item_set i prev (flat_map item_text its) tail lev levels s Hi) as (prev' & l1 & -> & H1).
  destruct (IH prev' l1) as (l2 & -> & H2). exists l2. split; [done|]. intros c. rewrite H2, H1. cbn [existsb].
  by destruct (covers c i), (existsb _ its).
Qed.
Lemma item_text_chars i : item_ok i -> Forall (fun c => is_digit c = false /\ is_layout c = false) (item_text i).
Proof.
  destruct i as [c|a b]; cbn [item_ok item_text]; [intros H | intros [Ha Hb]]; repeat constructor;
    first [by apply (class_range c) | by apply (class_range a) | by apply (class_range b) | done].
Qed.
Lemma split_level_group its d rest :
  Forall item_ok its -> 0 <= d <= 9 ->
  split_level (flat_map item_text its ++ 48 + d :: rest) = (flat_map item_text its, 48 + d :: rest).
Proof.
  intros Hok Hd. assert (H : Forall (fun c => is_digit c = false) (flat_map item_text its)).
  { induction Hok as [|i its Hi _ IH]; cbn [flat_map]; [constructor|]. apply Forall_app. split; [|done].
    eapply Forall_impl; [by apply item_text_chars|]. by intros c [? _]. }
  induction H as [|c l Hc _ IH]; cbn [app split_level].
  - by replace (is_digit (48 + d)) with true by (unfold is_digit; lia).
  - by rewrite Hc, IH.
Qed.
Lemma skip_layout_group its d rest prev :
  Forall item_ok its -> 0 <= d <= 9 ->
  skip_layout prev (flat_map item_text its ++ 48 + d :: rest) = (prev, flat_map item_text its ++ 48 + d :: rest).
Proof.
  intros Hok Hd. destruct Hok as [|i its Hi _]; cbn [flat_map app skip_layout].
  - by replace (is_layout (48 + d)) with false by (unfold is_layout; lia).
  - pose proof (item_text_chars i Hi) as H. destruct i; cbn [item_text app skip_layout] in *;
      inversion H as [|? ? [_ E] _]; subst; by rewrite E.
Qed.
Lemma lmask_loop_run m s : mask_ok m -> forall turns prev levels,
  (length (mask_text m) <= turns)%nat ->
  exists levels', lmask_loop turns prev (mask_text m) levels s = Ret levels' s /\
    forall c, mget levels' c = level_of m c (mget levels c).
Proof.
  induction 1 as [|[its d] m [Hits Hd] _ IH]; intros turns prev levels Ht; cbn [fst snd] in *.
  { exists levels. by destruct turns. }
  assert (E : mask_text ((its, d) :: m) = flat_map item_text its ++ 48 + d :: mask_text m)
    by (unfold mask_text; cbn [flat_map fst snd]; by rewrite <- app_assoc).
  rewrite E in *. rewrite !length_app in Ht. cbn [length] in Ht. destruct turns as [|turns]; [lia|].
  assert (Hne : exists c l, flat_map item_text its ++ 48 + d :: mask_text m = c :: l)
    by (destruct (flat_map item_text its); by do 2 eexists).
  destruct Hne as (c & l & El). cbn [lmask_loop]. rewrite El. rewrite <- El.
  rewrite skip_layout_group by done. cbn [fst snd]. rewrite split_level_group by done. cbn [fst snd].
  replace (48 + d - 48) with d by lia.
  destruct (group_set its prev (48 + d :: mask_text m) d s Hits levels) as (l1 & E1 & H1). unfold bind. rewrite E1.
  destruct (IH turns (Some (48 + d)) l1) as (l2 & E2 & H2); [lia|]. exists l2. split; [done|].
  intros x. rewrite H2, H1. done.
Qed.

(** C28: a log mask that is a list of groups of classes, single or ranges, each group with
    its level, gives every class the level of the last group that has it, and leaves
    the other levels alone. *)
Theorem log_mask m prev levels s :
  mask_ok m ->
  exists levels', set_lmask prev (mask_text m) levels s = Ret levels' s /\
    forall c, mget levels' c = level_of m c (mget levels c).
Proof. intros Hm. by apply lmask_loop_run. Qed.
