(* ===== verification/Warn.v ===== *)
(** * Warnings ([warn.c], [doc/int/appA])

    The warning counters, sorted by warning number, file name and line number;
    a warning is printed when its counter is one of the first powers of four. *)
From Stdlib Require Import ZArith Lia Bool.
From stdpp Require Import base gmap list.
From S2P Require Import Prelude Machine.

(** ** The warning numbers, as [M.warn_h] extracts them from [doc/int/appA] *)
Definition WFLUSED := 1.
Definition WFLINIT := 2.
Definition WEXTRIGN := 4.
Definition WNLINEZR := 5.
Definition WBADFLOAT := 7.
Definition WBADIOCTL := 11.
Definition WMPXIMP := 14.
Definition WPROFILIMP := 15.
Definition WPTRACEIMP := 16.
Definition WMONFLT := 21.
Definition WRUMEM := 23.
Definition WRGDAH := 24.
Definition WWUMEM := 25.
Definition WWGDAH := 26.
Definition WWGUNDEF := 27.
Definition WWLUNDEF := 28.
Definition WILLSN := 31.
Definition WUNIXTR := 32.
Definition WILLTN := 33.
Definition WEHEAP := 36.
Definition WESTACK := 37.
Definition WLCEXP := 41.
Definition WGCEXP := 42.
Definition WLIEXP := 43.
Definition WGIEXP := 44.
Definition WLFEXP := 45.
Definition WGFEXP := 46.
Definition WLDPEXP := 47.
Definition WGDPEXP := 48.
Definition WLIPEXP := 49.
Definition WGIPEXP := 50.
Definition WWASUND := 61.
Definition WWASINT := 62.
Definition WWASFLOAT := 63.
Definition WWASDATAP := 64.
Definition WWASINSP := 65.
Definition WWASMISC := 66.
Definition WDESROM := 71.
Definition WDESRSB := 72.
Definition WUNLOG := 81.
Definition WUNCMP := 82.
Definition WSHNEG := 91.
Definition WSHLARGE := 92.
Definition WSEGADP := 93.
Definition WSEGSBS := 94.
Definition WNULLPA := 96.
Definition WRFUNLAR := 101.
Definition WRFUNSML := 102.
Definition WRFUNGAR := 103.
Definition WRETBAD := 111.
Definition WRETTRAP := 112.
Definition WRTTBAD := 115.
Definition WRTTEMPTY := 116.
Definition WRTTCALL := 117.
Definition WRTTNRTT := 118.
Definition WRETSTL := 121.
Definition WRETSTS := 122.
Definition WRTTSTL := 125.
Definition WRTTSTS := 126.
Definition WDCHBADLB := 131.
Definition WLPBBADLB := 132.
Definition WSPGTLB := 133.
Definition WSPINHEAP := 134.
Definition WSPODD := 135.
Definition WLBOUT := 136.
Definition WLBODD := 137.
Definition WLBRSB := 138.
Definition WHPGDA := 141.
Definition WHPSTACK := 142.
Definition WHPODD := 143.
Definition WBADOPC := 151.
Definition WILLCONV := 152.
Definition WILLFIL := 153.
Definition WILLLFR := 154.
Definition WILLRET := 155.
Definition WARGC := 156.
Definition WARGD := 157.
Definition WARGL := 158.
Definition WARGG := 159.
Definition WARGF := 160.
Definition WARGN := 161.
Definition WARGP := 162.
Definition WARGR := 163.
Definition WPCOVFL := 172.
Definition WPCPROC := 173.
Definition WGTORSB := 181.
Definition WGTOSTACK := 182.
Definition WTRP := 191.
Definition WMSG := 199.

(** [WMASK]: powers of 4. *)
Definition WMASK := 0x5555.

Section Warn.
Context {cfg : Config}.

(** The loop of [count_wrn] over the chain of counters of one warning: the new
    chain and the value returned. *)
Fixpoint count_chain (fil lin : Z) (l : list warn_counter) : list warn_counter * Z :=
  match l with
  | [] => ([mkCnt fil lin 1], 1)
  | w :: l' =>
      if (wc_fil w =? fil) && (wc_lin w =? lin)
      then (mkCnt (wc_fil w) (wc_lin w) (wc_cnt w + 1) :: l', wc_cnt w + 1)
      else let '(l'', n) := count_chain fil lin l' in (w :: l'', n)
  end.

Definition chain (nr : Z) (w : warnst) : list warn_counter := default [] (warn_cnt w !! nr).

Definition count_wrn (nr fil lin : Z) (w : warnst) : warnst * Z :=
  let '(l, n) := count_chain fil lin (chain nr w) in
  (mkWarn (<[nr := l]> (warn_cnt w)) (latest_warning_printed w) (mess w), n).

(** The test that decides whether an occurrence is printed. *)
Definition must_print (cnt : Z) : bool :=
  (Z.land (cnt - 1) cnt =? 0) && negb (Z.land WMASK cnt =? 0).

Definition do_warn (nr fil lin : Z) (w : warnst) : warnst :=
  let w := mkWarn (warn_cnt w) false (mess w) in
  if nr <? WMSG then
    if warnmask nr then w
    else
      let '(w, cnt) := count_wrn nr fil lin w in
      if must_print cnt
      then mkWarn (warn_cnt w) true (mess w ++ [MWarning nr cnt fil lin])
      else w
  else mkWarn (warn_cnt w) (latest_warning_printed w) (mess w ++ [MTrap (nr - WMSG) fil lin]).

Definition do_warncont (nr fil lin : Z) (w : warnst) : warnst :=
  if latest_warning_printed w && negb (warnmask nr)
  then mkWarn (warn_cnt w) (latest_warning_printed w) (mess w ++ [MCont nr fil lin])
  else w.

(** The macro [warning] and the routine [warningcont], at the present file and
    line. *)
Definition warning (nr : Z) : M unit := fun s =>
  if nr <? 0 then Undef  (* warnmask\[nr\] *)
  else Ret tt (set_warn (do_warn nr (FIL s) (LIN s) (warn s)) s).
Definition warningcont (nr : Z) : M unit :=
  fun s => Ret tt (set_warn (do_warncont nr (FIL s) (LIN s) (warn s)) s).

(** The macro [wtrap]. *)
Definition wtrap {A} (wn tr : Z) : M A := warning wn ;; trap tr.

(** ** The counters *)

(** The number of occurrences of a warning at a place seen so far. *)
Fixpoint chain_count (fil lin : Z) (l : list warn_counter) : Z :=
  match l with
  | [] => 0
  | w :: l' => if (wc_fil w =? fil) && (wc_lin w =? lin) then wc_cnt w
               else chain_count fil lin l'
  end.
Definition occurrences (nr fil lin : Z) (w : warnst) : Z := chain_count fil lin (chain nr w).

Lemma count_chain_spec fil lin l :
  snd (count_chain fil lin l) = chain_count fil lin l + 1 /\
  (forall f n, chain_count f n (fst (count_chain fil lin l)) =
     chain_count f n l + (if (fil =? f) && (lin =? n) then 1 else 0)).
Proof.
  induction l as [|w l [IH1 IH2]]; cbn [count_chain].
  - split; [done|]. intros f n. simpl. by destruct (_ && _).
  - destruct ((wc_fil w =? fil) && (wc_lin w =? lin)) eqn:E; cbn -[Z.add].
    + rewrite E. split; [done|]. intros f n.
      apply andb_true_iff in E as [->%Z.eqb_eq ->%Z.eqb_eq].
      destruct (_ && _); lia.
    + rewrite E. destruct (count_chain fil lin l) as [l'' k]. cbn -[Z.add] in *.
      split; [done|]. intros f n.
      destruct ((wc_fil w =? f) && (wc_lin w =? n)) eqn:E'; [|apply IH2].
      replace ((fil =? f) && (lin =? n)) with false; [lia|].
      symmetry. apply not_true_iff_false. intros [->%Z.eqb_eq ->%Z.eqb_eq]%andb_true_iff.
      congruence.
Qed.

Lemma chain_insert nr nr' l w b m :
  chain nr' (mkWarn (<[nr := l]> (warn_cnt w)) b m) =
  if decide (nr = nr') then l else chain nr' w.
Proof.
  unfold chain. simpl. destruct (decide (nr = nr')) as [->|].
  - by rewrite lookup_insert_eq.
  - by rewrite lookup_insert_ne.
Qed.

Lemma land_pred_pow2 c : 0 < c -> (Z.land (c - 1) c = 0 <-> c = 2 ^ Z.log2 c).
Proof.
  intros Hc. pose proof (Z.log2_spec c Hc) as [Hlo Hhi].
  pose proof (Z.log2_nonneg c) as Hk. remember (Z.log2 c) as k eqn:Ek. clear Ek. split.
  - intros H. destruct (Z.eq_dec c (2 ^ k)) as [|Hne]; [done|]. exfalso.
    assert (Hd : forall x, 2 ^ k <= x < 2 ^ Z.succ k -> Z.testbit x k = true).
    { intros x Hx. apply Z.testbit_true; [done|]. rewrite Z.pow_succ_r in Hx by done.
      replace (x / 2 ^ k) with 1; [done|]. apply Z.div_unique with (x - 2 ^ k); lia. }
    assert (Hb : Z.testbit (Z.land (c - 1) c) k = true).
    { rewrite Z.land_spec, !Hd by lia. done. }
    rewrite H, Z.bits_0 in Hb. done.
  - intros ->. apply Z.bits_inj'. intros n Hn. rewrite Z.land_spec, Z.bits_0.
    destruct (Z.eq_dec n k) as [->|].
    + replace (2 ^ k - 1) with (Z.ones k) by (rewrite Z.ones_equiv; lia).
      rewrite Z.ones_spec_high by lia. done.
    + rewrite (Z.pow2_bits_false k n) by lia. apply andb_false_r.
Qed.

(** The test holds of the first eight powers of four and of nothing else. *)
Lemma must_print_pow4 c :
  1 <= c -> must_print c = true <-> exists k, 0 <= k < 8 /\ c = 4 ^ k.
Proof.
  intros Hc. unfold must_print. rewrite andb_true_iff, Z.eqb_eq, land_pred_pow2 by lia.
  rewrite negb_true_iff, Z.eqb_neq. split.
  - intros [Hp Hm]. pose proof (Z.log2_nonneg c) as Hk.
    rewrite Hp in Hm. remember (Z.log2 c) as j eqn:Ej. clear Ej. subst c.
    destruct (Z.ltb_spec j 16).
    + assert (Hj : exists k, 0 <= k < 8 /\ j = 2 * k).
      { exists (j / 2). pose proof (Z.div_mod j 2 ltac:(lia)).
        pose proof (Z.mod_pos_bound j 2 ltac:(lia)). split; [lia|].
        assert (j mod 2 <> 1); [|lia]. intros Hodd. apply Hm.
        assert (Hcase : j = 1 \/ j = 3 \/ j = 5 \/ j = 7 \/ j = 9 \/ j = 11 \/ j = 13 \/ j = 15) by lia.
        repeat destruct Hcase as [->|Hcase]; subst; reflexivity. }
      destruct Hj as (k & Hk' & ->). exists k. split; [done|].
      rewrite Z.pow_mul_r by lia. done.
    + exfalso. apply Hm. apply Z.bits_inj'. intros n Hn. rewrite Z.land_spec, Z.bits_0.
      destruct (Z.eq_dec n j) as [->|].
      * rewrite (Z.bits_above_log2 WMASK j); [done|done|]. change (Z.log2 WMASK) with 14. lia.
      * rewrite (Z.pow2_bits_false j n) by lia. apply andb_false_r.
  - intros (k & Hk & ->).
    assert (Hcase : k = 0 \/ k = 1 \/ k = 2 \/ k = 3 \/ k = 4 \/ k = 5 \/ k = 6 \/ k = 7) by lia.
    repeat destruct Hcase as [->|Hcase]; subst; split; vm_compute; congruence.
Qed.

(** A warning that is not disabled adds one to the number of its occurrences
    at the present file and line and to no other, and is printed exactly when that
    number is one of the first eight powers of four; a disabled warning changes no
    counter and prints nothing. *)
Theorem do_warn_counts nr fil lin w :
  nr < WMSG -> 0 <= occurrences nr fil lin w ->
  let w' := do_warn nr fil lin w in
  if warnmask nr then warn_cnt w' = warn_cnt w /\ mess w' = mess w
  else
    (forall n f l, occurrences n f l w' = occurrences n f l w +
       if (nr =? n) && ((fil =? f) && (lin =? l)) then 1 else 0) /\
    ((exists k, 0 <= k < 8 /\ occurrences nr fil lin w' = 4 ^ k) <-> latest_warning_printed w' = true) /\
    mess w' = if latest_warning_printed w'
              then mess w ++ [MWarning nr (occurrences nr fil lin w') fil lin] else mess w.
Proof.
  intros Hnr Hocc. cbv zeta. unfold do_warn. replace (nr <? WMSG) with true by lia.
  destruct (warnmask nr); [done|].
  unfold count_wrn. change (chain nr (mkWarn (warn_cnt w) false (mess w))) with (chain nr w).
  pose proof (count_chain_spec fil lin (chain nr w)) as [H1 H2]. unfold occurrences in Hocc.
  destruct (count_chain fil lin (chain nr w)) as [l cnt]. cbn [fst snd] in H1, H2.
  cbn [warn_cnt mess latest_warning_printed].
  assert (Hn : forall b m n f k,
    occurrences n f k (mkWarn (<[nr := l]> (warn_cnt w)) b m) = occurrences n f k w +
      if (nr =? n) && ((fil =? f) && (lin =? k)) then 1 else 0).
  { intros b m n f k. unfold occurrences. rewrite chain_insert.
    destruct (decide (nr = n)) as [<-|].
    - rewrite H2, Z.eqb_refl. done.
    - replace (nr =? n) with false by lia. cbn [andb]. lia. }
  assert (Hcnt : forall b m, occurrences nr fil lin (mkWarn (<[nr := l]> (warn_cnt w)) b m) = cnt).
  { intros b m. rewrite Hn, !Z.eqb_refl. cbn [andb]. unfold occurrences. lia. }
  pose proof (must_print_pow4 cnt ltac:(lia)) as Hp.
  destruct (must_print cnt) eqn:E; cbn [latest_warning_printed mess]; rewrite Hcnt;
    (split_and!; [done| |done]); rewrite <- Hp; done.
Qed.
End Warn.
