(* ===== verification/Options.v ===== *)
(** * The command line ([main.c])

    The options that come before the load file, with the arguments for the logging
    machine between them. *)
From Stdlib Require Import ZArith Lia Bool Ascii String.
From stdpp Require Import base gmap list.
From S2P Require Import Prelude Os Machine Log Warn.
Local Open Scope Z_scope.
Local Open Scope list_scope.

(** What the options set, and the logging arguments. *)
Record cmdline := mkCmd {
  must_disassemble : bool; must_tally : bool;
  c_maxstack : Z; c_maxheap : Z; c_FRALimit : Z; c_PreIgnMask : Z; c_warnmask : Z -> bool;
  mess_file : cstr; c_arglist : list cstr
}.
Definition FRALIMIT := 8.
Definition cmd0 : cmdline := mkCmd false false 0 0 FRALIMIT 0 (fun _ => false) (str "int.mess") [].

Definition set_disassemble (c : cmdline) := mkCmd true (must_tally c) (c_maxstack c) (c_maxheap c)
  (c_FRALimit c) (c_PreIgnMask c) (c_warnmask c) (mess_file c) (c_arglist c).
Definition set_tally (c : cmdline) := mkCmd (must_disassemble c) true (c_maxstack c) (c_maxheap c)
  (c_FRALimit c) (c_PreIgnMask c) (c_warnmask c) (mess_file c) (c_arglist c).
Definition set_maxstack (v : Z) (c : cmdline) := mkCmd (must_disassemble c) (must_tally c) v (c_maxheap c)
  (c_FRALimit c) (c_PreIgnMask c) (c_warnmask c) (mess_file c) (c_arglist c).
Definition set_maxheap (v : Z) (c : cmdline) := mkCmd (must_disassemble c) (must_tally c) (c_maxstack c) v
  (c_FRALimit c) (c_PreIgnMask c) (c_warnmask c) (mess_file c) (c_arglist c).
Definition set_FRALimit (v : Z) (c : cmdline) := mkCmd (must_disassemble c) (must_tally c) (c_maxstack c) (c_maxheap c)
  v (c_PreIgnMask c) (c_warnmask c) (mess_file c) (c_arglist c).
Definition set_PreIgnMask (v : Z) (c : cmdline) := mkCmd (must_disassemble c) (must_tally c) (c_maxstack c) (c_maxheap c)
  (c_FRALimit c) v (c_warnmask c) (mess_file c) (c_arglist c).
Definition set_warnmask (v : Z -> bool) (c : cmdline) := mkCmd (must_disassemble c) (must_tally c) (c_maxstack c)
  (c_maxheap c) (c_FRALimit c) (c_PreIgnMask c) v (mess_file c) (c_arglist c).
Definition set_mess_file (v : cstr) (c : cmdline) := mkCmd (must_disassemble c) (must_tally c) (c_maxstack c)
  (c_maxheap c) (c_FRALimit c) (c_PreIgnMask c) (c_warnmask c) v (c_arglist c).
Definition set_arglist (v : list cstr) (c : cmdline) := mkCmd (must_disassemble c) (must_tally c) (c_maxstack c)
  (c_maxheap c) (c_FRALimit c) (c_PreIgnMask c) (c_warnmask c) (mess_file c) v.

(** [set_wmask(i)]: a negative number is outside the array. *)
Definition set_wmask (i : Z) (mask : Z -> bool) : M (Z -> bool) :=
  if i <? WMSG then if i <? 0 then undef else ret (fun k => (k =? i) || mask k) else ret mask.

(** The letter after the [-], and what follows it.  A shift by a negative number is
    undefined. *)
Definition option_letter (letter : Z) (arg : cstr) (c : cmdline) : M cmdline :=
  if letter =? 100 (* d *) then ret (set_disassemble c)
  else if letter =? 104 (* h *) then v ← atol arg; ret (set_maxheap v c)
  else if letter =? 73 (* I *) then
    v ← atoi arg;
    if v <? 16 then if v <? 0 then undef else ret (set_PreIgnMask (BIT v) c) else ret c
  else if letter =? 109 (* m *) then f ← strcpy_to 64 arg; ret (set_mess_file f c)
  else if letter =? 114 (* r *) then v ← atoi arg; ret (set_FRALimit v c)
  else if letter =? 115 (* s *) then v ← atol arg; ret (set_maxstack v c)
  else if letter =? 116 (* t *) then ret (set_tally c)
  else if letter =? 87 (* W *) then v ← atoi arg; m ← set_wmask v (c_warnmask c); ret (set_warnmask m c)
  else fatal FBadOption.

(** The options and logging arguments, and the arguments from the load file on. *)
Fixpoint read_options (args : list cstr) (c : cmdline) : M (cmdline * list cstr) :=
  match args with
  | [] => ret (c, [])
  | (45 :: letter :: arg) :: args' => c ← option_letter letter arg c; read_options args' c
  | [45] :: _ => fatal FBadOption
  | a :: args' =>
      q ← logarg a (c_arglist c);
      match q with Some l => read_options args' (set_arglist l c) | None => ret (c, args) end
  end.


(** ** What a command line means *)

(** A number as it is written, with its value. *)
Inductive numeral := Numeral (neg : bool) (ds : list Z).
Definition num_text (n : numeral) : cstr :=
  let 'Numeral neg ds := n in (if neg then [45] else []) ++ map (fun d => 48 + d) ds.
Definition num_value (n : numeral) : Z :=
  let 'Numeral neg ds := n in
  let v := fold_left (fun v d => v * 10 + d) ds 0 in if neg then - v else v.
Definition num_ok (w : Z) (n : numeral) : Prop :=
  let 'Numeral _ ds := n in Forall (fun d => 0 <= d <= 9) ds /\ - 2 ^ (w - 1) <= num_value n < 2 ^ (w - 1).

Inductive opt :=
| Disassembly | HeapLimit (n : numeral) | IgnoreTrap (n : numeral) | MessageFile (f : cstr)
| ResultArea (n : numeral) | StackLimit (n : numeral) | Tallying | NoWarning (n : numeral) | LogVar (a : cstr).
Definition opt_text (o : opt) : cstr :=
  match o with
  | Disassembly => str "-d" | HeapLimit n => str "-h" ++ num_text n | IgnoreTrap n => str "-I" ++ num_text n
  | MessageFile f => str "-m" ++ f | ResultArea n => str "-r" ++ num_text n
  | StackLimit n => str "-s" ++ num_text n | Tallying => str "-t" | NoWarning n => str "-W" ++ num_text n
  | LogVar a => a
  end.
Definition is_option (a : cstr) : bool := match a with 45 :: _ => true | _ => false end.
Definition opt_ok (o : opt) : Prop :=
  match o with
  | Disassembly | Tallying => True
  | HeapLimit n | StackLimit n => num_ok 64 n
  | ResultArea n => num_ok 32 n
  | IgnoreTrap n | NoWarning n => num_ok 32 n /\ 0 <= num_value n
  | MessageFile f => Z.of_nat (length f) < 64
  | LogVar a => is_option a = false /\ is_assignment a = true
  end.

(** The value that an option gives to a parameter. *)
Definition heap_limit (o : opt) : option Z := match o with HeapLimit n => Some (num_value n) | _ => None end.
Definition stack_limit (o : opt) : option Z := match o with StackLimit n => Some (num_value n) | _ => None end.
Definition result_area (o : opt) : option Z := match o with ResultArea n => Some (num_value n) | _ => None end.
Definition message_file (o : opt) : option cstr := match o with MessageFile f => Some f | _ => None end.
Definition ignored (o : opt) : option Z :=
  match o with IgnoreTrap n => if num_value n <? 16 then Some (BIT (num_value n)) else None | _ => None end.
Definition log_var (o : opt) : option cstr := match o with LogVar a => Some a | _ => None end.
Definition disassembles (o : opt) : bool := match o with Disassembly => true | _ => false end.
Definition tallies (o : opt) : bool := match o with Tallying => true | _ => false end.
Definition silences (k : Z) (o : opt) : bool :=
  match o with NoWarning n => (num_value n <? WMSG) && (k =? num_value n) | _ => false end.
(** The last option for a parameter counts. *)
Fixpoint last_set {A} (f : opt -> option A) (l : list opt) (v : A) : A :=
  match l with [] => v | o :: l' => last_set f l' (match f o with Some w => w | None => v end) end.
Fixpoint all_set {A} (f : opt -> option A) (l : list opt) : list A :=
  match l with [] => [] | o :: l' => match f o with Some w => w :: all_set f l' | None => all_set f l' end end.

(** [c] is what the options [l] make of [c0]. *)
Record settings (l : list opt) (c0 c : cmdline) : Prop := {
  set_d : must_disassemble c = must_disassemble c0 || existsb disassembles l;
  set_t : must_tally c = must_tally c0 || existsb tallies l;
  set_s : c_maxstack c = last_set stack_limit l (c_maxstack c0);
  set_h : c_maxheap c = last_set heap_limit l (c_maxheap c0);
  set_r : c_FRALimit c = last_set result_area l (c_FRALimit c0);
  set_I : c_PreIgnMask c = last_set ignored l (c_PreIgnMask c0);
  set_m : mess_file c = last_set message_file l (mess_file c0);
  set_W : forall k, c_warnmask c k = c_warnmask c0 k || existsb (silences k) l;
  set_log : c_arglist c = c_arglist c0 ++ all_set log_var l
}.

Lemma digits_run ds : Forall (fun d => 0 <= d <= 9) ds -> forall v,
  digits_value (map (fun d => 48 + d) ds) v = fold_left (fun v d => v * 10 + d) ds v.
Proof.
  induction 1 as [|d ds Hd _ IH]; intros v; [done|]. cbn [map digits_value fold_left].
  replace (is_digit (48 + d)) with true by (unfold is_digit; lia). rewrite IH. do 2 f_equal. lia.
Qed.
Lemma signed_text n w : num_ok w n -> signed_value (skip_spaces (num_text n)) = num_value n.
Proof.
  destruct n as [neg ds]. cbn [num_ok num_text num_value]. intros [Hds _].
  destruct neg; cbn [app]; [change (skip_spaces (45 :: ?l)) with (45 :: l); cbn [signed_value]; by rewrite digits_run|].
  rewrite <- digits_run by done. destruct Hds as [|d ds Hd _]; [done|]. cbn [map skip_spaces].
  replace (is_space (48 + d)) with false by (unfold is_space; lia).
  assert (E : exists k, (k < 10)%nat /\ d = Z.of_nat k) by (exists (Z.to_nat d); lia). destruct E as (k & Hk & ->).
  do 10 (destruct k as [|k]; [done|]). lia.
Qed.
Lemma ato_text w n s : num_ok w n -> ato w (num_text n) s = Ret (num_value n) s.
Proof.
  intros H. unfold ato. rewrite (signed_text n w H). destruct n as [neg ds]. destruct H as [_ H].
  by replace (_ && _) with true by lia.
Qed.

Lemma read_options_other a args c s :
  is_option a = false ->
  read_options (a :: args) c s =
    (q ← logarg a (c_arglist c);
     match q with Some l => read_options args (set_arglist l c) | None => ret (c, a :: args) end) s.
Proof.
  destruct a as [|[|p|p] a]; [reflexivity|reflexivity| |reflexivity]. cbn [is_option].
  do 6 (destruct p as [p|p|]; try reflexivity). discriminate.
Qed.
Ltac set_field := cbn; rewrite ?orb_true_r, ?orb_false_r, ?app_nil_r; reflexivity.
(** One option. *)
Lemma read_option o c s :
  opt_ok o -> (length (all_set log_var [o]) + length (c_arglist c) <= 20)%nat ->
  exists c', settings [o] c c' /\ forall args, read_options (opt_text o :: args) c s = read_options args c' s.
Proof.
  intros Ho Hn. destruct o as [|n|n|f|n|n| |n|a]; cbn [opt_ok] in Ho; cbn [opt_text].
  - exists (set_disassemble c). split; [constructor; intros; set_field|]. done.
  - exists (set_maxheap (num_value n) c). split; [constructor; intros; set_field|]. intros args.
    change (str "-h" ++ num_text n) with (45 :: 104 :: num_text n). cbn [read_options]. unfold option_letter. cbn [Z.eqb Pos.eqb].
    unfold bind at 1, atol. unfold bind at 1. by rewrite (ato_text 64).
  - destruct Ho as [Ho Hn0]. change (str "-I" ++ num_text n) with (45 :: 73 :: num_text n).
    exists (if num_value n <? 16 then set_PreIgnMask (BIT (num_value n)) c else c). split.
    { constructor; intros; cbn; destruct (num_value n <? 16); set_field. }
    intros args. cbn [read_options]. unfold option_letter. cbn [Z.eqb Pos.eqb].
    unfold bind at 1, atoi. unfold bind at 1. rewrite (ato_text 32) by done.
    replace (num_value n <? 0) with false by lia. by destruct (num_value n <? 16).
  - exists (set_mess_file f c). split; [constructor; intros; set_field|]. intros args.
    change (str "-m" ++ f) with (45 :: 109 :: f). cbn [read_options]. unfold option_letter. cbn [Z.eqb Pos.eqb].
    unfold bind at 1, strcpy_to. unfold bind at 1. by replace (Z.of_nat (length f) <? 64) with true by lia.
  - exists (set_FRALimit (num_value n) c). split; [constructor; intros; set_field|]. intros args.
    change (str "-r" ++ num_text n) with (45 :: 114 :: num_text n). cbn [read_options]. unfold option_letter. cbn [Z.eqb Pos.eqb].
    unfold bind at 1, atoi. unfold bind at 1. by rewrite (ato_text 32).
  - exists (set_maxstack (num_value n) c). split; [constructor; intros; set_field|]. intros args.
    change (str "-s" ++ num_text n) with (45 :: 115 :: num_text n). cbn [read_options]. unfold option_letter. cbn [Z.eqb Pos.eqb].
    unfold bind at 1, atol. unfold bind at 1. by rewrite (ato_text 64).
  - exists (set_tally c). split; [constructor; intros; set_field|]. done.
  - destruct Ho as [Ho Hn0]. change (str "-W" ++ num_text n) with (45 :: 87 :: num_text n).
    exists (set_warnmask (if num_value n <? WMSG then fun k => (k =? num_value n) || c_warnmask c k else c_warnmask c) c). split.
    { constructor; intros; cbn; destruct (num_value n <? WMSG); cbn;
        rewrite ?orb_false_r, ?app_nil_r; first [reflexivity | apply orb_comm]. }
    intros args. cbn [read_options]. unfold option_letter. cbn [Z.eqb Pos.eqb].
    unfold bind at 1, atoi. unfold bind at 1. rewrite (ato_text 32) by done. unfold set_wmask, bind.
    replace (num_value n <? 0) with false by lia. by destruct (num_value n <? WMSG).
  - destruct Ho as [Ho Ha]. exists (set_arglist (c_arglist c ++ [a]) c). split; [constructor; intros; set_field|].
    intros args. rewrite read_options_other by done. unfold logarg, bind. rewrite Ha. cbn in Hn.
    by replace (Z.of_nat (length (c_arglist c)) =? 20) with false by lia.
Qed.
Lemma all_set_app {A} (f : opt -> option A) o l : all_set f (o :: l) = all_set f [o] ++ all_set f l.
Proof. cbn. by destruct (f o). Qed.
Lemma settings_cons o l c0 c1 c : settings [o] c0 c1 -> settings l c1 c -> settings (o :: l) c0 c.
Proof.
  intros [] []. constructor.
  - rewrite set_d1, set_d0. cbn. by rewrite orb_false_r, orb_assoc.
  - rewrite set_t1, set_t0. cbn. by rewrite orb_false_r, orb_assoc.
  - by rewrite set_s1, set_s0.
  - by rewrite set_h1, set_h0.
  - by rewrite set_r1, set_r0.
  - by rewrite set_I1, set_I0.
  - by rewrite set_m1, set_m0.
  - intros k. rewrite set_W1, set_W0. cbn. by destruct (c_warnmask c0 k), (silences k o).
  - by rewrite set_log1, set_log0, (all_set_app log_var o l), app_assoc.
Qed.
Lemma settings_nil c : settings [] c c.
Proof. constructor; intros; cbn; by rewrite ?orb_false_r, ?app_nil_r. Qed.

(** The load file and its arguments: what is neither an option nor an assignment. *)
Definition load_args (rest : list cstr) : bool :=
  match rest with [] => true | a :: _ => negb (is_option a) && negb (is_assignment a) end.
Lemma read_load_args rest c s : load_args rest = true -> read_options rest c s = Ret (c, rest) s.
Proof.
  destruct rest as [|a rest]; [done|]. cbn [load_args]. intros [Ho Ha]%andb_true_iff.
  rewrite read_options_other by by destruct (is_option a). unfold logarg, bind. by destruct (is_assignment a).
Qed.

(** The options and logging variables on the command line, up to the load file. *)
Lemma read_all_options l rest c s :
  Forall opt_ok l -> (length (all_set log_var l) + length (c_arglist c) <= 20)%nat -> load_args rest = true ->
  exists c', read_options (map opt_text l ++ rest) c s = Ret (c', rest) s /\ settings l c c'.
Proof.
  intros Hl Hn Hr. revert c Hn. induction Hl as [|o l Ho _ IH]; intros c Hn; cbn [map app].
  - exists c. split; [by apply read_load_args|apply settings_nil].
  - rewrite all_set_app, length_app in Hn. destruct (read_option o c s Ho) as (c1 & H1 & E1); [lia|].
    destruct (IH c1) as (c' & E & H).
    { rewrite (set_log _ _ _ H1), length_app. lia. }
    exists c'. split; [by rewrite E1|by eapply settings_cons].
Qed.

(** The traps that are to be ignored: the numbers from 0 to 15 after -I. *)
Definition ignores (k : Z) (o : opt) : bool :=
  match o with IgnoreTrap n => (num_value n <? 16) && (k =? num_value n) | _ => false end.
Lemma ignored_bit o k v : opt_ok o -> 0 <= k -> ignored o = Some v -> Z.testbit v k = ignores k o.
Proof.
  destruct o as [|n|n|f|n|n| |n|a]; try done. cbn [opt_ok ignored ignores]. intros [_ Hn] Hk.
  destruct (num_value n <? 16); [|done]. intros [= <-]. unfold BIT. rewrite Z.shiftl_1_l, Z.pow2_bits_eqb by done.
  apply Z.eqb_sym.
Qed.
Lemma ignored_none o k : ignored o = None -> ignores k o = false.
Proof. destruct o as [|n|n|f|n|n| |n|a]; try done. cbn [ignored ignores]. by destruct (num_value n <? 16). Qed.
Lemma none_ignored l k v : all_set ignored l = [] -> last_set ignored l v = v /\ existsb (ignores k) l = false.
Proof.
  induction l as [|o l IH]; [done|]. cbn [all_set last_set existsb]. destruct (ignored o) eqn:E; [done|].
  intros H. destruct (IH H) as [-> ->]. by rewrite (ignored_none o k E).
Qed.
Lemma one_ignored l k : Forall opt_ok l -> 0 <= k -> (length (all_set ignored l) <= 1)%nat ->
  Z.testbit (last_set ignored l 0) k = existsb (ignores k) l.
Proof.
  intros Hl Hk. induction Hl as [|o l Ho _ IH]; cbn [all_set last_set existsb]; [by rewrite Z.bits_0|].
  destruct (ignored o) as [v|] eqn:E; [|rewrite (ignored_none o k E); exact IH].
  cbn [length]. intros H. destruct (none_ignored l k v) as [-> ->]; [destruct (all_set ignored l); [done|cbn in H; lia]|].
  by rewrite (ignored_bit o k v), orb_false_r.
Qed.

(** C27: options and logging variables on the command line, up to the load file: the
    last limit, size and message file count, a warning is disabled if any option says
    so, the logging variables are kept in order, at most twenty; with one -I at most, the
    trap it names is the one to be ignored. *)
Theorem command_line l rest c s :
  Forall opt_ok l -> (length (all_set log_var l) + length (c_arglist c) <= 20)%nat -> load_args rest = true ->
  (length (all_set ignored l) <= 1)%nat ->
  exists c', read_options (map opt_text l ++ rest) c s = Ret (c', rest) s /\ settings l c c' /\
    (c_PreIgnMask c = 0 -> forall k, 0 <= k -> Z.testbit (c_PreIgnMask c') k = existsb (ignores k) l).
Proof.
  intros Hl Hn Hr Hi. destruct (read_all_options l rest c s Hl Hn Hr) as (c' & E & H). exists c'. split; [done|split; [done|]].
  intros H0 k Hk. rewrite (set_I _ _ _ H), H0. by apply one_ignored.
Qed.
