(* ===== verification/Mem.v ===== *)
(** * Memory access facilities ([mem.h], [memdirect.h], [shadow.h])

    [stackML - a] and [data + a] are host pointers: an access is a byte of the
    malloc'ed array or host-undefined behaviour.  The shadow arrays have the
    size of their arrays. *)
From Stdlib Require Import ZArith Lia Bool.
From stdpp Require Import base gmap list.
From S2P Require Import Prelude Machine Warn.

Section Mem.
Context {cfg : Config}.

(** ** Host arrays *)

Definition data_valid (a : Z) (s : state) : bool := (0 <=? a) && (a <? alloc (data s)).
Definition stack_valid (a : Z) (s : state) : bool :=
  (ML + 1 - alloc (stack s) <=? a) && (a <=? ML).

Definition data_loc (a : Z) : M Z := fun s =>
  if data_valid a s then Ret (mget (bytes (data s)) a) s else Undef.
Definition dt_sh (a : Z) : M Z := fun s =>
  if data_valid a s then Ret (mget (shad (data s)) a) s else Undef.
Definition set_data_loc (a v : Z) : M unit := fun s =>
  if data_valid a s
  then Ret tt (set_data (set_bytes (<[a := v]> (bytes (data s))) (data s)) s) else Undef.
Definition set_dt_sh (a v : Z) : M unit := fun s =>
  if data_valid a s
  then Ret tt (set_data (set_shad (<[a := v]> (shad (data s))) (data s)) s) else Undef.

Definition stack_loc (a : Z) : M Z := fun s =>
  if stack_valid a s then Ret (mget (bytes (stack s)) a) s else Undef.
Definition st_sh (a : Z) : M Z := fun s =>
  if stack_valid a s then Ret (mget (shad (stack s)) a) s else Undef.
Definition set_stack_loc (a v : Z) : M unit := fun s =>
  if stack_valid a s
  then Ret tt (set_stack (set_bytes (<[a := v]> (bytes (stack s))) (stack s)) s) else Undef.
Definition set_st_sh (a v : Z) : M unit := fun s =>
  if stack_valid a s
  then Ret tt (set_stack (set_shad (<[a := v]> (shad (stack s))) (stack s)) s) else Undef.

(** ** Checks on addresses and ranges *)

(** [is_aligned(a, n)] divides the address, an unsigned number, by [n]. *)
Definition is_aligned (a n : Z) : M bool :=
  if n =? 0 then undef else ret (a mod u64 n =? 0).
Definition is_wordaligned (a : Z) : bool := Z.land a wsizem1 =? 0.

Definition ch_aligned (a n : Z) : M unit :=
  b ← is_aligned a (Z.min n wsize);
  when (negb b) (trap EBADPTR).
Definition ch_wordaligned (a : Z) : M unit :=
  when (negb (is_wordaligned a)) (trap EBADPTR).

Definition in_gda (p : Z) : bool := p <? HB.
Definition in_stack (p : Z) (s : state) : bool := (SP s <=? p) && (p <=? ML).

Definition is_in_data (a n : Z) (s : state) : bool := a +p n <=? HP s.
Definition ch_in_data (a n : Z) : M unit := fun s =>
  when (negb (is_in_data a n s)) (trap EMEMFLT) s.

Definition is_in_stack (a n : Z) (s : state) : bool :=
  (SP s <=? a) && (a +p n +p -1 <=? ML).
Definition ch_in_stack (a n : Z) : M unit := fun s =>
  when (negb (is_in_stack a n s)) (trap EMEMFLT) s.

Definition w_is_in_stack (a : Z) (s : state) : bool :=
  (SP s <=? a) && (a +p wsizem1 <=? ML).
Definition ch_w_in_stack (a : Z) : M unit := fun s =>
  when (negb (w_is_in_stack a s)) (trap EMEMFLT) s.

(** [loc_addr(o)]: the address of a local (negative offset) or parameter. *)
Definition loc_addr (o : Z) (s : state) : Z :=
  if o <? 0 then LB s +p o else AB s +p o.

(** ** Shadow bytes *)
Definition dt_undef (a : Z) : M unit := set_dt_sh a UNDEFINED.
Definition st_undef (a : Z) : M unit := set_st_sh a UNDEFINED.

Definition dt_prot1 (a : Z) : M unit := x ← dt_sh a; set_dt_sh a (Z.lor x SH_PROT).
Definition dt_unpr1 (a : Z) : M unit := x ← dt_sh a; set_dt_sh a (Z.ldiff x SH_PROT).
Definition st_prot1 (a : Z) : M unit := x ← st_sh a; set_st_sh a (Z.lor x SH_PROT).
Definition dt_prot2b (a : Z) : M unit := dt_prot1 a ;; dt_prot1 (a +p 1).
Definition dt_unpr2b (a : Z) : M unit := dt_unpr1 a ;; dt_unpr1 (a +p 1).
Definition st_prot2b (a : Z) : M unit := st_prot1 a ;; st_prot1 (a +p 1).
Definition dt_prot (a n : Z) : M unit := dt_prot2b a ;; when (n =? 4) (dt_prot2b (a +p 2)).
Definition dt_unprot (a n : Z) : M unit := dt_unpr2b a ;; when (n =? 4) (dt_unpr2b (a +p 2)).
Definition st_prot (a n : Z) : M unit := st_prot2b a ;; when (n =? 4) (st_prot2b (a +p 2)).

(** [is_dt_set(a,n,s)], [is_st_set(a,n,s)]: the second shadow byte is read only
    when the first one has the bit. *)
Definition is_dt_set (a n b : Z) : M bool :=
  x ← dt_sh a;
  if Z.land x b =? 0 then ret false
  else y ← dt_sh (a +p (n - 1)); ret (negb (Z.land y b =? 0)).
Definition is_st_set (a n b : Z) : M bool :=
  x ← st_sh a;
  if Z.land x b =? 0 then ret false
  else y ← st_sh (a +p (n - 1)); ret (negb (Z.land y b =? 0)).

Definition ch_dt_prot (a : Z) : M unit :=
  x ← dt_sh a; when (negb (Z.land x SH_PROT =? 0)) (warning WDESROM).
Definition ch_st_prot (a : Z) : M unit :=
  x ← st_sh a; when (negb (Z.land x SH_PROT =? 0)) (warning WDESRSB).

(** ** Direct unchecked loads ([memdirect.h]): the [n] bytes at [a],
    least significant first. *)
Fixpoint bytes_in (loc : Z -> M Z) (a : Z) (n : nat) : M Z :=
  match n with
  | O => ret 0
  | S n' => b ← loc a; r ← bytes_in loc (a +p 1) n'; ret (Z.lor b (Z.shiftl r 8))
  end.

Definition p_in_stack (a : Z) : M Z := bytes_in stack_loc a (if psize =? 2 then 2 else 4).
Definition p_in_data (a : Z) : M Z := bytes_in data_loc a (if psize =? 2 then 2 else 4).
(** [w_in_stack]: the last byte is not masked, so the word is signed. *)
Definition w_in_stack (a : Z) : M Z :=
  if wsize =? 2 then u ← bytes_in stack_loc a 2; ret (sext 16 u)
  else u ← bytes_in stack_loc a 4; ret (sext 32 u).

End Mem.
