(* ===== verification/Wp.v ===== *)
(** * Program logic and the machine invariant

    [wp U m Q T s]: run from [s], [m] returns in a state that satisfies [Q] or
    traps in a state that satisfies [T]; it stops otherwise (host-undefined
    behaviour, fatal error) only if [U].  [keeps m P]: [m] preserves the machine
    invariant [Inv] wherever it ends, and its value satisfies [P]. *)
From Stdlib Require Import ZArith Lia Bool.
From stdpp Require Import base gmap list.
From S2P Require Import Prelude Machine Warn Mem.

Section Logic.

Definition wp {A} (U : Prop) (m : M A) (Q : A -> state -> Prop) (T : Z -> state -> Prop)
    (s : state) : Prop :=
  match m s with
  | Ret a s' => Q a s'
  | Trap nr s' => T nr s'
  | Fatal _ _ | Undef => U
  end.

Lemma wp_bind {A B} U (m : M A) (k : A -> M B) Q T s :
  wp U m (fun a => wp U (k a) Q T) T s -> wp U (bind m k) Q T s.
Proof. unfold wp, bind. by destruct (m s). Qed.

Lemma wp_conseq {A} (U U' : Prop) (m : M A) (Q Q' : A -> state -> Prop) (T T' : Z -> state -> Prop) s :
  wp U m Q T s -> (U -> U') -> (forall a s', Q a s' -> Q' a s') ->
  (forall nr s', T nr s' -> T' nr s') -> wp U' m Q' T' s.
Proof. unfold wp. destruct (m s); auto. Qed.

Lemma wp_and {A} U (m : M A) (Q Q' : A -> state -> Prop) (T T' : Z -> state -> Prop) s :
  wp U m Q T s -> wp U m Q' T' s ->
  wp U m (fun a s' => Q a s' /\ Q' a s') (fun nr s' => T nr s' /\ T' nr s') s.
Proof. unfold wp. destruct (m s); auto. Qed.

Lemma wp_ret {A} U (a : A) (Q : A -> state -> Prop) T s : Q a s -> wp U (ret a) Q T s.
Proof. done. Qed.
Lemma wp_gets {A} U (f : state -> A) (Q : A -> state -> Prop) T s : Q (f s) s -> wp U (gets f) Q T s.
Proof. done. Qed.
Lemma wp_modify U f (Q : unit -> state -> Prop) T s : Q tt (f s) -> wp U (modify f) Q T s.
Proof. done. Qed.
(** A call with the specification [Q0], [T0]. *)
Lemma wp_call {A} U (m : M A) (Q0 Q : A -> state -> Prop) (T0 T : Z -> state -> Prop) s :
  wp U m Q0 T0 s -> (forall nr s', T0 nr s' -> T nr s') ->
  (forall a s', Q0 a s' -> Q a s') -> wp U m Q T s.
Proof. intros. by eapply wp_conseq. Qed.

(** What a total correctness judgement says of the result. *)
Lemma wp_result {A} (m : M A) (Q : A -> state -> Prop) (T : Z -> state -> Prop) s :
  wp False m Q T s ->
  (exists a s', m s = Ret a s' /\ Q a s') \/ (exists nr s', m s = Trap nr s' /\ T nr s').
Proof. unfold wp. destruct (m s); naive_solver. Qed.

Lemma wp_ret_inv {A} (m : M A) (Q : A -> state -> Prop) s :
  wp False m Q (fun _ _ => False) s -> exists a s', m s = Ret a s' /\ Q a s'.
Proof. intros [?|(?&?&?&[])]%wp_result. done. Qed.

Lemma wp_ret_inv_tt (m : M unit) (Q : state -> Prop) s :
  wp False m (fun _ => Q) (fun _ _ => False) s -> exists s', m s = Ret tt s' /\ Q s'.
Proof. intros ([] & s' & E & H)%wp_ret_inv. by exists s'. Qed.

Lemma wp_run {A} (m : M A) s (a : A) (P : state -> Prop) :
  wp False m (fun v s' => v = a /\ P s') (fun _ _ => False) s -> exists s', m s = Ret a s' /\ P s'.
Proof. intros (v & s' & E & -> & H)%wp_ret_inv. by exists s'. Qed.

Lemma wp_trap_inv {A} (m : M A) (T : Z -> state -> Prop) s :
  wp False m (fun _ _ => False) T s -> exists nr s', m s = Trap nr s' /\ T nr s'.
Proof. intros [(?&?&?&[])|?]%wp_result. done. Qed.

End Logic.

(** The accesses to the registers at the head of a computation. *)
Ltac wregs :=
  repeat lazymatch goal with
  | |- wp _ (bind (gets _) _) _ _ _ => apply wp_bind, wp_gets
  | |- wp _ (bind (modify _) _) _ _ _ => apply wp_bind, wp_modify
  | |- wp _ (bind (ret _) _) _ _ _ => apply wp_bind, wp_ret
  end.

(** ** The machine invariant *)
Lemma malloc_size_small n : 0 <= n < 2 ^ 32 -> malloc_size n = n.
Proof. apply Z.mod_small. Qed.
Lemma malloc_size_wraps n : 2 ^ 32 <= n < 2 ^ 33 -> malloc_size n = n - 2 ^ 32.
Proof. intros. unfold malloc_size. Z.to_euclidean_division_equations; lia. Qed.

Section Wp.
Context {cfg : Config}.

(** What [rd_header] and [init] check of the parameters. *)
Class ConfigOk : Prop := {
  ok_wsize : wsize = 2 \/ wsize = 4;
  ok_psize : psize = 2 \/ psize = 4;
  ok_sizes : wsize <= psize;
  ok_FRALimit : 2 * psize <= FRALimit < 2 ^ 31;
  ok_HB : 0 < HB;
  ok_text : Forall (fun b => 0 <= b < 256) text
}.

Record Inv (s : state) : Prop := mkInv {
  inv_SP : 0 < SP s <= LB s;
  inv_LB : LB s <= ML + 1;
  inv_SP_aligned : SP s mod wsize = 0;
  inv_LB_aligned : LB s mod wsize = 0;
  inv_AB : AB s = LB s +p rsbsize \/ (LB s = ML + 1 /\ AB s = ML + 1);
  inv_stack : ML + 1 - SP s <= alloc (stack s);
  inv_SL : SL s = u64 (ML + 1 - alloc (stack s));
  inv_HP : HB <= HP s <= alloc (data s);
  inv_data_alloc : alloc (data s) < 2 ^ 32;
  inv_HL : HP s <= HL s <= alloc (data s);
  inv_FRA : 0 <= FRASize s <= FRALimit;
  inv_FRA_alloc : alloc (FRA s) = FRALimit;
  inv_stack_bytes : bytes_ok (bytes (stack s));
  inv_data_bytes : bytes_ok (bytes (data s));
  inv_FRA_bytes : bytes_ok (bytes (FRA s))
}.

Definition keeps {A} (m : M A) (P : A -> Prop) : Prop :=
  forall s, Inv s -> wp True m (fun a s' => P a /\ Inv s') (fun _ s' => Inv s') s.

Definition any {A} (_ : A) : Prop := True.

Lemma keeps_bind {A B} (m : M A) (k : A -> M B) P R :
  keeps m P -> (forall a, P a -> keeps (k a) R) -> keeps (bind m k) R.
Proof.
  intros Hm Hk s Hs. apply wp_bind. eapply wp_conseq; [by apply Hm| done | | done].
  intros a s' [Ha Hs']. by apply Hk.
Qed.
Lemma keeps_conseq {A} (m : M A) (P R : A -> Prop) :
  keeps m P -> (forall a, P a -> R a) -> keeps m R.
Proof.
  intros Hm H s Hs. eapply wp_conseq; [by apply Hm| done | | done].
  intros a s' [? ?]. auto.
Qed.
Lemma keeps_any {A} (m : M A) P : keeps m P -> keeps m any.
Proof. intros H. by eapply keeps_conseq. Qed.
Lemma keeps_ret {A} (a : A) (P : A -> Prop) : P a -> keeps (ret a) P.
Proof. intros H s Hs. by split. Qed.
Lemma keeps_trap {A} nr (P : A -> Prop) : keeps (trap nr) P.
Proof. intros s Hs. done. Qed.
Lemma keeps_undef {A} (P : A -> Prop) : keeps undef P.
Proof. intros s Hs. done. Qed.
Lemma keeps_fatal {A} f (P : A -> Prop) : keeps (fatal f) P.
Proof. intros s Hs. done. Qed.
Lemma keeps_gets {A} (f : state -> A) : keeps (gets f) (fun a => exists s, Inv s /\ a = f s).
Proof. intros s Hs. split; [by exists s | done]. Qed.
Lemma keeps_gets_any {A} (f : state -> A) : keeps (gets f) any.
Proof. apply (keeps_any _ _ (keeps_gets f)). Qed.
Lemma keeps_modify f : (forall s, Inv s -> Inv (f s)) -> keeps (modify f) any.
Proof. intros H s Hs. split; [done | by apply H]. Qed.
Lemma keeps_when b m : (b = true -> keeps m any) -> keeps (when b m) any.
Proof. intros H. destruct b; [by apply H | by apply keeps_ret]. Qed.
Lemma keeps_if {A} (b : bool) (m m' : M A) P :
  (b = true -> keeps m P) -> (b = false -> keeps m' P) -> keeps (if b then m else m') P.
Proof. destruct b; auto. Qed.

End Wp.

(** ** Automation for [keeps]

    The lemmas about the routines are in the hint database [keeps]; [kstep]
    decomposes a routine into the calls it makes.  [instr] unfolds the
    instruction routines. *)
Create HintDb keeps discriminated.
Create HintDb instr discriminated.

Ltac inv_set := intros; match goal with H : Inv _ |- _ => destruct H end; constructor; cbn; auto.

(** [kleaf]: a call covered by a lemma. *)
Ltac kleaf :=
  first [ solve [eauto 3 with keeps]
        | eapply keeps_conseq; [solve [eauto 3 with keeps] | solve [intros; exact I | naive_solver]] ].
Ltac kstep :=
  match goal with
  | |- keeps (bind _ _) _ =>
      first [ eapply keeps_bind; [kleaf|]
            | eapply (keeps_bind _ _ any); [solve [repeat (cbv zeta; kstep)]|] ];
      intros ? ?; cbv beta in *; destruct_and?; subst
  | |- keeps (ret _) _ => apply keeps_ret; try done
  | |- keeps skip _ => apply keeps_ret; try done
  | |- keeps (trap _) _ => apply keeps_trap
  | |- keeps undef _ => apply keeps_undef
  | |- keeps (fatal _) _ => apply keeps_fatal
  | |- keeps (modify _) _ => apply keeps_modify; solve [inv_set]
  | |- keeps (when _ _) _ => apply keeps_when; intros ?
  | |- keeps (if _ then _ else _) _ => apply keeps_if; intros ?
  | |- keeps (match ?x with _ => _ end) _ => destruct x eqn:?
  | |- keeps _ _ => kleaf
  end.
Ltac keeps_tac := repeat (cbv zeta; kstep).

Section Primitives.
Context {cfg : Config}.

Lemma Inv_set_warn v s : Inv s -> Inv (set_warn v s).
Proof. inv_set. Qed.

Lemma keeps_skip : keeps skip any.
Proof. by apply keeps_ret. Qed.
Lemma keeps_warning nr : keeps (warning nr) any.
Proof.
  intros s Hs. unfold wp, warning. destruct (nr <? 0); [done|].
  split; [done | by apply Inv_set_warn].
Qed.
Lemma keeps_warningcont nr : keeps (warningcont nr) any.
Proof. intros s Hs. split; [done | by apply Inv_set_warn]. Qed.
Lemma keeps_wtrap {A} wn nr (P : A -> Prop) : keeps (wtrap wn nr) P.
Proof.
  eapply keeps_bind; [apply keeps_warning | intros; apply keeps_trap].
Qed.

(** After a guard, its condition is false. *)
Lemma keeps_guard_wtrap b wn nr : keeps (when b (wtrap wn nr)) (fun _ => b = false).
Proof. destruct b; [apply keeps_wtrap | by apply keeps_ret]. Qed.
Lemma keeps_guard_trap b nr : keeps (when b (trap nr)) (fun _ => b = false).
Proof. destruct b; [apply keeps_trap | by apply keeps_ret]. Qed.

Definition is_byte (b : Z) : Prop := 0 <= b < 256.

Lemma keeps_data_loc a : keeps (data_loc a) is_byte.
Proof.
  intros s Hs. unfold wp, data_loc. destruct (data_valid a s); [|done].
  split; [|done]. apply mget_range, Hs.
Qed.
Lemma keeps_stack_loc a : keeps (stack_loc a) is_byte.
Proof.
  intros s Hs. unfold wp, stack_loc. destruct (stack_valid a s); [|done].
  split; [|done]. apply mget_range, Hs.
Qed.
Lemma keeps_dt_sh a : keeps (dt_sh a) any.
Proof. intros s Hs. unfold wp, dt_sh. by destruct (data_valid a s). Qed.
Lemma keeps_st_sh a : keeps (st_sh a) any.
Proof. intros s Hs. unfold wp, st_sh. by destruct (stack_valid a s). Qed.
Lemma keeps_set_data_loc a v : is_byte v -> keeps (set_data_loc a v) any.
Proof.
  intros Hv s Hs. unfold wp, set_data_loc. destruct (data_valid a s); [|done].
  split; [done|]. inv_set. by apply bytes_ok_insert.
Qed.
Lemma keeps_set_stack_loc a v : is_byte v -> keeps (set_stack_loc a v) any.
Proof.
  intros Hv s Hs. unfold wp, set_stack_loc. destruct (stack_valid a s); [|done].
  split; [done|]. inv_set. by apply bytes_ok_insert.
Qed.
Lemma keeps_set_dt_sh a v : keeps (set_dt_sh a v) any.
Proof.
  intros s Hs. unfold wp, set_dt_sh. destruct (data_valid a s); [|done].
  split; [done|]. inv_set.
Qed.
Lemma keeps_set_st_sh a v : keeps (set_st_sh a v) any.
Proof.
  intros s Hs. unfold wp, set_st_sh. destruct (stack_valid a s); [|done].
  split; [done|]. inv_set.
Qed.
Lemma keeps_ch_in_data a n : keeps (ch_in_data a n) any.
Proof. intros s Hs. unfold wp, ch_in_data. by destruct (is_in_data a n s). Qed.
Lemma keeps_ch_in_stack a n : keeps (ch_in_stack a n) any.
Proof. intros s Hs. unfold wp, ch_in_stack. by destruct (is_in_stack a n s). Qed.
Lemma keeps_ch_w_in_stack a : keeps (ch_w_in_stack a) any.
Proof. intros s Hs. unfold wp, ch_w_in_stack. by destruct (w_is_in_stack a s). Qed.
Lemma is_byte_char l : is_byte (char l).
Proof. apply char_range. Qed.
End Primitives.

#[export] Hint Resolve keeps_guard_wtrap keeps_guard_trap keeps_skip keeps_warning keeps_warningcont keeps_wtrap keeps_data_loc
  keeps_stack_loc keeps_dt_sh keeps_st_sh keeps_set_data_loc keeps_set_stack_loc
  keeps_set_dt_sh keeps_set_st_sh keeps_ch_in_data keeps_ch_in_stack keeps_ch_w_in_stack
  is_byte_char keeps_gets : keeps.
#[export] Hint Constants Opaque : keeps.

Section Checks.
Context {cfg : Config}.

Lemma keeps_is_aligned a n : keeps (is_aligned a n) any.
Proof. unfold is_aligned. keeps_tac. Qed.
#[local] Hint Resolve keeps_is_aligned : keeps.
Lemma keeps_ch_aligned a n : keeps (ch_aligned a n) any.
Proof. unfold ch_aligned. keeps_tac. Qed.
Lemma keeps_ch_wordaligned a : keeps (ch_wordaligned a) any.
Proof. unfold ch_wordaligned. keeps_tac. Qed.
Lemma keeps_dt_undef a : keeps (dt_undef a) any.
Proof. unfold dt_undef. keeps_tac. Qed.
Lemma keeps_st_undef a : keeps (st_undef a) any.
Proof. unfold st_undef. keeps_tac. Qed.
Lemma keeps_dt_prot a n : keeps (dt_prot a n) any.
Proof. unfold dt_prot, dt_prot2b, dt_prot1. keeps_tac. Qed.
Lemma keeps_dt_unprot a n : keeps (dt_unprot a n) any.
Proof. unfold dt_unprot, dt_unpr2b, dt_unpr1. keeps_tac. Qed.
Lemma keeps_st_prot a n : keeps (st_prot a n) any.
Proof. unfold st_prot, st_prot2b, st_prot1. keeps_tac. Qed.
Lemma keeps_is_dt_set a n b : keeps (is_dt_set a n b) any.
Proof. unfold is_dt_set. keeps_tac. Qed.
Lemma keeps_is_st_set a n b : keeps (is_st_set a n b) any.
Proof. unfold is_st_set. keeps_tac. Qed.
Lemma keeps_ch_dt_prot a : keeps (ch_dt_prot a) any.
Proof. unfold ch_dt_prot. keeps_tac. Qed.
Lemma keeps_ch_st_prot a : keeps (ch_st_prot a) any.
Proof. unfold ch_st_prot. keeps_tac. Qed.

Lemma keeps_bytes_in loc n : forall a,
  (forall a, keeps (loc a) is_byte) ->
  keeps (bytes_in loc a n) (fun r => 0 <= r < 2 ^ (8 * Z.of_nat n)).
Proof.
  induction n as [|n IH]; intros a Hloc; cbn [bytes_in]; [by apply keeps_ret|].
  eapply keeps_bind; [apply Hloc | intros b Hb].
  eapply keeps_bind; [by apply IH | intros r Hr]. cbv beta in *.
  apply keeps_ret. rewrite lor_byte by done. unfold is_byte in Hb.
  replace (8 * Z.of_nat (S n)) with (8 * Z.of_nat n + 8) by lia.
  rewrite Z.pow_add_r by lia. change (2 ^ 8) with 256. lia.
Qed.

(** Values that fit in an [unsigned long], in a data pointer. *)
Definition is_u64 (u : Z) : Prop := 0 <= u < 2 ^ 64.
Lemma is_u64_u64 x : is_u64 (u64 x).
Proof. apply u64_range. Qed.
Definition is_ptr (p : Z) : Prop := 0 <= p < 2 ^ 32.

Lemma keeps_p_in loc a :
  (forall a, keeps (loc a) is_byte) ->
  keeps (bytes_in loc a (if psize =? 2 then 2%nat else 4%nat)) is_ptr.
Proof.
  intros H. eapply keeps_conseq; [by apply keeps_bytes_in|].
  unfold is_ptr. intros r. cbv beta. destruct (psize =? 2); cbn; lia.
Qed.
Lemma keeps_p_in_stack a : keeps (p_in_stack a) is_ptr.
Proof. apply keeps_p_in, keeps_stack_loc. Qed.
Lemma keeps_p_in_data a : keeps (p_in_data a) is_ptr.
Proof. apply keeps_p_in, keeps_data_loc. Qed.
Lemma keeps_w_in_stack a : keeps (w_in_stack a) any.
Proof.
  unfold w_in_stack. destruct (wsize =? 2);
    (eapply keeps_bind; [apply keeps_bytes_in, keeps_stack_loc | intros; by apply keeps_ret]).
Qed.
End Checks.

#[export] Hint Resolve keeps_is_aligned keeps_ch_aligned keeps_ch_wordaligned keeps_dt_undef
  keeps_st_undef keeps_dt_prot keeps_dt_unprot keeps_st_prot keeps_is_dt_set keeps_is_st_set
  keeps_ch_dt_prot keeps_ch_st_prot keeps_p_in_stack keeps_p_in_data keeps_w_in_stack
  is_u64_u64 : keeps.

(** ** Consequences of the parameters *)

(** The three combinations of word and pointer size. *)
Ltac sizes :=
  pose proof ok_sizes; pose proof ok_wsize; pose proof ok_psize;
  let Hw := fresh "Hw" in let Hp := fresh "Hp" in
  assert ((wsize = 2 /\ psize = 2) \/ (wsize = 2 /\ psize = 4) \/ (wsize = 4 /\ psize = 4))
    as [[Hw Hp]|[[Hw Hp]|[Hw Hp]]] by lia;
  rewrite ?Hw, ?Hp in *.

Section Params.
Context {cfg : Config} {ok : ConfigOk}.

Lemma wsize_pow2 : exists k, (k = 1 \/ k = 2) /\ wsize = 2 ^ k.
Proof. destruct ok_wsize as [->| ->]; [exists 1 | exists 2]; split; auto. Qed.
Lemma ML_range : 0 < ML < 2 ^ 31.
Proof.
  unfold ML, max_addr, I_MAXU2, I_MAXS4.
  destruct ok_wsize as [->| ->], ok_psize as [->| ->]; vm_compute; auto.
Qed.
Lemma ML_aligned : (ML + 1) mod wsize = 0.
Proof.
  unfold ML, max_addr, I_MAXU2, I_MAXS4.
  destruct ok_wsize as [->| ->], ok_psize as [->| ->]; reflexivity.
Qed.
Lemma wordaligned_mod p : is_wordaligned p = (p mod wsize =? 0).
Proof.
  unfold is_wordaligned, wsizem1. destruct wsize_pow2 as (k & Hk & ->).
  replace (2 ^ k - 1) with (Z.ones k) by (rewrite Z.ones_equiv; lia).
  rewrite Z.land_ones by lia. done.
Qed.
Lemma psize_aligned : psize mod wsize = 0.
Proof. by sizes. Qed.
Lemma rsbsize_aligned : rsbsize mod wsize = 0.
Proof.
  unfold rsbsize, rsb_FIL, rsb_LIN, rsb_LB, rsb_PC, rsb_PI, LINSIZE. by sizes.
Qed.
Lemma rsbsize_range : 14 <= rsbsize <= 24.
Proof.
  unfold rsbsize, rsb_FIL, rsb_LIN, rsb_LB, rsb_PC, rsb_PI, LINSIZE. sizes; lia.
Qed.
End Params.

(** [warned nr s]: [s] after the warning [nr]. *)
Definition warned {cfg : Config} (nr : Z) (s : state) : state :=
  set_warn (do_warn nr (FIL s) (LIN s) (warn s)) s.
Lemma warning_ret {cfg : Config} nr s : 0 <= nr -> warning nr s = Ret tt (warned nr s).
Proof. unfold warning. intros. by replace (nr <? 0) with false by lia. Qed.
Lemma wtrap_trap {cfg : Config} {A} wn nr s : 0 <= wn -> wtrap (A:=A) wn nr s = Trap nr (warned wn s).
Proof. unfold wtrap, bind. intros. by rewrite warning_ret. Qed.
Lemma Inv_warned {cfg : Config} nr s : Inv s -> Inv (warned nr s).
Proof. apply Inv_set_warn. Qed.

(** ** What a computation may change

    [within R m]: wherever [m] ends, the state is related by [R] to the one it
    started in. *)
Section Within.
Context {cfg : Config}.

Definition within {A} (R : state -> state -> Prop) (m : M A) : Prop :=
  forall s, wp True m (fun _ => R s) (fun _ => R s) s.

Lemma within_mono {A} (R R' : state -> state -> Prop) (m : M A) :
  within R m -> (forall s s', R s s' -> R' s s') -> within R' m.
Proof. intros Hm H s. eapply wp_conseq; [apply Hm|done| |]; intros ?; apply H. Qed.
Lemma within_bind {A B} R `{!PreOrder R} (m : M A) (k : A -> M B) :
  within R m -> (forall a, within R (k a)) -> within R (bind m k).
Proof.
  intros Hm Hk s. apply wp_bind. eapply wp_conseq; [apply Hm|done| |done].
  intros a s' H. eapply wp_conseq; [apply Hk|done| |]; intros ? s'' H'; by transitivity s'.
Qed.
Lemma within_same {A} R `{!PreOrder R} (m : M A) :
  (forall s, wp True m (fun _ s' => s' = s) (fun _ s' => s' = s) s) -> within R m.
Proof.
  intros H s. eapply wp_conseq; [apply H|done| |]; intros ? ? ->; reflexivity.
Qed.
Lemma within_when R `{!PreOrder R} b m : within R m -> within R (when b m).
Proof. intros. destruct b; [done | by apply within_same]. Qed.
Lemma within_if {A} R (b : bool) (m m' : M A) : within R m -> within R m' -> within R (if b then m else m').
Proof. by destruct b. Qed.
Lemma within_modify R f : (forall s, R s (f s)) -> within R (modify f).
Proof. intros H s. apply H. Qed.
End Within.

(** ** Quiet computations: only the warning administration changes *)
Section Quiet.
Context {cfg : Config}.

Definition eqw (s s' : state) : Prop := exists w, s' = set_warn w s.

Lemma set_warn_id s : set_warn (warn s) s = s.
Proof. by destruct s. Qed.
#[export] Instance eqw_equivalence : Equivalence eqw.
Proof.
  split.
  - intros s. exists (warn s). by rewrite set_warn_id.
  - intros s s' [w ->]. exists (warn s). by destruct s.
  - intros s s' s'' [w ->] [w' ->]. by exists w'.
Qed.

Definition quiet {A} (m : M A) : Prop := within eqw m.

Lemma quiet_bind {A B} (m : M A) (k : A -> M B) :
  quiet m -> (forall a, quiet (k a)) -> quiet (bind m k).
Proof. apply within_bind. apply _. Qed.
Lemma quiet_same {A} (m : M A) :
  (forall s, wp True m (fun _ s' => s' = s) (fun _ s' => s' = s) s) -> quiet m.
Proof. apply within_same. apply _. Qed.
Lemma quiet_ret {A} (a : A) : quiet (ret a).
Proof. by apply quiet_same. Qed.
Lemma quiet_gets {A} (f : state -> A) : quiet (gets f).
Proof. by apply quiet_same. Qed.
Lemma quiet_trap {A} nr : quiet (trap (A:=A) nr).
Proof. by apply quiet_same. Qed.
Lemma quiet_undef {A} : quiet (undef (A:=A)).
Proof. by apply quiet_same. Qed.
Lemma quiet_when b m : quiet m -> quiet (when b m).
Proof. apply within_when. apply _. Qed.
Lemma quiet_if {A} (b : bool) (m m' : M A) : quiet m -> quiet m' -> quiet (if b then m else m').
Proof. apply within_if. Qed.
Lemma quiet_warning nr : quiet (warning nr).
Proof. intros s. unfold wp, warning. destruct (nr <? 0); [done | by eexists]. Qed.
Lemma quiet_warningcont nr : quiet (warningcont nr).
Proof. intros s. by eexists. Qed.
Lemma quiet_wtrap {A} wn nr : quiet (wtrap (A:=A) wn nr).
Proof. apply quiet_bind; [apply quiet_warning | intros; apply quiet_trap]. Qed.
Lemma quiet_ch_st_prot a : quiet (ch_st_prot a).
Proof.
  apply quiet_bind; [|intros; apply quiet_when, quiet_warning].
  apply quiet_same. intros s. unfold wp, st_sh. by destruct (stack_valid a s).
Qed.
Lemma quiet_data_loc a : quiet (data_loc a).
Proof. apply quiet_same. intros s. unfold wp, data_loc. by destruct (data_valid a s). Qed.
Lemma quiet_stack_loc a : quiet (stack_loc a).
Proof. apply quiet_same. intros s. unfold wp, stack_loc. by destruct (stack_valid a s). Qed.
Lemma quiet_dt_sh a : quiet (dt_sh a).
Proof. apply quiet_same. intros s. unfold wp, dt_sh. by destruct (data_valid a s). Qed.
Lemma quiet_st_sh a : quiet (st_sh a).
Proof. apply quiet_same. intros s. unfold wp, st_sh. by destruct (stack_valid a s). Qed.
Lemma quiet_ch_in_data a n : quiet (ch_in_data a n).
Proof. apply quiet_same. intros s. unfold wp, ch_in_data. by destruct (is_in_data a n s). Qed.
Lemma quiet_ch_in_stack a n : quiet (ch_in_stack a n).
Proof. apply quiet_same. intros s. unfold wp, ch_in_stack. by destruct (is_in_stack a n s). Qed.
Lemma quiet_ch_w_in_stack a : quiet (ch_w_in_stack a).
Proof. apply quiet_same. intros s. unfold wp, ch_w_in_stack. by destruct (w_is_in_stack a s). Qed.
Lemma quiet_ch_wordaligned a : quiet (ch_wordaligned a).
Proof. apply quiet_when, quiet_trap. Qed.
Lemma quiet_ch_aligned a n : quiet (ch_aligned a n).
Proof.
  apply quiet_bind; [|intros; apply quiet_when, quiet_trap].
  unfold is_aligned. apply quiet_if; [apply quiet_undef | apply quiet_ret].
Qed.
Lemma quiet_is_st_set a n b : quiet (is_st_set a n b).
Proof.
  apply quiet_bind; [apply quiet_st_sh|intros x]. apply quiet_if; [apply quiet_ret|].
  apply quiet_bind; [apply quiet_st_sh|intros; apply quiet_ret].
Qed.
Lemma quiet_is_dt_set a n b : quiet (is_dt_set a n b).
Proof.
  apply quiet_bind; [apply quiet_dt_sh|intros x]. apply quiet_if; [apply quiet_ret|].
  apply quiet_bind; [apply quiet_dt_sh|intros; apply quiet_ret].
Qed.
Lemma quiet_bytes_in loc n : forall a, (forall a, quiet (loc a)) -> quiet (bytes_in loc a n).
Proof.
  induction n as [|n IH]; intros a H; cbn [bytes_in]; [apply quiet_ret|].
  apply quiet_bind; [apply H|intros b]. apply quiet_bind; [by apply IH|intros; apply quiet_ret].
Qed.
Lemma quiet_p_in_stack a : quiet (p_in_stack a).
Proof. apply quiet_bytes_in, quiet_stack_loc. Qed.
Lemma quiet_p_in_data a : quiet (p_in_data a).
Proof. apply quiet_bytes_in, quiet_data_loc. Qed.

End Quiet.

Create HintDb quiet discriminated.
#[export] Hint Resolve quiet_bind quiet_ret quiet_gets quiet_trap quiet_undef quiet_when quiet_if
  quiet_warning quiet_warningcont quiet_wtrap quiet_ch_st_prot quiet_data_loc quiet_stack_loc quiet_dt_sh quiet_st_sh
  quiet_ch_in_data quiet_ch_in_stack quiet_ch_w_in_stack quiet_ch_wordaligned quiet_ch_aligned
  quiet_is_st_set quiet_is_dt_set quiet_p_in_stack quiet_p_in_data : quiet.
#[export] Hint Constants Opaque : quiet.
Ltac quiet_tac :=
  repeat first [ progress cbv zeta | solve [eauto 1 with quiet]
               | apply quiet_bind; [|intros] | apply quiet_ret | apply quiet_when | apply quiet_if ].

(** ** Stack computations: only the stack and the warnings change *)
Section Stacky.
Context {cfg : Config}.

(** Everything but SP, SL, the stack and the warning administration. *)
Definition rest (s : state) : state :=
  set_warn (mkWarn ∅ false []) (set_stack (mkArea ∅ ∅ 0) (set_SL 0 (set_SP 0 s))).
Definition same_rest (s s' : state) : Prop := rest s' = rest s.
#[export] Instance same_rest_preorder : PreOrder same_rest.
Proof. split; unfold same_rest; [done | congruence]. Qed.

Definition stacky {A} (m : M A) : Prop := within same_rest m.

Lemma stacky_quiet {A} (m : M A) : quiet m -> stacky m.
Proof. intros H. eapply within_mono; [exact H|]. by intros s s' [w ->]. Qed.
Lemma stacky_bind {A B} (m : M A) (k : A -> M B) :
  stacky m -> (forall a, stacky (k a)) -> stacky (bind m k).
Proof. apply within_bind. apply _. Qed.
Lemma stacky_when b m : stacky m -> stacky (when b m).
Proof. apply within_when. apply _. Qed.
Lemma stacky_if {A} (b : bool) (m m' : M A) : stacky m -> stacky m' -> stacky (if b then m else m').
Proof. apply within_if. Qed.
Lemma stacky_set_stack_loc a v : stacky (set_stack_loc a v).
Proof. intros s. unfold wp, set_stack_loc. by destruct (stack_valid a s). Qed.
Lemma stacky_set_st_sh a v : stacky (set_st_sh a v).
Proof. intros s. unfold wp, set_st_sh. by destruct (stack_valid a s). Qed.
End Stacky.
Create HintDb stacky discriminated.
#[export] Hint Resolve stacky_set_stack_loc stacky_set_st_sh : stacky.
#[export] Hint Constants Opaque : stacky.
Ltac stacky_tac :=
  repeat first [ progress cbv zeta | solve [eauto 1 with stacky]
               | apply stacky_quiet; solve [eauto 1 with quiet]
               | apply stacky_bind; [|intros] | apply within_modify; solve [done]
               | apply stacky_when | apply stacky_if ].

(** ** Steady computations: the control state does not change *)
Section Steady.
Context {cfg : Config}.

(** The control state: what happens upon a trap, the exit status, and whether the
    machine is running. *)
Definition ctl (s : state) :=
  (OnTrap s, TrapPI s, IgnMask s, rec_trap s, rec_nr s, ES s, ES_def s, running s).
Definition same_ctl (s s' : state) : Prop := ctl s' = ctl s.
#[export] Instance same_ctl_preorder : PreOrder same_ctl.
Proof. split; unfold same_ctl; [done | congruence]. Qed.

Definition steady {A} (m : M A) : Prop := within same_ctl m.

Lemma ctl_rest s : ctl (rest s) = ctl s.
Proof. done. Qed.
Lemma steady_stacky {A} (m : M A) : stacky m -> steady m.
Proof.
  intros H. eapply within_mono; [exact H|]. intros s s' E. unfold same_ctl.
  by rewrite <- ctl_rest, E, ctl_rest.
Qed.
Lemma steady_bind {A B} (m : M A) (k : A -> M B) :
  steady m -> (forall a, steady (k a)) -> steady (bind m k).
Proof. apply within_bind. apply _. Qed.
Lemma steady_when b m : steady m -> steady (when b m).
Proof. apply within_when. apply _. Qed.
Lemma steady_if {A} (b : bool) (m m' : M A) : steady m -> steady m' -> steady (if b then m else m').
Proof. apply within_if. Qed.
Lemma steady_set_data_loc a v : steady (set_data_loc a v).
Proof. intros s. unfold wp, set_data_loc. by destruct (data_valid a s). Qed.
Lemma steady_set_dt_sh a v : steady (set_dt_sh a v).
Proof. intros s. unfold wp, set_dt_sh. by destruct (data_valid a s). Qed.
End Steady.
Create HintDb steady discriminated.
#[export] Hint Resolve steady_set_data_loc steady_set_dt_sh : steady.
#[export] Hint Constants Opaque : steady.
Ltac steady_tac :=
  repeat first [ progress cbv zeta | solve [eauto 1 with steady]
               | apply steady_stacky; first [ solve [eauto 1 with stacky]
                                            | apply stacky_quiet; solve [eauto 1 with quiet] ]
               | apply steady_bind; [|intros] | apply within_modify; solve [done]
               | apply steady_when | apply steady_if ].
