(* ===== verification/Sigtrp.v ===== *)
(** * System calls, the message file, signals ([io.c], [m_sigtrp.c])

    A system call is recorded in the state, and the host answers it.  A signal runs
    its handler in between; the interpreter looks at [signalled] after an
    instruction. *)
From Stdlib Require Import ZArith Lia Bool.
From stdpp Require Import base gmap list.
From S2P Require Import Prelude Os Machine Log Warn Mem Wp.

Definition mod_mon (f : monst -> monst) : M unit := modify (fun s => set_mon (f (mon s)) s).

Section Calls.
Context {os : Os}.

(** Record [c]; the reply of the host. *)
Definition os_ask (c : syscall) : M reply := fun s =>
  let h := c :: calls (mon s) in Ret (os_reply h) (set_mon (set_calls h (mon s)) s).
(** A call that sets [errno]; its value as an [int]. *)
Definition os_call (c : syscall) : M reply :=
  r ← os_ask c; mod_mon (set_errno (s32 (r_errno r))) ;; ret r.
Definition sys (c : syscall) : M Z := r ← os_call c; ret (s32 (r_val r)).

(** ** The message file ([io.c]) *)

(** [highestfd(fd)]: the turns are limited, as a descriptor above 99 ends them. *)
Fixpoint highestfd (turns : nat) (fd : Z) : M Z :=
  match turns with
  | O => undef
  | S k =>
      newfd ← sys (s_dup fd);
      if newfd <? 0 then ret fd
      else if 99 <? newfd then _ ← sys (s_close newfd); ret fd
      else higherfd ← highestfd k newfd; _ ← sys (s_close fd); ret higherfd
  end.

(** [fcreat_high(fn)]: false is NULL. *)
Definition fcreat_high (fn : cstr) : M bool :=
  fd ← sys (s_creat fn 0x1a4);
  if fd =? -1 then ret false
  else
    fd ← highestfd 101 fd;
    r ← os_call (s_fdopen fd);
    if r_val r =? 0 then ret false else mod_mon (set_fd_limit fd) ;; ret true.

Definition incr_mess_id : M unit := mod_mon (fun m => set_mess_id (s64 (mess_id m + 1)) m).

(** [open_log(firsttime)], [init_ofiles(firsttime)].  In the child of a fork [open_log]
    writes into a string literal. *)
Definition open_log (firsttime : bool) (lg : logst) : M logst :=
  if firsttime then
    lg ← open_log_settings lg;
    (if must_log lg then b ← fcreat_high (log_file lg); if b : bool then skip else fatal FLogfile else skip) ;;
    ret lg
  else undef.
Definition init_ofiles (firsttime : bool) (mess_file : cstr) (lg : logst) : M logst :=
  if firsttime then
    b ← fcreat_high mess_file;
    (if b : bool then mod_mon (set_mess_id 1) else fatal FMessagefile) ;;
    open_log firsttime lg
  else undef.

(** ** Signals ([m_sigtrp.c]) *)
Definition UNIX_trap (sn : Z) : bool := (SIGILL <=? sn) && (sn <=? SIGSYS).

(** [signal(sn, d)]: -1 is SIG_ERR, 1 is SIG_IGN. *)
Definition signal (sn : Z) (d : disposition) : M Z :=
  v ← sys (s_signal sn d);
  when (negb (v =? -1)) (mod_mon (fun m => set_caught (<[sn := d]> (caught m)) m)) ;;
  ret v.

Definition init_signal (sn : Z) : M unit :=
  when (negb (UNIX_trap sn || (sn =? SIGCHLD) || (sn =? SIGIO) || (sn =? SIGWINCH)))
    (old ← signal sn SIG_IGN; when (negb (old =? 1)) (_ ← signal sn HndlIntSig; skip)).
Fixpoint init_signal_loop (k : nat) (sn : Z) : M unit :=
  match k with
  | O => skip
  | S k' => init_signal sn ;; init_signal_loop k' (sn + 1)
  end.
Definition init_signals : M unit :=
  mod_mon (fun m => set_sig_map (fill (sig_map m) 0 (-2) (Z.to_nat (NSIG + 1))) m) ;;
  init_signal_loop (Z.to_nat (NSIG + 1)) 0.

Definition get_sig_map (sn : Z) : M Z := gets (fun s => mget (sig_map (mon s)) sn).
Definition put_sig_map (sn tn : Z) : M unit :=
  mod_mon (fun m => set_sig_map (<[sn := tn]> (sig_map m)) m).

(** The handlers. *)
Definition do_HndlIntSig (sn : Z) : M unit := _ ← signal sn SIG_IGN; fatal (FSignal sn).
Definition do_HndlEmSig (sn : Z) : M unit :=
  _ ← signal sn HndlIntSig; mod_mon (set_signalled sn).
(** A signal comes in: its handler runs, it is ignored, or the default action of the
    host is taken. *)
Definition deliver (sn : Z) : M unit :=
  d ← gets (fun s => caught (mon s) !! sn);
  match d with
  | Some HndlIntSig => do_HndlIntSig sn
  | Some HndlEmSig => do_HndlEmSig sn
  | Some SIG_IGN => skip
  | Some SIG_DFL | None => if sig_kills sn then fatal (FKilled sn) else skip
  end.
Fixpoint deliver_all (l : list Z) : M unit :=
  match l with [] => skip | sn :: l' => deliver sn ;; deliver_all l' end.
(** The signals that come in at this point. *)
Definition signals : M unit := r ← os_ask s_signals; deliver_all (r_out r).

(** Execute the trap belonging to the signal that came in. *)
Definition trap_signal : M unit :=
  old_sig ← gets (fun s => signalled (mon s));
  mod_mon (set_signalled 0) ;;
  nr ← get_sig_map old_sig; trap nr.
Definition check_signal : M unit :=
  sg ← gets (fun s => signalled (mon s)); when (negb (sg =? 0)) trap_signal.
End Calls.

Section Sigtrp.
Context {cfg : Config} {os : Os}.

Definition EFAULT := 14.
Definition EINVAL := 22.
Definition EBADF := 9.
Definition efault (wrn : Z) : M unit := warning wrn ;; mod_mon (set_errno EFAULT).
Definition einval (wrn : Z) : M unit := warning wrn ;; mod_mon (set_errno EINVAL).

Definition do_sigtrp (tn sn : Z) : M Z :=
  if (sn <=? 0) || (NSIG <? sn) then einval WILLSN ;; ret (-1)
  else if UNIX_trap sn then einval WUNIXTR ;; ret (-1)
  else
    old_tn ← get_sig_map sn;
    put_sig_map sn tn ;;
    if tn =? -2 then _ ← signal sn SIG_DFL; ret old_tn
    else if tn =? -3 then _ ← signal sn SIG_IGN; ret old_tn
    else if (0 <=? tn) && (tn <=? 252) then
      v ← signal sn HndlEmSig;
      if v =? -1 then put_sig_map sn old_tn ;; ret (-1) else ret old_tn
    else einval WILLTN ;; put_sig_map sn old_tn ;; ret (-1).
End Sigtrp.

(** ** Only the state of the monitor calls changes *)
Section Monly.
Context {cfg : Config} {os : Os}.

Definition eqm (s s' : state) : Prop := exists m, s' = set_mon m s.
Lemma set_mon_id s : set_mon (mon s) s = s.
Proof. by destruct s. Qed.
#[export] Instance eqm_preorder : PreOrder eqm.
Proof.
  split.
  - intros s. exists (mon s). by rewrite set_mon_id.
  - intros s s' s'' [m ->] [m' ->]. by exists m'.
Qed.

(** [m] returns, or stops the interpreter, with only the monitor state changed. *)
Definition monly {A} (m : M A) : Prop :=
  forall s, wp True m (fun _ => eqm s) (fun _ => eqm s) s.
Lemma monly_bind {A B} (m : M A) (k : A -> M B) :
  monly m -> (forall a, monly (k a)) -> monly (bind m k).
Proof. apply within_bind. apply _. Qed.
Lemma monly_when b m : monly m -> monly (when b m).
Proof. apply within_when. apply _. Qed.
Lemma monly_if {A} (b : bool) (m m' : M A) : monly m -> monly m' -> monly (if b then m else m').
Proof. apply within_if. Qed.
Lemma monly_same {A} (m : M A) :
  (forall s, wp True m (fun _ s' => s' = s) (fun _ s' => s' = s) s) -> monly m.
Proof. apply within_same. apply _. Qed.
Lemma monly_os_ask c : monly (os_ask c).
Proof. intros s. by eexists. Qed.
Lemma monly_mod_mon f : monly (mod_mon f).
Proof. intros s. by eexists. Qed.
End Monly.

Create HintDb monly discriminated.
#[export] Hint Resolve monly_os_ask monly_mod_mon : monly.
#[export] Hint Constants Opaque : monly.
Ltac monly_tac :=
  repeat first [ progress cbv zeta | solve [eauto 1 with monly]
               | apply monly_bind; [|intros] | apply monly_when | apply monly_if
               | apply monly_same; done ].

Section Rules.
Context {cfg : Config} {os : Os}.

Lemma monly_os_call c : monly (os_call c).
Proof. unfold os_call. monly_tac. Qed.
Lemma monly_sys c : monly (sys c).
Proof. unfold sys, os_call. monly_tac. Qed.
#[local] Hint Resolve monly_os_call monly_sys : monly.
Lemma monly_highestfd k : forall fd, monly (highestfd k fd).
Proof. induction k as [|k IH]; intros fd; cbn [highestfd]; monly_tac. Qed.
#[local] Hint Resolve monly_highestfd : monly.
Lemma monly_fcreat_high fn : monly (fcreat_high fn).
Proof. unfold fcreat_high. monly_tac. Qed.
Lemma monly_set_range c d lev m : monly (set_range c d lev m).
Proof. unfold set_range. monly_tac. Qed.
#[local] Hint Resolve monly_fcreat_high monly_set_range : monly.
Lemma monly_overrun k : forall prev s, (length s <= k)%nat -> monly (overrun prev s).
Proof.
  induction k as [|k IH]; intros prev [|c s] Hl; cbn [length] in Hl; try lia; cbn [overrun]; monly_tac;
    try (apply IH; lia). destruct s as [|q s]; cbn [length] in Hl; monly_tac. apply IH. lia.
Qed.
Lemma monly_set_classes k : forall prev s tail lev m, (length s <= k)%nat -> monly (set_classes prev s tail lev m).
Proof.
  induction k as [|k IH]; intros prev [|c s] tail lev m Hl; cbn [length] in Hl; try lia; cbn [set_classes]; monly_tac;
    try (apply IH; lia). destruct prev as [p|], s as [|q s], tail as [|d tail]; cbn [length] in Hl; monly_tac;
    first [by eapply monly_overrun | apply IH; lia].
Qed.
Lemma monly_lmask_loop k : forall prev s m, monly (lmask_loop k prev s m).
Proof.
  induction k as [|k IH]; intros prev [|c s] m; cbn [lmask_loop]; monly_tac.
  destruct (split_level _).2; monly_tac; by eapply monly_set_classes.
Qed.
Lemma monly_set_lmask prev s m : monly (set_lmask prev s m).
Proof. apply monly_lmask_loop. Qed.
Lemma monly_ato w s : monly (ato w s).
Proof. unfold ato. monly_tac. Qed.
#[local] Hint Resolve monly_set_lmask monly_ato : monly.
Lemma monly_open_log_settings lg : monly (open_log_settings lg).
Proof.
  unfold open_log_settings, atoi. monly_tac. destruct (getpar _ _); monly_tac.
Qed.
#[local] Hint Resolve monly_open_log_settings : monly.
Lemma monly_init_ofiles b fn lg : monly (init_ofiles b fn lg).
Proof. unfold init_ofiles, open_log. monly_tac. Qed.
Lemma monly_signal sn d : monly (signal sn d).
Proof. unfold signal. monly_tac. Qed.
#[local] Hint Resolve monly_signal : monly.
Lemma monly_init_signals : monly init_signals.
Proof.
  unfold init_signals. monly_tac. generalize 0 as sn. induction (Z.to_nat (NSIG + 1)) as [|k IH]; intros sn;
    cbn [init_signal_loop]; [by apply monly_same|]. unfold init_signal. monly_tac.
Qed.
Lemma monly_deliver sn : monly (deliver sn).
Proof.
  unfold deliver, do_HndlIntSig, do_HndlEmSig. monly_tac. destruct a as [[]|]; monly_tac.
Qed.
#[local] Hint Resolve monly_deliver : monly.
Lemma monly_signals : monly signals.
Proof.
  unfold signals. monly_tac. induction (r_out a) as [|sn l IH]; cbn [deliver_all]; monly_tac.
Qed.
Lemma monly_check_signal : monly check_signal.
Proof. unfold check_signal, trap_signal, get_sig_map. monly_tac. Qed.

(** The machine invariant. *)
Lemma Inv_set_mon m s : Inv s -> Inv (set_mon m s).
Proof. inv_set. Qed.
Lemma keeps_monly {A} (m : M A) : monly m -> keeps m any.
Proof.
  intros H s Hs. eapply wp_conseq; [apply H|done| |].
  - intros a s' [v ->]. split; [done | by apply Inv_set_mon].
  - intros nr s' [v ->]. by apply Inv_set_mon.
Qed.
Lemma keeps_mod_mon f : keeps (mod_mon f) any.
Proof. apply keeps_monly, monly_mod_mon. Qed.
Lemma keeps_os_call c : keeps (os_call c) any.
Proof. apply keeps_monly, monly_os_call. Qed.
Lemma keeps_sys c : keeps (sys c) any.
Proof. apply keeps_monly, monly_sys. Qed.
Lemma keeps_init_ofiles b fn lg : keeps (init_ofiles b fn lg) any.
Proof. apply keeps_monly, monly_init_ofiles. Qed.
Lemma keeps_signal sn d : keeps (signal sn d) any.
Proof. apply keeps_monly, monly_signal. Qed.
Lemma keeps_signals : keeps signals any.
Proof. apply keeps_monly, monly_signals. Qed.
Lemma keeps_check_signal : keeps check_signal any.
Proof. apply keeps_monly, monly_check_signal. Qed.
#[local] Hint Resolve keeps_mod_mon keeps_signal : keeps.
Lemma keeps_efault w : keeps (efault w) any.
Proof. unfold efault. keeps_tac. Qed.
Lemma keeps_einval w : keeps (einval w) any.
Proof. unfold einval. keeps_tac. Qed.
#[local] Hint Resolve keeps_efault keeps_einval : keeps.
Lemma keeps_do_sigtrp tn sn : keeps (do_sigtrp tn sn) any.
Proof. unfold do_sigtrp, get_sig_map, put_sig_map. keeps_tac. Qed.

(** ** Mapping signals *)

(** What is to happen upon a signal that is mapped onto [tn]. *)
Definition handler (tn : Z) : option disposition :=
  if tn =? -2 then Some SIG_DFL
  else if tn =? -3 then Some SIG_IGN
  else if (0 <=? tn) && (tn <=? 252) then Some HndlEmSig else None.
Definition mappable (sn : Z) : bool := (0 <? sn) && (sn <=? NSIG) && negb (UNIX_trap sn).
(** The host refuses it. *)
Definition refused (sn : Z) (d : disposition) (s : state) : Prop :=
  s32 (r_val (os_reply (s_signal sn d :: calls (mon s)))) = -1.

Lemma signal_run sn d s :
  exists s', signal sn d s = Ret (s32 (r_val (os_reply (s_signal sn d :: calls (mon s))))) s' /\
    eqm s s' /\ sig_map (mon s') = sig_map (mon s) /\
    errno (mon s') = s32 (r_errno (os_reply (s_signal sn d :: calls (mon s)))) /\
    caught (mon s') = (if s32 (r_val (os_reply (s_signal sn d :: calls (mon s)))) =? -1 then caught (mon s)
                       else <[sn := d]> (caught (mon s))) /\
    signalled (mon s') = signalled (mon s).
Proof.
  unfold signal, sys, os_call, os_ask, mod_mon. run. destruct (_ =? -1); run;
    (eexists; split; [reflexivity|]; split; [by eexists | done]).
Qed.
Lemma mget_put_back (m : gmap Z Z) sn tn k : mget (<[sn := mget m sn]> (<[sn := tn]> m)) k = mget m k.
Proof.
  destruct (Z.eq_dec k sn) as [->|Hk]; [by rewrite mget_insert_eq|by rewrite !mget_insert_ne].
Qed.

(** [do_sigtrp]: the signal is mapped and its handler set, and the previous trap is
    returned; or it returns -1, with an error code, and the maps are as before. *)
Inductive sigtrp_done (tn sn : Z) (s s' : state) : Z -> Prop :=
| sigtrp_mapped d :
    mappable sn = true -> handler tn = Some d -> d <> HndlEmSig \/ ~ refused sn d s ->
    sig_map (mon s') = <[sn := tn]> (sig_map (mon s)) ->
    (~ refused sn d s -> caught (mon s') = <[sn := d]> (caught (mon s))) ->
    sigtrp_done tn sn s s' (mget (sig_map (mon s)) sn)
| sigtrp_refused :
    mappable sn = true -> handler tn = Some HndlEmSig -> refused sn HndlEmSig s ->
    (forall k, mget (sig_map (mon s')) k = mget (sig_map (mon s)) k) -> caught (mon s') = caught (mon s) ->
    errno (mon s') = s32 (r_errno (os_reply (s_signal sn HndlEmSig :: calls (mon s)))) ->
    sigtrp_done tn sn s s' (-1)
| sigtrp_wrong :
    mappable sn = false \/ handler tn = None ->
    (forall k, mget (sig_map (mon s')) k = mget (sig_map (mon s)) k) -> caught (mon s') = caught (mon s) ->
    errno (mon s') = EINVAL ->
    sigtrp_done tn sn s s' (-1).

(** Everything but the monitor state and the warnings. *)
Definition eqmon (s s' : state) : Prop := exists m w, s' = set_mon m (set_warn w s).
Lemma eqm_eqmon s s' : eqm s s' -> eqmon s s'.
Proof. intros [m ->]. exists m, (warn s). by rewrite set_warn_id. Qed.
Lemma einval_run w s : 0 <= w -> einval w s = Ret tt (set_mon (set_errno EINVAL (mon s)) (warned w s)).
Proof. intros Hw. unfold einval, mod_mon. run. by rewrite warning_ret. Qed.

(** A signal is mapped, and its handler set. *)
Lemma map_signal_run sn tn d s :
  exists w s2, (put_sig_map sn tn ;; signal sn d) s = Ret w s2 /\ eqmon s s2 /\ (w = -1 <-> refused sn d s) /\
    sig_map (mon s2) = <[sn := tn]> (sig_map (mon s)) /\
    (~ refused sn d s -> caught (mon s2) = <[sn := d]> (caught (mon s))) /\
    (refused sn d s -> caught (mon s2) = caught (mon s)) /\
    errno (mon s2) = s32 (r_errno (os_reply (s_signal sn d :: calls (mon s)))).
Proof.
  unfold put_sig_map, mod_mon. run. set (s1 := set_mon _ s).
  destruct (signal_run sn d s1) as (s2 & -> & [m ->] & Hsm & He & Hc & _). do 2 eexists.
  split; [reflexivity|]. split; [by exists m, (warn s); destruct s|]. unfold refused.
  change (calls (mon s1)) with (calls (mon s)) in *. change (caught (mon s1)) with (caught (mon s)) in *.
  destruct (Z.eqb_spec (s32 (r_val (os_reply (s_signal sn d :: calls (mon s))))) (-1)); split_and!; done.
Qed.
Lemma do_sigtrp_run tn sn s :
  exists v s', do_sigtrp tn sn s = Ret v s' /\ eqmon s s' /\ sigtrp_done tn sn s s' v.
Proof.
  unfold do_sigtrp. destruct ((sn <=? 0) || (NSIG <? sn)) eqn:E1.
  { run. rewrite einval_run by done. run. do 2 eexists. split_and!; [reflexivity|by do 2 eexists|].
    apply sigtrp_wrong; [left; unfold mappable; lia|done..]. }
  destruct (UNIX_trap sn) eqn:E2.
  { run. rewrite einval_run by done. run. do 2 eexists. split_and!; [reflexivity|by do 2 eexists|].
    apply sigtrp_wrong; [left; unfold mappable; rewrite E2; apply andb_false_r|done..]. }
  assert (Hm : mappable sn = true) by (unfold mappable; rewrite E2; lia).
  unfold get_sig_map. run. destruct (Z.eqb_spec tn (-2)) as [->|E3]; [|destruct (Z.eqb_spec tn (-3)) as [->|E4]].
  - destruct (map_signal_run sn (-2) SIG_DFL s) as (w & s2 & E & He & _ & Hsm & Hc & _). revert E. unfold bind.
    destruct (put_sig_map sn (-2) s) as [u s1| | |]; intros E; try done. rewrite E. run.
    do 2 eexists. split_and!; [reflexivity|done|]. apply (sigtrp_mapped _ _ _ _ SIG_DFL); auto.
  - destruct (map_signal_run sn (-3) SIG_IGN s) as (w & s2 & E & He & _ & Hsm & Hc & _). revert E. unfold bind.
    destruct (put_sig_map sn (-3) s) as [u s1| | |]; intros E; try done. rewrite E. run.
    do 2 eexists. split_and!; [reflexivity|done|]. apply (sigtrp_mapped _ _ _ _ SIG_IGN); auto.
  - assert (Hh : handler tn = if (0 <=? tn) && (tn <=? 252) then Some HndlEmSig else None).
    { unfold handler. by replace (tn =? -2) with false by lia; replace (tn =? -3) with false by lia. }
    destruct ((0 <=? tn) && (tn <=? 252)).
    + destruct (map_signal_run sn tn HndlEmSig s) as (w & s2 & E & He & Hw & Hsm & Hc & Hc' & Hno). revert E.
      unfold bind at 1 2. destruct (put_sig_map sn tn s) as [u s1| | |]; intros E; try done.
      rewrite E. destruct (Z.eqb_spec w (-1)) as [Ew|Ew].
      * apply Hw in Ew. unfold put_sig_map, mod_mon. run. do 2 eexists. split_and!; [reflexivity| |].
        { destruct He as (m & x & ->). by do 2 eexists. }
        apply sigtrp_refused; cbn; auto. intros k. rewrite Hsm. apply mget_put_back.
      * assert (~ refused sn HndlEmSig s) by (by rewrite <- Hw). do 2 eexists. split_and!; [reflexivity|done|].
        by apply (sigtrp_mapped _ _ _ _ HndlEmSig); auto.
    + unfold put_sig_map, mod_mon. run. rewrite einval_run by done. run. do 2 eexists.
      split_and!; [reflexivity|by do 2 eexists|]. apply sigtrp_wrong; cbn; auto. intros k. apply mget_put_back.
Qed.

(** A signal that comes in at the end of a turn, mapped onto [tn]. *)
Lemma caught_signal_traps sn s :
  sn <> 0 -> caught (mon s) !! sn = Some HndlEmSig ->
  r_out (os_reply (s_signals :: calls (mon s))) = [sn] ->
  exists s', (signals ;; check_signal) s = Trap (mget (sig_map (mon s)) sn) s' /\ eqm s s' /\ signalled (mon s') = 0.
Proof.
  intros Hsn Hc Hr. unfold signals, os_ask. run. rewrite Hr. cbn [deliver_all]. unfold deliver. run.
  cbn [mon set_mon caught set_calls]. rewrite Hc. unfold do_HndlEmSig. run.
  destruct (signal_run sn HndlIntSig (set_mon (set_calls (s_signals :: calls (mon s)) (mon s)) s))
    as (s1 & -> & [m ->] & Hsm & _). run. unfold check_signal, trap_signal, mod_mon, get_sig_map. run.
  cbn [mon set_mon set_signalled signalled]. replace (sn =? 0) with false by lia. run.
  eexists. split; [cbn [mon set_mon set_signalled signalled sig_map set_calls] in Hsm |- *; by rewrite Hsm|split; [by eexists|done]].
Qed.
End Rules.
#[export] Hint Resolve keeps_mod_mon keeps_os_call keeps_sys keeps_init_ofiles keeps_signal keeps_signals
  keeps_check_signal keeps_efault keeps_einval keeps_do_sigtrp : keeps.
