(* ===== verification/Data.v ===== *)
(** * Data access routines ([data.c])

    The global data area and the heap: the heap pointer, typed stores and loads
    with their shadow bytes, and block moves into data. *)
From Stdlib Require Import ZArith Lia Bool.
From stdpp Require Import base gmap list.
From S2P Require Import Prelude Machine Warn Mem Wp.

Section Data.
Context {cfg : Config}.

(** [dt_clear_area(from, to)]: includes [from] but excludes [to]. *)
Fixpoint dt_clear_loop (i : nat) (a : Z) : M unit :=
  match i with
  | O => skip
  | S i' => dt_undef a ;; dt_clear_loop i' (a +p 1)
  end.
Definition dt_clear_area (from to : Z) : M unit := dt_clear_loop (Z.to_nat (to - from)) from.

(** Grow the arrays of the data area to [n] bytes. *)
Definition realloc_data (n : Z) : M unit :=
  modify (fun s => set_data (set_alloc (malloc_size n) (data s)) s).

(** [newHP(p)]: check and adjust the heap pointer. *)
Definition newHP (ap : Z) : M unit :=
  let p := ap in
  when (in_gda p) (wtrap WHPGDA EHEAP) ;;
  b ← gets (in_stack p);
  when b (wtrap WHPSTACK EHEAP) ;;
  when (negb (is_wordaligned p)) (wtrap WHPODD EHEAP) ;;
  when (negb (maxheap =? 0))
    (when (u64 maxheap <? u64 (p - HB)) (warning WEHEAP ;; trap EHEAP)) ;;
  hl ← gets HL;
  when (hl <? p)
    (modify (set_HL (u64 (allocfrac p - 1))) ;;
     hl ← gets HL; realloc_data (hl + 1)) ;;
  hp ← gets HP;
  when (hp <? p) (dt_clear_area hp p) ;;
  modify (set_HP p).

(** ** Stores *)

(** The loop of [dt_stdp], [dt_stip], [dt_stn] and [dt_stw]: [i] bytes of [l],
    least significant first, each with shadow byte [sh]. *)
Fixpoint dt_st_loop (i : nat) (addr l sh : Z) : M unit :=
  match i with
  | O => skip
  | S i' =>
      ch_dt_prot addr ;;
      set_data_loc addr (char l) ;;
      set_dt_sh addr sh ;;
      dt_st_loop i' (addr +p 1) (Z.shiftr l 8) sh
  end.

(** A psize zero is ambiguous. *)
Definition sh_flags (l n : Z) : Z :=
  if (l =? 0) && (n =? psize) then Z.lor SH_INT SH_DATAP else SH_INT.

Definition dt_stdp (addr ap : Z) : M unit :=
  ch_in_data addr psize ;;
  ch_wordaligned addr ;;
  dt_st_loop (Z.to_nat psize) addr ap SH_DATAP.

Definition dt_stip (addr ap : Z) : M unit :=
  ch_in_data addr psize ;;
  ch_wordaligned addr ;;
  dt_st_loop (Z.to_nat psize) addr ap SH_INSP.

Definition dt_stn (addr al n : Z) : M unit :=
  ch_in_data addr n ;;
  ch_aligned addr n ;;
  dt_st_loop (Z.to_nat n) addr al (sh_flags al n).

Definition dt_stw (addr al : Z) : M unit :=
  ch_in_data addr wsize ;;
  ch_wordaligned addr ;;
  dt_st_loop (Z.to_nat wsize) addr al (sh_flags al wsize).

(** ** Loads *)

(** [warn_dtbits]: what the [n] shadow bytes at [addr] have in common.  The
    shadow bytes are [char]s, which are signed. *)
Fixpoint dt_bits_loop (n : nat) (addr or_bits and_bits : Z) : M (Z * Z) :=
  match n with
  | O => ret (or_bits, and_bits)
  | S n' =>
      x ← dt_sh addr;
      dt_bits_loop n' (addr +p 1) (Z.lor or_bits (s8 x)) (Z.land and_bits (s8 x))
  end.

Definition warn_bits (or_bits and_bits : Z) : M unit :=
  if negb (or_bits =? and_bits) then warningcont WWASMISC
  else
    when (or_bits =? 0) (warningcont WWASUND) ;;
    when (negb (Z.land or_bits SH_INT =? 0)) (warningcont WWASINT) ;;
    when (negb (Z.land or_bits SH_FLOAT =? 0)) (warningcont WWASFLOAT) ;;
    when (negb (Z.land or_bits SH_DATAP =? 0)) (warningcont WWASDATAP) ;;
    when (negb (Z.land or_bits SH_INSP =? 0)) (warningcont WWASINSP).

Definition warn_dtbits (addr n : Z) : M unit :=
  ob ← dt_bits_loop (Z.to_nat n) addr 0 0xff;
  warn_bits ob.1 ob.2.

Definition dt_lddp (addr : Z) : M Z :=
  ch_in_data addr psize ;;
  ch_wordaligned addr ;;
  b ← is_dt_set addr psize SH_DATAP;
  when (negb b) (warning WGDPEXP ;; warn_dtbits addr psize) ;;
  p_in_data addr.

Definition dt_ldip (addr : Z) : M Z :=
  ch_in_data addr psize ;;
  ch_wordaligned addr ;;
  b ← is_dt_set addr psize SH_INSP;
  when (negb b) (warning WGIPEXP ;; warn_dtbits addr psize) ;;
  p_in_data addr.

(** The unsigned and the signed accumulation loops: [addr] runs downwards. *)
Fixpoint dt_ldu_loop (i : nat) (addr u : Z) : M Z :=
  match i with
  | O => ret u
  | S i' =>
      b ← data_loc addr;
      dt_ldu_loop i' (addr +p -1) (u64 (Z.lor (Z.shiftl u 8) b))
  end.
Fixpoint dt_lds_loop (i : nat) (addr l : Z) : M Z :=
  match i with
  | O => ret l
  | S i' =>
      b ← data_loc addr;
      dt_lds_loop i' (addr +p -1) (s64 (Z.lor (Z.shiftl l 8) b))
  end.

Definition dt_ldu (addr n : Z) : M Z :=
  ch_in_data addr n ;;
  ch_aligned addr n ;;
  b ← is_dt_set addr n SH_INT;
  when (negb b)
    (warning (if n =? 1 then WGCEXP else WGIEXP) ;; warn_dtbits addr n) ;;
  dt_ldu_loop (Z.to_nat n) (addr +p (n - 1)) 0.

Definition dt_lduw (addr : Z) : M Z :=
  ch_in_data addr wsize ;;
  ch_wordaligned addr ;;
  b ← is_dt_set addr wsize SH_INT;
  when (negb b) (warning WGIEXP ;; warn_dtbits addr wsize) ;;
  dt_ldu_loop (Z.to_nat wsize) (addr +p (wsize - 1)) 0.

Definition dt_lds (addr n : Z) : M Z :=
  ch_in_data addr n ;;
  ch_aligned addr n ;;
  b ← is_dt_set addr n SH_INT;
  when (negb b)
    (warning (if n =? 1 then WGCEXP else WGIEXP) ;; warn_dtbits addr n) ;;
  let addr := addr +p (n - 2) in
  l ← data_loc (addr +p 1);
  dt_lds_loop (Z.to_nat (n - 1)) addr (s8 l).

Definition dt_ldsw (addr : Z) : M Z :=
  ch_in_data addr wsize ;;
  ch_wordaligned addr ;;
  b ← is_dt_set addr wsize SH_INT;
  when (negb b) (warning WGIEXP ;; warn_dtbits addr wsize) ;;
  let addr := addr +p (wsize - 2) in
  l ← data_loc (addr +p 1);
  dt_lds_loop (Z.to_nat (wsize - 1)) addr (s8 l).

(** ** Moves *)

(** [dt_mvd(d2, d1, n)]: move [n] bytes in data from [d1] to [d2]. *)
Fixpoint dt_mvd_loop (i : nat) (d2 d1 : Z) : M unit :=
  match i with
  | O => skip
  | S i' =>
      ch_dt_prot d2 ;;
      b ← data_loc d1; set_data_loc d2 b ;;
      x ← dt_sh d1; set_dt_sh d2 (Z.ldiff x SH_PROT) ;;
      dt_mvd_loop i' (d2 +p 1) (d1 +p 1)
  end.
Definition dt_mvd (d2 d1 n : Z) : M unit :=
  ch_in_data d1 n ;;
  ch_wordaligned d1 ;;
  ch_in_data d2 n ;;
  ch_wordaligned d2 ;;
  dt_mvd_loop (Z.to_nat n) d2 d1.

(** [dt_mvs(d, s, n)]: move [n] bytes from [s] in stack to [d] in data. *)
Fixpoint dt_mvs_loop (i : nat) (d s : Z) : M unit :=
  match i with
  | O => skip
  | S i' =>
      ch_dt_prot d ;;
      ch_st_prot s ;;
      b ← stack_loc s; set_data_loc d b ;;
      x ← st_sh s; set_dt_sh d (Z.ldiff x SH_PROT) ;;
      dt_mvs_loop i' (d +p 1) (s +p 1)
  end.
Definition dt_mvs (d s n : Z) : M unit :=
  ch_in_stack s n ;;
  ch_wordaligned s ;;
  ch_in_data d n ;;
  ch_wordaligned d ;;
  dt_mvs_loop (Z.to_nat n) d s.

End Data.

(** ** The heap pointer: specification *)
Section HeapPointer.
Context {cfg : Config} {ok : ConfigOk}.

(** [clear_data a n s]: the shadow bytes of [a .. a+n-1] are undefined. *)
Definition clear_data (a : Z) (n : nat) (s : state) : state :=
  set_data (set_shad (fill (shad (data s)) a UNDEFINED n) (data s)) s.

Lemma dt_clear_loop_run n : forall a s,
  0 <= a -> a + Z.of_nat n <= alloc (data s) -> alloc (data s) < 2 ^ 64 ->
  dt_clear_loop n a s = Ret tt (clear_data a n s).
Proof.
  induction n as [|n IH]; intros a s Ha Hhi Hal; cbn [dt_clear_loop].
  - unfold clear_data. by destruct s as [?????????????? [? ? ?] ?????????????].
  - run. unfold dt_undef, set_dt_sh, data_valid.
    replace ((_ <=? _) && (_ <? _)) with true by lia.
    rewrite padd_small by lia. rewrite IH by (cbn; lia). done.
Qed.

(** Past the end of the array. *)
Lemma dt_clear_loop_overrun n : forall a s,
  0 <= a -> 0 < Z.of_nat n -> alloc (data s) < a + Z.of_nat n -> alloc (data s) < 2 ^ 63 ->
  dt_clear_loop n a s = Undef.
Proof.
  induction n as [|n IH]; intros a s Ha Hn Hhi Hal; [lia|]. cbn [dt_clear_loop].
  unfold bind, dt_undef, set_dt_sh, data_valid. destruct (_ && _) eqn:E; [|done].
  rewrite padd_small by lia. apply IH; cbn; lia.
Qed.

(** [s] with its heap extended up to [p]. *)
Definition grow_heap (p : Z) (s : state) : state :=
  set_HP p (clear_data (HP s) (Z.to_nat (p - HP s))
    (if HL s <? p
     then set_data (set_alloc (allocfrac p) (data s)) (set_HL (allocfrac p - 1) s)
     else s)).

(** An array of 4 GB or more is allocated too small, and clearing the new part of the
    heap runs past its end. *)
Definition newHP_result (p : Z) (s : state) : result unit :=
  if p <? HB then Trap EHEAP (warned WHPGDA s)
  else if in_stack p s then Trap EHEAP (warned WHPSTACK s)
  else if negb (p mod wsize =? 0) then Trap EHEAP (warned WHPODD s)
  else if negb (maxheap =? 0) && (u64 maxheap <? p - HB) then Trap EHEAP (warned WEHEAP s)
  else if (HL s <? p) && (2 ^ 32 <=? allocfrac p) then Undef
  else Ret tt (grow_heap p s).

Lemma allocfrac_bounds p : 0 <= p -> p <= allocfrac p <= 2 * p /\ (2 <= p -> p < allocfrac p).
Proof. intros. unfold allocfrac. Z.quot_rem_to_equations; lia. Qed.

Lemma newHP_spec p s :
  Inv s -> is_ptr p -> newHP p s = newHP_result p s.
Proof.
  intros Hs Hp. unfold is_ptr in Hp. pose proof ok_HB.
  pose proof (inv_HP s Hs). pose proof (inv_HL s Hs). pose proof (inv_data_alloc s Hs).
  unfold newHP, newHP_result. cbv zeta. rewrite <- wordaligned_mod. unfold in_gda. run.
  destruct (Z.ltb_spec p HB); run; [by rewrite wtrap_trap|].
  destruct (in_stack p s); run; [by rewrite wtrap_trap|].
  destruct (is_wordaligned p); run; [|by rewrite wtrap_trap].
  rewrite (u64_small (p - HB)) by lia.
  pose proof (allocfrac_bounds p ltac:(lia)).
  assert (Hrest : (hl ← gets HL;
    when (hl <? p)
     (modify (set_HL (u64 (allocfrac p - 1))) ;;
      hl ← gets HL; realloc_data (hl + 1)) ;;
    hp ← gets HP;
    when (hp <? p) (dt_clear_area hp p) ;;
    modify (set_HP p)) s =
    if (HL s <? p) && (2 ^ 32 <=? allocfrac p) then Undef else Ret tt (grow_heap p s)).
  { unfold grow_heap, realloc_data, dt_clear_area. rewrite u64_small by lia. run.
    assert (Hclear : forall s1, HP s1 = HP s -> p <= alloc (data s1) < 2 ^ 64 ->
      when (HP s <? p) (dt_clear_loop (Z.to_nat (p - HP s)) (HP s)) s1
      = Ret tt (clear_data (HP s) (Z.to_nat (p - HP s)) s1)).
    { intros s1 E Hal. destruct (Z.ltb_spec (HP s) p); run.
      - apply dt_clear_loop_run; lia.
      - replace (Z.to_nat (p - HP s)) with 0%nat by lia. unfold clear_data. cbn.
        by destruct s1 as [?????????????? [? ? ?] ?????????????]. }
    destruct (Z.ltb_spec (HL s) p); run.
    - change (HP (set_data _ _)) with (HP s). cbn [andb HL set_HL]. rewrite Z.sub_add.
      destruct (Z.leb_spec (2 ^ 32) (allocfrac p)).
      + rewrite malloc_size_wraps by lia. replace (HP s <? p) with true by lia. cbn [when].
        by rewrite dt_clear_loop_overrun by (cbn; lia).
      + rewrite malloc_size_small by lia. rewrite Hclear; [done|done|cbn; lia].
    - rewrite Hclear; [done|done|lia]. }
  run in Hrest. destruct (maxheap =? 0); run; [by rewrite Hrest; destruct (_ && _)|].
  destruct (u64 maxheap <? p - HB); run; [by rewrite warning_ret | by rewrite Hrest; destruct (_ && _)].
Qed.

Lemma Inv_grow_heap p s :
  Inv s -> is_ptr p -> HB <= p -> p mod wsize = 0 -> p <= HL s \/ allocfrac p < 2 ^ 32 -> Inv (grow_heap p s).
Proof.
  intros Hs Hp Hlo Hal Hfit. unfold is_ptr in Hp. pose proof ok_HB.
  assert (2 <= p).
  { destruct ok_wsize as [E|E]; rewrite E in Hal; Z.to_euclidean_division_equations; lia. }
  pose proof (allocfrac_bounds p ltac:(lia)).
  unfold grow_heap, clear_data. destruct Hs.
  destruct (Z.ltb_spec (HL s) p); constructor; cbn; auto; lia.
Qed.

Lemma keeps_newHP p : is_ptr p -> keeps (newHP p) any.
Proof.
  intros Hp s Hs. unfold wp. rewrite newHP_spec by done. unfold newHP_result.
  destruct (Z.ltb_spec p HB); [by apply Inv_warned|].
  destruct (in_stack p s); [by apply Inv_warned|].
  destruct (Z.eqb_spec (p mod wsize) 0) as [Hal|]; [|by apply Inv_warned]. cbn [negb].
  destruct (_ && _); [by apply Inv_warned|].
  destruct (_ && _) eqn:E; [done|].
  split; [done|]. apply Inv_grow_heap; [done..|lia].
Qed.
End HeapPointer.

(** ** The data routines preserve the invariant *)
Section Keeps.
Context {cfg : Config}.

Lemma keeps_dt_st_loop i : forall addr l sh, keeps (dt_st_loop i addr l sh) any.
Proof. induction i as [|i IH]; intros; cbn [dt_st_loop]; keeps_tac. Qed.
#[local] Hint Resolve keeps_dt_st_loop : keeps.
Lemma keeps_dt_stdp addr ap : keeps (dt_stdp addr ap) any.
Proof. unfold dt_stdp. keeps_tac. Qed.
Lemma keeps_dt_stip addr ap : keeps (dt_stip addr ap) any.
Proof. unfold dt_stip. keeps_tac. Qed.
Lemma keeps_dt_stn addr al n : keeps (dt_stn addr al n) any.
Proof. unfold dt_stn. keeps_tac. Qed.
Lemma keeps_dt_stw addr al : keeps (dt_stw addr al) any.
Proof. unfold dt_stw. keeps_tac. Qed.

Lemma keeps_dt_bits_loop n : forall addr o a, keeps (dt_bits_loop n addr o a) any.
Proof. induction n as [|n IH]; intros; cbn [dt_bits_loop]; keeps_tac. Qed.
Lemma keeps_warn_bits o a : keeps (warn_bits o a) any.
Proof. unfold warn_bits. keeps_tac. Qed.
#[local] Hint Resolve keeps_dt_bits_loop keeps_warn_bits : keeps.
Lemma keeps_warn_dtbits addr n : keeps (warn_dtbits addr n) any.
Proof. unfold warn_dtbits. keeps_tac. Qed.
#[local] Hint Resolve keeps_warn_dtbits : keeps.

Lemma keeps_dt_lddp addr : keeps (dt_lddp addr) is_ptr.
Proof. unfold dt_lddp. keeps_tac. Qed.
Lemma keeps_dt_ldip addr : keeps (dt_ldip addr) is_ptr.
Proof. unfold dt_ldip. keeps_tac. Qed.
Lemma keeps_dt_ldu_loop i : forall addr u, is_u64 u -> keeps (dt_ldu_loop i addr u) is_u64.
Proof. induction i as [|i IH]; intros; cbn [dt_ldu_loop]; keeps_tac. Qed.
Lemma is_u64_0 : is_u64 0.
Proof. done. Qed.
#[local] Hint Resolve keeps_dt_ldu_loop is_u64_0 : keeps.
Lemma keeps_dt_lds_loop i : forall addr l, keeps (dt_lds_loop i addr l) any.
Proof. induction i as [|i IH]; intros; cbn [dt_lds_loop]; keeps_tac. Qed.
#[local] Hint Resolve keeps_dt_lds_loop : keeps.
Lemma keeps_dt_ldu addr n : keeps (dt_ldu addr n) is_u64.
Proof. unfold dt_ldu. keeps_tac. Qed.
Lemma keeps_dt_lduw addr : keeps (dt_lduw addr) is_u64.
Proof. unfold dt_lduw. keeps_tac. Qed.
Lemma keeps_dt_lds addr n : keeps (dt_lds addr n) any.
Proof. unfold dt_lds. keeps_tac. Qed.
Lemma keeps_dt_ldsw addr : keeps (dt_ldsw addr) any.
Proof. unfold dt_ldsw. keeps_tac. Qed.

Lemma keeps_dt_mvd_loop i : forall d2 d1, keeps (dt_mvd_loop i d2 d1) any.
Proof. induction i as [|i IH]; intros; cbn [dt_mvd_loop]; keeps_tac. Qed.
Lemma keeps_dt_mvs_loop i : forall d s, keeps (dt_mvs_loop i d s) any.
Proof. induction i as [|i IH]; intros; cbn [dt_mvs_loop]; keeps_tac. Qed.
#[local] Hint Resolve keeps_dt_mvd_loop keeps_dt_mvs_loop : keeps.
Lemma keeps_dt_mvd d2 d1 n : keeps (dt_mvd d2 d1 n) any.
Proof. unfold dt_mvd. keeps_tac. Qed.
Lemma keeps_dt_mvs d s n : keeps (dt_mvs d s n) any.
Proof. unfold dt_mvs. keeps_tac. Qed.
End Keeps.

#[export] Hint Resolve keeps_newHP keeps_dt_stdp keeps_dt_stip keeps_dt_stn keeps_dt_stw
  keeps_warn_bits keeps_dt_lddp keeps_dt_ldip keeps_dt_ldu keeps_dt_lduw keeps_dt_lds keeps_dt_ldsw
  keeps_dt_mvd keeps_dt_mvs is_u64_0 : keeps.

(** ** The heap pointer: theorems *)
Section Contract.
Context {cfg : Config} {ok : ConfigOk}.

(** NewHP accepts a heap pointer exactly when it does not lie in the global
    data area or in the stack, is word aligned and keeps the heap within its
    maximum size, and traps with EHEAP otherwise; when it accepts, and the data area
    stays below 4 GB, this is reallocated if needed, no byte of it changes, the bytes that are new to the
    heap are undefined, and the invariant holds. *)
Theorem newHP_contract p s :
  Inv s -> is_ptr p ->
  newHP p s = newHP_result p s /\
  forall s', newHP p s = Ret tt s' ->
    Inv s' /\ HP s' = p /\ SP s' = SP s /\ stack s' = stack s /\
    (forall a, mget (bytes (data s')) a = mget (bytes (data s)) a) /\
    (forall a, a < HP s -> mget (shad (data s')) a = mget (shad (data s)) a) /\
    (forall a, HP s <= a < p -> mget (shad (data s')) a = UNDEFINED).
Proof.
  intros Hs Hp. split; [by apply newHP_spec|]. intros s' E.
  pose proof (keeps_newHP p Hp s Hs) as Hk. unfold wp in Hk. rewrite E in Hk. destruct Hk as [_ Hi].
  split; [done|]. rewrite newHP_spec in E by done. unfold newHP_result in E.
  destruct (p <? HB); [done|]. destruct (in_stack p s); [done|]. destruct (negb _); [done|].
  destruct (_ && _); [done|]. destruct (_ && _); [done|]. injection E as <-. unfold grow_heap, clear_data. cbn -[fill].
  split_and!; try (by destruct (HL s <? p)); intros a Ha; rewrite fill_lookup.
  - replace (_ && _) with false by lia. by destruct (HL s <? p).
  - by replace (_ && _) with true by lia.
Qed.
End Contract.
