(* ===== verification/Stack.v ===== *)
(** * Stack manipulation routines ([stack.c])

    The stack pointer and the local base, typed stores and loads in the stack,
    block moves, pops and pushes; and the address-dependent operations of
    [mem.h]. *)
From Stdlib Require Import ZArith Lia Bool.
From stdpp Require Import base gmap list.
From S2P Require Import Prelude Machine Warn Mem Wp Data.

Section Stack.
Context {cfg : Config}.

(** [st_clear_area(from, to)]: from [from] down to [to], both included.  The
    index is unsigned: with [to = 0] the loop never ends. *)
Fixpoint st_clear_loop (i : nat) (a : Z) : M unit :=
  match i with
  | O => skip
  | S i' => st_undef a ;; st_clear_loop i' (a +p -1)
  end.
Definition st_clear_area (from to : Z) : M unit :=
  if to =? 0 then undef else st_clear_loop (Z.to_nat (from - to + 1)) from.

Definition realloc_stack (n : Z) : M unit :=
  modify (fun s => set_stack (set_alloc (malloc_size n) (stack s)) s).

(** [newSP(ap)]: check and adjust the stack pointer. *)
Definition newSP (ap : Z) : M unit :=
  let p := ap in
  lb ← gets LB;
  when (lb <? p) (wtrap WSPGTLB ESTACK) ;;
  when (negb (is_wordaligned p)) (wtrap WSPODD ESTACK) ;;
  sp ← gets SP;
  when (p <? sp)
    (hp ← gets HP;
     when (p <? hp) (wtrap WSPINHEAP ESTACK) ;;
     when (negb (maxstack =? 0))
       (when (u64 maxstack <? u64 (ML - p)) (warning WESTACK ;; trap ESTACK)) ;;
     sl ← gets SL;
     when (p <? sl)
       (let stacksize := allocfrac (s64 (u64 (ML + 1 - p))) in
        modify (set_SL (u64 (ML + 1 - stacksize))) ;;
        realloc_stack stacksize) ;;
     st_clear_area (sp +p -1) p) ;;
  modify (set_SP p).

(** The inline version of [st_clear_area] in [incSP]; counting down from a negative
    number it runs off the stack. *)
Fixpoint st_clear_up (n : nat) (p : Z) : M unit :=
  match n with
  | O => skip
  | S n' => st_undef p ;; st_clear_up n' (p +p 1)
  end.

Definition incSP (n : Z) : M unit :=
  sp ← gets SP; hp ← gets HP; sl ← gets SL;
  let p := sp +p - n in
  if (p <? hp) || negb (maxstack =? 0) || (p <? sl) then newSP p
  else modify (set_SP p) ;; (if n <? 0 then undef else st_clear_up (Z.to_nat n) p).

Definition decSP (n : Z) : M unit :=
  sp ← gets SP; lb ← gets LB;
  let p := sp +p n in
  if lb <? p then newSP p else modify (set_SP p).

(** [st_inc(n)] and [st_dec(n)] of [mem.h]. *)
Definition st_inc (n : Z) : M unit := sp ← gets SP; newSP (sp +p - n).
Definition st_dec (n : Z) : M unit := sp ← gets SP; newSP (sp +p n).

(** ** Stores *)
Fixpoint st_st_loop (i : nat) (addr l sh : Z) : M unit :=
  match i with
  | O => skip
  | S i' =>
      ch_st_prot addr ;;
      set_stack_loc addr (char l) ;;
      set_st_sh addr sh ;;
      st_st_loop i' (addr +p 1) (Z.shiftr l 8) sh
  end.

Definition st_stdp (addr ap : Z) : M unit :=
  ch_in_stack addr psize ;;
  ch_wordaligned addr ;;
  st_st_loop (Z.to_nat psize) addr ap SH_DATAP.

Definition st_stip (addr ap : Z) : M unit :=
  ch_in_stack addr psize ;;
  ch_wordaligned addr ;;
  st_st_loop (Z.to_nat psize) addr ap SH_INSP.

Definition st_stn (addr al n : Z) : M unit :=
  ch_in_stack addr n ;;
  ch_aligned addr n ;;
  st_st_loop (Z.to_nat n) addr al (sh_flags al n).

Definition st_stw (addr al : Z) : M unit :=
  ch_w_in_stack addr ;;
  ch_wordaligned addr ;;
  st_st_loop (Z.to_nat wsize) addr al (sh_flags al wsize).

(** ** Loads *)
Fixpoint st_bits_loop (n : nat) (addr or_bits and_bits : Z) : M (Z * Z) :=
  match n with
  | O => ret (or_bits, and_bits)
  | S n' =>
      x ← st_sh addr;
      st_bits_loop n' (addr +p 1) (Z.lor or_bits (s8 x)) (Z.land and_bits (s8 x))
  end.
Definition warn_stbits (addr n : Z) : M unit :=
  ob ← st_bits_loop (Z.to_nat n) addr 0 0xff;
  warn_bits ob.1 ob.2.

Definition st_lddp (addr : Z) : M Z :=
  ch_in_stack addr psize ;;
  ch_wordaligned addr ;;
  b ← is_st_set addr psize SH_DATAP;
  when (negb b) (warning WLDPEXP ;; warn_stbits addr psize) ;;
  p_in_stack addr.

Definition st_ldip (addr : Z) : M Z :=
  ch_in_stack addr psize ;;
  ch_wordaligned addr ;;
  b ← is_st_set addr psize SH_INSP;
  when (negb b) (warning WLIPEXP ;; warn_stbits addr psize) ;;
  p_in_stack addr.

Fixpoint st_ldu_loop (i : nat) (addr u : Z) : M Z :=
  match i with
  | O => ret u
  | S i' =>
      b ← stack_loc addr;
      st_ldu_loop i' (addr +p -1) (u64 (Z.lor (Z.shiftl u 8) b))
  end.
Fixpoint st_lds_loop (i : nat) (addr l : Z) : M Z :=
  match i with
  | O => ret l
  | S i' =>
      b ← stack_loc addr;
      st_lds_loop i' (addr +p -1) (s64 (Z.lor (Z.shiftl l 8) b))
  end.

Definition st_ldu (addr n : Z) : M Z :=
  ch_in_stack addr n ;;
  ch_aligned addr n ;;
  b ← is_st_set addr n SH_INT;
  when (negb b)
    (warning (if n =? 1 then WLCEXP else WLIEXP) ;; warn_stbits addr n) ;;
  st_ldu_loop (Z.to_nat n) (addr +p (n - 1)) 0.

Definition st_lduw (addr : Z) : M Z :=
  ch_w_in_stack addr ;;
  ch_wordaligned addr ;;
  b ← is_st_set addr wsize SH_INT;
  when (negb b) (warning WLIEXP ;; warn_stbits addr wsize) ;;
  st_ldu_loop (Z.to_nat wsize) (addr +p (wsize - 1)) 0.

Definition st_lds (addr n : Z) : M Z :=
  ch_in_stack addr n ;;
  ch_aligned addr n ;;
  b ← is_st_set addr n SH_INT;
  when (negb b)
    (warning (if n =? 1 then WLCEXP else WLIEXP) ;; warn_stbits addr n) ;;
  let addr := addr +p (n - 2) in
  l ← stack_loc (addr +p 1);
  st_lds_loop (Z.to_nat (n - 1)) addr (s8 l).

Definition st_ldsw (addr : Z) : M Z :=
  ch_w_in_stack addr ;;
  ch_wordaligned addr ;;
  b ← is_st_set addr wsize SH_INT;
  when (negb b) (warning WLIEXP ;; warn_stbits addr wsize) ;;
  let addr := addr +p (wsize - 2) in
  l ← stack_loc (addr +p 1);
  st_lds_loop (Z.to_nat (wsize - 1)) addr (s8 l).

(** ** The Return Status Block code test [is_LB] ([rsb.h]) and [newLB] *)
Definition RSBMASK := 0xfff0.
Definition RSBCODE := 0x2b90.
Definition RSB_STP := RSBCODE + 1.
Definition RSB_CAL := RSBCODE + 2.
Definition RSB_RTT := RSBCODE + 3.
Definition RSB_NRT := RSBCODE + 4.

Definition is_LB (p : Z) : M bool :=
  l ← st_lds (p +p rsb_rsbcode) wsize;
  ret (Z.land l RSBMASK =? RSBCODE).

Definition newLB (p : Z) : M unit :=
  b ← gets (in_stack p);
  when (negb b) (wtrap WLBOUT ESTACK) ;;
  when (negb (is_wordaligned p)) (wtrap WLBODD ESTACK) ;;
  b ← is_LB p;
  when (negb b) (wtrap WLBRSB ESTACK) ;;
  modify (set_LB p) ;;
  modify (fun s => set_AB (LB s +p rsbsize) s).

(** ** Moves *)
Fixpoint st_mvs_loop (i : nat) (s2 s1 : Z) : M unit :=
  match i with
  | O => skip
  | S i' =>
      ch_st_prot s2 ;;
      ch_st_prot s1 ;;
      b ← stack_loc s1; set_stack_loc s2 b ;;
      x ← st_sh s1; set_st_sh s2 (Z.ldiff x SH_PROT) ;;
      st_mvs_loop i' (s2 +p 1) (s1 +p 1)
  end.
Definition st_mvs (s2 s1 n : Z) : M unit :=
  ch_in_stack s1 n ;;
  ch_wordaligned s1 ;;
  ch_in_stack s2 n ;;
  ch_wordaligned s2 ;;
  st_mvs_loop (Z.to_nat n) s2 s1.

Fixpoint st_mvd_loop (i : nat) (s d : Z) : M unit :=
  match i with
  | O => skip
  | S i' =>
      ch_st_prot s ;;
      b ← data_loc d; set_stack_loc s b ;;
      x ← dt_sh d; set_st_sh s (Z.ldiff x SH_PROT) ;;
      st_mvd_loop i' (s +p 1) (d +p 1)
  end.
Definition st_mvd (s d n : Z) : M unit :=
  ch_in_data d n ;;
  ch_wordaligned d ;;
  ch_in_stack s n ;;
  ch_wordaligned s ;;
  st_mvd_loop (Z.to_nat n) s d.

(** ** Pops *)
Definition dppop : M Z :=
  sp ← gets SP; p ← st_lddp sp; decSP psize ;; ret p.
Definition upop (n : Z) : M Z :=
  sp ← gets SP; l ← st_ldu sp n; decSP (Z.max n wsize) ;; ret l.
Definition uwpop : M Z :=
  sp ← gets SP; l ← st_lduw sp; decSP wsize ;; ret l.
Definition spop (n : Z) : M Z :=
  sp ← gets SP; l ← st_lds sp n; decSP (Z.max n wsize) ;; ret l.
Definition swpop : M Z :=
  sp ← gets SP; l ← st_ldsw sp; decSP wsize ;; ret l.
Definition pop_dt (d n : Z) : M unit :=
  if n <? wsize then l ← upop n; dt_stn d l n
  else sp ← gets SP; dt_mvs d sp n ;; decSP n.
Definition popw_dt (d : Z) : M unit :=
  sp ← gets SP; dt_mvs d sp wsize ;; decSP wsize.
Definition pop_st (d n : Z) : M unit :=
  if n <? wsize then l ← upop n; st_stn d l n
  else sp ← gets SP; st_mvs d sp n ;; decSP n.
Definition popw_st (d : Z) : M unit :=
  sp ← gets SP; st_mvs d sp wsize ;; decSP wsize.
(** Pop a word, independently of its type. *)
Definition wpop : M Z :=
  sp ← gets SP; l ← w_in_stack sp; decSP wsize ;; ret l.

(** ** Pushes *)
Definition dppush (p : Z) : M unit :=
  incSP psize ;; sp ← gets SP; st_stdp sp p.
Definition wpush (l : Z) : M unit :=
  incSP wsize ;; sp ← gets SP; st_stw sp l.
Definition npush (l n : Z) : M unit :=
  if n <=? wsize then
    incSP wsize ;;
    let l := if n =? 1 then Z.land l MASK1 else if n =? 2 then Z.land l MASK2 else l in
    sp ← gets SP; st_stw sp l
  else
    incSP n ;; sp ← gets SP; st_stn sp l n.
Definition push_dt (d n : Z) : M unit :=
  if n <? wsize then l ← dt_ldu d n; npush l n
  else incSP n ;; sp ← gets SP; st_mvd sp d n.
Definition pushw_dt (d : Z) : M unit :=
  incSP wsize ;; sp ← gets SP; st_mvd sp d wsize.
Definition push_st (d n : Z) : M unit :=
  if n <? wsize then l ← st_ldu d n; npush l n
  else incSP n ;; sp ← gets SP; st_mvs sp d n.
Definition pushw_st (d : Z) : M unit :=
  incSP wsize ;; sp ← gets SP; st_mvs sp d wsize.

(** ** Address-depending memory defines ([mem.h]) *)
Definition mem_lddp (a : Z) : M Z := b ← gets (in_stack a); if b : bool then st_lddp a else dt_lddp a.
Definition mem_ldip (a : Z) : M Z := b ← gets (in_stack a); if b : bool then st_ldip a else dt_ldip a.
Definition mem_ldu (a n : Z) : M Z := b ← gets (in_stack a); if b : bool then st_ldu a n else dt_ldu a n.
Definition mem_lds (a n : Z) : M Z := b ← gets (in_stack a); if b : bool then st_lds a n else dt_lds a n.
Definition push_m (a n : Z) : M unit := b ← gets (in_stack a); if b : bool then push_st a n else push_dt a n.
Definition pushw_m (a : Z) : M unit := b ← gets (in_stack a); if b : bool then pushw_st a else pushw_dt a.
Definition pop_m (a n : Z) : M unit := b ← gets (in_stack a); if b : bool then pop_st a n else pop_dt a n.
Definition popw_m (a : Z) : M unit := b ← gets (in_stack a); if b : bool then popw_st a else popw_dt a.

End Stack.

(** ** The stack pointer: specification, fast paths, invariant *)
Section StackPointer.
Context {cfg : Config} {ok : ConfigOk}.

(** [clear_stack p n s]: the shadow bytes of [p .. p+n-1] are undefined. *)
Definition clear_stack (p : Z) (n : nat) (s : state) : state :=
  set_stack (set_shad (fill (shad (stack s)) p UNDEFINED n) (stack s)) s.

Lemma st_clear_loop_run n : forall p s,
  1 <= p -> ML + 1 - alloc (stack s) <= p -> p + Z.of_nat n <= ML + 1 ->
  st_clear_loop n (p + Z.of_nat n - 1) s = Ret tt (clear_stack p n s).
Proof.
  pose proof ML_range as HML.
  induction n as [|n IH]; intros p s Hp Hlo Hhi; cbn [st_clear_loop].
  - unfold clear_stack. by destruct s as [???????????????? [? ? ?] ??????????].
  - unfold bind, st_undef, set_st_sh, stack_valid.
    replace ((_ <=? _) && (_ <=? _)) with true by lia.
    rewrite padd_small by lia.
    replace (p + Z.of_nat (S n) - 1 + -1) with (p + Z.of_nat n - 1) by lia.
    rewrite IH by (cbn; lia). unfold clear_stack. cbn -[fill].
    rewrite fill_S_last. replace (p + Z.of_nat (S n) - 1) with (p + Z.of_nat n) by lia. done.
Qed.

Lemma st_clear_area_run from to s :
  1 <= to -> ML + 1 - alloc (stack s) <= to -> to <= from + 1 -> from <= ML ->
  st_clear_area from to s = Ret tt (clear_stack to (Z.to_nat (from - to + 1)) s).
Proof.
  intros. unfold st_clear_area. replace (to =? 0) with false by lia.
  rewrite <- st_clear_loop_run by lia. f_equal. lia.
Qed.

Lemma st_clear_up_run n : forall p s,
  0 <= p -> ML + 1 - alloc (stack s) <= p -> p + Z.of_nat n <= ML + 1 ->
  st_clear_up n p s = Ret tt (clear_stack p n s).
Proof.
  pose proof ML_range as HML.
  induction n as [|n IH]; intros p s Hp Hlo Hhi; cbn [st_clear_up].
  - unfold clear_stack. by destruct s as [???????????????? [? ? ?] ??????????].
  - unfold bind, st_undef, set_st_sh, stack_valid.
    replace ((_ <=? _) && (_ <=? _)) with true by lia.
    rewrite padd_small by lia. rewrite IH by (cbn; lia). done.
Qed.

(** What [newSP] demands of a lower stack pointer. *)
Definition has_room (p : Z) (s : state) : bool :=
  (HP s <=? p) && ((maxstack =? 0) || (u64 (ML - p) <=? u64 maxstack)).

(** [s] with its stack extended down to [p]: the space is reallocated when it is
    too small, and the new bytes are undefined. *)
Definition stacksize (p : Z) : Z := allocfrac (ML + 1 - p).
Definition extend (p : Z) (s : state) : state :=
  clear_stack p (Z.to_nat (SP s - p))
    (if p <? SL s
     then set_stack (set_alloc (stacksize p) (stack s)) (set_SL (u64 (ML + 1 - stacksize p)) s)
     else s).
Definition grow (p : Z) (s : state) : state := set_SP p (extend p s).

Lemma stacksize_ge p : p <= ML + 1 -> ML + 1 - p <= stacksize p.
Proof. intros. unfold stacksize, allocfrac. Z.quot_rem_to_equations; lia. Qed.

(** The whole stack fits in a host array. *)
Lemma stacksize_range p : 0 <= p <= ML + 1 -> 0 <= stacksize p < 2 ^ 32.
Proof. intros. pose proof ML_range. unfold stacksize, allocfrac. Z.quot_rem_to_equations; lia. Qed.

Lemma SL_covers s p :
  Inv s -> 0 <= p -> p <= ML + 1 -> SL s <= p -> ML + 1 - p <= alloc (stack s).
Proof.
  intros Hs Hp Hp' HSL. rewrite (inv_SL s Hs) in HSL. pose proof ML_range.
  destruct (Z.leb_spec (alloc (stack s)) (ML + 1)); [|lia].
  pose proof (inv_stack s Hs). pose proof (inv_SP s Hs). pose proof (inv_LB s Hs).
  rewrite u64_small in HSL; lia.
Qed.

Definition newSP_result (p : Z) (s : state) : result unit :=
  if LB s <? p then Trap ESTACK (warned WSPGTLB s)
  else if negb (p mod wsize =? 0) then Trap ESTACK (warned WSPODD s)
  else if SP s <=? p then Ret tt (set_SP p s)
  else if p <? HP s then Trap ESTACK (warned WSPINHEAP s)
  else if has_room p s then Ret tt (grow p s)
  else Trap ESTACK (warned WESTACK s).

Lemma newSP_spec p s : Inv s -> newSP p s = newSP_result p s.
Proof.
  intros Hs. unfold newSP, newSP_result, has_room. cbv zeta.
  pose proof (inv_SP s Hs). pose proof (inv_LB s Hs). pose proof (inv_HP s Hs).
  pose proof ok_HB. pose proof ML_range.
  rewrite <- wordaligned_mod.
  run. destruct (Z.ltb_spec (LB s) p); run; [by rewrite wtrap_trap|].
  destruct (is_wordaligned p); run; [|by rewrite wtrap_trap].
  rewrite Z.ltb_antisym. destruct (Z.leb_spec (SP s) p); run; [done|].
  rewrite Z.ltb_antisym. destruct (Z.leb_spec (HP s) p); run; [|by rewrite wtrap_trap].
  rewrite (u64_small (ML - p)) by lia.
  assert (Hclear : forall s1, SP s1 = SP s -> ML + 1 - p <= alloc (stack s1) ->
    st_clear_area (SP s +p -1) p s1 = Ret tt (clear_stack p (Z.to_nat (SP s - p)) s1)).
  { intros s1 E Hcov. rewrite padd_small, st_clear_area_run by lia. do 2 f_equal. lia. }
  assert (Hrest : (sl ← gets SL;
     when (p <? sl)
       (let stacksize := allocfrac (s64 (u64 (ML + 1 - p))) in
        modify (set_SL (u64 (ML + 1 - stacksize))) ;; realloc_stack stacksize) ;;
     st_clear_area (SP s +p -1) p) s = Ret tt (extend p s)).
  { cbv zeta. unfold s64.
    rewrite (u64_small (ML + 1 - p)), (sext_small 64) by lia. change (allocfrac (ML + 1 - p)) with (stacksize p).
    unfold extend, realloc_stack. run.
    destruct (Z.ltb_spec p (SL s)); run.
    - rewrite malloc_size_small by (by apply stacksize_range; lia).
      rewrite Hclear; [done|done|]. cbn. apply stacksize_ge. lia.
    - rewrite Hclear; [done|done|]. apply SL_covers; done || lia. }
  run in Hrest. destruct (maxstack =? 0); run.
  - by rewrite Hrest.
  - rewrite Z.ltb_antisym. destruct (ML - p <=? u64 maxstack); run; [by rewrite Hrest|].
    by rewrite warning_ret.
Qed.

Lemma Inv_set_SP p s : Inv s -> SP s <= p <= LB s -> p mod wsize = 0 -> Inv (set_SP p s).
Proof. intros Hs. destruct Hs. constructor; cbn; auto; lia. Qed.

Lemma Inv_grow p s :
  Inv s -> HP s <= p < SP s -> p mod wsize = 0 -> Inv (grow p s).
Proof.
  intros Hs Hp Hal. pose proof ok_HB. pose proof ML_range.
  assert (Hcov : p <= ML + 1) by (destruct Hs; lia).
  pose proof (SL_covers s p Hs). pose proof (stacksize_ge p Hcov).
  unfold grow, extend, clear_stack.
  destruct Hs. destruct (Z.ltb_spec p (SL s)); constructor; cbn; auto; lia.
Qed.

Lemma keeps_newSP p : keeps (newSP p) any.
Proof.
  intros s Hs. unfold wp. rewrite newSP_spec by done. unfold newSP_result.
  destruct (Z.ltb_spec (LB s) p); [by apply Inv_warned|].
  destruct (Z.eqb_spec (p mod wsize) 0); cbn [negb]; [|by apply Inv_warned].
  destruct (Z.leb_spec (SP s) p); [split; [done|]; by apply Inv_set_SP|].
  destruct (Z.ltb_spec p (HP s)); [by apply Inv_warned|].
  destruct (has_room p s); [|by apply Inv_warned].
  split; [done|]. by apply Inv_grow.
Qed.

(** The inline fast path of [incSP] and [decSP] is [newSP]. *)
Lemma incSP_newSP n s :
  Inv s -> 0 <= n -> n mod wsize = 0 -> n <= SP s -> incSP n s = newSP (SP s - n) s.
Proof.
  intros Hs Hn Hal Hle. pose proof ML_range.
  pose proof (inv_SP s Hs). pose proof (inv_LB s Hs).
  unfold incSP. cbv zeta. run. unfold padd. rewrite u64_small by lia.
  change (SP s + - n) with (SP s - n).
  destruct (_ || _) eqn:E; [done|]. run.
  rewrite newSP_spec by done. unfold newSP_result, has_room.
  replace (LB s <? SP s - n) with false by lia.
  assert ((SP s - n) mod wsize = 0) as ->.
  { rewrite Zminus_mod, (inv_SP_aligned s Hs), Hal. apply Z.mod_0_l. pose proof ok_wsize; lia. }
  replace (SP s - n <? HP s) with false by lia.
  replace (maxstack =? 0) with true by lia.
  replace (HP s <=? SP s - n) with true by lia. run.
  replace (n <? 0) with false by lia. rewrite st_clear_up_run; [|lia| |cbn; lia].
  - unfold grow, extend. replace (SP s - n <? SL s) with false by lia.
    destruct (Z.leb_spec (SP s) (SP s - n)); [|by replace (SP s - (SP s - n)) with n by lia].
    assert (n = 0) as -> by lia. unfold clear_stack. cbn.
    by destruct s as [???????????????? [? ? ?] ??????????].
  - cbn. pose proof (SL_covers s (SP s - n) Hs). lia.
Qed.

Lemma decSP_newSP n s :
  Inv s -> 0 <= n < 2 ^ 63 -> n mod wsize = 0 -> decSP n s = newSP (SP s + n) s.
Proof.
  intros Hs Hn Hal. pose proof ML_range.
  pose proof (inv_SP s Hs). pose proof (inv_LB s Hs).
  unfold decSP. cbv zeta. run. rewrite padd_small by lia.
  destruct (Z.ltb_spec (LB s) (SP s + n)); [done|]. run.
  rewrite newSP_spec by done. unfold newSP_result.
  replace (LB s <? SP s + n) with false by lia.
  assert ((SP s + n) mod wsize = 0) as ->.
  { rewrite Zplus_mod, (inv_SP_aligned s Hs), Hal. apply Z.mod_0_l. pose proof ok_wsize; lia. }
  by replace (SP s <=? SP s + n) with true by lia.
Qed.

(** A stack that cannot hold [n] bytes: the new stack pointer wraps around, and
    the fast path clears bytes outside the stack. *)
Lemma keeps_incSP n :
  0 <= n < 2 ^ 62 -> n mod wsize = 0 -> keeps (incSP n) any.
Proof.
  intros Hn Hal s Hs. pose proof ML_range.
  pose proof (inv_SP s Hs). pose proof (inv_LB s Hs).
  destruct (Z.leb_spec n (SP s)).
  { unfold wp. rewrite incSP_newSP by (done || lia). by apply keeps_newSP. }
  unfold wp, incSP. cbv zeta. run. unfold padd, u64.
  replace ((SP s + - n) mod 2 ^ 64) with (SP s - n + 2 ^ 64)
    by (rewrite <- (Z_mod_plus_full _ 1), Z.mod_small; lia).
  destruct (_ || _) eqn:E; [by apply keeps_newSP|]. run. replace (n <? 0) with false by lia.
  destruct (Z.to_nat n) as [|k] eqn:Ek; [lia|]. cbn [st_clear_up]. run.
  unfold st_undef, set_st_sh, stack_valid.
  by replace ((_ <=? _) && (_ <=? _)) with false by lia.
Qed.
Lemma keeps_decSP n : 0 <= n < 2 ^ 62 -> n mod wsize = 0 -> keeps (decSP n) any.
Proof.
  intros Hn Hal s Hs. unfold wp. rewrite decSP_newSP by (done || lia). by apply keeps_newSP.
Qed.
Lemma keeps_st_inc n : keeps (st_inc n) any.
Proof. unfold st_inc. eapply keeps_bind; [apply keeps_gets | intros; apply keeps_newSP]. Qed.
Lemma keeps_st_dec n : keeps (st_dec n) any.
Proof. unfold st_dec. eapply keeps_bind; [apply keeps_gets | intros; apply keeps_newSP]. Qed.
End StackPointer.

(** ** The stack routines preserve the invariant *)

(** The sizes of objects that pops and pushes are called with. *)
Definition obj_size {cfg : Config} (n : Z) : Prop :=
  0 <= n < 2 ^ 62 /\ (n < wsize \/ n mod wsize = 0).

#[export] Hint Resolve keeps_newSP keeps_st_inc keeps_st_dec : keeps.

Section Keeps.
Context {cfg : Config} {ok : ConfigOk}.

Lemma wsize_mod : wsize mod wsize = 0.
Proof. sizes; done. Qed.
Lemma obj_size_psize : obj_size psize.
Proof. split; [|right; apply psize_aligned]. sizes; lia. Qed.
Lemma obj_size_wsize : obj_size wsize.
Proof. split; [|right; apply wsize_mod]. sizes; lia. Qed.
Lemma obj_size_dwsize : obj_size dwsize.
Proof. unfold dwsize. split; [|right]; sizes; done. Qed.
#[local] Hint Resolve obj_size_psize obj_size_wsize obj_size_dwsize : keeps.

Lemma keeps_incSP_obj n : obj_size n -> wsize <= n -> keeps (incSP n) any.
Proof. intros [? [?|?]] ?; [lia|]. by apply keeps_incSP. Qed.
Lemma keeps_incSP_wsize : keeps (incSP wsize) any.
Proof. apply keeps_incSP_obj; [apply obj_size_wsize | lia]. Qed.
Lemma keeps_incSP_psize : keeps (incSP psize) any.
Proof. apply keeps_incSP_obj; [apply obj_size_psize | apply ok_sizes]. Qed.
Lemma keeps_decSP_max n : obj_size n -> keeps (decSP (Z.max n wsize)) any.
Proof.
  intros [? Hn]. pose proof obj_size_wsize as [? _]. apply keeps_decSP; [lia|].
  destruct (Z.max_spec n wsize) as [[? ->]|[? ->]]; [apply wsize_mod|].
  destruct Hn; [lia | done].
Qed.
Lemma keeps_decSP_obj n : obj_size n -> wsize <= n -> keeps (decSP n) any.
Proof. intros [? [?|?]] ?; [lia|]. by apply keeps_decSP. Qed.
Lemma keeps_decSP_wsize : keeps (decSP wsize) any.
Proof. apply keeps_decSP_obj; [apply obj_size_wsize | lia]. Qed.
Lemma keeps_decSP_psize : keeps (decSP psize) any.
Proof. apply keeps_decSP_obj; [apply obj_size_psize | apply ok_sizes]. Qed.
#[local] Hint Resolve keeps_incSP_wsize keeps_incSP_psize keeps_decSP_max keeps_decSP_wsize
  keeps_decSP_psize : keeps.

Lemma keeps_st_st_loop i : forall addr l sh, keeps (st_st_loop i addr l sh) any.
Proof. induction i as [|i IH]; intros; cbn [st_st_loop]; keeps_tac. Qed.
#[local] Hint Resolve keeps_st_st_loop : keeps.
Lemma keeps_st_stdp addr ap : keeps (st_stdp addr ap) any.
Proof. unfold st_stdp. keeps_tac. Qed.
Lemma keeps_st_stip addr ap : keeps (st_stip addr ap) any.
Proof. unfold st_stip. keeps_tac. Qed.
Lemma keeps_st_stn addr al n : keeps (st_stn addr al n) any.
Proof. unfold st_stn. keeps_tac. Qed.
Lemma keeps_st_stw addr al : keeps (st_stw addr al) any.
Proof. unfold st_stw. keeps_tac. Qed.

Lemma keeps_st_bits_loop n : forall addr o a, keeps (st_bits_loop n addr o a) any.
Proof. induction n as [|n IH]; intros; cbn [st_bits_loop]; keeps_tac. Qed.
#[local] Hint Resolve keeps_st_bits_loop : keeps.
Lemma keeps_warn_stbits addr n : keeps (warn_stbits addr n) any.
Proof. unfold warn_stbits. keeps_tac. Qed.
#[local] Hint Resolve keeps_warn_stbits : keeps.

Lemma keeps_st_lddp addr : keeps (st_lddp addr) is_ptr.
Proof. unfold st_lddp. keeps_tac. Qed.
Lemma keeps_st_ldip addr : keeps (st_ldip addr) is_ptr.
Proof. unfold st_ldip. keeps_tac. Qed.
Lemma keeps_st_ldu_loop i : forall addr u, is_u64 u -> keeps (st_ldu_loop i addr u) is_u64.
Proof. induction i as [|i IH]; intros; cbn [st_ldu_loop]; keeps_tac. Qed.
Lemma keeps_st_lds_loop i : forall addr l, keeps (st_lds_loop i addr l) any.
Proof. induction i as [|i IH]; intros; cbn [st_lds_loop]; keeps_tac. Qed.
#[local] Hint Resolve keeps_st_ldu_loop keeps_st_lds_loop : keeps.
Lemma keeps_st_ldu addr n : keeps (st_ldu addr n) is_u64.
Proof. unfold st_ldu. keeps_tac. Qed.
Lemma keeps_st_lduw addr : keeps (st_lduw addr) is_u64.
Proof. unfold st_lduw. keeps_tac. Qed.
Lemma keeps_st_lds addr n : keeps (st_lds addr n) any.
Proof. unfold st_lds. keeps_tac. Qed.
Lemma keeps_st_ldsw addr : keeps (st_ldsw addr) any.
Proof. unfold st_ldsw. keeps_tac. Qed.
#[local] Hint Resolve keeps_st_stdp keeps_st_stip keeps_st_stn keeps_st_stw
  keeps_st_lddp keeps_st_ldip keeps_st_ldu keeps_st_lduw keeps_st_lds keeps_st_ldsw : keeps.

Lemma keeps_is_LB p : keeps (is_LB p) any.
Proof. unfold is_LB. keeps_tac. Qed.

(** Loads are quiet. *)
Lemma quiet_warn_stbits addr n : quiet (warn_stbits addr n).
Proof.
  unfold warn_stbits. apply quiet_bind; [|intros; unfold warn_bits; quiet_tac].
  generalize 0 at 1 as o, 255 as a. revert addr.
  induction (Z.to_nat n) as [|k IH]; intros; cbn [st_bits_loop]; quiet_tac; apply IH.
Qed.
#[local] Hint Resolve quiet_warn_stbits : quiet.
Lemma quiet_st_lds_loop i : forall addr l, quiet (st_lds_loop i addr l).
Proof. induction i as [|i IH]; intros; cbn [st_lds_loop]; quiet_tac; apply IH. Qed.
Lemma quiet_st_ldu_loop i : forall addr l, quiet (st_ldu_loop i addr l).
Proof. induction i as [|i IH]; intros; cbn [st_ldu_loop]; quiet_tac; apply IH. Qed.
#[local] Hint Resolve quiet_st_lds_loop quiet_st_ldu_loop : quiet.
Lemma quiet_st_lds addr n : quiet (st_lds addr n).
Proof. unfold st_lds. quiet_tac. Qed.
Lemma quiet_st_ldu addr n : quiet (st_ldu addr n).
Proof. unfold st_ldu. quiet_tac. Qed.
Lemma quiet_st_lddp addr : quiet (st_lddp addr).
Proof. unfold st_lddp. quiet_tac. Qed.
Lemma quiet_st_ldip addr : quiet (st_ldip addr).
Proof. unfold st_ldip. quiet_tac. Qed.
Lemma quiet_st_lduw addr : quiet (st_lduw addr).
Proof. unfold st_lduw. quiet_tac. Qed.
Lemma quiet_st_ldsw addr : quiet (st_ldsw addr).
Proof. unfold st_ldsw. quiet_tac. Qed.
#[local] Hint Resolve quiet_st_lds : quiet.
Lemma quiet_is_LB p : quiet (is_LB p).
Proof. unfold is_LB. quiet_tac. Qed.

(** [newLB] accepts addresses of the stack only. *)
Lemma keeps_newLB p : keeps (newLB p) any.
Proof.
  intros s Hs. pose proof ML_range. unfold wp, newLB. cbv zeta. rewrite wordaligned_mod. run.
  destruct (in_stack p s) eqn:Ep; run; [|rewrite wtrap_trap by done; by apply Inv_warned].
  destruct (Z.eqb_spec (p mod wsize) 0); run; [|rewrite wtrap_trap by done; by apply Inv_warned].
  unfold in_stack in Ep.
  pose proof (quiet_is_LB p s) as H1. unfold wp in H1.
  destruct (is_LB p s) as [b s1|? s1| |] eqn:E1; run; try done.
  - destruct H1 as [w ->].
    destruct b; run; [|rewrite wtrap_trap by done; by apply Inv_warned, Inv_set_warn].
    split; [done|]. destruct Hs. constructor; cbn; auto; lia.
  - destruct H1 as [w ->]. by apply Inv_set_warn.
Qed.
#[local] Hint Resolve keeps_newLB : keeps.

Lemma keeps_st_mvs_loop i : forall d2 d1, keeps (st_mvs_loop i d2 d1) any.
Proof. induction i as [|i IH]; intros; cbn [st_mvs_loop]; keeps_tac. Qed.
Lemma keeps_st_mvd_loop i : forall d s, keeps (st_mvd_loop i d s) any.
Proof. induction i as [|i IH]; intros; cbn [st_mvd_loop]; keeps_tac. Qed.
#[local] Hint Resolve keeps_st_mvd_loop keeps_st_mvs_loop : keeps.
Lemma keeps_st_mvd d2 d1 n : keeps (st_mvd d2 d1 n) any.
Proof. unfold st_mvd. keeps_tac. Qed.
Lemma keeps_st_mvs d s n : keeps (st_mvs d s n) any.
Proof. unfold st_mvs. keeps_tac. Qed.
#[local] Hint Resolve keeps_st_mvd keeps_st_mvs : keeps.

Lemma keeps_dppop : keeps dppop is_ptr.
Proof. unfold dppop. keeps_tac. Qed.
Lemma keeps_upop n : obj_size n -> keeps (upop n) is_u64.
Proof. intros. unfold upop. keeps_tac. Qed.
Lemma keeps_uwpop : keeps uwpop is_u64.
Proof. unfold uwpop. keeps_tac. Qed.
Lemma keeps_spop n : obj_size n -> keeps (spop n) any.
Proof. intros. unfold spop. keeps_tac. Qed.
Lemma keeps_swpop : keeps swpop any.
Proof. unfold swpop. keeps_tac. Qed.
Lemma keeps_wpop : keeps wpop any.
Proof. unfold wpop. keeps_tac. Qed.
#[local] Hint Resolve keeps_upop keeps_incSP_obj keeps_decSP_obj : keeps.
Lemma obj_size_ge n : (n <? wsize) = false -> wsize <= n.
Proof. lia. Qed.
#[local] Hint Resolve obj_size_ge : keeps.
Lemma keeps_pop_dt d n : obj_size n -> keeps (pop_dt d n) any.
Proof. intros. unfold pop_dt. keeps_tac. Qed.
Lemma keeps_popw_dt d : keeps (popw_dt d) any.
Proof. unfold popw_dt. keeps_tac. Qed.
Lemma keeps_pop_st d n : obj_size n -> keeps (pop_st d n) any.
Proof. intros. unfold pop_st. keeps_tac. Qed.
Lemma keeps_popw_st d : keeps (popw_st d) any.
Proof. unfold popw_st. keeps_tac. Qed.
Lemma keeps_dppush p : keeps (dppush p) any.
Proof. unfold dppush. keeps_tac. Qed.
Lemma keeps_wpush l : keeps (wpush l) any.
Proof. unfold wpush. keeps_tac. Qed.
Lemma keeps_npush l n : obj_size n -> keeps (npush l n) any.
Proof.
  intros. unfold npush. keeps_tac.
  eapply keeps_bind; [apply keeps_incSP_obj; [done|lia]|intros]. keeps_tac.
Qed.
#[local] Hint Resolve keeps_npush : keeps.
Lemma keeps_push_dt d n : obj_size n -> keeps (push_dt d n) any.
Proof. intros. unfold push_dt. keeps_tac. Qed.
Lemma keeps_pushw_dt d : keeps (pushw_dt d) any.
Proof. unfold pushw_dt. keeps_tac. Qed.
Lemma keeps_push_st d n : obj_size n -> keeps (push_st d n) any.
Proof. intros. unfold push_st. keeps_tac. Qed.
Lemma keeps_pushw_st d : keeps (pushw_st d) any.
Proof. unfold pushw_st. keeps_tac. Qed.
#[local] Hint Resolve keeps_pop_dt keeps_popw_dt keeps_pop_st keeps_popw_st
  keeps_push_dt keeps_pushw_dt keeps_push_st keeps_pushw_st : keeps.

Lemma keeps_mem_lddp a : keeps (mem_lddp a) is_ptr.
Proof. unfold mem_lddp. keeps_tac. Qed.
Lemma keeps_mem_ldip a : keeps (mem_ldip a) is_ptr.
Proof. unfold mem_ldip. keeps_tac. Qed.
Lemma keeps_mem_ldu a n : keeps (mem_ldu a n) is_u64.
Proof. unfold mem_ldu. keeps_tac. Qed.
Lemma keeps_mem_lds a n : keeps (mem_lds a n) any.
Proof. unfold mem_lds. keeps_tac. Qed.
Lemma keeps_push_m a n : obj_size n -> keeps (push_m a n) any.
Proof. intros. unfold push_m. keeps_tac. Qed.
Lemma keeps_pushw_m a : keeps (pushw_m a) any.
Proof. unfold pushw_m. keeps_tac. Qed.
Lemma keeps_pop_m a n : obj_size n -> keeps (pop_m a n) any.
Proof. intros. unfold pop_m. keeps_tac. Qed.
Lemma keeps_popw_m a : keeps (popw_m a) any.
Proof. unfold popw_m. keeps_tac. Qed.
End Keeps.

#[export] Hint Resolve obj_size_psize obj_size_wsize obj_size_dwsize keeps_incSP_wsize
  keeps_incSP_psize keeps_decSP_max keeps_decSP_wsize keeps_decSP_psize
  keeps_st_stdp keeps_st_stip keeps_st_stn keeps_st_stw
  keeps_st_lddp keeps_st_ldip keeps_st_ldu keeps_st_lduw keeps_st_lds keeps_st_ldsw
  keeps_is_LB keeps_newLB keeps_st_mvd keeps_st_mvs keeps_dppop keeps_upop keeps_uwpop keeps_spop
  keeps_swpop keeps_wpop keeps_pop_dt keeps_popw_dt keeps_pop_st keeps_popw_st keeps_dppush
  keeps_wpush keeps_npush keeps_push_dt keeps_pushw_dt keeps_push_st keeps_pushw_st
  keeps_mem_lddp keeps_mem_ldip keeps_mem_ldu keeps_mem_lds keeps_push_m keeps_pushw_m
  keeps_pop_m keeps_popw_m : keeps.
#[export] Hint Resolve quiet_st_lds quiet_st_ldu quiet_st_lddp quiet_st_ldip quiet_st_lduw
  quiet_st_ldsw quiet_is_LB : quiet.

(** ** The stack routines change only the stack *)
Section Stacky.
Context {cfg : Config}.

Lemma stacky_st_clear_loop i : forall a, stacky (st_clear_loop i a).
Proof. induction i as [|i IH]; intros; cbn [st_clear_loop]; unfold st_undef; stacky_tac; apply IH. Qed.
Lemma stacky_st_clear_up i : forall a, stacky (st_clear_up i a).
Proof. induction i as [|i IH]; intros; cbn [st_clear_up]; unfold st_undef; stacky_tac; apply IH. Qed.
#[local] Hint Resolve stacky_st_clear_loop stacky_st_clear_up : stacky.
Lemma stacky_newSP p : stacky (newSP p).
Proof. unfold newSP, realloc_stack, st_clear_area. stacky_tac. Qed.
#[local] Hint Resolve stacky_newSP : stacky.
Lemma stacky_incSP n : stacky (incSP n).
Proof. unfold incSP. stacky_tac. Qed.
Lemma stacky_st_inc n : stacky (st_inc n).
Proof. unfold st_inc. stacky_tac. Qed.
Lemma stacky_st_st_loop i : forall addr l sh, stacky (st_st_loop i addr l sh).
Proof. induction i as [|i IH]; intros; cbn [st_st_loop]; stacky_tac; apply IH. Qed.
#[local] Hint Resolve stacky_st_st_loop stacky_incSP : stacky.
Lemma stacky_st_stdp a p : stacky (st_stdp a p).
Proof. unfold st_stdp. stacky_tac. Qed.
Lemma stacky_st_stip a p : stacky (st_stip a p).
Proof. unfold st_stip. stacky_tac. Qed.
Lemma stacky_st_stn a l n : stacky (st_stn a l n).
Proof. unfold st_stn. stacky_tac. Qed.
Lemma stacky_st_stw a l : stacky (st_stw a l).
Proof. unfold st_stw. stacky_tac. Qed.
Lemma stacky_st_prot a n : stacky (st_prot a n).
Proof. unfold st_prot, st_prot2b, st_prot1. stacky_tac. Qed.
#[local] Hint Resolve stacky_st_stw : stacky.
Lemma stacky_wpush l : stacky (wpush l).
Proof. unfold wpush. stacky_tac. Qed.
Lemma steady_newLB p : steady (newLB p).
Proof. unfold newLB. steady_tac. Qed.
End Stacky.
#[export] Hint Resolve stacky_newSP stacky_incSP stacky_st_inc stacky_st_stdp stacky_st_stip
  stacky_st_stn stacky_st_stw stacky_st_prot stacky_wpush : stacky.
#[export] Hint Resolve steady_newLB : steady.

(** ** The stack pointer: theorems *)
Section Contract.
Context {cfg : Config} {ok : ConfigOk}.

Lemma grow_contract p s :
  p <= SP s ->
  (forall a, mget (bytes (stack (grow p s))) a = mget (bytes (stack s)) a) /\
  (forall a, mget (shad (stack (grow p s))) a =
     if (p <=? a) && (a <? SP s) then UNDEFINED else mget (shad (stack s)) a).
Proof.
  intros Hp. unfold grow, extend, clear_stack. cbn -[fill].
  split; intros a; [by destruct (p <? SL s)|].
  rewrite fill_lookup. replace (p + Z.of_nat (Z.to_nat (SP s - p))) with (SP s) by lia.
  by destruct (_ && _), (p <? SL s).
Qed.

(** C32: newSP accepts a stack pointer exactly when it is word aligned, not above
    the local base, not in the heap, and within the maximum stack size, and traps
    with ESTACK otherwise; when it accepts, only the stack pointer, the stack limit
    and the stack area change, no byte of the stack changes, the bytes that are new
    are undefined, and the invariant holds: growing reallocates enough space. *)
Theorem newSP_contract p s :
  Inv s ->
  newSP p s = newSP_result p s /\
  forall s', newSP p s = Ret tt s' ->
    Inv s' /\ SP s' = p /\ rest s' = rest s /\
    (forall a, mget (bytes (stack s')) a = mget (bytes (stack s)) a) /\
    (forall a, SP s <= a -> mget (shad (stack s')) a = mget (shad (stack s)) a) /\
    (forall a, p <= a < SP s -> mget (shad (stack s')) a = UNDEFINED).
Proof.
  intros Hs. split; [by apply newSP_spec|]. intros s' E.
  pose proof (keeps_newSP p s Hs) as Hk. unfold wp in Hk. rewrite E in Hk. destruct Hk as [_ Hi].
  pose proof (stacky_newSP p s) as Hr. unfold wp in Hr. rewrite E in Hr.
  split; [done|]. rewrite newSP_spec in E by done. unfold newSP_result in E.
  destruct (LB s <? p); [done|]. destruct (negb _); [done|].
  destruct (Z.leb_spec (SP s) p).
  - injection E as <-. split_and!; [done..|lia].
  - destruct (p <? HP s); [done|]. destruct (has_room p s); [|done]. injection E as <-.
    destruct (grow_contract p s ltac:(lia)) as [Hb Hsh]. split_and!; [done|done|done| |].
    + intros a Ha. rewrite Hsh. by replace (_ && _) with false by lia.
    + intros a Ha. rewrite Hsh. by replace (_ && _) with true by lia.
Qed.

(** The inline fast paths of incSP and decSP, which skip the checks of newSP
    and clear the new bytes in the opposite order, behave as newSP in every state
    of the machine. *)
Theorem stack_fast_paths n s :
  Inv s -> 0 <= n < 2 ^ 63 -> n mod wsize = 0 ->
  decSP n s = newSP (SP s + n) s /\ (n <= SP s -> incSP n s = newSP (SP s - n) s).
Proof. intros. split; intros; [by apply decSP_newSP | by apply incSP_newSP; [|lia|..]]. Qed.
End Contract.
