(* ===== verification/StackSpec.v ===== *)
(** * The stack as a specification: what loads, stores, pops and pushes do

    Total correctness of the routines of [stack.c] on addresses in the stack.
    The state afterwards is given up to the warning administration. *)
From Stdlib Require Import ZArith Lia Bool.
From stdpp Require Import base gmap list.
From S2P Require Import Prelude Machine Warn Mem Wp Data Stack.

(** The sign of an object is the sign of its last byte. *)
Lemma sext_last m a n :
  bytes_ok m ->
  sext (8 * Z.of_nat (S n)) (ldn m a (S n)) =
  s8 (mget m (a + Z.of_nat n)) * 2 ^ (8 * Z.of_nat n) + ldn m a n.
Proof.
  intros Hm. rewrite ldn_S_last.
  pose proof (ldn_range n m a Hm) as Hl. pose proof (mget_range m (a + Z.of_nat n) Hm) as Hb.
  set (l := ldn m a n) in *. set (b := mget m _) in *.
  assert (E : 2 ^ (8 * Z.of_nat (S n)) = 256 * 2 ^ (8 * Z.of_nat n)).
  { replace (8 * Z.of_nat (S n)) with (8 + 8 * Z.of_nat n) by lia. by rewrite Z.pow_add_r by lia. }
  assert (E' : 2 ^ (8 * Z.of_nat (S n) - 1) = 128 * 2 ^ (8 * Z.of_nat n)).
  { replace (8 * Z.of_nat (S n) - 1) with (7 + 8 * Z.of_nat n) by lia. by rewrite Z.pow_add_r by lia. }
  set (p := 2 ^ (8 * Z.of_nat n)) in *.
  unfold s8, sext. rewrite E, E'. change (2 ^ 8) with 256. change (2 ^ (8 - 1)) with 128.
  rewrite (Z.mod_small b), Z.mod_small by nia.
  destruct (Z.ltb_spec b 128), (Z.ltb_spec (l + p * b) (128 * p)); nia.
Qed.

Section StackSpec.
Context {cfg : Config} {ok : ConfigOk}.

(** The object of [n] bytes at [a] in the stack, unsigned and signed. *)
Definition stk (s : state) (a n : Z) : Z := ldn (bytes (stack s)) a (Z.to_nat n).
Definition stks (s : state) (a n : Z) : Z := sext (8 * n) (stk s a n).

Lemma stk_set_warn w s a n : stk (set_warn w s) a n = stk s a n.
Proof. reflexivity. Qed.
Lemma rest_set_warn w s : rest (set_warn w s) = rest s.
Proof. reflexivity. Qed.
Lemma SP_set_warn w s : SP (set_warn w s) = SP s.
Proof. reflexivity. Qed.
Lemma stack_set_warn w s : stack (set_warn w s) = stack s.
Proof. reflexivity. Qed.

(** [n] bytes at [a] lie in the stack. *)
Definition on_stack (a n : Z) (s : state) : Prop := SP s <= a /\ a + n <= ML + 1.

Lemma on_stack_valid a n i s :
  Inv s -> on_stack a n s -> 0 <= i < n -> stack_valid (a + i) s = true /\ 0 <= a /\ a + n < 2 ^ 32.
Proof.
  intros Hs [H1 H2] Hi. pose proof ML_range. pose proof (inv_stack s Hs). pose proof (inv_SP s Hs).
  split; [|lia]. unfold stack_valid. lia.
Qed.

(** ** Stores *)
Definition put_stk (a l sh n : Z) (s : state) : state :=
  set_stack (mkArea (stn (bytes (stack s)) a l (Z.to_nat n))
               (fill (shad (stack s)) a sh (Z.to_nat n)) (alloc (stack s))) s.

Lemma ch_st_prot_run a s :
  stack_valid a s = true -> exists w, ch_st_prot a s = Ret tt (set_warn w s).
Proof.
  intros Hv. unfold ch_st_prot, st_sh. run. rewrite Hv.
  destruct (_ =? 0); run.
  - exists (warn s). by rewrite set_warn_id.
  - eexists. by rewrite warning_ret.
Qed.

Lemma st_st_loop_run n : forall a l sh s,
  ML + 1 - alloc (stack s) <= a -> 0 <= a -> a + Z.of_nat n <= ML + 1 ->
  exists w, st_st_loop n a l sh s = Ret tt (set_warn w (put_stk a l sh (Z.of_nat n) s)).
Proof.
  pose proof ML_range. unfold put_stk.
  induction n as [|n IH]; intros a l sh s Hlo H0 Hhi; cbn [st_st_loop].
  - exists (warn s). cbn. by destruct s as [???????????????? [? ? ?] ??????????].
  - assert (Hv : stack_valid a s = true) by (unfold stack_valid; lia).
    destruct (ch_st_prot_run a s Hv) as [w Hw]. run. rewrite Hw.
    unfold set_stack_loc, set_st_sh.
    change (stack_valid a (set_warn w s)) with (stack_valid a s). rewrite Hv. run.
    match goal with |- context [if stack_valid a ?x then _ else _] =>
      change (stack_valid a x) with (stack_valid a s) end.
    rewrite Hv. run. rewrite padd_small by lia.
    match goal with |- context [st_st_loop n _ _ _ ?x] =>
      destruct (IH (a + 1) (Z.shiftr l 8) sh x) as [w' Hw']; [cbn; lia..|] end.
    rewrite Hw'. exists w'. rewrite !Nat2Z.id. done.
Qed.

(** ** Loads *)
Lemma quiet_total {A} (m : M A) s (a : A) :
  quiet m -> (forall s, exists s', m s = Ret a s') -> exists w, m s = Ret a (set_warn w s).
Proof.
  intros Hq Ht. destruct (Ht s) as [s' E]. pose proof (Hq s) as H. unfold wp in H. rewrite E in H.
  destruct H as [w ->]. by exists w.
Qed.
Lemma quiet_warn_bits o a : quiet (warn_bits o a).
Proof. unfold warn_bits. quiet_tac. Qed.
Lemma warn_bits_run o a s : exists w, warn_bits o a s = Ret tt (set_warn w s).
Proof.
  apply quiet_total; [apply quiet_warn_bits|]. clear s. intros s. unfold warn_bits.
  repeat (match goal with |- context [if ?b then _ else _] => destruct b
          | |- context [when ?b _] => destruct b end; run); eauto.
Qed.

Lemma st_bits_loop_run n : forall a o b s,
  ML + 1 - alloc (stack s) <= a -> 0 <= a -> a + Z.of_nat n <= ML + 1 ->
  exists ob, st_bits_loop n a o b s = Ret ob s.
Proof.
  pose proof ML_range.
  induction n as [|n IH]; intros a o b s Hlo H0 Hhi; cbn [st_bits_loop]; [by eexists|].
  run. unfold st_sh. replace (stack_valid a s) with true by (unfold stack_valid; lia). run.
  rewrite padd_small by lia. apply IH; lia.
Qed.
Lemma warn_stbits_run a n s :
  Inv s -> on_stack a n s -> exists w, warn_stbits a n s = Ret tt (set_warn w s).
Proof.
  intros Hs [H1 H2]. pose proof (inv_stack s Hs). pose proof (inv_SP s Hs).
  unfold warn_stbits. run. pose proof ML_range.
  destruct (Z.ltb_spec n 0).
  - replace (Z.to_nat n) with 0%nat by lia. cbn [st_bits_loop]. run. apply warn_bits_run.
  - destruct (st_bits_loop_run (Z.to_nat n) a 0 255 s) as [ob E]; [lia..|].
    rewrite E. apply warn_bits_run.
Qed.

(** The checks of a load or a store pass. *)
Lemma ch_in_stack_run a n s : 0 < n < 2 ^ 32 -> Inv s -> on_stack a n s -> ch_in_stack a n s = Ret tt s.
Proof.
  intros Hn Hs [H1 H2]. pose proof ML_range. pose proof (inv_SP s Hs). unfold ch_in_stack, is_in_stack.
  rewrite padd_assoc, padd_small by lia.
  replace ((SP s <=? a) && (a + (n + -1) <=? ML)) with true by lia. done.
Qed.
Lemma ch_w_in_stack_run a s : Inv s -> on_stack a wsize s -> ch_w_in_stack a s = Ret tt s.
Proof.
  intros Hs [H1 H2]. pose proof ML_range. pose proof (inv_SP s Hs).
  unfold ch_w_in_stack, w_is_in_stack, wsizem1.
  rewrite padd_small by (sizes; lia).
  replace ((SP s <=? a) && (a + (wsize - 1) <=? ML)) with true by lia. done.
Qed.
Lemma ch_wordaligned_run a s : a mod wsize = 0 -> ch_wordaligned a s = Ret tt s.
Proof. intros H. unfold ch_wordaligned. rewrite wordaligned_mod, H. done. Qed.
Lemma ch_aligned_run a n s :
  0 < n -> a mod wsize = 0 -> wsize mod n = 0 \/ wsize <= n -> ch_aligned a n s = Ret tt s.
Proof.
  intros Hn Ha Hdiv. unfold ch_aligned, is_aligned. pose proof ok_wsize.
  replace (Z.min n wsize =? 0) with false by lia. rewrite u64_small by lia. run.
  replace (a mod Z.min n wsize =? 0) with true; [done|]. symmetry. apply Z.eqb_eq.
  destruct (Z.min_spec n wsize) as [[? ->]|[? ->]]; [|done].
  destruct Hdiv as [Hd|]; [|lia].
  apply Z.mod_divide in Ha; [|lia]. apply Z.mod_divide in Hd; [|lia].
  apply Z.mod_divide; [lia|]. by apply Z.divide_trans with wsize.
Qed.
Lemma is_st_set_run a n b s :
  0 < n < 2 ^ 32 -> Inv s -> on_stack a n s -> exists v, is_st_set a n b s = Ret v s.
Proof.
  intros Hn Hs Ha. unfold is_st_set, st_sh. run.
  destruct (on_stack_valid a n 0 s Hs Ha ltac:(lia)) as (Hv & ? & ?). rewrite Z.add_0_r in Hv.
  rewrite Hv. run. destruct (_ =? 0); run; [by eexists|].
  destruct (on_stack_valid a n (n - 1) s Hs Ha ltac:(lia)) as (Hv' & _ & _).
  rewrite padd_small by lia. rewrite Hv'. run. by eexists.
Qed.

Lemma st_ldu_loop_run n : forall a u s,
  bytes_ok (bytes (stack s)) -> ML + 1 - alloc (stack s) <= a -> 0 < a -> a + Z.of_nat n <= ML + 1 ->
  0 <= u -> u * 2 ^ (8 * Z.of_nat n) + 2 ^ (8 * Z.of_nat n) <= 2 ^ 64 ->
  st_ldu_loop n (a + Z.of_nat n - 1) u s
  = Ret (u * 2 ^ (8 * Z.of_nat n) + ldn (bytes (stack s)) a n) s.
Proof.
  pose proof ML_range.
  induction n as [|n IH]; intros a u s Hb Hlo H0 Hhi Hu Hbig; cbn [st_ldu_loop].
  - cbn -[Z.mul]. f_equal. lia.
  - run. unfold stack_loc.
    replace (stack_valid _ s) with true by (unfold stack_valid; lia). run.
    replace (a + Z.of_nat (S n) - 1) with (a + Z.of_nat n) by lia.
    pose proof (mget_range (bytes (stack s)) (a + Z.of_nat n) Hb) as Hm.
    set (b := mget _ _) in *.
    replace (8 * Z.of_nat (S n)) with (8 + 8 * Z.of_nat n) in * by lia.
    rewrite Z.pow_add_r in * by lia. change (2 ^ 8) with 256 in *.
    rewrite Z.lor_comm, lor_byte by done.
    pose proof (Z.pow_pos_nonneg 2 (8 * Z.of_nat n) ltac:(lia) ltac:(lia)) as Hpos.
    rewrite u64_small by nia. rewrite padd_small by lia.
    replace (a + Z.of_nat n + -1) with (a + Z.of_nat n - 1) by lia.
    rewrite IH; [|done|lia|lia|lia|lia|nia]. rewrite ldn_S_last. fold b. f_equal. lia.
Qed.

Lemma st_lds_loop_run n : forall a l s,
  bytes_ok (bytes (stack s)) -> ML + 1 - alloc (stack s) <= a -> 0 < a -> a + Z.of_nat n <= ML + 1 ->
  - 2 ^ 63 <= l * 2 ^ (8 * Z.of_nat n) -> l * 2 ^ (8 * Z.of_nat n) + 2 ^ (8 * Z.of_nat n) <= 2 ^ 63 ->
  st_lds_loop n (a + Z.of_nat n - 1) l s
  = Ret (l * 2 ^ (8 * Z.of_nat n) + ldn (bytes (stack s)) a n) s.
Proof.
  pose proof ML_range.
  induction n as [|n IH]; intros a l s Hb Hlo H0 Hhi Hl Hbig; cbn [st_lds_loop].
  - cbn -[Z.mul]. f_equal. lia.
  - run. unfold stack_loc.
    replace (stack_valid _ s) with true by (unfold stack_valid; lia). run.
    replace (a + Z.of_nat (S n) - 1) with (a + Z.of_nat n) by lia.
    pose proof (mget_range (bytes (stack s)) (a + Z.of_nat n) Hb) as Hm.
    set (b := mget _ _) in *.
    replace (8 * Z.of_nat (S n)) with (8 + 8 * Z.of_nat n) in * by lia.
    rewrite Z.pow_add_r in * by lia. change (2 ^ 8) with 256 in *.
    rewrite Z.lor_comm, lor_byte by done.
    pose proof (Z.pow_pos_nonneg 2 (8 * Z.of_nat n) ltac:(lia) ltac:(lia)) as Hpos.
    unfold s64. rewrite sext_small by (cbn -[Z.mul]; nia). rewrite padd_small by lia.
    replace (a + Z.of_nat n + -1) with (a + Z.of_nat n - 1) by lia.
    rewrite IH; [|done|lia|lia|lia|nia|nia]. rewrite ldn_S_last. fold b. f_equal. lia.
Qed.

(** The check of the shadow bytes only warns. *)
Lemma sh_check_run a n b wn s :
  0 < n < 2 ^ 32 -> 0 <= wn -> Inv s -> on_stack a n s ->
  exists v w, is_st_set a n b s = Ret v s /\
    when (negb v) (warning wn ;; warn_stbits a n) s = Ret tt (set_warn w s).
Proof.
  intros Hn Hwn Hs Ha. destruct (is_st_set_run a n b s Hn Hs Ha) as [v Hv]. exists v.
  destruct v; run.
  - exists (warn s). by rewrite set_warn_id.
  - rewrite warning_ret by done.
    destruct (warn_stbits_run a n (warned wn s)) as [w Hw]; [by apply Inv_warned|done|].
    exists w. split; [done|]. by rewrite Hw.
Qed.

(** The sizes of integers. *)
Definition int_size (n : Z) : Prop := 0 < n <= 8 /\ (wsize mod n = 0 \/ wsize <= n).

Lemma int_size_wsize : int_size wsize.
Proof. split; [sizes; lia | by right]. Qed.
Lemma int_size_psize : int_size psize.
Proof. split; [sizes; lia | right; apply ok_sizes]. Qed.

Lemma pow_le_64 n : n <= 8 -> 2 ^ (8 * n) <= 2 ^ 64.
Proof. intros. apply Z.pow_le_mono_r; lia. Qed.

Lemma wp_st_ldu_body U a n Q T s :
  0 < n <= 8 -> Inv s -> on_stack a n s -> Q (stk s a n) s ->
  wp U (st_ldu_loop (Z.to_nat n) (a +p (n - 1)) 0) Q T s.
Proof.
  intros Hn Hs [H1 H2] HQ. pose proof (inv_SP s Hs). pose proof (inv_stack s Hs). pose proof ML_range.
  rewrite padd_small by lia. replace (a + (n - 1)) with (a + Z.of_nat (Z.to_nat n) - 1) by lia.
  pose proof (pow_le_64 n ltac:(lia)).
  unfold wp. rewrite st_ldu_loop_run; [done|apply Hs|lia|lia|lia|lia|].
  rewrite Z2Nat.id by lia. lia.
Qed.
Lemma wp_st_lds_body U a n Q T s :
  0 < n <= 8 -> Inv s -> on_stack a n s -> Q (stks s a n) s ->
  wp U (l ← stack_loc (a +p (n - 2) +p 1);
        st_lds_loop (Z.to_nat (n - 1)) (a +p (n - 2)) (s8 l)) Q T s.
Proof.
  intros Hn Hs Ha HQ. destruct Ha as [H1 H2].
  pose proof (inv_SP s Hs). pose proof (inv_stack s Hs). pose proof ML_range.
  rewrite padd_assoc, !padd_small by lia. unfold wp. run. unfold stack_loc.
  replace (stack_valid _ s) with true by (unfold stack_valid; lia). run.
  replace (a + (n - 2)) with (a + Z.of_nat (Z.to_nat (n - 1)) - 1) by lia.
  replace (a + (n - 2 + 1)) with (a + Z.of_nat (Z.to_nat (n - 1))) by lia.
  set (b := mget _ _).
  assert (Hb : - 128 <= s8 b < 128) by apply (sext_range 8 b ltac:(lia)).
  assert (E : 2 ^ 63 = 128 * 2 ^ 56) by reflexivity.
  assert (2 ^ (8 * (n - 1)) <= 2 ^ 56) by (apply Z.pow_le_mono_r; lia).
  assert (0 < 2 ^ (8 * (n - 1))) by (apply Z.pow_pos_nonneg; lia).
  rewrite st_lds_loop_run; [|apply Hs|lia|lia|lia|rewrite Z2Nat.id by lia; nia..].
  unfold stks, stk in HQ. revert HQ. replace n with (Z.of_nat (S (Z.to_nat (n - 1)))) at 1 2 by lia.
  rewrite Nat2Z.id, sext_last by apply Hs. done.
Qed.

Lemma wp_st_ldu U a n Q T s :
  int_size n -> Inv s -> on_stack a n s -> a mod wsize = 0 ->
  (forall w, Q (stk s a n) (set_warn w s)) -> wp U (st_ldu a n) Q T s.
Proof.
  intros [Hn Hd] Hs Ha Hal HQ. unfold st_ldu, wp. run.
  rewrite ch_in_stack_run by (done || lia). run. rewrite ch_aligned_run by (done || lia). run.
  destruct (sh_check_run a n SH_INT (if n =? 1 then WLCEXP else WLIEXP) s) as (v & w & Hv & Hw);
    [lia|by destruct (n =? 1)|done|done|].
  rewrite Hv. run. rewrite Hw. run. by apply (wp_st_ldu_body U); [|apply Inv_set_warn| |].
Qed.
Lemma wp_st_lds U a n Q T s :
  int_size n -> Inv s -> on_stack a n s -> a mod wsize = 0 ->
  (forall w, Q (stks s a n) (set_warn w s)) -> wp U (st_lds a n) Q T s.
Proof.
  intros [Hn Hd] Hs Ha Hal HQ. unfold st_lds. cbv zeta. unfold wp. run.
  rewrite ch_in_stack_run by (done || lia). run. rewrite ch_aligned_run by (done || lia). run.
  destruct (sh_check_run a n SH_INT (if n =? 1 then WLCEXP else WLIEXP) s) as (v & w & Hv & Hw);
    [lia|by destruct (n =? 1)|done|done|].
  rewrite Hv. run. rewrite Hw. run. by apply (wp_st_lds_body U); [|apply Inv_set_warn| |].
Qed.
Lemma wp_st_lduw U a Q T s :
  Inv s -> on_stack a wsize s -> a mod wsize = 0 ->
  (forall w, Q (stk s a wsize) (set_warn w s)) -> wp U (st_lduw a) Q T s.
Proof.
  intros Hs Ha Hal HQ. pose proof int_size_wsize as [Hn _]. unfold st_lduw, wp. run.
  rewrite ch_w_in_stack_run by done. run. rewrite ch_wordaligned_run by done. run.
  destruct (sh_check_run a wsize SH_INT WLIEXP s) as (v & w & Hv & Hw); [lia|done|done|done|].
  rewrite Hv. run. rewrite Hw. run. by apply (wp_st_ldu_body U); [|apply Inv_set_warn| |].
Qed.
Lemma wp_st_ldsw U a Q T s :
  Inv s -> on_stack a wsize s -> a mod wsize = 0 ->
  (forall w, Q (stks s a wsize) (set_warn w s)) -> wp U (st_ldsw a) Q T s.
Proof.
  intros Hs Ha Hal HQ. pose proof int_size_wsize as [Hn _]. unfold st_ldsw. cbv zeta. unfold wp. run.
  rewrite ch_w_in_stack_run by done. run. rewrite ch_wordaligned_run by done. run.
  destruct (sh_check_run a wsize SH_INT WLIEXP s) as (v & w & Hv & Hw); [lia|done|done|done|].
  rewrite Hv. run. rewrite Hw. run. by apply (wp_st_lds_body U); [|apply Inv_set_warn| |].
Qed.

(** Unchecked loads. *)
Lemma bytes_in_run n : forall a s,
  Inv s -> SP s <= a -> a + Z.of_nat n <= ML + 1 ->
  bytes_in stack_loc a n s = Ret (ldn (bytes (stack s)) a n) s.
Proof.
  pose proof ML_range.
  induction n as [|n IH]; intros a s Hs H1 H2; cbn [bytes_in]; [done|].
  pose proof (inv_SP s Hs). pose proof (inv_stack s Hs). run. unfold stack_loc at 1.
  replace (stack_valid a s) with true by (unfold stack_valid; lia). run.
  rewrite padd_small, IH by (done || lia). run. rewrite lor_byte; [done|].
  apply mget_range, Hs.
Qed.
Lemma wp_p_in_stack U a Q T s :
  Inv s -> on_stack a psize s -> Q (stk s a psize) s -> wp U (p_in_stack a) Q T s.
Proof.
  intros Hs [H1 H2] HQ. unfold wp, p_in_stack.
  replace (if psize =? 2 then 2%nat else 4%nat) with (Z.to_nat psize) by (by sizes).
  pose proof int_size_psize as [? _]. by rewrite bytes_in_run by (done || lia).
Qed.
Lemma wp_w_in_stack U a Q T s :
  Inv s -> on_stack a wsize s -> Q (stks s a wsize) s -> wp U (w_in_stack a) Q T s.
Proof.
  intros Hs [H1 H2] HQ. unfold wp, w_in_stack. unfold stks, stk in HQ.
  sizes; cbn [Z.eqb Pos.eqb]; run; rewrite bytes_in_run by (done || (cbn; lia)); done.
Qed.
Lemma wp_st_lddp U a Q T s :
  Inv s -> on_stack a psize s -> a mod wsize = 0 ->
  (forall w, Q (stk s a psize) (set_warn w s)) -> wp U (st_lddp a) Q T s.
Proof.
  intros Hs Ha Hal HQ. pose proof int_size_psize as [Hn _]. unfold st_lddp, wp. run.
  rewrite ch_in_stack_run by (done || lia). run. rewrite ch_wordaligned_run by done. run.
  destruct (sh_check_run a psize SH_DATAP WLDPEXP s) as (v & w & Hv & Hw); [lia|done|done|done|].
  rewrite Hv. run. rewrite Hw. run. by apply (wp_p_in_stack U); [apply Inv_set_warn| |].
Qed.
Lemma wp_st_ldip U a Q T s :
  Inv s -> on_stack a psize s -> a mod wsize = 0 ->
  (forall w, Q (stk s a psize) (set_warn w s)) -> wp U (st_ldip a) Q T s.
Proof.
  intros Hs Ha Hal HQ. pose proof int_size_psize as [Hn _]. unfold st_ldip, wp. run.
  rewrite ch_in_stack_run by (done || lia). run. rewrite ch_wordaligned_run by done. run.
  destruct (sh_check_run a psize SH_INSP WLIPEXP s) as (v & w & Hv & Hw); [lia|done|done|done|].
  rewrite Hv. run. rewrite Hw. run. by apply (wp_p_in_stack U); [apply Inv_set_warn| |].
Qed.

(** ** Pops *)
Lemma wp_decSP U k Q T s :
  Inv s -> 0 <= k < 2 ^ 32 -> k mod wsize = 0 -> SP s + k <= LB s ->
  Q tt (set_SP (SP s + k) s) -> wp U (decSP k) Q T s.
Proof.
  intros Hs Hk Hal Hle HQ. unfold wp. rewrite decSP_newSP by (done || lia).
  rewrite newSP_spec by done. unfold newSP_result.
  replace (LB s <? SP s + k) with false by lia.
  assert ((SP s + k) mod wsize = 0) as ->.
  { rewrite Zplus_mod, (inv_SP_aligned s Hs), Hal. apply Z.mod_0_l. pose proof ok_wsize; lia. }
  by replace (SP s <=? SP s + k) with true by lia.
Qed.

(** The objects that integer pops and pushes handle, and the room they take. *)
Definition width (n : Z) : Z := Z.max n wsize.
Lemma width_aligned n : n <= wsize \/ n mod wsize = 0 -> width n mod wsize = 0.
Proof.
  unfold width. intros [H|H]; [rewrite Z.max_r by lia; apply wsize_mod|].
  destruct (Z.max_spec n wsize) as [[_ ->]|[_ ->]]; [apply wsize_mod | done].
Qed.
Definition pop_size (n : Z) : Prop := int_size n /\ (n <= wsize \/ n mod wsize = 0).
Lemma pop_size_wsize : pop_size wsize.
Proof. split; [apply int_size_wsize | left; lia]. Qed.

Lemma on_stack_SP n k s : Inv s -> n <= k -> SP s + k <= LB s -> on_stack (SP s) n s.
Proof. intros Hs ? ?. pose proof (inv_LB s Hs). split; lia. Qed.

(** After a pop of [k] bytes. *)
Definition popped (k : Z) (w : warnst) (s : state) : state := set_SP (SP s + k) (set_warn w s).

Lemma wp_popped U k Q T s w :
  Inv s -> 0 <= k < 2 ^ 32 -> k mod wsize = 0 -> SP s + k <= LB s ->
  Q tt (popped k w s) -> wp U (decSP k) Q T (set_warn w s).
Proof. intros. by apply wp_decSP; [apply Inv_set_warn|..]. Qed.

Lemma wp_spop U n Q T s :
  pop_size n -> Inv s -> SP s + width n <= LB s ->
  (forall w, Q (stks s (SP s) n) (popped (width n) w s)) -> wp U (spop n) Q T s.
Proof.
  intros [Hn Hd] Hs Hle HQ. unfold spop. wregs.
  assert (n <= width n) by (unfold width; lia).
  apply wp_bind, wp_st_lds; [done|done|by eapply on_stack_SP|apply Hs|]. intros w.
  apply wp_bind, wp_popped; [done| |by apply width_aligned|done|by apply HQ].
  destruct Hn. unfold width. sizes; lia.
Qed.
Lemma wp_upop U n Q T s :
  pop_size n -> Inv s -> SP s + width n <= LB s ->
  (forall w, Q (stk s (SP s) n) (popped (width n) w s)) -> wp U (upop n) Q T s.
Proof.
  intros [Hn Hd] Hs Hle HQ. unfold upop. wregs.
  assert (n <= width n) by (unfold width; lia).
  apply wp_bind, wp_st_ldu; [done|done|by eapply on_stack_SP|apply Hs|]. intros w.
  apply wp_bind, wp_popped; [done| |by apply width_aligned|done|by apply HQ].
  destruct Hn. unfold width. sizes; lia.
Qed.
Lemma wsize_range : 0 <= wsize < 2 ^ 32.
Proof. sizes; lia. Qed.
Lemma psize_range : 0 <= psize < 2 ^ 32.
Proof. sizes; lia. Qed.
Lemma wp_swpop U Q T s :
  Inv s -> SP s + wsize <= LB s ->
  (forall w, Q (stks s (SP s) wsize) (popped wsize w s)) -> wp U swpop Q T s.
Proof.
  intros Hs Hle HQ. unfold swpop. wregs.
  apply wp_bind, wp_st_ldsw; [done|by eapply on_stack_SP|apply Hs|]. intros w.
  apply wp_bind, wp_popped; [done|apply wsize_range|apply wsize_mod|done|by apply HQ].
Qed.
Lemma wp_uwpop U Q T s :
  Inv s -> SP s + wsize <= LB s ->
  (forall w, Q (stk s (SP s) wsize) (popped wsize w s)) -> wp U uwpop Q T s.
Proof.
  intros Hs Hle HQ. unfold uwpop. wregs.
  apply wp_bind, wp_st_lduw; [done|by eapply on_stack_SP|apply Hs|]. intros w.
  apply wp_bind, wp_popped; [done|apply wsize_range|apply wsize_mod|done|by apply HQ].
Qed.
Lemma wp_wpop U Q T s :
  Inv s -> SP s + wsize <= LB s ->
  (forall w, Q (stks s (SP s) wsize) (popped wsize w s)) -> wp U wpop Q T s.
Proof.
  intros Hs Hle HQ. unfold wpop. wregs.
  apply wp_bind, wp_w_in_stack; [done|by eapply on_stack_SP|].
  apply wp_bind.
  rewrite <- (set_warn_id s).
  apply wp_popped; [done|apply wsize_range|apply wsize_mod|done|by apply HQ].
Qed.
Lemma wp_dppop U Q T s :
  Inv s -> SP s + psize <= LB s ->
  (forall w, Q (stk s (SP s) psize) (popped psize w s)) -> wp U dppop Q T s.
Proof.
  intros Hs Hle HQ. unfold dppop. wregs.
  apply wp_bind, wp_st_lddp; [done|by eapply on_stack_SP|apply Hs|]. intros w.
  apply wp_bind, wp_popped; [done|apply psize_range|apply psize_aligned|done|by apply HQ].
Qed.

(** ** Pushes *)

(** There is room for [n] more bytes. *)
Definition room (n : Z) (s : state) : Prop := has_room (SP s - n) s = true.

Lemma wp_incSP U n Q T s :
  Inv s -> 0 < n < 2 ^ 32 -> n mod wsize = 0 -> room n s ->
  Q tt (grow (SP s - n) s) -> wp U (incSP n) Q T s.
Proof.
  intros Hs Hn Hal Hr HQ. unfold room in Hr. pose proof ok_HB. pose proof (inv_HP s Hs).
  assert (HP s <= SP s - n) by (unfold has_room in Hr; lia).
  pose proof (inv_SP s Hs).
  unfold wp. rewrite incSP_newSP, newSP_spec by (done || lia). unfold newSP_result.
  replace (LB s <? SP s - n) with false by lia.
  assert ((SP s - n) mod wsize = 0) as ->.
  { rewrite Zminus_mod, (inv_SP_aligned s Hs), Hal. apply Z.mod_0_l. pose proof ok_wsize; lia. }
  replace (SP s <=? SP s - n) with false by lia.
  replace (SP s - n <? HP s) with false by lia. by rewrite Hr.
Qed.
Lemma incSP_no_room n s :
  Inv s -> 0 < n <= SP s -> n mod wsize = 0 -> ~ room n s ->
  exists w, incSP n s = Trap ESTACK (set_warn w s).
Proof.
  intros Hs Hn Hal Hr. unfold room in Hr. pose proof (inv_SP s Hs).
  rewrite incSP_newSP, newSP_spec by (done || lia). unfold newSP_result.
  replace (LB s <? SP s - n) with false by lia.
  assert ((SP s - n) mod wsize = 0) as ->.
  { rewrite Zminus_mod, (inv_SP_aligned s Hs), Hal. apply Z.mod_0_l. pose proof ok_wsize; lia. }
  replace (SP s <=? SP s - n) with false by lia.
  destruct (SP s - n <? HP s); [by eexists|]. destruct (has_room _ _); [done|by eexists].
Qed.

(** The state after a push of the [n] byte object [l] with shadow bytes [sh]. *)
Definition pushed (l sh n : Z) (s : state) : state := put_stk (SP s - n) l sh n (grow (SP s - n) s).

Lemma room_HP n s : room n s -> HP s <= SP s - n.
Proof. unfold room, has_room. lia. Qed.
Lemma Inv_put_stk a l sh n s : Inv s -> Inv (put_stk a l sh n s).
Proof. intros []. constructor; cbn; auto. by apply bytes_ok_stn. Qed.
Lemma sub_aligned s n : Inv s -> n mod wsize = 0 -> (SP s - n) mod wsize = 0.
Proof.
  intros Hs Hal. rewrite Zminus_mod, (inv_SP_aligned s Hs), Hal. apply Z.mod_0_l.
  pose proof ok_wsize; lia.
Qed.
Lemma Inv_grow_room n s : Inv s -> 0 < n -> n mod wsize = 0 -> room n s -> Inv (grow (SP s - n) s).
Proof.
  intros Hs Hn Hal Hr. pose proof (room_HP n s Hr).
  apply Inv_grow; [done|lia|by apply sub_aligned].
Qed.
Lemma Inv_pushed l sh n s :
  Inv s -> 0 < n -> n mod wsize = 0 -> room n s -> Inv (pushed l sh n s).
Proof. intros. by apply Inv_put_stk, Inv_grow_room. Qed.
Lemma SP_pushed l sh n s : SP (pushed l sh n s) = SP s - n.
Proof. done. Qed.
Lemma rest_pushed l sh n s : rest (pushed l sh n s) = rest s.
Proof. unfold pushed, grow, extend. by destruct (_ <? _). Qed.

(** The pushed object is on top; what was on the stack is unchanged. *)
Lemma stk_pushed_top l sh n s :
  0 <= n -> stk (pushed l sh n s) (SP s - n) n = l mod 2 ^ (8 * n).
Proof.
  intros Hn. unfold stk, pushed, put_stk. cbn. rewrite ldn_stn_eq. by rewrite Z2Nat.id.
Qed.
Lemma bytes_grow p s : bytes (stack (grow p s)) = bytes (stack s).
Proof. unfold grow, extend, clear_stack. by destruct (p <? SL s). Qed.
Lemma mget_pushed l sh n s a :
  SP s <= a -> 0 <= n -> mget (bytes (stack (pushed l sh n s))) a = mget (bytes (stack s)) a.
Proof.
  intros Ha Hn. unfold pushed, put_stk. cbn [stack set_stack bytes].
  rewrite stn_lookup_out by lia. by rewrite bytes_grow.
Qed.
Lemma mshad_pushed l sh n s a :
  SP s <= a -> 0 <= n -> mget (shad (stack (pushed l sh n s))) a = mget (shad (stack s)) a.
Proof.
  intros Ha Hn. unfold pushed, put_stk. cbn [stack set_stack shad].
  rewrite fill_lookup. replace (_ && _) with false by lia.
  unfold grow, extend, clear_stack. cbn -[fill]. rewrite fill_lookup.
  replace (_ && _) with false by lia. by destruct (SP s - n <? SL s).
Qed.
Lemma mshad_pushed_top l sh n s i :
  0 <= i < n -> mget (shad (stack (pushed l sh n s))) (SP s - n + i) = sh.
Proof.
  intros Hi. unfold pushed, put_stk. cbn [stack set_stack shad].
  rewrite fill_lookup. by replace (_ && _) with true by lia.
Qed.
Lemma stk_above s s' a n :
  (forall b, a <= b -> mget (bytes (stack s')) b = mget (bytes (stack s)) b) -> stk s' a n = stk s a n.
Proof. intros H. unfold stk. apply ldn_ext. intros i Hi. apply H. lia. Qed.
Lemma stk_pushed_above l sh n s a k :
  SP s <= a -> 0 <= n -> stk (pushed l sh n s) a k = stk s a k.
Proof. intros Ha Hn. apply stk_above. intros b Hb. apply mget_pushed; lia. Qed.

(** A store into the new space. *)
Lemma wp_st_st_loop_top U l sh n Q T s :
  Inv s -> 0 < n -> n mod wsize = 0 -> room n s ->
  (forall w, Q tt (set_warn w (pushed l sh n s))) ->
  wp U (st_st_loop (Z.to_nat n) (SP s - n) l sh) Q T (grow (SP s - n) s).
Proof.
  intros Hs Hn Hal Hr HQ. pose proof (Inv_grow_room n s Hs Hn Hal Hr) as Hg.
  pose proof (inv_stack _ Hg) as H1. pose proof (inv_SP _ Hg) as H2. pose proof (inv_LB _ Hg) as H3.
  pose proof (inv_SP s Hs). pose proof (inv_LB s Hs).
  change (SP (grow (SP s - n) s)) with (SP s - n) in *.
  destruct (st_st_loop_run (Z.to_nat n) (SP s - n) l sh (grow (SP s - n) s)) as [w Hw]; [lia..|].
  unfold wp. rewrite Hw, Z2Nat.id by lia. apply HQ.
Qed.
Lemma on_stack_grow n s : Inv s -> on_stack (SP s - n) n (grow (SP s - n) s).
Proof.
  intros Hs. pose proof (inv_SP s Hs). pose proof (inv_LB s Hs). unfold on_stack.
  change (SP (grow _ _)) with (SP s - n). lia.
Qed.

Lemma wp_wpush U l Q T s :
  Inv s -> room wsize s ->
  (forall w, Q tt (set_warn w (pushed l (sh_flags l wsize) wsize s))) -> wp U (wpush l) Q T s.
Proof.
  intros Hs Hr HQ. pose proof int_size_wsize as [Hn _]. pose proof wsize_mod as Hm.
  unfold wpush. apply wp_bind, wp_incSP; [done|lia|done|done|]. wregs.
  unfold st_stw, wp. run. change (SP (grow _ _)) with (SP s - wsize).
  rewrite ch_w_in_stack_run; [|by apply Inv_grow_room; [|lia|..]|by apply on_stack_grow]. run.
  rewrite ch_wordaligned_run by by apply sub_aligned. run.
  apply (wp_st_st_loop_top U); [done|lia|done|done|done].
Qed.
Lemma wp_dppush U p Q T s :
  Inv s -> room psize s ->
  (forall w, Q tt (set_warn w (pushed p SH_DATAP psize s))) -> wp U (dppush p) Q T s.
Proof.
  intros Hs Hr HQ. pose proof int_size_psize as [Hn _]. pose proof psize_aligned as Hm.
  unfold dppush. apply wp_bind, wp_incSP; [done|lia|done|done|]. wregs.
  unfold st_stdp, wp. run. change (SP (grow _ _)) with (SP s - psize).
  rewrite ch_in_stack_run; [|lia|by apply Inv_grow_room; [|lia|..]|by apply on_stack_grow]. run.
  rewrite ch_wordaligned_run by by apply sub_aligned. run.
  apply (wp_st_st_loop_top U); [done|lia|done|done|done].
Qed.

(** [npush]: narrow objects are pushed as words. *)
Definition narrowed (l n : Z) : Z :=
  if n <=? wsize then if n =? 1 then Z.land l MASK1 else if n =? 2 then Z.land l MASK2 else l else l.
Lemma wp_npush U l n Q T s :
  pop_size n -> Inv s -> room (width n) s ->
  (forall w, Q tt (set_warn w (pushed (narrowed l n) (sh_flags (narrowed l n) (width n)) (width n) s))) ->
  wp U (npush l n) Q T s.
Proof.
  intros [[Hn Hd] Hal] Hs Hr HQ. pose proof int_size_wsize as [Hw _]. pose proof wsize_mod as Hm.
  unfold npush, narrowed, width in *. destruct (Z.leb_spec n wsize).
  - rewrite Z.max_r in * by lia. cbv zeta.
    apply wp_bind, wp_incSP; [done|lia|done|done|]. wregs.
    unfold st_stw, wp. run. change (SP (grow _ _)) with (SP s - wsize).
    rewrite ch_w_in_stack_run; [|by apply Inv_grow_room; [|lia|..]|by apply on_stack_grow]. run.
    rewrite ch_wordaligned_run by by apply sub_aligned. run.
    apply (wp_st_st_loop_top U); [done|lia|done|done|done].
  - rewrite Z.max_l in * by lia. destruct Hal as [|Hal]; [lia|].
    apply wp_bind, wp_incSP; [done|lia|done|done|]. wregs.
    unfold st_stn, wp. run. change (SP (grow _ _)) with (SP s - n).
    rewrite ch_in_stack_run; [|lia|by apply Inv_grow_room; [|lia|..]|by apply on_stack_grow]. run.
    rewrite ch_aligned_run; [|lia|by apply sub_aligned|right; lia]. run.
    apply (wp_st_st_loop_top U); [done|lia|done|done|done].
Qed.

(** ** Changes of the stack pointer *)
Lemma wp_st_dec U k (Q : unit -> state -> Prop) T s :
  Inv s -> 0 <= k < 2 ^ 32 -> k mod wsize = 0 -> SP s + k <= LB s ->
  Q tt (set_SP (SP s + k) s) -> wp U (st_dec k) Q T s.
Proof.
  intros Hs Hk Hal Hle HQ. pose proof (inv_SP s Hs). pose proof (inv_LB s Hs). pose proof ML_range.
  unfold st_dec. wregs. rewrite padd_small by lia. unfold wp.
  rewrite <- decSP_newSP by (done || lia). by apply wp_decSP.
Qed.
Lemma wp_st_inc U n (Q : unit -> state -> Prop) T s :
  Inv s -> 0 < n < 2 ^ 32 -> n mod wsize = 0 -> room n s ->
  Q tt (grow (SP s - n) s) -> wp U (st_inc n) Q T s.
Proof.
  intros Hs Hn Hal Hr HQ. pose proof (room_HP n s Hr). pose proof (inv_HP s Hs). pose proof ok_HB.
  pose proof (inv_SP s Hs). pose proof (inv_LB s Hs). pose proof ML_range.
  unfold st_inc. wregs. unfold padd, u64. rewrite Z.mod_small by lia.
  change (SP s + - n) with (SP s - n). unfold wp.
  rewrite <- incSP_newSP by (done || lia). by apply wp_incSP.
Qed.

(** Less room is needed for less. *)
Lemma has_room_mono p q s : 0 <= p <= q -> q <= ML -> has_room p s = true -> has_room q s = true.
Proof.
  intros Hp Hq H. pose proof ML_range. unfold has_room in *.
  rewrite u64_small in * by lia. lia.
Qed.
(** Room for [n >= 0] bytes is taken. *)
Lemma wp_alloc U n (Q : unit -> state -> Prop) T s :
  Inv s -> 0 <= n < 2 ^ 32 -> n mod wsize = 0 -> has_room (SP s - n) s = true ->
  (forall s', Inv s' -> SP s' = SP s - n -> rest s' = rest s -> bytes (stack s') = bytes (stack s) ->
     (forall a, SP s <= a -> mget (shad (stack s')) a = mget (shad (stack s)) a) -> Q tt s') ->
  wp U (st_inc n) Q T s.
Proof.
  intros Hs Hn Hal Hr HQ. destruct (Z.eq_dec n 0) as [->|].
  - change (st_inc 0) with (st_dec 0). apply wp_st_dec; [done|done|done|destruct Hs; lia|].
    apply HQ; [|cbn; lia|done..].
    apply Inv_set_SP; [done|pose proof (inv_SP s Hs); lia|]. rewrite Z.add_0_r. apply Hs.
  - apply wp_st_inc; [done|lia|done|done|].
    destruct (grow_contract (SP s - n) s ltac:(lia)) as [_ Gs].
    apply HQ; [by apply Inv_grow_room; [|lia|..]|done| |apply bytes_grow|].
    + unfold grow, extend. by destruct (_ <? _).
    + intros a Ha. rewrite Gs. by replace (_ && _) with false by lia.
Qed.

(** ** Round trips *)

(** [s'] has the stack of [s]: what was pushed has been popped. *)
Definition restored (s s' : state) : Prop :=
  SP s' = SP s /\ rest s' = rest s /\ Inv s' /\
  forall a, SP s <= a -> mget (bytes (stack s')) a = mget (bytes (stack s)) a /\
                         mget (shad (stack s')) a = mget (shad (stack s)) a.

Lemma LB_set_warn w s : LB (set_warn w s) = LB s.
Proof. reflexivity. Qed.
Lemma LB_pushed l sh n s : LB (pushed l sh n s) = LB s.
Proof. apply (f_equal LB (rest_pushed l sh n s)). Qed.
Lemma restored_popped l sh k w w' s :
  Inv s -> 0 < k < 2 ^ 32 -> k mod wsize = 0 -> room k s ->
  restored s (popped k w' (set_warn w (pushed l sh k s))).
Proof.
  intros Hs Hk Hal Hr. pose proof (Inv_pushed l sh k s Hs ltac:(lia) Hal Hr) as Hi.
  pose proof (SP_pushed l sh k s) as Esp. pose proof (LB_pushed l sh k s) as Elb.
  pose proof (rest_pushed l sh k s) as Er. pose proof (inv_SP s Hs).
  assert (Hm : forall a, SP s <= a -> mget (bytes (stack (pushed l sh k s))) a = mget (bytes (stack s)) a /\
                   mget (shad (stack (pushed l sh k s))) a = mget (shad (stack s)) a)
    by (intros; split; [apply mget_pushed | apply mshad_pushed]; lia).
  generalize dependent (pushed l sh k s). intros s1 ? ? ? ? ?.
  unfold popped. rewrite SP_set_warn. replace (SP s1 + k) with (SP s) by lia.
  split_and!; [done|exact Er| |exact Hm].
  apply (Inv_set_SP (SP s) (set_warn w' (set_warn w s1))); [by do 2 apply Inv_set_warn| |apply Hs].
  rewrite !SP_set_warn, !LB_set_warn. lia.
Qed.
Lemma pushed_fits l sh k w s :
  Inv s -> SP (set_warn w (pushed l sh k s)) + k <= LB (set_warn w (pushed l sh k s)).
Proof.
  intros Hs. rewrite SP_set_warn, LB_set_warn, SP_pushed, LB_pushed. pose proof (inv_SP s Hs). lia.
Qed.
Lemma width_range n : pop_size n -> 0 < n <= width n /\ width n < 2 ^ 32.
Proof. intros [[Hn _] _]. unfold width. sizes; lia. Qed.
Lemma narrowed_mod_size l n : pop_size n -> narrowed l n mod 2 ^ (8 * n) = l mod 2 ^ (8 * n).
Proof.
  intros [[Hn _] _]. unfold narrowed, MASK1, MASK2. destruct (n <=? wsize); [|done].
  destruct (Z.eqb_spec n 1) as [->|]; [|destruct (Z.eqb_spec n 2) as [->|]; [|done]].
  - change 255 with (Z.ones 8). rewrite Z.land_ones by lia. apply Z.mod_mod. lia.
  - change 65535 with (Z.ones 16). rewrite Z.land_ones by lia. apply Z.mod_mod. lia.
Qed.
(** The object on top after a push of its width. *)
Lemma stk_pushed_narrowed l sh n s :
  pop_size n -> Inv s -> stk (pushed (narrowed l n) sh (width n) s) (SP s - width n) n = l mod 2 ^ (8 * n).
Proof.
  intros Hn Hs. destruct (width_range n Hn). unfold stk, pushed, put_stk. cbn [stack set_stack bytes].
  rewrite bytes_grow, ldn_stn_prefix by (lia || apply Hs).
  rewrite Z2Nat.id by lia. by apply narrowed_mod_size.
Qed.

(** C30: an integer of n bytes that is pushed is popped again, signed or unsigned,
    modulo its size, narrow integers being pushed as words; the stack pointer, the
    stack and the rest of the machine are as before. *)
Theorem push_pop_integer l n s :
  pop_size n -> Inv s -> room (width n) s ->
  (exists s', (npush l n ;; spop n) s = Ret (sext (8 * n) l) s' /\ restored s s') /\
  (exists s', (npush l n ;; upop n) s = Ret (l mod 2 ^ (8 * n)) s' /\ restored s s').
Proof.
  intros Hn Hs Hr. pose proof (width_range n Hn) as Hw.
  assert (Hwa : width n mod wsize = 0) by (apply width_aligned, Hn).
  split.
  - destruct (wp_ret_inv (npush l n ;; spop n) (fun v s' => v = sext (8 * n) l /\ restored s s') s)
      as (v & s' & E & -> & H); [|by exists s'].
    apply wp_bind, wp_npush; [done..|]. intros w.
    apply wp_spop; [done|apply Inv_set_warn, Inv_pushed; done || lia|by apply pushed_fits|].
    intros w'. split; [|apply restored_popped; done || lia].
    unfold stks. rewrite stk_set_warn, SP_set_warn, SP_pushed, stk_pushed_narrowed by done.
    apply sext_eqm, Z.mod_mod. lia.
  - destruct (wp_ret_inv (npush l n ;; upop n) (fun v s' => v = l mod 2 ^ (8 * n) /\ restored s s') s)
      as (v & s' & E & -> & H); [|by exists s'].
    apply wp_bind, wp_npush; [done..|]. intros w.
    apply wp_upop; [done|apply Inv_set_warn, Inv_pushed; done || lia|by apply pushed_fits|].
    intros w'. split; [|apply restored_popped; done || lia].
    by rewrite stk_set_warn, SP_set_warn, SP_pushed, stk_pushed_narrowed.
Qed.

(** A data pointer that is pushed is popped again, modulo the pointer size. *)
Theorem push_pop_pointer p s :
  Inv s -> room psize s ->
  exists s', (dppush p ;; dppop) s = Ret (p mod 2 ^ (8 * psize)) s' /\ restored s s'.
Proof.
  intros Hs Hr. pose proof psize_range. pose proof psize_aligned. pose proof ok_psize.
  destruct (wp_ret_inv (dppush p ;; dppop) (fun v s' => v = p mod 2 ^ (8 * psize) /\ restored s s') s)
    as (v & s' & E & -> & H'); [|by exists s'].
  apply wp_bind, wp_dppush; [done..|]. intros w.
  apply wp_dppop; [apply Inv_set_warn, Inv_pushed; done || lia|by apply pushed_fits|].
  intros w'. split; [|apply restored_popped; done || lia].
  by rewrite stk_set_warn, SP_set_warn, SP_pushed, stk_pushed_top by lia.
Qed.

(** A push for which there is no room, in the heap's direction or within the
    maximum stack size, traps with ESTACK and leaves the machine unchanged but for
    the warnings. *)
Theorem push_overflow s :
  Inv s ->
  (forall l, wsize <= SP s -> ~ room wsize s -> exists w, wpush l s = Trap ESTACK (set_warn w s)) /\
  (forall p, psize <= SP s -> ~ room psize s -> exists w, dppush p s = Trap ESTACK (set_warn w s)) /\
  (forall l n, pop_size n -> width n <= SP s -> ~ room (width n) s ->
     exists w, npush l n s = Trap ESTACK (set_warn w s)).
Proof.
  intros Hs. assert (Hw : 0 < wsize) by (pose proof ok_wsize; lia).
  assert (Hp : 0 < psize) by (pose proof ok_psize; lia).
  split_and!; [intros l Hle Hr | intros l Hle Hr | intros l n Hn Hle Hr].
  - destruct (incSP_no_room wsize s Hs (conj Hw Hle) wsize_mod Hr) as [w E].
    exists w. unfold wpush. run. by rewrite E.
  - destruct (incSP_no_room psize s Hs (conj Hp Hle) psize_aligned Hr) as [w E].
    exists w. unfold dppush. run. by rewrite E.
  - pose proof (width_range n Hn). assert (Hwa : width n mod wsize = 0) by (apply width_aligned, Hn).
    destruct (incSP_no_room (width n) s Hs ltac:(lia) ltac:(done) Hr) as [w E].
    exists w. unfold npush, width in *.
    destruct (Z.leb_spec n wsize); [rewrite Z.max_r in E by lia|rewrite Z.max_l in E by lia]; run; by rewrite E.
Qed.
End StackSpec.
