(* ===== verification/DataSpec.v ===== *)
(** * The data area as a specification: what loads and stores do

    Total correctness of the routines of [data.c] on addresses in the global data
    area and the heap; the counterpart of StackSpec.  The state afterwards is given
    up to the warning administration. *)
From Stdlib Require Import ZArith Lia Bool.
From stdpp Require Import base gmap list.
From S2P Require Import Prelude Machine Warn Mem Wp Data Stack StackSpec.

Section DataSpec.
Context {cfg : Config} {ok : ConfigOk}.

(** The object of [n] bytes at [a] in data, unsigned and signed. *)
Definition dat (s : state) (a n : Z) : Z := ldn (bytes (data s)) a (Z.to_nat n).
Definition dats (s : state) (a n : Z) : Z := sext (8 * n) (dat s a n).

(** [n] bytes at [a] lie in the data area or the heap. *)
Definition on_data (a n : Z) (s : state) : Prop := 0 <= a /\ a + n <= HP s.

Lemma on_data_valid a n i s :
  Inv s -> on_data a n s -> 0 <= i < n -> data_valid (a + i) s = true /\ a + n < 2 ^ 62.
Proof.
  intros Hs [H1 H2] Hi. pose proof (inv_HP s Hs). pose proof (inv_data_alloc s Hs).
  split; [|lia]. unfold data_valid. lia.
Qed.

(** ** Stores *)
Definition put_dat (a l sh n : Z) (s : state) : state :=
  set_data (mkArea (stn (bytes (data s)) a l (Z.to_nat n))
              (fill (shad (data s)) a sh (Z.to_nat n)) (alloc (data s))) s.
Lemma Inv_put_dat a l sh n s : Inv s -> Inv (put_dat a l sh n s).
Proof. intros []. constructor; cbn; auto. by apply bytes_ok_stn. Qed.

Lemma ch_dt_prot_run a s :
  data_valid a s = true -> exists w, ch_dt_prot a s = Ret tt (set_warn w s).
Proof.
  intros Hv. unfold ch_dt_prot, dt_sh. run. rewrite Hv.
  destruct (_ =? 0); run.
  - exists (warn s). by rewrite set_warn_id.
  - eexists. by rewrite warning_ret.
Qed.
Lemma dt_st_loop_run n : forall a l sh s,
  0 <= a -> a + Z.of_nat n <= alloc (data s) -> alloc (data s) < 2 ^ 62 ->
  exists w, dt_st_loop n a l sh s = Ret tt (set_warn w (put_dat a l sh (Z.of_nat n) s)).
Proof.
  unfold put_dat. induction n as [|n IH]; intros a l sh s H0 Hhi Hal; cbn [dt_st_loop].
  - exists (warn s). cbn. by destruct s as [?????????????? [? ? ?] ?????????????].
  - assert (Hv : data_valid a s = true) by (unfold data_valid; lia).
    destruct (ch_dt_prot_run a s Hv) as [w Hw]. run. rewrite Hw.
    unfold set_data_loc, set_dt_sh.
    change (data_valid a (set_warn w s)) with (data_valid a s). rewrite Hv. run.
    match goal with |- context [if data_valid a ?x then _ else _] =>
      change (data_valid a x) with (data_valid a s) end.
    rewrite Hv. run. rewrite padd_small by lia.
    match goal with |- context [dt_st_loop n _ _ _ ?x] =>
      destruct (IH (a + 1) (Z.shiftr l 8) sh x) as [w' Hw']; [cbn; lia..|] end.
    rewrite Hw'. exists w'. rewrite !Nat2Z.id. done.
Qed.

Lemma ch_in_data_run a n s : 0 <= n -> Inv s -> on_data a n s -> ch_in_data a n s = Ret tt s.
Proof.
  intros Hn Hs [H1 H2]. pose proof (inv_HP s Hs). pose proof (inv_data_alloc s Hs).
  unfold ch_in_data, is_in_data. rewrite padd_small by lia.
  by replace (a + n <=? HP s) with true by lia.
Qed.

(** The stores, on aligned addresses in the data area. *)
Lemma wp_dt_st_loop U a l sh n (Q : unit -> state -> Prop) T s :
  Inv s -> 0 <= n -> on_data a n s -> (forall w, Q tt (set_warn w (put_dat a l sh n s))) ->
  wp U (dt_st_loop (Z.to_nat n) a l sh) Q T s.
Proof.
  intros Hs Hn [H1 H2] HQ. pose proof (inv_HP s Hs). pose proof (inv_data_alloc s Hs).
  destruct (dt_st_loop_run (Z.to_nat n) a l sh s) as [w Hw]; [lia..|].
  unfold wp. rewrite Hw, Z2Nat.id by lia. apply HQ.
Qed.
Lemma wp_dt_stn U a l n (Q : unit -> state -> Prop) T s :
  int_size n -> Inv s -> on_data a n s -> a mod wsize = 0 ->
  (forall w, Q tt (set_warn w (put_dat a l (sh_flags l n) n s))) -> wp U (dt_stn a l n) Q T s.
Proof.
  intros [Hn Hd] Hs Ha Hal HQ. unfold dt_stn, wp. run.
  rewrite ch_in_data_run by (done || lia). run. rewrite ch_aligned_run by (done || lia). run.
  apply (wp_dt_st_loop U); [done|lia|done|exact HQ].
Qed.
Lemma wp_dt_stw U a l (Q : unit -> state -> Prop) T s :
  Inv s -> on_data a wsize s -> a mod wsize = 0 ->
  (forall w, Q tt (set_warn w (put_dat a l (sh_flags l wsize) wsize s))) -> wp U (dt_stw a l) Q T s.
Proof.
  intros Hs Ha Hal HQ. pose proof wsize_range. unfold dt_stw, wp. run.
  rewrite ch_in_data_run by (done || lia). run. rewrite ch_wordaligned_run by done. run.
  apply (wp_dt_st_loop U); [done|lia|done|exact HQ].
Qed.
Lemma wp_dt_stdp U a l (Q : unit -> state -> Prop) T s :
  Inv s -> on_data a psize s -> a mod wsize = 0 ->
  (forall w, Q tt (set_warn w (put_dat a l SH_DATAP psize s))) -> wp U (dt_stdp a l) Q T s.
Proof.
  intros Hs Ha Hal HQ. pose proof psize_range. unfold dt_stdp, wp. run.
  rewrite ch_in_data_run by (done || lia). run. rewrite ch_wordaligned_run by done. run.
  apply (wp_dt_st_loop U); [done|lia|done|exact HQ].
Qed.

(** ** Loads *)
Lemma dt_bits_loop_run n : forall a o b s,
  0 <= a -> a + Z.of_nat n <= alloc (data s) -> alloc (data s) < 2 ^ 62 ->
  exists ob, dt_bits_loop n a o b s = Ret ob s.
Proof.
  induction n as [|n IH]; intros a o b s H0 Hhi Hal; cbn [dt_bits_loop]; [by eexists|].
  run. unfold dt_sh. replace (data_valid a s) with true by (unfold data_valid; lia). run.
  rewrite padd_small by lia. apply IH; lia.
Qed.
Lemma warn_dtbits_run a n s :
  Inv s -> 0 <= n -> on_data a n s -> exists w, warn_dtbits a n s = Ret tt (set_warn w s).
Proof.
  intros Hs Hn [H1 H2]. pose proof (inv_HP s Hs). pose proof (inv_data_alloc s Hs).
  unfold warn_dtbits. run.
  destruct (dt_bits_loop_run (Z.to_nat n) a 0 255 s) as [ob E]; [lia..|].
  rewrite E. apply warn_bits_run.
Qed.
Lemma is_dt_set_run a n b s :
  0 < n -> Inv s -> on_data a n s -> exists v, is_dt_set a n b s = Ret v s.
Proof.
  intros Hn Hs Ha. unfold is_dt_set, dt_sh. run.
  destruct (on_data_valid a n 0 s Hs Ha ltac:(lia)) as (Hv & ?). rewrite Z.add_0_r in Hv.
  rewrite Hv. run. destruct (_ =? 0); run; [by eexists|].
  destruct (on_data_valid a n (n - 1) s Hs Ha ltac:(lia)) as (Hv' & _). pose proof Ha as [? _].
  rewrite padd_small by lia. rewrite Hv'. run. by eexists.
Qed.
Lemma dsh_check_run a n b wn s :
  0 < n -> 0 <= wn -> Inv s -> on_data a n s ->
  exists v w, is_dt_set a n b s = Ret v s /\
    when (negb v) (warning wn ;; warn_dtbits a n) s = Ret tt (set_warn w s).
Proof.
  intros Hn Hwn Hs Ha. destruct (is_dt_set_run a n b s Hn Hs Ha) as [v Hv]. exists v.
  destruct v; run.
  - exists (warn s). by rewrite set_warn_id.
  - rewrite warning_ret by done.
    destruct (warn_dtbits_run a n (warned wn s)) as [w Hw]; [by apply Inv_warned|lia|done|].
    exists w. split; [done|]. by rewrite Hw.
Qed.

Lemma dt_ldu_loop_run n : forall a u s,
  bytes_ok (bytes (data s)) -> 0 <= a -> a + Z.of_nat n <= alloc (data s) -> alloc (data s) < 2 ^ 62 ->
  0 <= u -> u * 2 ^ (8 * Z.of_nat n) + 2 ^ (8 * Z.of_nat n) <= 2 ^ 64 ->
  dt_ldu_loop n (a + Z.of_nat n - 1) u s
  = Ret (u * 2 ^ (8 * Z.of_nat n) + ldn (bytes (data s)) a n) s.
Proof.
  induction n as [|n IH]; intros a u s Hb H0 Hhi Hal Hu Hbig; cbn [dt_ldu_loop].
  - cbn -[Z.mul]. f_equal. lia.
  - run. unfold data_loc.
    replace (data_valid _ s) with true by (unfold data_valid; lia). run.
    replace (a + Z.of_nat (S n) - 1) with (a + Z.of_nat n) by lia.
    pose proof (mget_range (bytes (data s)) (a + Z.of_nat n) Hb) as Hm.
    set (b := mget _ _) in *.
    replace (8 * Z.of_nat (S n)) with (8 + 8 * Z.of_nat n) in * by lia.
    rewrite Z.pow_add_r in * by lia. change (2 ^ 8) with 256 in *.
    rewrite Z.lor_comm, lor_byte by done.
    pose proof (Z.pow_pos_nonneg 2 (8 * Z.of_nat n) ltac:(lia) ltac:(lia)) as Hpos.
    rewrite u64_small by nia.
    destruct n as [|n]; [cbn -[Z.mul Z.add]; unfold b; f_equal; rewrite Z.add_0_r; lia|].
    rewrite padd_small by lia.
    replace (a + Z.of_nat (S n) + -1) with (a + Z.of_nat (S n) - 1) by lia.
    rewrite IH; [|done|lia|lia|lia|lia|nia]. rewrite (ldn_S_last _ _ (S n)). fold b. f_equal. lia.
Qed.
Lemma dt_lds_loop_run n : forall a l s,
  bytes_ok (bytes (data s)) -> 0 <= a -> a + Z.of_nat n <= alloc (data s) -> alloc (data s) < 2 ^ 62 ->
  - 2 ^ 63 <= l * 2 ^ (8 * Z.of_nat n) -> l * 2 ^ (8 * Z.of_nat n) + 2 ^ (8 * Z.of_nat n) <= 2 ^ 63 ->
  dt_lds_loop n (a + Z.of_nat n - 1) l s
  = Ret (l * 2 ^ (8 * Z.of_nat n) + ldn (bytes (data s)) a n) s.
Proof.
  induction n as [|n IH]; intros a l s Hb H0 Hhi Hal Hl Hbig; cbn [dt_lds_loop].
  - cbn -[Z.mul]. f_equal. lia.
  - run. unfold data_loc.
    replace (data_valid _ s) with true by (unfold data_valid; lia). run.
    replace (a + Z.of_nat (S n) - 1) with (a + Z.of_nat n) by lia.
    pose proof (mget_range (bytes (data s)) (a + Z.of_nat n) Hb) as Hm.
    set (b := mget _ _) in *.
    replace (8 * Z.of_nat (S n)) with (8 + 8 * Z.of_nat n) in * by lia.
    rewrite Z.pow_add_r in * by lia. change (2 ^ 8) with 256 in *.
    rewrite Z.lor_comm, lor_byte by done.
    pose proof (Z.pow_pos_nonneg 2 (8 * Z.of_nat n) ltac:(lia) ltac:(lia)) as Hpos.
    unfold s64. rewrite sext_small by (cbn -[Z.mul]; nia).
    destruct n as [|n]; [cbn -[Z.mul Z.add]; unfold b; f_equal; rewrite Z.add_0_r; lia|].
    rewrite padd_small by lia.
    replace (a + Z.of_nat (S n) + -1) with (a + Z.of_nat (S n) - 1) by lia.
    rewrite IH; [|done|lia|lia|lia|nia|nia]. rewrite (ldn_S_last _ _ (S n)). fold b. f_equal. lia.
Qed.

Lemma wp_dt_ldu_body U a n Q T s :
  0 < n <= 8 -> Inv s -> on_data a n s -> Q (dat s a n) s ->
  wp U (dt_ldu_loop (Z.to_nat n) (a +p (n - 1)) 0) Q T s.
Proof.
  intros Hn Hs [H1 H2] HQ. pose proof (inv_HP s Hs). pose proof (inv_data_alloc s Hs).
  rewrite padd_small by lia. replace (a + (n - 1)) with (a + Z.of_nat (Z.to_nat n) - 1) by lia.
  pose proof (pow_le_64 n ltac:(lia)).
  unfold wp. rewrite dt_ldu_loop_run; [done|apply Hs|lia|lia|lia|lia|].
  rewrite Z2Nat.id by lia. lia.
Qed.
Lemma wp_dt_lds_body U a n Q T s :
  0 < n <= 8 -> Inv s -> on_data a n s -> Q (dats s a n) s ->
  wp U (l ← data_loc (a +p (n - 2) +p 1);
        dt_lds_loop (Z.to_nat (n - 1)) (a +p (n - 2)) (s8 l)) Q T s.
Proof.
  intros Hn Hs [H1 H2] HQ. pose proof (inv_HP s Hs). pose proof (inv_data_alloc s Hs).
  rewrite padd_assoc, (padd_small a (n - 2 + 1)) by lia. unfold wp. run. unfold data_loc.
  replace (data_valid _ s) with true by (unfold data_valid; lia). run.
  replace (a + (n - 2 + 1)) with (a + Z.of_nat (Z.to_nat (n - 1))) by lia.
  set (b := mget _ _).
  assert (Hb : - 128 <= s8 b < 128) by apply (sext_range 8 b ltac:(lia)).
  assert (Hv : dats s a n = s8 b * 2 ^ (8 * Z.of_nat (Z.to_nat (n - 1))) + ldn (bytes (data s)) a (Z.to_nat (n - 1))).
  { unfold dats, dat. replace n with (Z.of_nat (S (Z.to_nat (n - 1)))) at 1 2 by lia.
    by rewrite Nat2Z.id, sext_last by apply Hs. }
  rewrite Hv in HQ.
  destruct (Z.to_nat (n - 1)) as [|k] eqn:Ek.
  { cbn -[Z.mul]. replace (s8 b) with (s8 b * 2 ^ (8 * Z.of_nat 0) + ldn (bytes (data s)) a 0); [done|].
    cbn -[Z.mul]. lia. }
  rewrite padd_small by lia. replace (a + (n - 2)) with (a + Z.of_nat (S k) - 1) by lia.
  assert (E : 2 ^ 63 = 128 * 2 ^ 56) by reflexivity.
  assert (2 ^ (8 * Z.of_nat (S k)) <= 2 ^ 56) by (apply Z.pow_le_mono_r; lia).
  assert (0 < 2 ^ (8 * Z.of_nat (S k))) by (apply Z.pow_pos_nonneg; lia).
  rewrite dt_lds_loop_run; [done|apply Hs|lia|lia|lia|nia|nia].
Qed.
Lemma wp_dt_ldu U a n Q T s :
  int_size n -> Inv s -> on_data a n s -> a mod wsize = 0 ->
  (forall w, Q (dat s a n) (set_warn w s)) -> wp U (dt_ldu a n) Q T s.
Proof.
  intros [Hn Hd] Hs Ha Hal HQ. unfold dt_ldu, wp. run.
  rewrite ch_in_data_run by (done || lia). run. rewrite ch_aligned_run by (done || lia). run.
  destruct (dsh_check_run a n SH_INT (if n =? 1 then WGCEXP else WGIEXP) s) as (v & w & Hv & Hw);
    [lia|by destruct (n =? 1)|done|done|].
  rewrite Hv. run. rewrite Hw. run. by apply (wp_dt_ldu_body U); [|apply Inv_set_warn| |].
Qed.
Lemma wp_dt_lds U a n Q T s :
  int_size n -> Inv s -> on_data a n s -> a mod wsize = 0 ->
  (forall w, Q (dats s a n) (set_warn w s)) -> wp U (dt_lds a n) Q T s.
Proof.
  intros [Hn Hd] Hs Ha Hal HQ. unfold dt_lds. cbv zeta. unfold wp. run.
  rewrite ch_in_data_run by (done || lia). run. rewrite ch_aligned_run by (done || lia). run.
  destruct (dsh_check_run a n SH_INT (if n =? 1 then WGCEXP else WGIEXP) s) as (v & w & Hv & Hw);
    [lia|by destruct (n =? 1)|done|done|].
  rewrite Hv. run. rewrite Hw. run. by apply (wp_dt_lds_body U); [|apply Inv_set_warn| |].
Qed.
Lemma wp_dt_ldsw U a Q T s :
  Inv s -> on_data a wsize s -> a mod wsize = 0 ->
  (forall w, Q (dats s a wsize) (set_warn w s)) -> wp U (dt_ldsw a) Q T s.
Proof.
  intros Hs Ha Hal HQ. pose proof int_size_wsize as [Hn _]. unfold dt_ldsw. cbv zeta. unfold wp. run.
  rewrite ch_in_data_run by (done || lia). run. rewrite ch_wordaligned_run by done. run.
  destruct (dsh_check_run a wsize SH_INT WGIEXP s) as (v & w & Hv & Hw); [lia|done|done|done|].
  rewrite Hv. run. rewrite Hw. run. by apply (wp_dt_lds_body U); [|apply Inv_set_warn| |].
Qed.

(** Unchecked loads of pointers. *)
Lemma bytes_in_data_run n : forall a s,
  Inv s -> 0 <= a -> a + Z.of_nat n <= HP s ->
  bytes_in data_loc a n s = Ret (ldn (bytes (data s)) a n) s.
Proof.
  induction n as [|n IH]; intros a s Hs H1 H2; cbn [bytes_in]; [done|].
  pose proof (inv_HP s Hs). pose proof (inv_data_alloc s Hs). run. unfold data_loc at 1.
  replace (data_valid a s) with true by (unfold data_valid; lia). run.
  rewrite padd_small, IH by (done || lia). run. rewrite lor_byte; [done|].
  apply mget_range, Hs.
Qed.
Lemma wp_p_in_data U a Q T s :
  Inv s -> on_data a psize s -> Q (dat s a psize) s -> wp U (p_in_data a) Q T s.
Proof.
  intros Hs [H1 H2] HQ. unfold wp, p_in_data.
  replace (if psize =? 2 then 2%nat else 4%nat) with (Z.to_nat psize) by (by sizes).
  pose proof int_size_psize as [? _]. by rewrite bytes_in_data_run by (done || lia).
Qed.
Lemma wp_dt_lddp U a Q T s :
  Inv s -> on_data a psize s -> a mod wsize = 0 ->
  (forall w, Q (dat s a psize) (set_warn w s)) -> wp U (dt_lddp a) Q T s.
Proof.
  intros Hs Ha Hal HQ. pose proof int_size_psize as [Hn _]. unfold dt_lddp, wp. run.
  rewrite ch_in_data_run by (done || lia). run. rewrite ch_wordaligned_run by done. run.
  destruct (dsh_check_run a psize SH_DATAP WGDPEXP s) as (v & w & Hv & Hw); [lia|done|done|done|].
  rewrite Hv. run. rewrite Hw. run. by apply (wp_p_in_data U); [apply Inv_set_warn| |].
Qed.

(** ** Protection: only shadow bytes change *)
Definition reshaded (s s' : state) : Prop :=
  exists sh, s' = set_data (mkArea (bytes (data s)) sh (alloc (data s))) s.
Lemma reshaded_trans s s1 s2 : reshaded s s1 -> reshaded s1 s2 -> reshaded s s2.
Proof. intros [sh ->] [sh' ->]. by exists sh'. Qed.
Lemma Inv_reshaded s s' : Inv s -> reshaded s s' -> Inv s'.
Proof. intros [] [sh ->]. by constructor. Qed.

Lemma wp_dt_reshade1 U (f : Z -> Z) a (Q : unit -> state -> Prop) T s :
  data_valid a s = true -> (forall s', reshaded s s' -> Q tt s') ->
  wp U (x ← dt_sh a; set_dt_sh a (f x)) Q T s.
Proof.
  intros Hv HQ. unfold dt_sh, set_dt_sh, wp. run. rewrite Hv. run. rewrite Hv.
  apply HQ. by eexists.
Qed.
Lemma data_valid_reshaded a s s' : reshaded s s' -> data_valid a s' = data_valid a s.
Proof. by intros [sh ->]. Qed.
Lemma wp_dt_reshade2 U (f : Z -> Z) a (Q : unit -> state -> Prop) T s :
  0 <= a -> a + 2 <= alloc (data s) < 2 ^ 62 -> (forall s', reshaded s s' -> Q tt s') ->
  wp U ((x ← dt_sh a; set_dt_sh a (f x)) ;; x ← dt_sh (a +p 1); set_dt_sh (a +p 1) (f x)) Q T s.
Proof.
  intros H0 Ha HQ. rewrite padd_small by lia.
  apply wp_bind, wp_dt_reshade1; [unfold data_valid; lia|]. intros s1 H1.
  apply wp_dt_reshade1; [rewrite (data_valid_reshaded _ s) by done; unfold data_valid; lia|].
  intros s2 H2. apply HQ. by eapply reshaded_trans.
Qed.
Lemma wp_dt_reshade U (f : Z -> Z) (m : Z -> M unit) a n (Q : unit -> state -> Prop) T s :
  (forall b, m b = ((x ← dt_sh b; set_dt_sh b (f x)) ;; x ← dt_sh (b +p 1); set_dt_sh (b +p 1) (f x))) ->
  n = 2 \/ n = 4 -> Inv s -> on_data a n s -> (forall s', reshaded s s' -> Q tt s') ->
  wp U (m a ;; when (n =? 4) (m (a +p 2))) Q T s.
Proof.
  intros Hm Hn Hs [H1 H2] HQ. pose proof (inv_HP s Hs). pose proof (inv_data_alloc s Hs).
  rewrite !Hm. apply wp_bind, wp_dt_reshade2; [done|lia|]. intros s1 Hr1.
  destruct (Z.eqb_spec n 4); [|by apply HQ]. cbn [when]. rewrite (padd_small a) by lia.
  assert (Ea : alloc (data s1) = alloc (data s)) by by destruct Hr1 as [sh ->].
  apply wp_dt_reshade2; [lia|lia|]. intros s2 Hr2. apply HQ. by eapply reshaded_trans.
Qed.
Lemma wp_dt_prot U a n (Q : unit -> state -> Prop) T s :
  n = 2 \/ n = 4 -> Inv s -> on_data a n s -> (forall s', reshaded s s' -> Q tt s') ->
  wp U (dt_prot a n) Q T s.
Proof. intros. by apply (wp_dt_reshade U (fun x => Z.lor x SH_PROT) dt_prot2b). Qed.
Lemma wp_dt_unprot U a n (Q : unit -> state -> Prop) T s :
  n = 2 \/ n = 4 -> Inv s -> on_data a n s -> (forall s', reshaded s s' -> Q tt s') ->
  wp U (dt_unprot a n) Q T s.
Proof. intros. by apply (wp_dt_reshade U (fun x => Z.ldiff x SH_PROT) dt_unpr2b). Qed.

(** ** Round trips *)
Lemma dat_put_dat a l sh n s : 0 <= n -> dat (put_dat a l sh n s) a n = l mod 2 ^ (8 * n).
Proof. intros Hn. unfold dat, put_dat. cbn. rewrite ldn_stn_eq. by rewrite Z2Nat.id. Qed.
Lemma dat_put_dat_ne a l sh n s b k :
  0 <= n -> 0 <= k -> b + k <= a \/ a + n <= b -> dat (put_dat a l sh n s) b k = dat s b k.
Proof. intros Hn Hk H. unfold dat, put_dat. cbn. apply ldn_stn_ne. lia. Qed.

(** What is stored at an aligned address in the data area or the heap is loaded
    again, modulo its size: integers of n bytes, signed or unsigned, and pointers;
    everything else in memory is unchanged. *)
Theorem data_roundtrip a l n s :
  int_size n -> Inv s -> on_data a n s -> a mod wsize = 0 ->
  (exists w, (dt_stn a l n ;; dt_ldu a n) s
     = Ret (l mod 2 ^ (8 * n)) (set_warn w (put_dat a l (sh_flags l n) n s))) /\
  (exists w, (dt_stn a l n ;; dt_lds a n) s
     = Ret (sext (8 * n) l) (set_warn w (put_dat a l (sh_flags l n) n s))) /\
  (n = psize -> exists w, (dt_stdp a l ;; dt_lddp a) s
     = Ret (l mod 2 ^ (8 * psize)) (set_warn w (put_dat a l SH_DATAP psize s))).
Proof.
  intros Hn Hs Ha Hal. pose proof Hn as [Hn0 _].
  assert (Hp : forall sh w, Inv (set_warn w (put_dat a l sh n s)))
    by (intros; by apply Inv_set_warn, Inv_put_dat).
  split_and!.
  - destruct (wp_run (dt_stn a l n ;; dt_ldu a n) s (l mod 2 ^ (8 * n))
      (fun s' => exists w, s' = set_warn w (put_dat a l (sh_flags l n) n s))) as (s' & E & w & ->); [|by exists w].
    apply wp_bind, wp_dt_stn; [done..|]. intros w. apply wp_dt_ldu; [done..|]. intros w'.
    split; [|by exists w']. apply dat_put_dat. lia.
  - destruct (wp_run (dt_stn a l n ;; dt_lds a n) s (sext (8 * n) l)
      (fun s' => exists w, s' = set_warn w (put_dat a l (sh_flags l n) n s))) as (s' & E & w & ->); [|by exists w].
    apply wp_bind, wp_dt_stn; [done..|]. intros w. apply wp_dt_lds; [done..|]. intros w'.
    split; [|by exists w']. unfold dats. apply sext_eqm.
    change (dat (set_warn _ ?x) a n) with (dat x a n). rewrite dat_put_dat by lia. apply Z.mod_mod. lia.
  - intros ->. destruct (wp_run (dt_stdp a l ;; dt_lddp a) s (l mod 2 ^ (8 * psize))
      (fun s' => exists w, s' = set_warn w (put_dat a l SH_DATAP psize s))) as (s' & E & w & ->); [|by exists w].
    apply wp_bind, wp_dt_stdp; [done..|]. intros w. apply wp_dt_lddp; [done..|]. intros w'.
    split; [|by exists w']. apply dat_put_dat. lia.
Qed.
End DataSpec.
