(* ===== verification/Text.v ===== *)
(** * Accessing the program text ([text.h], [text.c])

    Operand fetch, the argument checks [arg_*], and the program counter. *)
From Stdlib Require Import ZArith Lia Bool.
From stdpp Require Import base gmap list.
From S2P Require Import Prelude Machine Warn Mem Wp Data Stack.

Section Text.
Context {cfg : Config}.

(** [text] is an array of [DB] bytes. *)
Definition text_loc (a : Z) : M Z :=
  if (0 <=? a) && (a <? DB) then
    match text !! Z.to_nat a with Some b => ret b | None => undef end
  else undef.

Definition step_PC (n : Z) : M unit := modify (fun s => set_PC (PC s +p n) s).

Definition nextPCbyte : M Z := step_PC 1 ;; pc ← gets PC; text_loc (pc +p -1).

(** Shortie arguments: the high order value [h] and the following byte. *)
Definition S_arg (h : Z) : M Z :=
  step_PC 1 ;; pc ← gets PC; b ← text_loc (pc +p -1); ret (Z.shiftl h 8 + b).

(** Two-byte arguments; only the leftmost byte is signed. *)
Definition L_arg_2 : M Z :=
  step_PC 2 ;; pc ← gets PC;
  b1 ← text_loc (pc +p -1); b2 ← text_loc (pc +p -2);
  ret (Z.lor b1 (Z.shiftl (s8 b2) 8)).
Definition P_arg_2 : M Z := L_arg_2.
Definition N_arg_2 : M Z := L_arg_2.
Definition U_arg : M Z :=
  step_PC 2 ;; pc ← gets PC;
  b1 ← text_loc (pc +p -1); b2 ← text_loc (pc +p -2);
  ret (Z.lor b1 (Z.shiftl b2 8)).
Definition L_arg_4 : M Z :=
  step_PC 4 ;; pc ← gets PC;
  b1 ← text_loc (pc +p -1); b2 ← text_loc (pc +p -2);
  b3 ← text_loc (pc +p -3); b4 ← text_loc (pc +p -4);
  ret (Z.lor b1 (Z.lor (Z.shiftl b2 8) (Z.lor (Z.shiftl b3 16) (Z.shiftl (s8 b4) 24)))).
Definition P_arg_4 : M Z := L_arg_4.
Definition N_arg_4 : M Z := L_arg_4.

(** ** Argument checks: trap or the argument *)
Definition check {A} (bad : bool) (m : M A) (n : A) : M A := if bad then m else ret n.

Definition arg_c (n : Z) : M Z := check ((n <? i_minsw) || (i_maxsw <? n)) (wtrap WARGC EILLINS) n.
Definition arg_d (n : Z) : M Z := check (2 <? wsize) (wtrap WARGD EILLINS) n.
Definition arg_l (n : Z) : M Z := check ((n <? min_off) || (max_off <? n)) (wtrap WARGL EILLINS) n.
Definition arg_g (p : Z) : M Z := check (HB <=? p) (wtrap WARGG EILLINS) p.
Definition arg_f (n : Z) : M Z := check ((n <? min_off) || (max_off <? n)) (wtrap WARGF EILLINS) n.
Definition arg_n (u : Z) : M Z := check (i_maxuw <? u) (wtrap WARGL EILLINS) u.
Definition arg_s (s : Z) : M Z :=
  check ((s <=? 0) || (max_off <? s) || negb (Z.land s wsizem1 =? 0)) (trap EODDZ) s.
Definition arg_z (s : Z) : M Z :=
  check ((s <? 0) || (max_off <? s) || negb (Z.land s wsizem1 =? 0)) (trap EODDZ) s.
Definition arg_o (s : Z) : M Z :=
  check ((s <? 0) || (max_off <? s) ||
         (negb (Z.land s wsizem1 =? 0) && negb (Z.rem wsize s =? 0))) (trap EODDZ) s.
Definition arg_w (s : Z) : M Z :=
  check ((s <=? 0) || (max_off <? s) || negb (Z.land s wsizem1 =? 0)) (trap EODDZ) s.
Definition arg_p (l : Z) : M Z := check (NProc <=? l) (wtrap WARGP EILLINS) l.
Definition arg_r (n : Z) : M Z := check ((n <? 0) || (2 <? n)) (wtrap WARGR EILLINS) n.

(** Tests on widths. *)
Definition arg_wn (s : Z) : M Z :=
  check (negb (s =? 1) && negb (s =? 2) && negb (s =? 4)) (trap EODDZ) s.
Definition arg_wf (s : Z) : M Z := check (negb (s =? 4) && negb (s =? 8)) (trap EODDZ) s.
Definition arg_wi (s : Z) : M Z :=
  check ((negb (s =? 2) && negb (s =? 4)) || negb (Z.land s wsizem1 =? 0)) (trap EODDZ) s.

(** Special tests. *)
Definition arg_lae (p : Z) : M Z := check (ML <? p) (trap EBADLAE) p.
Definition arg_gto (p : Z) : M Z := check (HB <=? p) (wtrap WGTOSTACK EBADGTO) p.
Definition arg_lin (u : Z) : M Z := check (u64 NLINE <? u) (trap EBADLIN) u.

(** ** Program counter *)

(** [proctab\[i\]]: an array of [NProc] entries. *)
Definition get_proc (i : Z) : M proc :=
  if 0 <=? i then match proctab !! Z.to_nat i with Some p => ret p | None => undef end
  else undef.

Definition newPC (p : Z) : M unit :=
  when (DB <=? p) (wtrap WPCOVFL EBADPC) ;;
  pi ← gets PI;
  pr ← get_proc pi;
  when ((p <? pr_ep pr) || (pr_ff pr <=? p)) (wtrap WPCPROC EBADPC) ;;
  modify (set_PC p).

End Text.

(** ** Operand fetch and the checks preserve the invariant *)
Section Keeps.
Context {cfg : Config} {ok : ConfigOk}.

Lemma keeps_text_loc a : keeps (text_loc a) is_byte.
Proof.
  unfold text_loc. apply keeps_if; intros _; [|apply keeps_undef].
  destruct (text !! Z.to_nat a) as [b|] eqn:E; [|apply keeps_undef].
  apply keeps_ret. pose proof ok_text as H. rewrite Forall_lookup in H. by eapply H.
Qed.
Lemma keeps_step_PC n : keeps (step_PC n) any.
Proof. apply keeps_modify. inv_set. Qed.
#[local] Hint Resolve keeps_text_loc keeps_step_PC : keeps.
Lemma keeps_nextPCbyte : keeps nextPCbyte is_byte.
Proof. unfold nextPCbyte. keeps_tac. Qed.
Lemma keeps_S_arg h : keeps (S_arg h) any.
Proof. unfold S_arg. keeps_tac. Qed.
Lemma keeps_L_arg_2 : keeps L_arg_2 any.
Proof. unfold L_arg_2. keeps_tac. Qed.
Lemma keeps_U_arg : keeps U_arg any.
Proof. unfold U_arg. keeps_tac. Qed.
Lemma keeps_L_arg_4 : keeps L_arg_4 any.
Proof. unfold L_arg_4. keeps_tac. Qed.

(** A check passes its argument on. *)
Lemma keeps_check {A} (bad : bool) (m : M A) (n : A) (P : A -> Prop) :
  keeps m (fun _ => False) -> (bad = false -> P n) -> keeps (check bad m n) P.
Proof.
  intros Hm H. unfold check. destruct bad; [|apply keeps_ret; auto].
  eapply keeps_conseq; [exact Hm | done].
Qed.

Lemma keeps_arg_c n : keeps (arg_c n) (fun v => v = n /\ i_minsw <= n <= i_maxsw).
Proof. apply keeps_check; [apply keeps_wtrap | lia]. Qed.
Lemma keeps_arg_d n : keeps (arg_d n) (fun v => v = n).
Proof. apply keeps_check; [apply keeps_wtrap | done]. Qed.
Lemma keeps_arg_l n : keeps (arg_l n) (fun v => v = n /\ min_off <= n <= max_off).
Proof. apply keeps_check; [apply keeps_wtrap | lia]. Qed.
Lemma keeps_arg_g p : keeps (arg_g p) (fun v => v = p /\ p < HB).
Proof. apply keeps_check; [apply keeps_wtrap | lia]. Qed.
Lemma keeps_arg_f n : keeps (arg_f n) (fun v => v = n /\ min_off <= n <= max_off).
Proof. apply keeps_check; [apply keeps_wtrap | lia]. Qed.
Lemma keeps_arg_n u : keeps (arg_n u) (fun v => v = u /\ u <= i_maxuw).
Proof. apply keeps_check; [apply keeps_wtrap | lia]. Qed.
Lemma keeps_arg_p l : keeps (arg_p l) (fun v => v = l /\ l < NProc).
Proof. apply keeps_check; [apply keeps_wtrap | lia]. Qed.
Lemma keeps_arg_r n : keeps (arg_r n) (fun v => v = n /\ 0 <= n <= 2).
Proof. apply keeps_check; [apply keeps_wtrap | lia]. Qed.
Lemma keeps_arg_lae p : keeps (arg_lae p) (fun v => v = p /\ p <= ML).
Proof. apply keeps_check; [apply keeps_trap | lia]. Qed.
Lemma keeps_arg_gto p : keeps (arg_gto p) (fun v => v = p /\ p < HB).
Proof. apply keeps_check; [apply keeps_wtrap | lia]. Qed.
Lemma keeps_arg_lin u : keeps (arg_lin u) (fun v => v = u /\ u <= u64 NLINE).
Proof. apply keeps_check; [apply keeps_trap | lia]. Qed.

Lemma max_off_range : 0 < max_off < 2 ^ 31.
Proof. unfold max_off. by destruct (psize =? 2). Qed.
Lemma land_wsizem1 s : Z.land s wsizem1 = s mod wsize.
Proof.
  unfold wsizem1. destruct wsize_pow2 as (k & Hk & ->).
  replace (2 ^ k - 1) with (Z.ones k) by (rewrite Z.ones_equiv; lia).
  apply Z.land_ones. lia.
Qed.
Lemma arg_o_obj_size s :
  ((s <? 0) || (max_off <? s) ||
   (negb (Z.land s wsizem1 =? 0) && negb (Z.rem wsize s =? 0))) = false -> obj_size s.
Proof.
  intros H. pose proof max_off_range. rewrite land_wsizem1 in H.
  split; [lia|]. destruct (Z.ltb_spec s wsize); [by left|right].
  destruct (Z.eqb_spec (s mod wsize) 0) as [|Hne]; [done|]. exfalso.
  assert (Z.rem wsize s = 0) as Hr by lia. assert (wsize < s \/ s = wsize) as [Hlt| ->] by lia.
  - rewrite Z.rem_small in Hr; sizes; lia.
  - apply Hne, wsize_mod.
Qed.
Lemma keeps_arg_o s : keeps (arg_o s) (fun v => v = s /\ obj_size s).
Proof. apply keeps_check; [apply keeps_trap|]. intros H. split; [done|]. by apply arg_o_obj_size. Qed.
Lemma aligned_obj_size s : 0 <= s <= max_off -> Z.land s wsizem1 = 0 -> obj_size s.
Proof.
  intros ? H. pose proof max_off_range. rewrite land_wsizem1 in H. split; [lia | by right].
Qed.
Lemma keeps_arg_s s : keeps (arg_s s) (fun v => v = s /\ obj_size s /\ 0 < s).
Proof.
  apply keeps_check; [apply keeps_trap|]. intros. split_and!; [done| |lia].
  apply aligned_obj_size; lia.
Qed.
Lemma keeps_arg_w s : keeps (arg_w s) (fun v => v = s /\ obj_size s /\ 0 < s).
Proof. apply keeps_arg_s. Qed.
Lemma keeps_arg_z s : keeps (arg_z s) (fun v => v = s /\ obj_size s).
Proof.
  apply keeps_check; [apply keeps_trap|]. intros. split; [done|]. apply aligned_obj_size; lia.
Qed.
Lemma keeps_arg_wi s : keeps (arg_wi s) (fun v => v = s /\ obj_size s).
Proof.
  apply keeps_check; [apply keeps_trap|]. intros. split; [done|]. pose proof max_off_range.
  rewrite land_wsizem1 in *. split; [lia | right; lia].
Qed.

Lemma keeps_get_proc i : keeps (get_proc i) any.
Proof. unfold get_proc. keeps_tac. Qed.
#[local] Hint Resolve keeps_get_proc : keeps.
Lemma keeps_newPC p : keeps (newPC p) any.
Proof. unfold newPC. keeps_tac. Qed.
End Keeps.

#[export] Hint Resolve keeps_text_loc keeps_nextPCbyte keeps_S_arg keeps_L_arg_2 keeps_U_arg
  keeps_L_arg_4 keeps_arg_c keeps_arg_d keeps_arg_l keeps_arg_g keeps_arg_f keeps_arg_n keeps_arg_p
  keeps_arg_r keeps_arg_lae keeps_arg_gto keeps_arg_lin keeps_arg_o keeps_arg_s keeps_arg_w
  keeps_arg_z keeps_arg_wi keeps_get_proc keeps_newPC : keeps.

(** ** Operands: encoding and decoding *)
Section Operands.
Context {cfg : Config}.

(** The [n] bytes of [v], most significant first, as the assembler writes them. *)
Fixpoint big_endian (n : nat) (v : Z) : list Z :=
  match n with
  | O => []
  | S n' => char (Z.shiftr v (8 * Z.of_nat n')) :: big_endian n' v
  end.
(** The bytes [l] are in the text segment, from [a] upwards. *)
Definition text_at (a : Z) (l : list Z) : Prop :=
  0 <= a /\ a + Z.of_nat (length l) <= DB /\
  forall i b, l !! i = Some b -> text !! Z.to_nat (a + Z.of_nat i) = Some b.

Lemma text_loc_at a l i b s :
  text_at a l -> l !! i = Some b -> text_loc (a + Z.of_nat i) s = Ret b s.
Proof.
  intros (H0 & Hdb & H) Hi. unfold text_loc. apply lookup_lt_Some in Hi as Hlt.
  replace (_ && _) with true by lia. by rewrite (H i b Hi).
Qed.

(** An unsigned prefix is a remainder; the first byte carries the sign. *)
Lemma signed_top v n : 0 < n -> - 2 ^ (n + 7) <= v < 2 ^ (n + 7) ->
  v mod 2 ^ n + 2 ^ n * s8 (char (Z.shiftr v n)) = v.
Proof.
  intros Hn Hv. rewrite Z.shiftr_div_pow2 by lia.
  assert (E : s8 (char (v / 2 ^ n)) = v / 2 ^ n).
  { unfold s8. rewrite (sext_eqm 8 _ (v / 2 ^ n)) by (apply Z.mod_mod; lia).
    apply sext_small; [lia|]. change (2 ^ (8 - 1)) with 128.
    assert (Hp : 2 ^ (n + 7) = 128 * 2 ^ n) by (rewrite Z.pow_add_r by lia; lia).
    pose proof (Z.div_mod v (2 ^ n) ltac:(lia)). pose proof (Z.mod_pos_bound v (2 ^ n) ltac:(lia)). nia. }
  rewrite E. pose proof (Z.div_mod v (2 ^ n) ltac:(lia)). lia.
Qed.
Lemma next_byte v n : 0 <= n ->
  v mod 2 ^ n + 2 ^ n * char (Z.shiftr v n) = v mod 2 ^ (n + 8).
Proof.
  intros Hn. rewrite Z.shiftr_div_pow2 by lia. unfold char. change 256 with (2 ^ 8).
  rewrite Z.pow_add_r by lia. rewrite Z.rem_mul_r by lia. lia.
Qed.
(** Bytes put together by shifts and ors. *)
Lemma lor_shift lo hi n : 0 <= n -> 0 <= lo < 2 ^ n -> Z.lor lo (Z.shiftl hi n) = lo + 2 ^ n * hi.
Proof.
  intros Hn Hlo. rewrite Z.shiftl_mul_pow2 by lia.
  rewrite <- (Z.mod_small lo (2 ^ n)) by done. rewrite <- Z.land_ones by done.
  assert (Hd : Z.land (Z.land lo (Z.ones n)) (hi * 2 ^ n) = 0).
  { apply Z.bits_inj'. intros i Hi. rewrite !Z.land_spec, Z.bits_0.
    destruct (Z.ltb_spec i n).
    - rewrite Z.mul_pow2_bits_low by lia. apply andb_false_r.
    - rewrite Z.ones_spec_high by lia. by rewrite andb_false_r. }
  rewrite <- Z.lxor_lor, <- Z.add_nocarry_lxor by done. lia.
Qed.

Lemma fetch_byte v n k s i :
  text_at (PC s) (big_endian n v) -> PC s + Z.of_nat n < 2 ^ 64 -> (k < n)%nat -> i = Z.of_nat k + 1 ->
  text_loc (PC s + Z.of_nat n +p - i) (set_PC (PC s + Z.of_nat n) s)
  = Ret (char (Z.shiftr v (8 * Z.of_nat k))) (set_PC (PC s + Z.of_nat n) s).
Proof.
  intros Ht Hlt Hk ->. pose proof Ht as (H0 & _). rewrite padd_small by lia.
  replace (PC s + Z.of_nat n + - (Z.of_nat k + 1)) with (PC s + Z.of_nat (n - 1 - k)) by lia.
  eapply text_loc_at; [exact Ht|].
  assert (G : forall m j, (j < m)%nat -> big_endian m v !! (m - 1 - j)%nat = Some (char (Z.shiftr v (8 * Z.of_nat j)))).
  { induction m as [|m IH]; intros j Hj; [lia|]. cbn [big_endian].
    destruct (decide (j = m)) as [->|].
    - by replace (S m - 1 - m)%nat with O by lia.
    - replace (S m - 1 - j)%nat with (S (m - 1 - j)) by lia. apply IH. lia. }
  by apply G.
Qed.

(** The operand fetch decodes what the assembler encodes: a signed two or four
    byte operand, an unsigned two byte operand, or the low byte of a short operand
    whose high byte is in the opcode; the program counter ends behind it. *)
Lemma operand_roundtrip v s :
  PC s < 2 ^ 63 ->
  (- 2 ^ 15 <= v < 2 ^ 15 -> text_at (PC s) (big_endian 2 v) ->
     L_arg_2 s = Ret v (set_PC (PC s + 2) s)) /\
  (0 <= v < 2 ^ 16 -> text_at (PC s) (big_endian 2 v) ->
     U_arg s = Ret v (set_PC (PC s + 2) s)) /\
  (- 2 ^ 31 <= v < 2 ^ 31 -> text_at (PC s) (big_endian 4 v) ->
     L_arg_4 s = Ret v (set_PC (PC s + 4) s)) /\
  (text_at (PC s) (big_endian 1 v) ->
     S_arg (Z.shiftr v 8) s = Ret v (set_PC (PC s + 1) s)).
Proof.
  intros Hpc.
  assert (Hf : forall n k m j e, text_at (PC s) (big_endian n v) -> (k < n <= 4)%nat ->
    m = Z.of_nat n -> j = - (Z.of_nat k + 1) -> e = 8 * Z.of_nat k ->
    text_loc (PC s + m +p j) (set_PC (PC s + m) s) = Ret (char (Z.shiftr v e)) (set_PC (PC s + m) s)).
  { intros n k m j e ? ? -> -> ->. apply fetch_byte; [done|lia..]. }
  assert (H8 : 0 <= v mod 2 ^ 8 < 256) by (apply (Z.mod_pos_bound v 256); lia).
  assert (E0 : char (Z.shiftr v 0) = v mod 2 ^ 8) by done.
  split_and!; [intros Hv Ht..|intros Ht]; pose proof Ht as (H0 & _).
  - unfold L_arg_2, step_PC. run. cbn [PC set_PC]. rewrite (padd_small (PC s)) by lia.
    pose proof (Hf 2%nat 0%nat 2 (-1) 0 Ht) as F0. pose proof (Hf 2%nat 1%nat 2 (-2) 8 Ht) as F1.
    rewrite F0 by lia. run. rewrite F1 by lia. run.
    rewrite E0, lor_shift by lia. by rewrite (signed_top v 8) by lia.
  - unfold U_arg, step_PC. run. cbn [PC set_PC]. rewrite (padd_small (PC s)) by lia.
    pose proof (Hf 2%nat 0%nat 2 (-1) 0 Ht) as F0. pose proof (Hf 2%nat 1%nat 2 (-2) 8 Ht) as F1.
    rewrite F0 by lia. run. rewrite F1 by lia. run.
    rewrite E0, lor_shift by lia. rewrite (next_byte v 8) by lia. by rewrite Z.mod_small.
  - unfold L_arg_4, step_PC. run. cbn [PC set_PC]. rewrite (padd_small (PC s)) by lia.
    pose proof (Hf 4%nat 0%nat 4 (-1) 0 Ht) as F0. pose proof (Hf 4%nat 1%nat 4 (-2) 8 Ht) as F1.
    pose proof (Hf 4%nat 2%nat 4 (-3) 16 Ht) as F2. pose proof (Hf 4%nat 3%nat 4 (-4) 24 Ht) as F3.
    rewrite F0 by lia. run. rewrite F1 by lia. run. rewrite F2 by lia. run. rewrite F3 by lia. run.
    assert (H16 : 0 <= v mod 2 ^ 16 < 2 ^ 16) by (apply Z.mod_pos_bound; lia).
    assert (H24 : 0 <= v mod 2 ^ 24 < 2 ^ 24) by (apply Z.mod_pos_bound; lia).
    rewrite !Z.lor_assoc, E0, (lor_shift (v mod 2 ^ 8) _ 8), (next_byte v 8) by lia.
    change (8 + 8) with 16. rewrite (lor_shift (v mod 2 ^ 16) _ 16); [|done|done].
    rewrite (next_byte v 16) by done.
    change (16 + 8) with 24. rewrite (lor_shift (v mod 2 ^ 24) _ 24); [|done|done].
    rewrite (signed_top v 24); [done|done|]. exact Hv.
  - unfold S_arg, step_PC. run. cbn [PC set_PC]. rewrite (padd_small (PC s)) by lia.
    pose proof (Hf 1%nat 0%nat 1 (-1) 0 Ht) as F0.
    rewrite F0 by lia. run.
    rewrite E0, Z.shiftl_mul_pow2, Z.shiftr_div_pow2 by lia.
    pose proof (Z.div_mod v (2 ^ 8) ltac:(lia)). f_equal. lia.
Qed.
End Operands.
