(* ===== verification/Proctab.v ===== *)
(** * The procedure table ([proctab.c], [rd_proctab] of [read.c])

    Every procedure gets the fragment of the text segment from its entry point
    up to the next entry point. *)
From Stdlib Require Import ZArith Lia Bool.
From stdpp Require Import base gmap list.
From S2P Require Import Prelude Machine Warn Mem Wp Data Stack Text.

Section Proctab.
Context (DB : Z).

(** One turn of the loop of [add_proc] over the old descriptors: the old
    descriptor, updated, and our limit. *)
Definition add_proc_step (ep ff : Z) (p : proc) : proc * Z :=
  let p' := if (pr_ep p <? ep) && (ep <? pr_ff p)
            then mkProc (pr_nloc p) (pr_ep p) ep else p in
  let ff' := if (ep <? pr_ep p') && (pr_ep p' <? ff) then pr_ep p' else ff in
  (p', ff').

Fixpoint add_proc_loop (ep ff : Z) (l : list proc) : list proc * Z :=
  match l with
  | [] => ([], ff)
  | p :: l' =>
      let '(p', ff') := add_proc_step ep ff p in
      let '(l'', ff'') := add_proc_loop ep ff' l' in
      (p' :: l'', ff'')
  end.

(** [None]: fatal, procedure entry point outside text segment. *)
Definition add_proc (nloc ep : Z) (tab : list proc) : option (list proc) :=
  if DB <? ep then None
  else
    let '(tab', ff) := add_proc_loop ep DB tab in
    Some (tab' ++ [mkProc nloc ep ff]).

(** The loop of [rd_proctab] over the descriptors read from the load file. *)
Fixpoint rd_proctab (descr : list (Z * Z)) (tab : list proc) : option (list proc) :=
  match descr with
  | [] => Some tab
  | (nloc, ep) :: d =>
      match add_proc nloc ep tab with
      | Some tab' => rd_proctab d tab'
      | None => None
      end
  end.

(** ** Fragments *)

(** The first entry point after [ep], or the end of the text. *)
Definition next_ep (ep : Z) (eps : list Z) : Z :=
  foldr (fun e acc => if (ep <? e) && (e <? acc) then e else acc) DB eps.

Definition eps (tab : list proc) : list Z := map pr_ep tab.

(** Every limit is the next entry point. *)
Definition limits_ok (tab : list proc) : Prop :=
  Forall (fun p => pr_ff p = next_ep (pr_ep p) (eps tab)) tab.

Lemma next_ep_spec ep l :
  next_ep ep l <= DB /\ (forall e, e ∈ l -> ep < e -> next_ep ep l <= e) /\
  (next_ep ep l = DB \/ (next_ep ep l ∈ l /\ ep < next_ep ep l)).
Proof.
  induction l as [|e l (IH1 & IH2 & IH3)].
  - split_and!; [cbn; lia| |by left]. intros e He. by apply elem_of_nil in He.
  - change (next_ep ep (e :: l))
      with (if (ep <? e) && (e <? next_ep ep l) then e else next_ep ep l).
    destruct ((ep <? e) && (e <? next_ep ep l)) eqn:E; (split_and!; [lia| |]).
    + intros e' [->|He]%elem_of_cons ?; [lia|]. specialize (IH2 e' He). lia.
    + right. split; [apply elem_of_cons; by left | lia].
    + intros e' [->|He]%elem_of_cons ?; [lia|]. specialize (IH2 e' He). lia.
    + destruct IH3 as [|[? ?]]; [by left|]. right. split; [apply elem_of_cons; by right | lia].
Qed.

Lemma next_ep_unique ep l x :
  x <= DB -> (forall e, e ∈ l -> ep < e -> x <= e) ->
  (x = DB \/ (x ∈ l /\ ep < x)) -> x = next_ep ep l.
Proof.
  intros H1 H2 H3. destruct (next_ep_spec ep l) as (G1 & G2 & G3).
  destruct H3 as [H3|[Hx ?]], G3 as [G3|[Hy ?]]; [congruence| | |].
  - specialize (H2 _ Hy). lia.
  - specialize (G2 _ Hx). lia.
  - specialize (H2 _ Hy). specialize (G2 _ Hx). lia.
Qed.

Lemma next_ep_app ep l e :
  e <= DB ->
  next_ep ep (l ++ [e]) = if (ep <? e) && (e <? next_ep ep l) then e else next_ep ep l.
Proof.
  intros He. symmetry. apply next_ep_unique.
  - pose proof (next_ep_spec ep l) as (? & _). destruct (_ && _); lia.
  - destruct (next_ep_spec ep l) as (_ & G & _). intros e' He' ?.
    apply elem_of_app in He' as [He'|He'%list_elem_of_singleton].
    + specialize (G e' He'). destruct (_ && _) eqn:E; lia.
    + subst. destruct (_ && _) eqn:E; lia.
  - destruct (next_ep_spec ep l) as (_ & _ & G).
    destruct (_ && _) eqn:E.
    + right. split; [apply elem_of_app; right; by apply list_elem_of_singleton | lia].
    + destruct G as [G|[G ?]]; [by left|]. right. split; [apply elem_of_app; by left | done].
Qed.

Lemma add_proc_loop_spec ep l : forall ff,
  ep <= DB ->
  add_proc_loop ep ff l =
  (map (fun p => (add_proc_step ep ff p).1) l,
   foldl (fun acc p => if (ep <? pr_ep p) && (pr_ep p <? acc) then pr_ep p else acc) ff l).
Proof.
  induction l as [|p l IH]; intros ff Hep; cbn [add_proc_loop map foldl]; [done|].
  unfold add_proc_step at 1.
  set (p' := if (pr_ep p <? ep) && (ep <? pr_ff p) then _ else _).
  assert (pr_ep p' = pr_ep p) as -> by (unfold p'; by destruct (_ && _)).
  rewrite IH by done. f_equal.
Qed.

Lemma foldl_next_ep ep tab :
  foldl (fun acc p => if (ep <? pr_ep p) && (pr_ep p <? acc) then pr_ep p else acc) DB tab
  = next_ep ep (eps tab).
Proof.
  induction tab as [|p tab IH] using rev_ind; [done|].
  rewrite foldl_app. cbn [foldl]. rewrite IH. unfold eps. rewrite map_app. cbn [map].
  destruct (Z.leb_spec (pr_ep p) DB) as [Hle|Hgt].
  - by rewrite next_ep_app.
  - assert (Hskip : forall l, next_ep ep (l ++ [pr_ep p]) = next_ep ep l).
    { intros l. symmetry. apply next_ep_unique.
      - by pose proof (next_ep_spec ep l) as (? & _).
      - pose proof (next_ep_spec ep l) as (? & G & _). intros e' He' ?.
        apply elem_of_app in He' as [He'|He'%list_elem_of_singleton]; [by apply G | lia].
      - destruct (next_ep_spec ep l) as (_ & _ & [G|[G ?]]); [by left|].
        right. split; [apply elem_of_app; by left | done]. }
    rewrite Hskip. pose proof (next_ep_spec ep (map pr_ep tab)) as (? & _).
    destruct (_ && _) eqn:E; [lia|done].
Qed.

(** [add_proc] keeps the limits exact. *)
Lemma add_proc_limits nloc ep tab tab' :
  limits_ok tab -> add_proc nloc ep tab = Some tab' ->
  limits_ok tab' /\ eps tab' = eps tab ++ [ep].
Proof.
  unfold add_proc. intros Hok. destruct (Z.ltb_spec DB ep) as [|Hep]; [done|].
  rewrite add_proc_loop_spec, foldl_next_ep by done. intros H%Some_inj. subst tab'.
  set (f := fun p => (add_proc_step ep DB p).1).
  assert (Hf : forall p, pr_ep (f p) = pr_ep p).
  { intros p. unfold f, add_proc_step. cbn. by destruct (_ && _). }
  assert (Heps : eps (map f tab ++ [mkProc nloc ep (next_ep ep (eps tab))]) = eps tab ++ [ep]).
  { unfold eps. rewrite map_app, map_map. cbn. f_equal. by apply map_ext. }
  split; [|exact Heps].
  unfold limits_ok. rewrite Heps. apply Forall_app. split.
  - apply Forall_forall. intros p' Hp'. apply (list_elem_of_fmap f) in Hp' as (p & -> & Hp).
    eapply Forall_forall in Hok; [|exact Hp]. rewrite Hf, next_ep_app by done.
    unfold f, add_proc_step. cbn. rewrite <- Hok. by destruct (_ && _).
  - apply Forall_singleton. cbn. rewrite next_ep_app by done.
    replace ((ep <? ep) && (ep <? next_ep ep (eps tab))) with false by lia. done.
Qed.

Lemma add_proc_descr nloc ep tab tab' :
  add_proc nloc ep tab = Some tab' ->
  map (fun p => (pr_nloc p, pr_ep p)) tab' = map (fun p => (pr_nloc p, pr_ep p)) tab ++ [(nloc, ep)].
Proof.
  unfold add_proc. destruct (Z.ltb_spec DB ep) as [|Hep]; [done|].
  rewrite add_proc_loop_spec by done. intros H%Some_inj. subst tab'.
  rewrite map_app, map_map. cbn [map pr_nloc pr_ep]. f_equal. apply map_ext. intros p.
  unfold add_proc_step. cbn. by destruct (_ && _).
Qed.
Lemma rd_proctab_limits descr : forall tab tab',
  limits_ok tab -> rd_proctab descr tab = Some tab' ->
  limits_ok tab' /\ Forall (fun d => d.2 <= DB) descr /\
  map (fun p => (pr_nloc p, pr_ep p)) tab' = map (fun p => (pr_nloc p, pr_ep p)) tab ++ descr.
Proof.
  induction descr as [|[nloc ep] descr IH]; intros tab tab' Hok; cbn [rd_proctab].
  - intros [= <-]. split_and!; [done|constructor|by rewrite app_nil_r].
  - destruct (add_proc nloc ep tab) as [tab1|] eqn:E; [|done]. intros H.
    apply IH in H as (H1 & H2 & H3); [|by eapply add_proc_limits].
    split_and!; [done| |].
    + constructor; [|done]. unfold add_proc in E. destruct (Z.ltb_spec DB ep); [done|]. cbn. lia.
    + rewrite H3, (add_proc_descr nloc ep tab tab1 E), <- app_assoc. done.
Qed.
Lemma rd_proctab_fatal descr : forall tab,
  rd_proctab descr tab = None -> Exists (fun d => DB < d.2) descr.
Proof.
  induction descr as [|[nloc ep] descr IH]; intros tab; cbn [rd_proctab]; [done|].
  unfold add_proc. destruct (Z.ltb_spec DB ep); [intros; by apply Exists_cons_hd|].
  destruct (add_proc_loop ep DB tab). intros H'. apply Exists_cons_tl. by eapply IH.
Qed.

(** Reading the procedure descriptors fails exactly when an entry point lies
    outside the text; otherwise the table has the descriptors in their order, and
    the limit of every procedure is the next entry point above its own, in
    whatever order the descriptors come, or the end of the text. *)
Theorem proctab_fragments descr :
  match rd_proctab descr [] with
  | None => Exists (fun d => DB < d.2) descr
  | Some tab =>
      Forall (fun d => d.2 <= DB) descr /\
      map (fun p => (pr_nloc p, pr_ep p)) tab = descr /\
      Forall (fun p => pr_ff p = next_ep (pr_ep p) (map snd descr)) tab
  end.
Proof.
  destruct (rd_proctab descr []) as [tab|] eqn:E; [|by eapply rd_proctab_fatal].
  apply rd_proctab_limits in E as (H1 & H2 & H3); [|constructor].
  split_and!; [done|done|]. cbn [app map] in H3. unfold limits_ok, eps in H1.
  rewrite <- H3, map_map. done.
Qed.
End Proctab.

(** ** The program counter stays in the fragment of the running procedure *)
Section NewPC.
Context {cfg : Config}.

Lemma newPC_run p s pr :
  0 <= PI s -> proctab !! Z.to_nat (PI s) = Some pr ->
  newPC p s =
    if DB <=? p then Trap EBADPC (warned WPCOVFL s)
    else if (p <? pr_ep pr) || (pr_ff pr <=? p) then Trap EBADPC (warned WPCPROC s)
    else Ret tt (set_PC p s).
Proof.
  intros H0 Hpr. unfold newPC. run. destruct (DB <=? p); run; [by rewrite wtrap_trap|].
  unfold get_proc. replace (0 <=? PI s) with true by lia. rewrite Hpr. run.
  destruct (_ || _); run; [by rewrite wtrap_trap | done].
Qed.

(** C40: with a procedure table read from descriptors, a jump is accepted exactly
    when it goes to an address at or above the entry point of the running
    procedure, below every higher entry point and inside the text; every other
    jump traps with EBADPC and changes nothing but the warnings. *)
Theorem newPC_fragment descr p s pr :
  rd_proctab DB descr [] = Some proctab ->
  0 <= PI s -> proctab !! Z.to_nat (PI s) = Some pr ->
  if decide (pr_ep pr <= p < DB /\ Forall (fun d => pr_ep pr < d.2 -> p < d.2) descr)
  then newPC p s = Ret tt (set_PC p s)
  else exists w, newPC p s = Trap EBADPC (set_warn w s).
Proof.
  intros Htab H0 Hpr. rewrite (newPC_run p s pr H0 Hpr).
  pose proof (proctab_fragments DB descr) as H. rewrite Htab in H. destruct H as (_ & _ & H).
  rewrite Forall_lookup in H. specialize (H _ _ Hpr). cbv beta in H.
  destruct (next_ep_spec DB (pr_ep pr) (map snd descr)) as (G1 & G2 & G3). rewrite <- H in *.
  destruct (decide _) as [[Hp Hd]|Hn].
  - replace (DB <=? p) with false by lia. replace (p <? pr_ep pr) with false by lia.
    assert (p < pr_ff pr); [|by replace (pr_ff pr <=? p) with false by lia].
    destruct G3 as [->|[G3 G4]]; [lia|].
    apply list_elem_of_fmap in G3 as (d & E & Hin). rewrite Forall_forall in Hd.
    rewrite E. apply Hd; [done|]. by rewrite <- E.
  - destruct (Z.leb_spec DB p); [by eexists|].
    destruct ((p <? pr_ep pr) || (pr_ff pr <=? p)) eqn:E; [by eexists|]. exfalso. apply Hn.
    split; [lia|]. apply Forall_forall. intros d Hd Hlt.
    specialize (G2 d.2 ltac:(apply list_elem_of_fmap; by exists d) Hlt). lia.
Qed.
End NewPC.
