(* ===== verification/Frame.v ===== *)
(** * Frames, calls and traps

    [segment.c] (the list of actual bases), [fra.c] (the Function Return Area),
    the LIN/FIL routines of [do_misc.c], [rsb.c] (the Return Status Block),
    [call], [lfr] and [ret] of [do_proc.c], and [do_trap] of [trap.c]. *)
From Stdlib Require Import ZArith Lia Bool.
From stdpp Require Import base gmap list.
From S2P Require Import Prelude Machine Warn Mem Wp Data Stack Text.

Section Frame.
Context {cfg : Config}.

(** ** Segments ([segment.c]) *)
Definition DATA_SEGMENT := -2.
Definition HEAP_SEGMENT := -1.

(** [AB_list\[i\]]: an array of [frame_limit] entries. *)
Definition AB_at (i : Z) : M Z := fun s =>
  if (0 <=? i) && (i <? frame_limit s) then Ret (mget (AB_list s) i) s else Undef.
Definition set_AB_at (i v : Z) : M unit := fun s =>
  if (0 <=? i) && (i <? frame_limit s)
  then Ret tt (set_AB_list (<[i := v]> (AB_list s)) s) else Undef.

Definition push_frame (p : Z) : M unit :=
  modify (fun s => set_curr_frame (curr_frame s + 1) s) ;;
  cf ← gets curr_frame; fl ← gets frame_limit;
  when (cf =? fl) (modify (set_frame_limit (allocfrac fl))) ;;
  set_AB_at cf p.

(** The loop stops at the latest at index -1, which is outside the array. *)
Fixpoint pop_frames_loop (i : nat) : M unit :=
  match i with
  | O => undef
  | S i' =>
      cf ← gets curr_frame;
      a ← AB_at cf; ab ← gets AB;
      if a <? ab then modify (set_curr_frame (cf - 1)) ;; pop_frames_loop i' else skip
  end.
Definition pop_frames : M unit := cf ← gets curr_frame; pop_frames_loop (Z.to_nat (cf + 1)).

Fixpoint ptr2seg_loop (i : nat) (p : Z) : M Z :=
  match i with
  | O => ret 0
  | S i' => a ← AB_at (Z.of_nat i); if p <? a then ret (Z.of_nat i) else ptr2seg_loop i' p
  end.
Definition ptr2seg (p : Z) : M Z :=
  if in_gda p then ret DATA_SEGMENT
  else
    b ← gets (in_stack p);
    if negb b then ret HEAP_SEGMENT
    else cf ← gets curr_frame; ptr2seg_loop (Z.to_nat cf) p.

(** ** Function Return Area ([fra.c]) *)
Definition fra_valid (i : Z) (s : state) : bool := (0 <=? i) && (i <? alloc (FRA s)).
Definition FRA_at (i : Z) : M Z := fun s =>
  if fra_valid i s then Ret (mget (bytes (FRA s)) i) s else Undef.
Definition FRA_sh_at (i : Z) : M Z := fun s =>
  if fra_valid i s then Ret (mget (shad (FRA s)) i) s else Undef.
Definition set_FRA_at (i v : Z) : M unit := fun s =>
  if fra_valid i s
  then Ret tt (set_FRA (set_bytes (<[i := v]> (bytes (FRA s))) (FRA s)) s) else Undef.
Definition set_FRA_sh_at (i v : Z) : M unit := fun s =>
  if fra_valid i s
  then Ret tt (set_FRA (set_shad (<[i := v]> (shad (FRA s))) (FRA s)) s) else Undef.

Definition spoilFRA : M unit := modify (set_FRA_def UNDEFINED).

(** The loops run from [i = 0] up; [k] turns are left. *)
Fixpoint pushFRA_loop (k : nat) (i : Z) : M unit :=
  match k with
  | O => skip
  | S k' =>
      sp ← gets SP;
      b ← FRA_at i; set_stack_loc (sp +p i) b ;;
      fsz ← gets FRASize;
      x ← (if i <? fsz then FRA_sh_at i else ret UNDEFINED);
      set_st_sh (sp +p i) x ;;
      pushFRA_loop k' (i + 1)
  end.
Definition pushFRA (sz : Z) : M unit :=
  if sz =? 0 then skip
  else st_inc (Z.max sz wsize) ;; pushFRA_loop (Z.to_nat sz) 0.

Fixpoint popFRA_loop (k : nat) (i : Z) : M unit :=
  match k with
  | O => skip
  | S k' =>
      sp ← gets SP;
      b ← stack_loc (sp +p i); set_FRA_at i b ;;
      x ← st_sh (sp +p i); set_FRA_sh_at i x ;;
      popFRA_loop k' (i + 1)
  end.
Definition popFRA (sz : Z) : M unit :=
  if sz =? 0 then skip
  else popFRA_loop (Z.to_nat sz) 0 ;; st_dec (Z.max sz wsize).

(** ** LIN and FIL ([do_misc.c]): kept in registers and in the data space *)
Definition putLIN (lin : Z) : M unit :=
  dt_unprot LINO_AD LINSIZE ;;
  dt_stn LINO_AD lin LINSIZE ;;
  modify (set_LIN lin) ;;
  dt_prot LINO_AD LINSIZE.

Definition putFIL (fil : Z) : M unit :=
  dt_unprot FILN_AD psize ;;
  dt_stdp FILN_AD fil ;;
  modify (set_FIL fil) ;;
  dt_prot FILN_AD psize.

(** ** The Return Status Block ([rsb.c]) *)
Definition pushrsb (rsbcode : Z) : M unit :=
  incSP rsbsize ;;
  sp ← gets SP;
  fil ← gets FIL; st_stdp (sp +p rsb_FIL) fil ;; st_prot (sp +p rsb_FIL) psize ;;
  lin ← gets LIN; st_stn (sp +p rsb_LIN) lin LINSIZE ;; st_prot (sp +p rsb_LIN) LINSIZE ;;
  lb ← gets LB; st_stdp (sp +p rsb_LB) lb ;; st_prot (sp +p rsb_LB) psize ;;
  pc ← gets PC; st_stip (sp +p rsb_PC) pc ;; st_prot (sp +p rsb_PC) psize ;;
  pi ← gets PI; st_stn (sp +p rsb_PI) pi psize ;; st_prot (sp +p rsb_PI) psize ;;
  st_stw (sp +p rsb_rsbcode) rsbcode ;; st_prot (sp +p rsb_rsbcode) wsize ;;
  newLB sp.

(** [poprsb(rtt)]: pops the RSB and returns the rsbcode. *)
Definition poprsb (rtt : bool) : M Z :=
  lb ← gets LB; pi ← gets PI; pr ← get_proc pi; sp ← gets SP;
  let properSP := u64 (lb - pr_nloc pr) in
  when (sp <? properSP) (warning (if rtt then WRTTSTL else WRETSTL)) ;;
  when (properSP <? sp) (warning (if rtt then WRTTSTS else WRETSTS)) ;;
  newSP lb ;;
  sp ← gets SP;
  c ← st_lduw (sp +p rsb_rsbcode);
  let rsbcode := s32 c in
  if negb (Z.land rsbcode RSBMASK =? RSBCODE) then ret rsbcode
  else if rsbcode =? RSB_STP then ret rsbcode
  else
    pi ← st_lds (sp +p rsb_PI) psize; modify (set_PI pi) ;;
    pc ← st_ldip (sp +p rsb_PC); newPC pc ;;
    lb ← st_lddp (sp +p rsb_LB); newLB lb ;;
    lin ← st_ldu (sp +p rsb_LIN) LINSIZE; putLIN lin ;;
    fil ← st_lddp (sp +p rsb_FIL); putFIL fil ;;
    st_dec rsbsize ;;
    pop_frames ;;
    ret rsbcode.

(** ** Calling and returning ([do_proc.c]) *)
Definition call (new_PI rsbcode : Z) : M unit :=
  pr ← get_proc new_PI;
  let nloc := pr_nloc pr in
  let ep := pr_ep pr in
  sp ← gets SP; push_frame sp ;;
  pushrsb rsbcode ;;
  modify (set_PI new_PI) ;;
  st_inc nloc ;;
  newPC ep ;;
  spoilFRA.

Definition lfr (sz : Z) : M unit :=
  when (FRALimit <? sz) (wtrap WILLLFR EILLINS) ;;
  d ← gets FRA_def;
  when (d =? 0) (warning WRFUNGAR) ;;
  fsz ← gets FRASize;
  when (negb (sz =? fsz)) (warning (if fsz <? sz then WRFUNSML else WRFUNLAR)) ;;
  pushFRA sz ;;
  spoilFRA.

Definition stop_running : M unit := modify (set_running false).

(** [ret] of [do_proc.c]. *)
Definition do_ret (sz : Z) : M unit :=
  when (FRALimit <? sz) (wtrap WILLRET EILLINS) ;;
  modify (set_FRA_def DEFINED) ;;
  modify (set_FRASize sz) ;;
  popFRA sz ;;
  code ← poprsb false;
  if code =? RSB_STP then
    when (sz =? wsize)
      (modify (set_ES_def true) ;; b ← FRA_at (sz - 1); modify (set_ES b)) ;;
    stop_running
  else if code =? RSB_CAL then skip
  else if (code =? RSB_RTT) || (code =? RSB_NRT) then warning WRETTRAP ;; stop_running
  else warning WRETBAD.

(** ** Traps ([trap.c]) *)
Definition nonreturnable (nr : Z) : bool :=
  existsb (Z.eqb nr)
    [ESTACK; EILLINS; EODDZ; ECASE; EMEMFLT; EBADPTR; EBADPC; EBADLAE; EBADGTO].

(** Run [m]; a trap raised in it is a call of [h]. *)
Definition catch {A} (m : M A) (h : Z -> M A) : M A := fun s =>
  match m s with
  | Trap nr s' => h nr s'
  | r => r
  end.

(** [do_trap]: the trap sequence may itself trap, which calls [do_trap] again
    from inside; [depth] bounds the nesting.  Returning stands for the
    [longjmp] to the main loop. *)
Fixpoint do_trap_rec (depth : nat) (nr : Z) : M unit :=
  match depth with
  | O => undef
  | S d =>
      warning (WMSG + nr) ;;
      mode ← gets OnTrap;
      match mode with
      | TR_ABORT => fatal (FTrapBeforeStart nr)
      | TR_HALT => fatal (FTrapNotCaught nr)
      | TR_TRAP =>
          rt ← gets rec_trap;
          if rt then rn ← gets rec_nr; fatal (FRecursiveTrap rn)
          else
            catch
              (modify (set_rec_trap true) ;; modify (set_rec_nr nr) ;;
               fsz ← gets FRASize; pushFRA fsz ;;
               fsz ← gets FRASize; wpush fsz ;;
               fd ← gets FRA_def; wpush fd ;;
               wpush nr ;;
               tpi ← gets TrapPI;
               modify (set_TrapPI 0) ;;
               modify (set_OnTrap TR_HALT) ;;
               call tpi (if nonreturnable nr then RSB_NRT else RSB_RTT) ;;
               modify (set_rec_trap false))
              (do_trap_rec d)
      end
  end.
Definition do_trap (nr : Z) : M unit := do_trap_rec 2 nr.

End Frame.

(** ** Calls, returns and traps preserve the invariant *)
Section Keeps.
Context {cfg : Config} {ok : ConfigOk}.

Lemma keeps_AB_at i : keeps (AB_at i) any.
Proof. intros s Hs. unfold wp, AB_at. by destruct (_ && _). Qed.
Lemma keeps_set_AB_at i v : keeps (set_AB_at i v) any.
Proof. intros s Hs. unfold wp, set_AB_at. destruct (_ && _); [|done]. split; [done|]. inv_set. Qed.
#[local] Hint Resolve keeps_AB_at keeps_set_AB_at : keeps.
Lemma keeps_push_frame p : keeps (push_frame p) any.
Proof.
  unfold push_frame. keeps_tac.
Qed.
Lemma keeps_pop_frames_loop i : keeps (pop_frames_loop i) any.
Proof.
  induction i as [|i IH]; cbn [pop_frames_loop]; keeps_tac.
Qed.
#[local] Hint Resolve keeps_pop_frames_loop : keeps.
Lemma keeps_pop_frames : keeps pop_frames any.
Proof. unfold pop_frames. keeps_tac. Qed.
Lemma keeps_ptr2seg_loop i p : keeps (ptr2seg_loop i p) any.
Proof. induction i as [|i IH]; cbn [ptr2seg_loop]; keeps_tac. Qed.
#[local] Hint Resolve keeps_ptr2seg_loop : keeps.
Lemma keeps_ptr2seg p : keeps (ptr2seg p) any.
Proof. unfold ptr2seg. keeps_tac. Qed.

Lemma keeps_FRA_at i : keeps (FRA_at i) is_byte.
Proof.
  intros s Hs. unfold wp, FRA_at. destruct (fra_valid i s); [|done].
  split; [|done]. apply mget_range, Hs.
Qed.
Lemma keeps_FRA_sh_at i : keeps (FRA_sh_at i) any.
Proof. intros s Hs. unfold wp, FRA_sh_at. by destruct (fra_valid i s). Qed.
Lemma keeps_set_FRA_at i v : is_byte v -> keeps (set_FRA_at i v) any.
Proof.
  intros Hv s Hs. unfold wp, set_FRA_at. destruct (fra_valid i s); [|done].
  split; [done|]. inv_set. by apply bytes_ok_insert.
Qed.
Lemma keeps_set_FRA_sh_at i v : keeps (set_FRA_sh_at i v) any.
Proof.
  intros s Hs. unfold wp, set_FRA_sh_at. destruct (fra_valid i s); [|done].
  split; [done|]. inv_set.
Qed.
Lemma keeps_spoilFRA : keeps spoilFRA any.
Proof. apply keeps_modify. inv_set. Qed.
#[local] Hint Resolve keeps_FRA_at keeps_FRA_sh_at keeps_set_FRA_at keeps_set_FRA_sh_at
  keeps_spoilFRA keeps_push_frame keeps_pop_frames : keeps.
Lemma keeps_pushFRA_loop k : forall i, keeps (pushFRA_loop k i) any.
Proof. induction k as [|k IH]; intros i; cbn [pushFRA_loop]; keeps_tac. Qed.
#[local] Hint Resolve keeps_pushFRA_loop : keeps.
Lemma keeps_pushFRA sz : keeps (pushFRA sz) any.
Proof. unfold pushFRA. keeps_tac. Qed.
Lemma keeps_popFRA_loop k : forall i, keeps (popFRA_loop k i) any.
Proof. induction k as [|k IH]; intros i; cbn [popFRA_loop]; keeps_tac. Qed.
#[local] Hint Resolve keeps_popFRA_loop : keeps.
Lemma keeps_popFRA sz : keeps (popFRA sz) any.
Proof. unfold popFRA. keeps_tac. Qed.

Lemma keeps_putLIN lin : keeps (putLIN lin) any.
Proof. unfold putLIN. keeps_tac. Qed.
Lemma keeps_putFIL fil : keeps (putFIL fil) any.
Proof. unfold putFIL. keeps_tac. Qed.
Lemma keeps_incSP_rsb : keeps (incSP rsbsize) any.
Proof. pose proof rsbsize_range. apply keeps_incSP; [lia | apply rsbsize_aligned]. Qed.
#[local] Hint Resolve keeps_pushFRA keeps_popFRA keeps_putLIN keeps_putFIL keeps_incSP_rsb : keeps.

Lemma keeps_pushrsb c : keeps (pushrsb c) any.
Proof. unfold pushrsb. keeps_tac. Qed.
Lemma keeps_set_PI v : keeps (modify (set_PI v)) any.
Proof. apply keeps_modify. inv_set. Qed.
#[local] Hint Resolve keeps_pushrsb keeps_set_PI : keeps.
Lemma keeps_poprsb rtt : keeps (poprsb rtt) any.
Proof. unfold poprsb. keeps_tac. Qed.
#[local] Hint Resolve keeps_poprsb : keeps.
Lemma keeps_call pi c : keeps (call pi c) any.
Proof. unfold call. keeps_tac. Qed.
Lemma keeps_lfr sz : keeps (lfr sz) any.
Proof. unfold lfr. keeps_tac. Qed.
Lemma keeps_stop_running : keeps stop_running any.
Proof. apply keeps_modify. inv_set. Qed.
#[local] Hint Resolve keeps_stop_running : keeps.

Lemma keeps_do_ret sz : obj_size sz -> keeps (do_ret sz) any.
Proof.
  intros [Hsz _]. unfold do_ret. kstep. kstep. eapply keeps_bind; [|intros; keeps_tac].
  apply keeps_modify. inv_set. lia.
Qed.

(** RTT takes the size of the function result from the stack, unchecked; the
    copy loop leaves the Function Return Area when it is too large. *)
Lemma popFRA_loop_bound k : forall i s, 0 <= i ->
  wp True (popFRA_loop k i) (fun _ _ => k = O \/ i + Z.of_nat k <= alloc (FRA s))
    (fun _ _ => False) s.
Proof.
  induction k as [|k IH]; intros i s Hi; [by left|].
  unfold wp. cbn [popFRA_loop]. run. unfold stack_loc, set_FRA_at, st_sh, set_FRA_sh_at.
  destruct (stack_valid _ s); run; [|done].
  destruct (fra_valid i s) eqn:Ef; run; [|done].
  change (stack_valid ?a (set_FRA _ s)) with (stack_valid a s).
  destruct (stack_valid _ s); run; [|done].
  match goal with |- context[fra_valid i ?x] => change (fra_valid i x) with (fra_valid i s) end.
  rewrite Ef. run. unfold fra_valid in Ef.
  match goal with |- context[popFRA_loop k (i + 1) ?x] =>
    specialize (IH (i + 1) x ltac:(lia)); unfold wp in IH; cbn [alloc FRA set_FRA set_bytes set_shad] in IH
  end.
  destruct (popFRA_loop k (i + 1) _); try done. right. destruct IH as [->|IH]; lia.
Qed.
Lemma keeps_set_popFRA z :
  is_u64 z -> keeps (modify (set_FRASize z) ;; popFRA z) any.
Proof.
  intros Hz s Hs. unfold is_u64 in Hz. pose proof (inv_FRA s Hs). pose proof (inv_FRA_alloc s Hs).
  assert (Hk : z <= FRALimit -> Inv (set_FRASize z s)) by (intros; inv_set; lia).
  unfold wp, popFRA. run. destruct (Z.eqb_spec z 0); run.
  { split; [done|]. apply Hk. lia. }
  pose proof (popFRA_loop_bound (Z.to_nat z) 0 (set_FRASize z s) ltac:(lia)) as Hb.
  unfold wp in Hb. destruct (Z.leb_spec z FRALimit) as [Hle|Hgt].
  - pose proof (keeps_popFRA z _ (Hk Hle)) as Hp. unfold wp, popFRA in Hp.
    replace (z =? 0) with false in Hp by lia. run in Hp. exact Hp.
  - destruct (popFRA_loop _ _ _); try done. exfalso. change (alloc (FRA (set_FRASize z s))) with (alloc (FRA s)) in Hb. lia.
Qed.

Lemma keeps_catch {A} (m : M A) h P :
  keeps m P -> (forall nr, keeps (h nr) P) -> keeps (catch m h) P.
Proof.
  intros Hm Hh s Hs. specialize (Hm s Hs). unfold wp, catch in *.
  destruct (m s) as [|nr s'| |]; [done| |done|done]. by apply Hh.
Qed.
#[local] Hint Resolve keeps_call : keeps.
Lemma keeps_do_trap_rec d : forall nr, keeps (do_trap_rec d nr) any.
Proof.
  induction d as [|d IH]; intros nr; cbn [do_trap_rec]; [apply keeps_undef|].
  keeps_tac. apply keeps_catch; [|apply IH].
  keeps_tac.
Qed.
Lemma keeps_do_trap nr : keeps (do_trap nr) any.
Proof. apply keeps_do_trap_rec. Qed.
End Keeps.

#[export] Hint Resolve keeps_push_frame keeps_pop_frames keeps_ptr2seg keeps_FRA_at keeps_spoilFRA
  keeps_pushFRA keeps_set_popFRA keeps_popFRA keeps_putLIN keeps_putFIL keeps_pushrsb keeps_poprsb
  keeps_call keeps_lfr keeps_stop_running keeps_do_ret keeps_do_trap : keeps.

(** ** Traps

    The trap sequence does not change the control state while it can still trap,
    so a trap inside it is recursive and fatal: two levels are enough. *)
Section Traps.
Context {cfg : Config}.

Lemma quiet_AB_at i : quiet (AB_at i).
Proof. apply quiet_same. intros s. unfold wp, AB_at. by destruct (_ && _). Qed.
Lemma steady_set_AB_at i v : steady (set_AB_at i v).
Proof. intros s. unfold wp, set_AB_at. by destruct (_ && _). Qed.
Lemma quiet_FRA_at i : quiet (FRA_at i).
Proof. apply quiet_same. intros s. unfold wp, FRA_at. by destruct (fra_valid i s). Qed.
Lemma quiet_FRA_sh_at i : quiet (FRA_sh_at i).
Proof. apply quiet_same. intros s. unfold wp, FRA_sh_at. by destruct (fra_valid i s). Qed.
Lemma quiet_get_proc i : quiet (get_proc i).
Proof. unfold get_proc. destruct (0 <=? i); [destruct (proctab !! _)|]; quiet_tac. Qed.
#[local] Hint Resolve quiet_AB_at quiet_FRA_at quiet_FRA_sh_at quiet_get_proc : quiet.
#[local] Hint Resolve steady_set_AB_at : steady.
Lemma steady_push_frame p : steady (push_frame p).
Proof. unfold push_frame. steady_tac. Qed.
Lemma stacky_pushFRA_loop k : forall i, stacky (pushFRA_loop k i).
Proof. induction k as [|k IH]; intros; cbn [pushFRA_loop]; stacky_tac; apply IH. Qed.
#[local] Hint Resolve steady_push_frame : steady.
#[local] Hint Resolve stacky_pushFRA_loop : stacky.
Lemma stacky_pushFRA n : stacky (pushFRA n).
Proof. unfold pushFRA. stacky_tac. Qed.
Lemma steady_pushrsb c : steady (pushrsb c).
Proof. unfold pushrsb. steady_tac. Qed.
#[local] Hint Resolve stacky_pushFRA : stacky.
#[local] Hint Resolve steady_pushrsb : steady.
Lemma steady_newPC p : steady (newPC p).
Proof. unfold newPC. steady_tac. Qed.
#[local] Hint Resolve steady_newPC : steady.
Lemma steady_call pi c : steady (call pi c).
Proof. unfold call, spoilFRA. steady_tac. Qed.

(** A call leaves the machine in the called procedure, at its entry point. *)
Lemma call_enters pi c s :
  wp True (call pi c)
    (fun _ s' => PI s' = pi /\ exists pr, proctab !! Z.to_nat pi = Some pr /\ PC s' = pr_ep pr)
    (fun _ _ => True) s.
Proof.
  unfold call. cbv zeta. unfold wp. run. unfold get_proc at 1.
  destruct (0 <=? pi) eqn:Hpi; [|done]. destruct (proctab !! Z.to_nat pi) as [pr|] eqn:Hpr; [|done].
  run. destruct (push_frame _ _) as [[] s1| | |]; run; try done.
  destruct (pushrsb _ _) as [[] s2| | |]; run; try done.
  pose proof (stacky_st_inc (pr_nloc pr) (set_PI pi s2)) as H. unfold wp in H.
  destruct (st_inc _ _) as [[] s3| | |]; run; try done.
  assert (PI s3 = pi) as E by apply (f_equal PI H).
  unfold newPC, get_proc. run. destruct (DB <=? pr_ep pr); run; [by rewrite wtrap_trap|].
  rewrite E, Hpi, Hpr. run. destruct (_ || _); run; [by rewrite wtrap_trap|].
  split; [done|]. by exists pr.
Qed.
(** The trap sequence between the entry checks and the [longjmp]. *)
Definition trap_sequence (nr : Z) : M unit :=
  modify (set_rec_trap true) ;; modify (set_rec_nr nr) ;;
  fsz ← gets FRASize; pushFRA fsz ;;
  fsz ← gets FRASize; wpush fsz ;;
  fd ← gets FRA_def; wpush fd ;;
  wpush nr ;;
  tpi ← gets TrapPI;
  modify (set_TrapPI 0) ;;
  modify (set_OnTrap TR_HALT) ;;
  call tpi (if nonreturnable nr then RSB_NRT else RSB_RTT) ;;
  modify (set_rec_trap false).

Lemma do_trap_rec_S d nr s :
  do_trap_rec (S d) nr s =
  if WMSG + nr <? 0 then Undef
  else
    let s := warned (WMSG + nr) s in
    match OnTrap s with
    | TR_ABORT => Fatal (FTrapBeforeStart nr) s
    | TR_HALT => Fatal (FTrapNotCaught nr) s
    | TR_TRAP => if rec_trap s then Fatal (FRecursiveTrap (rec_nr s)) s
                 else catch (trap_sequence nr) (do_trap_rec d) s
    end.
Proof.
  cbn [do_trap_rec]. run. unfold warning.
  destruct (WMSG + nr <? 0); [done|]. run. change (set_warn _ s) with (warned (WMSG + nr) s).
  cbv zeta. destruct (OnTrap (warned (WMSG + nr) s)); run; [done|done|].
  by destruct (rec_trap (warned (WMSG + nr) s)).
Qed.

Lemma wp_steady {A} (m : M A) s :
  steady m -> wp True m (fun _ s' => ctl s' = ctl s) (fun _ s' => ctl s' = ctl s) s.
Proof. intros H. apply H. Qed.
Lemma wp_stacky {A} (m : M A) s :
  stacky m -> wp True m (fun _ s' => rest s' = rest s) (fun _ s' => rest s' = rest s) s.
Proof. intros H. apply H. Qed.

(** A trap inside the sequence finds the recursion flag set; after the sequence
    the handler is disarmed and running. *)
Lemma trap_sequence_spec nr s :
  wp True (trap_sequence nr)
    (fun _ s' => rec_trap s' = false /\ OnTrap s' = TR_HALT /\ TrapPI s' = 0 /\
       PI s' = TrapPI s /\
       exists pr, proctab !! Z.to_nat (TrapPI s) = Some pr /\ PC s' = pr_ep pr)
    (fun _ s' => rec_trap s' = true) s.
Proof.
  unfold trap_sequence. wregs.
  apply wp_bind. eapply wp_call; [apply wp_stacky, stacky_pushFRA| |].
  { cbv beta; intros _ s' E. apply (f_equal rec_trap E). }
  cbv beta; intros _ s1 E1. wregs.
  apply wp_bind. eapply wp_call; [apply wp_stacky, stacky_wpush| |].
  { cbv beta; intros _ s' E. rewrite E1 in E. apply (f_equal rec_trap E). }
  cbv beta; intros _ s2 E2. rewrite E1 in E2. wregs.
  apply wp_bind. eapply wp_call; [apply wp_stacky, stacky_wpush| |].
  { cbv beta; intros _ s' E. rewrite E2 in E. apply (f_equal rec_trap E). }
  cbv beta; intros _ s3 E3. rewrite E2 in E3.
  apply wp_bind. eapply wp_call; [apply wp_stacky, stacky_wpush| |].
  { cbv beta; intros _ s' E. rewrite E3 in E. apply (f_equal rec_trap E). }
  cbv beta; intros _ s4 E4. rewrite E3 in E4. wregs. apply wp_bind.
  assert (TrapPI s4 = TrapPI s) as -> by apply (f_equal TrapPI E4).
  eapply wp_call; [apply wp_and; [apply wp_steady, steady_call | apply call_enters]| |].
  { cbv beta; intros _ s' [E _]. apply (f_equal (fun c => c.1.1.1.1.2)) in E. cbn in E.
    rewrite E. apply (f_equal rec_trap E4). }
  cbv beta; intros _ s5 [E5 Hpi]. unfold wp. run. split_and!; [done| | |apply Hpi|apply Hpi].
  - apply (f_equal (fun c => c.1.1.1.1.1.1.1)) in E5. exact E5.
  - apply (f_equal (fun c => c.1.1.1.1.1.1.2)) in E5. exact E5.
Qed.

(** A trap during the trap sequence ends the program. *)
Lemma do_trap_rec_fatal d nr s :
  rec_trap s = true -> match do_trap_rec (S d) nr s with Fatal _ _ | Undef => True | _ => False end.
Proof.
  intros H. rewrite do_trap_rec_S. destruct (_ <? _); [done|]. cbv zeta.
  change (rec_trap (warned _ s)) with (rec_trap s). rewrite H. by destruct (OnTrap _).
Qed.
(** The trap routine never traps; when it returns, a handler was armed, and now it
    is disarmed and at its entry point. *)
Lemma do_trap_catches nr s :
  match do_trap nr s with
  | Ret _ s' =>
      OnTrap s = TR_TRAP /\ rec_trap s = false /\
      OnTrap s' = TR_HALT /\ TrapPI s' = 0 /\ rec_trap s' = false /\ PI s' = TrapPI s /\
      exists pr, proctab !! Z.to_nat (TrapPI s) = Some pr /\ PC s' = pr_ep pr
  | Trap _ _ => False
  | Fatal _ _ | Undef => True
  end.
Proof.
  unfold do_trap. rewrite do_trap_rec_S. destruct (_ <? _); [done|]. cbv zeta.
  change (OnTrap (warned _ s)) with (OnTrap s). change (rec_trap (warned _ s)) with (rec_trap s).
  destruct (OnTrap s); [done|done|]. destruct (rec_trap s); [done|].
  pose proof (trap_sequence_spec nr (warned (WMSG + nr) s)) as H. unfold wp in H.
  unfold catch. destruct (trap_sequence nr _) as [[] s'|nr' s'| |]; try done.
  { destruct H as (? & ? & ? & ? & ?). by split_and!. }
  pose proof (do_trap_rec_fatal 0 nr' s' H) as H'. by destruct (do_trap_rec 1 nr' s').
Qed.
End Traps.
