(* ===== verification/Instr.v ===== *)
(** * Rules for instructions

    What an instruction does to the operand stack.

    [after s k s']: [s'] is [s] with [k] bytes popped.  [replaces s k n v s']:
    [s'] is [s] with [k] bytes replaced by the [n] byte integer [v]. *)
From Stdlib Require Import ZArith Lia Bool.
From stdpp Require Import base gmap list.
From S2P Require Import Prelude Machine Warn Mem Wp Data Stack StackSpec Text Frame.

Section OnStack.
Context {cfg : Config} {ok : ConfigOk}.

Record after (s : state) (k : Z) (s' : state) : Prop := mkAfter {
  af_SP : SP s' = SP s + k;
  af_stack : stack s' = stack s;
  af_rest : rest s' = rest s;
  af_inv : Inv s'
}.

Record replaces (s : state) (k n v : Z) (s' : state) : Prop := mkReplaces {
  rp_SP : SP s' = SP s + k - n;
  rp_val : stk s' (SP s') n = v mod 2 ^ (8 * n);
  rp_int : forall i, 0 <= i < n -> Z.testbit (mget (shad (stack s')) (SP s' + i)) 0 = true;
  rp_bytes : forall a, SP s + k <= a -> mget (bytes (stack s')) a = mget (bytes (stack s)) a;
  rp_shad : forall a, SP s + k <= a -> mget (shad (stack s')) a = mget (shad (stack s)) a;
  rp_rest : rest s' = rest s;
  rp_inv : Inv s'
}.

Lemma after_refl s : Inv s -> after s 0 s.
Proof. intros. constructor; auto; lia. Qed.
Lemma after_eqw s k s1 s2 : after s k s1 -> eqw s1 s2 -> after s k s2.
Proof. intros [] [w ->]. constructor; auto. by apply Inv_set_warn. Qed.
Lemma after_stk s k s' a n : after s k s' -> stk s' a n = stk s a n.
Proof. intros H. unfold stk. by rewrite (af_stack _ _ _ H). Qed.
Lemma after_stks s k s' a n : after s k s' -> stks s' a n = stks s a n.
Proof. intros H. unfold stks. by rewrite (after_stk s k). Qed.
Lemma after_LB s k s' : after s k s' -> LB s' = LB s.
Proof. intros H. apply (f_equal LB (af_rest _ _ _ H)). Qed.
Lemma after_IgnMask s k s' : after s k s' -> IgnMask s' = IgnMask s.
Proof. intros H. apply (f_equal IgnMask (af_rest _ _ _ H)). Qed.
Lemma after_room s k s' n : after s k s' -> room n s' <-> has_room (SP s + k - n) s = true.
Proof.
  intros H. unfold room, has_room. rewrite (af_SP _ _ _ H).
  assert (HP s' = HP s) as -> by apply (f_equal HP (af_rest _ _ _ H)). done.
Qed.
Lemma after_popped s k s1 n w :
  after s k s1 -> 0 <= n -> n mod wsize = 0 -> SP s1 + n <= LB s1 -> after s (k + n) (popped n w s1).
Proof.
  intros H Hn Hal Hle. destruct H as [H1 H2 H3 H4]. constructor; [cbn; lia|done|done|].
  unfold popped. apply (Inv_set_SP (SP s1 + n) (set_warn w s1)); [by apply Inv_set_warn|cbn; lia|].
  rewrite Zplus_mod, (inv_SP_aligned s1 H4), Hal. apply Z.mod_0_l. pose proof ok_wsize; lia.
Qed.

(** Pops, from a state that has already popped [k] bytes. *)
Lemma pop_size_width n : pop_size n -> 0 <= width n /\ width n mod wsize = 0.
Proof.
  intros [[Hn _] Hal]. split; [unfold width; lia|]. by apply width_aligned.
Qed.
Lemma wp_after_spop U n Q T s k s1 :
  after s k s1 -> pop_size n -> SP s + k + width n <= LB s ->
  (forall s2, after s (k + width n) s2 -> Q (stks s (SP s + k) n) s2) -> wp U (spop n) Q T s1.
Proof.
  intros H Hn Hle HQ. pose proof (after_LB _ _ _ H) as HLB. destruct (pop_size_width n Hn).
  apply wp_spop; [done|apply H|rewrite (af_SP _ _ _ H); lia|]. intros w.
  rewrite (after_stks s k), (af_SP _ _ _ H) by done.
  apply HQ, after_popped; [done..|]. rewrite (af_SP _ _ _ H). lia.
Qed.
Lemma wp_after_upop U n Q T s k s1 :
  after s k s1 -> pop_size n -> SP s + k + width n <= LB s ->
  (forall s2, after s (k + width n) s2 -> Q (stk s (SP s + k) n) s2) -> wp U (upop n) Q T s1.
Proof.
  intros H Hn Hle HQ. pose proof (after_LB _ _ _ H) as HLB. destruct (pop_size_width n Hn).
  apply wp_upop; [done|apply H|rewrite (af_SP _ _ _ H); lia|]. intros w.
  rewrite (after_stk s k), (af_SP _ _ _ H) by done.
  apply HQ, after_popped; [done..|]. rewrite (af_SP _ _ _ H). lia.
Qed.
Lemma wp_after_swpop U Q T s k s1 :
  after s k s1 -> SP s + k + wsize <= LB s ->
  (forall s2, after s (k + wsize) s2 -> Q (stks s (SP s + k) wsize) s2) -> wp U swpop Q T s1.
Proof.
  intros H Hle HQ. pose proof (after_LB _ _ _ H) as HLB. pose proof wsize_range.
  apply wp_swpop; [apply H|rewrite (af_SP _ _ _ H); lia|]. intros w.
  rewrite (after_stks s k), (af_SP _ _ _ H) by done.
  apply HQ, after_popped; [done|lia|apply wsize_mod|]. rewrite (af_SP _ _ _ H). lia.
Qed.
Lemma wp_after_uwpop U Q T s k s1 :
  after s k s1 -> SP s + k + wsize <= LB s ->
  (forall s2, after s (k + wsize) s2 -> Q (stk s (SP s + k) wsize) s2) -> wp U uwpop Q T s1.
Proof.
  intros H Hle HQ. pose proof (after_LB _ _ _ H) as HLB. pose proof wsize_range.
  apply wp_uwpop; [apply H|rewrite (af_SP _ _ _ H); lia|]. intros w.
  rewrite (after_stk s k), (af_SP _ _ _ H) by done.
  apply HQ, after_popped; [done|lia|apply wsize_mod|]. rewrite (af_SP _ _ _ H). lia.
Qed.
Lemma wp_after_wpop U Q T s k s1 :
  after s k s1 -> SP s + k + wsize <= LB s ->
  (forall s2, after s (k + wsize) s2 -> Q (stks s (SP s + k) wsize) s2) -> wp U wpop Q T s1.
Proof.
  intros H Hle HQ. pose proof (after_LB _ _ _ H) as HLB. pose proof wsize_range.
  apply wp_wpop; [apply H|rewrite (af_SP _ _ _ H); lia|]. intros w.
  rewrite (after_stks s k), (af_SP _ _ _ H) by done.
  apply HQ, after_popped; [done|lia|apply wsize_mod|]. rewrite (af_SP _ _ _ H). lia.
Qed.
Lemma wp_after_dppop U Q T s k s1 :
  after s k s1 -> SP s + k + psize <= LB s ->
  (forall s2, after s (k + psize) s2 -> Q (stk s (SP s + k) psize) s2) -> wp U dppop Q T s1.
Proof.
  intros H Hle HQ. pose proof (after_LB _ _ _ H) as HLB. pose proof psize_range.
  apply wp_dppop; [apply H|rewrite (af_SP _ _ _ H); lia|]. intros w.
  rewrite (after_stk s k), (af_SP _ _ _ H) by done.
  apply HQ, after_popped; [done|lia|apply psize_aligned|]. rewrite (af_SP _ _ _ H). lia.
Qed.

(** Pushes. *)
Lemma sh_flags_int l n : Z.testbit (sh_flags l n) 0 = true.
Proof. unfold sh_flags. by destruct (_ && _). Qed.
Lemma replaces_pushed s k s1 n v w :
  after s k s1 -> 0 < n -> n mod wsize = 0 -> room n s1 ->
  replaces s k n v (set_warn w (pushed v (sh_flags v n) n s1)).
Proof.
  intros H Hn Hal Hr. destruct H as [H1 H2 H3 H4].
  constructor; rewrite ?SP_set_warn, ?stack_set_warn, ?stk_set_warn, ?rest_set_warn, ?SP_pushed.
  - lia.
  - apply stk_pushed_top. lia.
  - intros i Hi. rewrite mshad_pushed_top by done. apply sh_flags_int.
  - intros a Ha. rewrite mget_pushed by lia. by rewrite H2.
  - intros a Ha. rewrite mshad_pushed by lia. by rewrite H2.
  - by rewrite rest_pushed.
  - by apply Inv_set_warn, Inv_pushed.
Qed.
Lemma wp_after_wpush U v (Q : unit -> state -> Prop) T s k s1 :
  after s k s1 -> has_room (SP s + k - wsize) s = true ->
  (forall s', replaces s k wsize v s' -> Q tt s') -> wp U (wpush v) Q T s1.
Proof.
  intros H Hr HQ. rewrite <- (after_room s k s1) in Hr by done.
  apply wp_wpush; [apply H|done|]. intros w. apply HQ, replaces_pushed; [done| |apply wsize_mod|done].
  pose proof ok_wsize; lia.
Qed.

(** The integer sizes of the arithmetic instructions: [arg_wi]. *)
Definition wi_size (l : Z) : Prop := (l = 2 \/ l = 4) /\ l mod wsize = 0.
Lemma wi_size_pop l : wi_size l -> pop_size l /\ width l = l.
Proof.
  intros [Hl Hal]. split; [split; [split|]|].
  - lia.
  - right. assert (wsize <= l); [|lia]. sizes; destruct Hl as [-> | ->]; (lia || done).
  - by right.
  - unfold width. apply Z.max_l. sizes; destruct Hl as [-> | ->]; (lia || done).
Qed.
Lemma narrowed_mod l v : wi_size l -> narrowed v l mod 2 ^ (8 * l) = v mod 2 ^ (8 * l).
Proof.
  intros [Hl Hal]. unfold narrowed. destruct (l <=? wsize); [|done].
  destruct Hl as [-> | ->]; cbn [Z.eqb Pos.eqb]; [|done].
  unfold MASK2. change 65535 with (Z.ones 16). rewrite Z.land_ones by lia.
  change (8 * 2) with 16. apply Z.mod_mod. lia.
Qed.
Lemma replaces_mod s k n v v' s' :
  v mod 2 ^ (8 * n) = v' mod 2 ^ (8 * n) -> replaces s k n v s' -> replaces s k n v' s'.
Proof. intros E []. constructor; auto. congruence. Qed.
Lemma wp_after_npush U v l (Q : unit -> state -> Prop) T s k s1 :
  after s k s1 -> wi_size l -> has_room (SP s + k - l) s = true ->
  (forall s', replaces s k l v s' -> Q tt s') -> wp U (npush v l) Q T s1.
Proof.
  intros H Hl Hr HQ. destruct (wi_size_pop l Hl) as [Hp Hw]. rewrite <- (after_room s k s1) in Hr by done.
  apply wp_npush; [done|apply H|by rewrite Hw|]. intros w. rewrite Hw. apply HQ.
  eapply replaces_mod; [by apply narrowed_mod|]. apply replaces_pushed; [done| |by apply Hl|done].
  destruct Hl; lia.
Qed.

(** ** Argument checks and the Function Return Area *)
Lemma wp_arg_wi U l (Q : Z -> state -> Prop) T s : wi_size l -> Q l s -> wp U (arg_wi l) Q T s.
Proof.
  intros [Hl Hal] HQ. unfold arg_wi, check. rewrite land_wsizem1, Hal.
  replace (_ || _) with false by lia. done.
Qed.
Lemma arg_wi_bad l s : ~ wi_size l -> arg_wi l s = Trap EODDZ s.
Proof.
  intros H. unfold arg_wi, check. rewrite land_wsizem1.
  replace (_ || _) with true; [done|]. unfold wi_size in H. lia.
Qed.
Lemma wp_arg_w U l (Q : Z -> state -> Prop) T s :
  0 < l <= max_off -> l mod wsize = 0 -> Q l s -> wp U (arg_w l) Q T s.
Proof.
  intros Hl Hal HQ. unfold arg_w, check. rewrite land_wsizem1, Hal.
  replace (_ || _) with false by lia. done.
Qed.
Lemma wp_arg_f U l (Q : Z -> state -> Prop) T s :
  min_off <= l <= max_off -> Q l s -> wp U (arg_f l) Q T s.
Proof. intros Hl HQ. unfold arg_f, check. by replace (_ || _) with false by lia. Qed.
Lemma wp_arg_l U l (Q : Z -> state -> Prop) T s :
  min_off <= l <= max_off -> Q l s -> wp U (arg_l l) Q T s.
Proof. intros Hl HQ. unfold arg_l, check. by replace (_ || _) with false by lia. Qed.
Lemma wp_arg_c U l (Q : Z -> state -> Prop) T s :
  i_minsw <= l <= i_maxsw -> Q l s -> wp U (arg_c l) Q T s.
Proof. intros Hl HQ. unfold arg_c, check. by replace (_ || _) with false by lia. Qed.

(** Every instruction but LFR and RET makes the function result illegal. *)
Definition spoiled (s : state) : state := set_FRA_def UNDEFINED s.
Lemma Inv_spoiled s : Inv s -> Inv (spoiled s).
Proof. inv_set. Qed.
Lemma wp_spoilFRA U (Q : unit -> state -> Prop) T s k s1 :
  after s k s1 -> (forall s2, after (spoiled s) k s2 -> Q tt s2) -> wp U spoilFRA Q T s1.
Proof.
  intros [H1 H2 H3 H4] HQ. apply HQ. constructor; [done..| |by apply Inv_spoiled].
  apply (f_equal (set_FRA_def UNDEFINED)) in H3. exact H3.
Qed.
End OnStack.
