(* ===== verification/Calls.v ===== *)
(** * Calls and returns

    The Return Status Block as a record of saved registers: a call saves the
    caller's registers in it, a return restores them. *)
From Stdlib Require Import ZArith Lia Bool.
From stdpp Require Import base gmap list.
From S2P Require Import Prelude Machine Warn Mem Wp Data Stack StackSpec DataSpec Text Proctab Frame Instr.

Section Stores.
Context {cfg : Config} {ok : ConfigOk}.

(** ** Stores at known addresses of the stack *)
Lemma wp_st_loop U a l sh n (Q : unit -> state -> Prop) T s :
  Inv s -> 0 <= n -> on_stack a n s -> (forall w, Q tt (set_warn w (put_stk a l sh n s))) ->
  wp U (st_st_loop (Z.to_nat n) a l sh) Q T s.
Proof.
  intros Hs Hn [H1 H2] HQ. pose proof (inv_SP s Hs). pose proof (inv_stack s Hs).
  destruct (st_st_loop_run (Z.to_nat n) a l sh s) as [w Hw]; [lia..|].
  unfold wp. rewrite Hw, Z2Nat.id by lia. apply HQ.
Qed.
Lemma wp_st_stn U a l n (Q : unit -> state -> Prop) T s :
  int_size n -> Inv s -> on_stack a n s -> a mod wsize = 0 ->
  (forall w, Q tt (set_warn w (put_stk a l (sh_flags l n) n s))) -> wp U (st_stn a l n) Q T s.
Proof.
  intros [Hn Hd] Hs Ha Hal HQ. unfold st_stn, wp. run.
  rewrite ch_in_stack_run by (done || lia). run. rewrite ch_aligned_run by (done || lia). run.
  apply (wp_st_loop U); [done|lia|done|exact HQ].
Qed.
Lemma wp_st_stw U a l (Q : unit -> state -> Prop) T s :
  Inv s -> on_stack a wsize s -> a mod wsize = 0 ->
  (forall w, Q tt (set_warn w (put_stk a l (sh_flags l wsize) wsize s))) -> wp U (st_stw a l) Q T s.
Proof.
  intros Hs Ha Hal HQ. pose proof wsize_range. unfold st_stw, wp. run.
  rewrite ch_w_in_stack_run by done. run. rewrite ch_wordaligned_run by done. run.
  apply (wp_st_loop U); [done|lia|done|exact HQ].
Qed.
Lemma wp_st_stdp U a l (Q : unit -> state -> Prop) T s :
  Inv s -> on_stack a psize s -> a mod wsize = 0 ->
  (forall w, Q tt (set_warn w (put_stk a l SH_DATAP psize s))) -> wp U (st_stdp a l) Q T s.
Proof.
  intros Hs Ha Hal HQ. pose proof int_size_psize as [Hp _]. unfold st_stdp, wp. run.
  rewrite ch_in_stack_run by (done || lia). run. rewrite ch_wordaligned_run by done. run.
  apply (wp_st_loop U); [done|lia|done|exact HQ].
Qed.
Lemma wp_st_stip U a l (Q : unit -> state -> Prop) T s :
  Inv s -> on_stack a psize s -> a mod wsize = 0 ->
  (forall w, Q tt (set_warn w (put_stk a l SH_INSP psize s))) -> wp U (st_stip a l) Q T s.
Proof.
  intros Hs Ha Hal HQ. pose proof int_size_psize as [Hp _]. unfold st_stip, wp. run.
  rewrite ch_in_stack_run by (done || lia). run. rewrite ch_wordaligned_run by done. run.
  apply (wp_st_loop U); [done|lia|done|exact HQ].
Qed.

(** ** [wrote m lo s s']: [s'] is [s] with the bytes [m] in its stack; shadow bytes
    have changed only below [lo]. *)
Definition wrote (m : gmap Z Z) (lo : Z) (s s' : state) : Prop :=
  exists w sh, s' = set_warn w (set_stack (mkArea m sh (alloc (stack s))) s) /\
    forall a, lo <= a -> mget sh a = mget (shad (stack s)) a.

Lemma wrote_refl lo s : wrote (bytes (stack s)) lo s s.
Proof.
  exists (warn s), (shad (stack s)). split; [|done].
  by destruct s as [???????????????? [? ? ?] ??????????].
Qed.
Lemma wrote_put m lo s s1 a l sh n w :
  wrote m lo s s1 -> 0 <= n -> a + n <= lo ->
  wrote (stn m a l (Z.to_nat n)) lo s (set_warn w (put_stk a l sh n s1)).
Proof.
  intros (w1 & sh1 & -> & Hsh) Hn Ha. exists w, (fill sh1 a sh (Z.to_nat n)). split; [done|].
  intros b Hb. rewrite fill_lookup. replace (_ && _) with false by lia. by apply Hsh.
Qed.
Lemma wrote_Inv m lo s s1 : Inv s -> bytes_ok m -> wrote m lo s s1 -> Inv s1.
Proof. intros [] Hm (w & sh & -> & _). by constructor. Qed.
Lemma wrote_same m lo s s1 :
  wrote m lo s s1 -> rest s1 = rest s /\ SP s1 = SP s /\ SL s1 = SL s /\ bytes (stack s1) = m /\
    alloc (stack s1) = alloc (stack s).
Proof. by intros (w & sh & -> & _). Qed.
Lemma wrote_shad m lo s s1 a :
  wrote m lo s s1 -> lo <= a -> mget (shad (stack s1)) a = mget (shad (stack s)) a.
Proof. intros (w & sh & -> & H) Ha. by apply H. Qed.
Lemma wrote_warn m lo s s1 w : wrote m lo s s1 -> wrote m lo s (set_warn w s1).
Proof. intros (w1 & sh & -> & H). by exists w, sh. Qed.

Lemma wp_st_prot1 U m lo s s1 a (Q : unit -> state -> Prop) T :
  wrote m lo s s1 -> stack_valid a s1 = true -> a < lo ->
  (forall s2, wrote m lo s s2 -> Q tt s2) -> wp U (st_prot1 a) Q T s1.
Proof.
  intros (w & sh & -> & Hsh) Hv Ha HQ. unfold st_prot1, st_sh, set_st_sh, wp. run. rewrite Hv. run.
  rewrite Hv. run. apply HQ. eexists w, _. split; [reflexivity|]. intros b Hb. cbn.
  rewrite mget_insert_ne by lia. by apply Hsh.
Qed.
Lemma wp_st_prot U m lo s s1 a n (Q : unit -> state -> Prop) T :
  wrote m lo s s1 -> Inv s -> bytes_ok m -> on_stack a n s -> n = 2 \/ n = 4 -> a + n <= lo ->
  (forall s2, wrote m lo s s2 -> Q tt s2) -> wp U (st_prot a n) Q T s1.
Proof.
  intros H Hs Hm [H1 H2] Hn Ha HQ. pose proof (inv_SP s Hs). pose proof (inv_stack s Hs). pose proof ML_range.
  assert (Hv : forall s2 b, wrote m lo s s2 -> a <= b < a + n -> stack_valid b s2 = true).
  { intros s2 b (_ & _ & _ & _ & E)%wrote_same Hb. unfold stack_valid. lia. }
  assert (Hstep : forall s2 b (Q : unit -> state -> Prop) T, wrote m lo s s2 -> a <= b -> b + 1 < a + n ->
    (forall s3, wrote m lo s s3 -> Q tt s3) -> wp U (st_prot2b b) Q T s2).
  { intros s2 b Q' T' H2' Hb1 Hb2 HQ'. unfold st_prot2b. rewrite padd_small by lia.
    apply wp_bind. eapply wp_st_prot1; [exact H2'|by apply Hv; [|lia]|lia|]. intros s3 Hw3.
    eapply wp_st_prot1; [exact Hw3|by apply Hv; [|lia]|lia|exact HQ']. }
  unfold st_prot. apply wp_bind. eapply Hstep; [exact H|lia|lia|]. intros s2 Hw2.
  destruct (Z.eqb_spec n 4); [|by apply HQ]. cbn [when]. rewrite padd_small by lia.
  eapply Hstep; [exact Hw2|lia|lia|exact HQ].
Qed.
End Stores.

(** ** The Return Status Block *)
Record rsb := mkRsb { r_code : Z; r_PI : Z; r_PC : Z; r_LB : Z; r_LIN : Z; r_FIL : Z }.

Section RSB.
Context {cfg : Config} {ok : ConfigOk}.

(** The block [r] is stored at the local base [lb]. *)
Record rsb_at (r : rsb) (lb : Z) (s : state) : Prop := mkRsbAt {
  ra_code : stks s (lb + rsb_rsbcode) wsize = r_code r;
  ra_PI : stks s (lb + rsb_PI) psize = r_PI r;
  ra_PC : stk s (lb + rsb_PC) psize = r_PC r;
  ra_LB : stk s (lb + rsb_LB) psize = r_LB r;
  ra_LIN : stk s (lb + rsb_LIN) LINSIZE = r_LIN r;
  ra_FIL : stk s (lb + rsb_FIL) psize = r_FIL r
}.
(** The registers that a call saves. *)
Definition saved (code : Z) (s : state) : rsb := mkRsb code (PI s) (PC s) (LB s) (LIN s) (FIL s).
(** The codes of Return Status Blocks. *)
Definition is_rsbcode (c : Z) : Prop := c = RSB_STP \/ c = RSB_CAL \/ c = RSB_RTT \/ c = RSB_NRT.

(** The bytes that [pushrsb] writes at [p]. *)
Definition rsb_bytes (r : rsb) (p : Z) (m : gmap Z Z) : gmap Z Z :=
  let m := stn m (p + rsb_FIL) (r_FIL r) (Z.to_nat psize) in
  let m := stn m (p + rsb_LIN) (r_LIN r) (Z.to_nat LINSIZE) in
  let m := stn m (p + rsb_LB) (r_LB r) (Z.to_nat psize) in
  let m := stn m (p + rsb_PC) (r_PC r) (Z.to_nat psize) in
  let m := stn m (p + rsb_PI) (r_PI r) (Z.to_nat psize) in
  stn m (p + rsb_rsbcode) (r_code r) (Z.to_nat wsize).

Lemma bytes_ok_rsb r p m : bytes_ok m -> bytes_ok (rsb_bytes r p m).
Proof. intros H. unfold rsb_bytes. cbv zeta. by do 6 apply bytes_ok_stn. Qed.

Lemma rsb_layout :
  0 < wsize /\ 0 < psize /\ rsb_rsbcode = 0 /\ rsb_PI = wsize /\ rsb_PC = wsize + psize /\
  rsb_LB = wsize + 2 * psize /\ rsb_LIN = wsize + 3 * psize /\ rsb_FIL = wsize + 3 * psize + 4 /\
  rsbsize = wsize + 4 * psize + 4.
Proof.
  unfold rsbsize, rsb_FIL, rsb_LIN, rsb_LB, rsb_PC, rsb_PI, rsb_rsbcode, LINSIZE. sizes; lia.
Qed.
Lemma rsb_above r p m a : p + rsbsize <= a -> mget (rsb_bytes r p m) a = mget m a.
Proof.
  intros Ha. pose proof rsb_layout. unfold rsb_bytes, LINSIZE. cbv zeta.
  rewrite !stn_lookup_out by lia. done.
Qed.

(** What fits in the fields of the block. *)
Record rsb_ok (r : rsb) : Prop := mkRsbOk {
  ro_code : is_rsbcode (r_code r);
  ro_PI : - 2 ^ (8 * psize - 1) <= r_PI r < 2 ^ (8 * psize - 1);
  ro_PC : 0 <= r_PC r < 2 ^ (8 * psize);
  ro_LB : 0 <= r_LB r < 2 ^ (8 * psize);
  ro_LIN : 0 <= r_LIN r < 2 ^ (8 * LINSIZE);
  ro_FIL : 0 <= r_FIL r < 2 ^ (8 * psize)
}.
Lemma rsbcode_word c : is_rsbcode c -> sext (8 * wsize) c = c.
Proof. intros H. sizes; destruct H as [->|[->|[->| ->]]]; reflexivity. Qed.
Lemma rsbcode_mask c : is_rsbcode c -> Z.land c RSBMASK = RSBCODE.
Proof. by intros [->|[->|[->| ->]]]. Qed.

Lemma rsb_bytes_at r p m lo s s1 :
  rsb_ok r -> wrote (rsb_bytes r p m) lo s s1 -> rsb_at r p s1.
Proof.
  intros [] (_ & _ & _ & Hb & _)%wrote_same. pose proof rsb_layout.
  constructor; unfold stks, stk; rewrite Hb; unfold rsb_bytes, LINSIZE in *; cbv zeta.
  - rewrite ldn_stn_eq. rewrite Z2Nat.id by lia.
    rewrite <- (rsbcode_word (r_code r)) at 2 by done. apply sext_eqm, Z.mod_mod. lia.
  - rewrite ldn_stn_ne by lia. rewrite ldn_stn_eq, Z2Nat.id by lia.
    rewrite <- (sext_small (8 * psize) (r_PI r)) at 2 by lia. apply sext_eqm, Z.mod_mod. lia.
  - do 2 rewrite ldn_stn_ne by lia. rewrite ldn_stn_eq, Z2Nat.id by lia. by apply Z.mod_small.
  - do 3 rewrite ldn_stn_ne by lia. rewrite ldn_stn_eq, Z2Nat.id by lia. by apply Z.mod_small.
  - do 4 rewrite ldn_stn_ne by lia. rewrite ldn_stn_eq. by apply Z.mod_small.
  - do 5 rewrite ldn_stn_ne by lia. rewrite ldn_stn_eq, Z2Nat.id by lia. by apply Z.mod_small.
Qed.
Lemma rsb_field_aligned p k :
  p mod wsize = 0 ->
  k = rsb_rsbcode \/ k = rsb_PI \/ k = rsb_PC \/ k = rsb_LB \/ k = rsb_LIN \/ k = rsb_FIL \/ k = rsbsize ->
  (p + k) mod wsize = 0.
Proof.
  intros Hp Hk. assert (k mod wsize = 0) as E.
  { unfold rsbsize, rsb_FIL, rsb_LIN, rsb_LB, rsb_PC, rsb_PI, rsb_rsbcode, LINSIZE in Hk.
    sizes; repeat destruct Hk as [->|Hk]; subst; reflexivity. }
  rewrite Zplus_mod, Hp, E. apply Z.mod_0_l. pose proof ok_wsize; lia.
Qed.
End RSB.

Section Pushrsb.
Context {cfg : Config} {ok : ConfigOk}.

Lemma wp_newLB U p (Q : unit -> state -> Prop) T s :
  Inv s -> on_stack p wsize s -> p mod wsize = 0 ->
  Z.land (stks s p wsize) RSBMASK = RSBCODE ->
  (forall w, Q tt (set_AB (p + rsbsize) (set_LB p (set_warn w s)))) -> wp U (newLB p) Q T s.
Proof.
  intros Hs Hp Hal Hc HQ. pose proof Hp as [H1 H2]. pose proof ML_range. pose proof (inv_SP s Hs).
  pose proof rsb_layout. pose proof rsbsize_range.
  unfold newLB. wregs. unfold in_stack. replace ((SP s <=? p) && (p <=? ML)) with true by lia.
  cbn [negb when]. unfold skip. wregs. rewrite wordaligned_mod, Hal. cbn [Z.eqb negb when]. unfold skip. wregs.
  unfold is_LB. apply wp_bind, wp_bind. unfold rsb_rsbcode. rewrite padd_small, Z.add_0_r by lia.
  apply wp_st_lds; [apply int_size_wsize|done|done|done|]. intros w. apply wp_ret.
  rewrite Hc. cbn [Z.eqb]. rewrite Z.eqb_refl. cbn [negb when]. unfold skip. wregs.
  apply wp_modify. cbn [LB set_LB]. rewrite padd_small by lia. apply HQ.
Qed.

Lemma int_size_LINSIZE : int_size LINSIZE.
Proof. unfold int_size, LINSIZE. sizes; lia. Qed.

(** One field of the block: a store that is then protected. *)
Lemma wp_rsb_field U (store rest_ : M unit) m lo s0 s1 a l sh n (Q : unit -> state -> Prop) T :
  (forall (Q : unit -> state -> Prop) s, Inv s -> on_stack a n s -> a mod wsize = 0 ->
     (forall w, Q tt (set_warn w (put_stk a l sh n s))) -> wp U store Q T s) ->
  wrote m lo s0 s1 -> Inv s0 -> bytes_ok m -> on_stack a n s0 -> a mod wsize = 0 ->
  n = 2 \/ n = 4 -> a + n <= lo ->
  (forall s2, wrote (stn m a l (Z.to_nat n)) lo s0 s2 -> wp U rest_ Q T s2) ->
  wp U (store ;; st_prot a n ;; rest_) Q T s1.
Proof.
  intros Hst H1 Hi Hm Ha Hal Hn Hlo HQ. pose proof (wrote_Inv _ _ _ _ Hi Hm H1) as Hi1.
  pose proof (wrote_same _ _ _ _ H1) as (_ & Esp & _).
  apply wp_bind, Hst; [done| |done|].
  - destruct Ha. split; [lia|done].
  - intros w. apply wp_bind. eapply wp_st_prot; [eapply wrote_put; [exact H1|lia|done]|done| |done|done|done|exact HQ].
    by apply bytes_ok_stn.
Qed.

(** The state before the new local base is set. *)
Definition rsb_pushed (code : Z) (s s1 : state) : Prop :=
  wrote (rsb_bytes (saved code s) (SP s - rsbsize) (bytes (stack s))) (SP s) (grow (SP s - rsbsize) s) s1.

Lemma wp_pushrsb U code (Q : unit -> state -> Prop) T s :
  Inv s -> is_rsbcode code -> room rsbsize s ->
  (forall s1 w, rsb_pushed code s s1 ->
     Q tt (set_AB (SP s) (set_LB (SP s - rsbsize) (set_warn w s1)))) ->
  wp U (pushrsb code) Q T s.
Proof.
  intros Hs Hc Hr HQ. pose proof rsb_layout as (Hw & Hp & E1 & E2 & E3 & E4 & E5 & E6 & E7).
  pose proof rsbsize_range. pose proof ML_range. assert (Hr0 : 0 < rsbsize) by lia.
  pose proof rsbsize_aligned as Hal.
  pose proof (inv_SP s Hs). pose proof (inv_LB s Hs). pose proof (room_HP _ _ Hr).
  pose proof (inv_HP s Hs). pose proof ok_HB.
  pose proof (Inv_grow_room rsbsize s Hs Hr0 Hal Hr) as Hg.
  pose proof (sub_aligned s rsbsize Hs Hal) as Hpal.
  set (p := SP s - rsbsize) in *. set (s0 := grow p s) in *.
  assert (Esp : SP s0 = p) by done.
  assert (Er : rest s0 = rest s) by (unfold s0, grow, extend; by destruct (p <? SL s)).
  assert (Eb : bytes (stack s0) = bytes (stack s)) by apply bytes_grow.
  assert (Hreg : forall A (f : state -> A) m s1, (forall x, f (rest x) = f x) -> wrote m (SP s) s0 s1 -> f s1 = f s).
  { intros A f m s1 Hf (E & _)%wrote_same. by rewrite <- Hf, E, Er, Hf. }
  assert (Hon : forall k n, 0 <= k -> 0 <= n -> k + n <= rsbsize -> on_stack (p + k) n s0).
  { intros k n ? ? ?. split; [lia|]. unfold p. lia. }
  assert (Hfal : forall k, k = rsb_rsbcode \/ k = rsb_PI \/ k = rsb_PC \/ k = rsb_LB \/ k = rsb_LIN \/
      k = rsb_FIL \/ k = rsbsize -> (p + k) mod wsize = 0) by (intros; by apply rsb_field_aligned).
  pose proof ok_psize. pose proof ok_wsize.
  assert (Hm : bytes_ok (bytes (stack s0))) by (rewrite Eb; apply Hs).
  unfold pushrsb. apply wp_bind, wp_incSP; [done|lia|done|done|]. fold p s0. wregs. rewrite Esp.
  rewrite !padd_small by lia.
  pose proof (wrote_refl (SP s) s0) as W0.
  eapply (wp_rsb_field U); [intros; by apply wp_st_stdp|exact W0|done|done|apply Hon; lia|apply Hfal; tauto|done|lia|].
  intros s1 W1. wregs.
  eapply (wp_rsb_field U); [intros; by apply wp_st_stn; [apply int_size_LINSIZE|..]
    |exact W1|done|by repeat apply bytes_ok_stn|apply Hon; unfold LINSIZE; lia|apply Hfal; tauto|by right|unfold LINSIZE; lia|].
  intros s2 W2. wregs.
  eapply (wp_rsb_field U); [intros; by apply wp_st_stdp|exact W2|done|by repeat apply bytes_ok_stn
    |apply Hon; lia|apply Hfal; tauto|done|lia|].
  intros s3 W3. wregs.
  eapply (wp_rsb_field U); [intros; by apply wp_st_stip|exact W3|done|by repeat apply bytes_ok_stn
    |apply Hon; lia|apply Hfal; tauto|done|lia|].
  intros s4 W4. wregs.
  eapply (wp_rsb_field U); [intros; by apply wp_st_stn; [apply int_size_psize|..]|exact W4|done|by repeat apply bytes_ok_stn
    |apply Hon; lia|apply Hfal; tauto|done|lia|].
  intros s5 W5.
  eapply (wp_rsb_field U); [intros; by apply wp_st_stw|exact W5|done|by repeat apply bytes_ok_stn
    |apply Hon; lia|apply Hfal; tauto|done|lia|].
  intros s6 W6.
  rewrite (Hreg _ FIL _ _ ltac:(done) W0), (Hreg _ LIN _ _ ltac:(done) W1), (Hreg _ LB _ _ ltac:(done) W2),
    (Hreg _ PC _ _ ltac:(done) W3), (Hreg _ PI _ _ ltac:(done) W4), Eb in W6.
  assert (Hi6 : Inv s6) by (eapply wrote_Inv; [exact Hg| |exact W6]; by repeat apply bytes_ok_stn; apply Hs).
  pose proof (wrote_same _ _ _ _ W6) as (_ & Esp6 & _ & Eb6 & _).
  apply wp_newLB; [done|split; unfold p in *; lia|done| |].
  - assert (stks s6 p wsize = sext (8 * wsize) code) as ->.
    { unfold stks, stk. rewrite Eb6.
      match goal with |- context [ldn ?m p ?n] =>
        replace (ldn m p n) with (ldn m (p + rsb_rsbcode) n) by (f_equal; lia) end.
      rewrite ldn_stn_eq, Z2Nat.id by lia. apply sext_eqm, Z.mod_mod. lia. }
    rewrite rsbcode_word by done. by apply rsbcode_mask.
  - intros w. replace (p + rsbsize) with (SP s) by (unfold p; lia). by apply HQ.
Qed.
End Pushrsb.

(** ** Calls *)
Section Call.
Context {cfg : Config} {ok : ConfigOk}.

(** The list of actual bases has a frame and can grow. *)
Definition frames_ok (s : state) : Prop := 0 <= curr_frame s < frame_limit s /\ 2 <= frame_limit s.
Definition framed (p : Z) (s : state) : state :=
  let cf := curr_frame s + 1 in
  set_AB_list (<[cf := p]> (AB_list s))
    (set_frame_limit (if cf =? frame_limit s then allocfrac (frame_limit s) else frame_limit s)
      (set_curr_frame cf s)).

Lemma allocfrac_grows n : 2 <= n -> n < allocfrac n.
Proof. intros. unfold allocfrac. Z.quot_rem_to_equations; lia. Qed.
Lemma wp_push_frame U p (Q : unit -> state -> Prop) T s :
  frames_ok s -> Q tt (framed p s) -> wp U (push_frame p) Q T s.
Proof.
  intros [H1 H2] HQ. pose proof (allocfrac_grows _ H2). unfold push_frame, framed in *. cbv zeta in HQ.
  wregs. cbn [curr_frame frame_limit set_curr_frame].
  destruct (Z.eqb_spec (curr_frame s + 1) (frame_limit s)); cbn [when].
  - apply wp_bind, wp_modify. unfold wp, set_AB_at. cbn [frame_limit set_frame_limit].
    by replace (_ && _) with true by lia.
  - apply wp_bind. unfold skip. apply wp_ret. unfold wp, set_AB_at. cbn [frame_limit set_curr_frame].
    by replace (_ && _) with true by lia.
Qed.
Lemma frames_ok_framed p s : frames_ok s -> frames_ok (framed p s).
Proof.
  intros [H1 H2]. pose proof (allocfrac_grows _ H2). unfold frames_ok, framed. cbn.
  destruct (Z.eqb_spec (curr_frame s + 1) (frame_limit s)); lia.
Qed.

Lemma frame_limit_framed p s : frames_ok s -> frame_limit s <= frame_limit (framed p s).
Proof.
  intros [H1 H2]. pose proof (allocfrac_grows _ H2). unfold framed. cbn. destruct (_ =? _); lia.
Qed.

(** The state at the entry of procedure [pi]. *)
Record entered (pi : Z) (pr : proc) (code : Z) (s s' : state) : Prop := mkEntered {
  en_PI : PI s' = pi;
  en_PC : PC s' = pr_ep pr;
  en_LB : LB s' = SP s - rsbsize;
  en_AB : AB s' = SP s;
  en_SP : SP s' = LB s' - pr_nloc pr;
  en_rsb : rsb_at (saved code s) (LB s') s';
  en_bytes : forall a, SP s <= a -> mget (bytes (stack s')) a = mget (bytes (stack s)) a;
  en_shad : forall a, SP s <= a -> mget (shad (stack s')) a = mget (shad (stack s)) a;
  en_frames : frames_ok s' /\ curr_frame s' = curr_frame s + 1 /\
    AB_list s' = <[curr_frame s + 1 := SP s]> (AB_list s) /\ frame_limit s <= frame_limit s';
  en_data : data s' = data s /\ HP s' = HP s /\ LIN s' = LIN s /\ FIL s' = FIL s;
  en_ctl : ctl s' = ctl s /\ FRA_def s' = UNDEFINED;
  en_inv : Inv s'
}.
(** A procedure whose entry point is in the text and whose locals are words. *)
Definition proc_ok (pi : Z) (pr : proc) : Prop :=
  0 <= pi /\ proctab !! Z.to_nat pi = Some pr /\ pr_ep pr < DB /\ pr_ep pr < pr_ff pr /\
  0 <= pr_nloc pr < 2 ^ 32 /\ pr_nloc pr mod wsize = 0.
(** The registers fit in the fields of the Return Status Block. *)
Definition can_save (code : Z) (s : state) : Prop := is_rsbcode code /\ rsb_ok (saved code s).

Lemma wp_get_proc U pi pr (Q : proc -> state -> Prop) T s :
  0 <= pi -> proctab !! Z.to_nat pi = Some pr -> Q pr s -> wp U (get_proc pi) Q T s.
Proof. intros H0 Hpr HQ. unfold wp, get_proc. replace (0 <=? pi) with true by lia. by rewrite Hpr. Qed.
Lemma wp_newPC U p pr (Q : unit -> state -> Prop) T s :
  0 <= PI s -> proctab !! Z.to_nat (PI s) = Some pr -> p < DB -> pr_ep pr <= p < pr_ff pr ->
  Q tt (set_PC p s) -> wp U (newPC p) Q T s.
Proof.
  intros H0 Hpr Hdb Hp HQ. unfold wp. rewrite (newPC_run p s pr) by done.
  replace (DB <=? p) with false by lia.
  by replace ((p <? pr_ep pr) || (pr_ff pr <=? p)) with false by lia.
Qed.

Lemma wp_called U pi pr code (Q : unit -> state -> Prop) T s :
  Inv s -> frames_ok s -> proc_ok pi pr -> can_save code s ->
  has_room (SP s - rsbsize - pr_nloc pr) s = true ->
  (forall s', entered pi pr code s s' -> Q tt s') -> wp U (call pi code) Q T s.
Proof.
  intros Hs Hf (Hpi & Hpr & Hep & Hff & Hn & Hna) [Hc Hsave] Hr HQ.
  pose proof rsbsize_range as Hrsb. pose proof (inv_SP s Hs) as Hsp. pose proof (inv_LB s Hs) as Hlb.
  pose proof (inv_HP s Hs). pose proof ok_HB.
  assert (Hhp : HP s <= SP s - rsbsize - pr_nloc pr) by (unfold has_room in Hr; lia).
  assert (Hroom : room rsbsize s) by (eapply has_room_mono; [| |exact Hr]; lia).
  unfold call. eapply wp_bind, wp_get_proc; [done|exact Hpr|]. cbv zeta. wregs.
  apply wp_bind, wp_push_frame; [done|]. set (s0 := framed (SP s) s).
  assert (Hs0 : Inv s0) by (unfold s0, framed; destruct Hs; by constructor).
  apply wp_bind, wp_pushrsb; [done|done|done|]. intros s1 w W1. wregs. apply wp_bind.
  set (s2 := set_PI pi (set_AB (SP s0) (set_LB (SP s0 - rsbsize) (set_warn w s1)))).
  assert (Hg : Inv (grow (SP s0 - rsbsize) s0)).
  { apply Inv_grow_room; [done|lia|apply rsbsize_aligned|done]. }
  assert (Hm : bytes_ok (rsb_bytes (saved code s0) (SP s0 - rsbsize) (bytes (stack s0)))) by apply bytes_ok_rsb, Hs.
  pose proof (wrote_Inv _ _ _ _ Hg Hm W1) as Hs1.
  pose proof (wrote_same _ _ _ _ W1) as (Er & Esp & _ & Eb & _).
  assert (Er0 : rest s1 = rest s0) by (rewrite Er; unfold grow, extend; by destruct (_ <? SL s0)).
  assert (Hreg : forall A (f : state -> A), (forall x, f (rest x) = f x) -> f s1 = f s0).
  { intros A f Hf'. by rewrite <- Hf', Er0, Hf'. }
  assert (Esp2 : SP s2 = SP s - rsbsize) by exact Esp.
  assert (Hs2 : Inv s2).
  { pose proof (Hreg _ HP ltac:(done)). pose proof (sub_aligned s rsbsize Hs rsbsize_aligned).
    assert (Haba : SP s = SP s - rsbsize +p rsbsize) by (rewrite padd_small; pose proof ML_range; lia).
    change (SP (grow (SP s0 - rsbsize) s0)) with (SP s - rsbsize) in Esp.
    destruct Hs1. unfold s2. constructor; cbn -[rsbsize]; change (SP s0) with (SP s); auto; lia. }
  assert (Hr2 : has_room (SP s2 - pr_nloc pr) s2 = true).
  { rewrite Esp2. unfold has_room in *. assert (HP s2 = HP s) as -> by apply (Hreg _ HP ltac:(done)). done. }
  apply wp_alloc; [done|done|done|done|]. intros s3 Hs3 Esp3 Er3 Eb3 Esh3. apply wp_bind.
  assert (Hreg3 : forall A (f : state -> A), (forall x, f (rest x) = f x) -> f s3 = f s2).
  { intros A f Hf'. by rewrite <- Hf', Er3, Hf'. }
  assert (Epi : PI s3 = pi) by apply (Hreg3 _ PI ltac:(done)).
  eapply wp_newPC; [by rewrite Epi|rewrite Epi; exact Hpr|done|lia|].
  apply HQ. assert (Elb : LB s3 = SP s - rsbsize) by apply (Hreg3 _ LB ltac:(done)).
  assert (Habove : forall a, SP s <= a -> mget (bytes (stack s3)) a = mget (bytes (stack s)) a).
  { intros a Ha. rewrite Eb3. change (mget (bytes (stack s1)) a = mget (bytes (stack s)) a).
    rewrite Eb. apply rsb_above. change (SP s0) with (SP s). lia. }
  assert (Hshad : forall a, SP s <= a -> mget (shad (stack s3)) a = mget (shad (stack s)) a).
  { intros a Ha. rewrite Esh3 by lia. change (mget (shad (stack s1)) a = mget (shad (stack s)) a).
    rewrite (wrote_shad _ _ _ _ a W1) by done.
    destruct (grow_contract (SP s0 - rsbsize) s0 ltac:(lia)) as [_ G]. rewrite G.
    change (SP s0) with (SP s). by replace (_ && _) with false by lia. }
  assert (Hrsbat : rsb_at (saved code s) (SP s - rsbsize) s3).
  { pose proof (rsb_bytes_at _ _ _ _ _ _ Hsave W1) as [].
    constructor; unfold stks, stk; rewrite Eb3; assumption. }
  assert (Hframe : forall A (f : state -> A), (forall x, f (rest x) = f x) ->
    (forall x a b c, f (set_PI a (set_AB b (set_LB c x))) = f x) -> f s3 = f s0).
  { intros A f Hf1 Hf2. rewrite (Hreg3 _ f Hf1). unfold s2. rewrite Hf2, <- Hf1.
    change (rest (set_warn w s1)) with (rest s1). rewrite Hf1. apply (Hreg _ f Hf1). }
  assert (Hfr : frames_ok s3).
  { unfold frames_ok. rewrite (Hframe _ curr_frame), (Hframe _ frame_limit) by done.
    by apply frames_ok_framed. }
  constructor; cbn [PI PC LB AB SP stack data HP LIN FIL FRA_def set_FRA_def set_PC]; try done.
  - apply (Hreg3 _ AB). done.
  - rewrite Elb. lia.
  - rewrite Elb. by destruct Hrsbat.
  - split_and!; [exact Hfr|apply (Hframe _ curr_frame); done|apply (Hframe _ AB_list); done|].
    change (frame_limit s <= frame_limit s3). rewrite (Hframe _ frame_limit) by done. by apply frame_limit_framed.
  - split_and!; [apply (Hframe _ data)|apply (Hframe _ HP)|apply (Hframe _ LIN)|apply (Hframe _ FIL)]; done.
  - split; [apply (Hframe _ ctl); done|done].
  - revert Hs3. by intros []; constructor.
Qed.

(** A call enters the procedure: its registers are saved in a Return Status
    Block on the stack, which is the new local base, room for the locals is taken,
    the frame is remembered, and control is at the entry point (call of do_proc.c,
    pushrsb of rsb.c, push_frame of segment.c). *)
Theorem call_enters_procedure pi pr code s :
  Inv s -> frames_ok s -> proc_ok pi pr -> can_save code s ->
  has_room (SP s - rsbsize - pr_nloc pr) s = true ->
  exists s', call pi code s = Ret tt s' /\ entered pi pr code s s'.
Proof.
  intros Hs Hf Hp Hc Hr.
  assert (H : wp False (call pi code) (fun _ => entered pi pr code s) (fun _ _ => False) s)
    by (eapply wp_called; eauto).
  destruct (wp_ret_inv _ _ _ H) as ([] & s' & E & H'). by exists s'.
Qed.
End Call.

(** ** Line number and file name *)
Section LinFil.
Context {cfg : Config} {ok : ConfigOk}.

(** [s'] is [s] with the object [l] of [n] bytes stored at [a] in data, and other
    shadow bytes in the data area. *)
Definition stored (a l n : Z) (s s' : state) : Prop :=
  exists w sh, s' = set_warn w (set_data (mkArea (stn (bytes (data s)) a l (Z.to_nat n)) sh
                                          (alloc (data s))) s).
Lemma Inv_stored a l n s s' : Inv s -> stored a l n s s' -> Inv s'.
Proof. intros [] (w & sh & ->). constructor; cbn; auto. by apply bytes_ok_stn. Qed.
Lemma stored_reshaded a l n s s0 s1 s2 w sh :
  reshaded s s0 -> s1 = set_warn w (put_dat a l sh n s0) -> reshaded s1 s2 -> stored a l n s s2.
Proof. intros [sh1 ->] -> [sh2 ->]. eexists _, _. reflexivity. Qed.

(** Room for the line number and the file name. *)
Definition lin_fil_room (s : state) : Prop := FILN_AD + psize <= HP s.

Lemma wp_putLIN U lin (Q : unit -> state -> Prop) T s :
  Inv s -> lin_fil_room s ->
  (forall s', stored LINO_AD lin LINSIZE (set_LIN lin s) s' -> Q tt s') -> wp U (putLIN lin) Q T s.
Proof.
  intros Hs Hr HQ. pose proof ok_psize. unfold lin_fil_room, FILN_AD in Hr.
  assert (Hon : forall s', HP s' = HP s -> on_data LINO_AD LINSIZE s').
  { intros s' E. split; [done|]. rewrite E. unfold LINO_AD, LINSIZE. lia. }
  unfold putLIN. apply wp_bind, wp_dt_unprot; [by right|done|by apply Hon|]. intros s1 H1.
  pose proof (Inv_reshaded _ _ Hs H1) as Hs1.
  apply wp_bind, wp_dt_stn; [apply int_size_LINSIZE|done|apply Hon; by destruct H1 as [? ->]
    |apply Z.mod_0_l; pose proof ok_wsize; lia|]. intros w. wregs.
  apply wp_dt_prot; [by right| |apply Hon; by destruct H1 as [? ->]|].
  { pose proof (Inv_put_dat LINO_AD lin (sh_flags lin LINSIZE) LINSIZE s1 Hs1) as []. by constructor. }
  intros s2 H2. apply HQ. destruct H1 as [sh1 ->], H2 as [sh2 ->]. by eexists w, sh2.
Qed.
Lemma wp_putFIL U fil (Q : unit -> state -> Prop) T s :
  Inv s -> lin_fil_room s ->
  (forall s', stored FILN_AD fil psize (set_FIL fil s) s' -> Q tt s') -> wp U (putFIL fil) Q T s.
Proof.
  intros Hs Hr HQ. pose proof ok_psize.
  assert (Hon : forall s', HP s' = HP s -> on_data FILN_AD psize s').
  { intros s' E. split; [done|]. rewrite E. exact Hr. }
  unfold putFIL. apply wp_bind, wp_dt_unprot; [lia|done|by apply Hon|]. intros s1 H1.
  pose proof (Inv_reshaded _ _ Hs H1) as Hs1.
  apply wp_bind, wp_dt_stdp; [done|apply Hon; by destruct H1 as [? ->]|by sizes|]. intros w. wregs.
  apply wp_dt_prot; [lia| |apply Hon; by destruct H1 as [? ->]|].
  { pose proof (Inv_put_dat FILN_AD fil SH_DATAP psize s1 Hs1) as []. by constructor. }
  intros s2 H2. apply HQ. destruct H1 as [sh1 ->], H2 as [sh2 ->]. by eexists w, sh2.
Qed.

(** ** Popping frames *)
Lemma wp_pop_frames U k (Q : unit -> state -> Prop) T s :
  0 <= k <= curr_frame s -> curr_frame s < frame_limit s ->
  AB s <= mget (AB_list s) k -> (forall i, k < i <= curr_frame s -> mget (AB_list s) i < AB s) ->
  Q tt (set_curr_frame k s) -> wp U pop_frames Q T s.
Proof.
  intros Hk Hlim Hge Hlt HQ. unfold pop_frames. wregs.
  assert (H : forall n s1, (exists c, s1 = set_curr_frame c s /\ k <= c <= curr_frame s /\ c < Z.of_nat n) ->
    wp U (pop_frames_loop n) Q T s1).
  { induction n as [|n IH]; intros s1 (c & -> & Hc & Hn); [lia|]. cbn [pop_frames_loop]. wregs.
    cbn [curr_frame set_curr_frame]. apply wp_bind. unfold AB_at, wp at 1.
    cbn [frame_limit set_curr_frame AB_list]. replace (_ && _) with true by lia. wregs.
    cbn [AB set_curr_frame]. destruct (Z.eq_dec c k) as [->|].
    - replace (mget (AB_list s) k <? AB s) with false by lia. exact HQ.
    - specialize (Hlt c ltac:(lia)). replace (mget (AB_list s) c <? AB s) with true by lia. wregs.
      apply IH. exists (c - 1). split; [done|lia]. }
  apply H. exists (curr_frame s). split; [by destruct s|lia].
Qed.
End LinFil.

(** ** Returns *)
Section Return.
Context {cfg : Config} {ok : ConfigOk}.

(** The frame at LB can be left: its block [r] names a frame above it, a place in
    the fragment of the caller, and the list of actual bases has that frame at [k]. *)
Record can_return (r : rsb) (k : Z) (s : state) : Prop := mkCanReturn {
  cr_inv : Inv s;
  cr_room : lin_fil_room s;
  cr_rsb : rsb_at r (LB s) s;
  cr_code : is_rsbcode (r_code r);
  cr_callee : exists pr, 0 <= PI s /\ proctab !! Z.to_nat (PI s) = Some pr;
  cr_caller : exists pr, 0 <= r_PI r /\ proctab !! Z.to_nat (r_PI r) = Some pr /\
    r_PC r < DB /\ pr_ep pr <= r_PC r < pr_ff pr;
  cr_LB : LB s + rsbsize <= r_LB r /\ r_LB r + wsize <= ML + 1 /\ r_LB r mod wsize = 0;
  cr_frame : Z.land (stks s (r_LB r) wsize) RSBMASK = RSBCODE;
  cr_k : 0 <= k <= curr_frame s /\ curr_frame s < frame_limit s;
  cr_top : r_LB r + rsbsize <= mget (AB_list s) k;
  cr_pop : forall i, k < i <= curr_frame s -> mget (AB_list s) i < r_LB r + rsbsize
}.

(** The state after the return to the caller. *)
Record returned (r : rsb) (k : Z) (s s' : state) : Prop := mkReturned {
  rt_PI : PI s' = r_PI r;
  rt_PC : PC s' = r_PC r;
  rt_LB : LB s' = r_LB r;
  rt_AB : AB s' = r_LB r + rsbsize;
  rt_SP : SP s' = LB s + rsbsize;
  rt_LIN : LIN s' = r_LIN r;
  rt_FIL : FIL s' = r_FIL r;
  rt_stack : stack s' = stack s;
  rt_frames : curr_frame s' = k /\ AB_list s' = AB_list s /\ frame_limit s' = frame_limit s;
  rt_data : HP s' = HP s /\ dat s' LINO_AD LINSIZE = r_LIN r mod 2 ^ (8 * LINSIZE) /\
    dat s' FILN_AD psize = r_FIL r mod 2 ^ (8 * psize);
  rt_above : forall a, FILN_AD + psize <= a -> mget (bytes (data s')) a = mget (bytes (data s)) a;
  rt_ctl : ctl s' = ctl s;
  rt_FRA : FRA s' = FRA s /\ FRASize s' = FRASize s /\ FRA_def s' = FRA_def s;
  rt_inv : Inv s'
}.

(** The code of the block, loaded as an unsigned word. *)
Lemma rsb_code_word r a s :
  Inv s -> is_rsbcode (r_code r) -> stks s a wsize = r_code r -> s32 (stk s a wsize) = r_code r.
Proof.
  intros Hs Hc E. assert (Hw : 0 < wsize) by (pose proof ok_wsize; lia).
  assert (H : stk s a wsize = r_code r mod 2 ^ (8 * wsize)).
  { rewrite <- E. unfold stks. rewrite sext_mod by lia. symmetry. apply Z.mod_small.
    unfold stk. replace (8 * wsize) with (8 * Z.of_nat (Z.to_nat wsize)) by lia. apply ldn_range, Hs. }
  rewrite H. destruct ok_wsize as [-> | ->], Hc as [->|[->|[->| ->]]]; reflexivity.
Qed.

(** The first half of [poprsb]: the warnings, and the stack pointer set to LB. *)
Lemma wp_newSP_LB U (Q : unit -> state -> Prop) T s :
  Inv s -> Q tt (set_SP (LB s) s) -> wp U (newSP (LB s)) Q T s.
Proof.
  intros Hs HQ. pose proof (inv_SP s Hs). unfold wp. rewrite newSP_spec by done. unfold newSP_result.
  rewrite Z.ltb_irrefl, (inv_LB_aligned s Hs). cbn [Z.eqb negb].
  by replace (SP s <=? LB s) with true by lia.
Qed.
Lemma wp_when_warning U b nr (Q : unit -> state -> Prop) T s :
  0 <= nr -> (forall w, Q tt (set_warn w s)) -> wp U (when b (warning nr)) Q T s.
Proof.
  intros Hnr HQ. destruct b; cbn [when].
  - unfold wp. rewrite warning_ret by done. apply HQ.
  - unfold skip. apply wp_ret. rewrite <- (set_warn_id s). apply HQ.
Qed.

(** The second half of [poprsb]: the registers of the caller are loaded. *)
Definition restore (code : Z) : M Z :=
  sp ← gets SP;
  pi ← st_lds (sp +p rsb_PI) psize; modify (set_PI pi) ;;
  pc ← st_ldip (sp +p rsb_PC); newPC pc ;;
  lb ← st_lddp (sp +p rsb_LB); newLB lb ;;
  lin ← st_ldu (sp +p rsb_LIN) LINSIZE; putLIN lin ;;
  fil ← st_lddp (sp +p rsb_FIL); putFIL fil ;;
  st_dec rsbsize ;;
  pop_frames ;;
  ret code.

Lemma stk_same s s' a n : stack s' = stack s -> stk s' a n = stk s a n.
Proof. intros E. unfold stk. by rewrite E. Qed.

(** PI, PC and LB. *)
Lemma wp_restore_regs U r k s (body : M Z) (Q : Z -> state -> Prop) T :
  can_return r k s -> SP s = LB s ->
  (forall w, let s3 := set_AB (r_LB r + rsbsize) (set_LB (r_LB r) (set_PC (r_PC r) (set_PI (r_PI r) (set_warn w s)))) in
     Inv s3 -> wp U body Q T s3) ->
  wp U (pi ← st_lds (LB s +p rsb_PI) psize; modify (set_PI pi) ;;
        pc ← st_ldip (LB s +p rsb_PC); newPC pc ;;
        lb ← st_lddp (LB s +p rsb_LB); newLB lb ;; body) Q T s.
Proof.
  intros [Hi _ [R1 R2 R3 R4 R5 R6] Hc _ (pr & Hp0 & Hpr & Hpdb & Hpc) (HL1 & HL2 & HL3) Hf _ _ _] Esp HQ.
  pose proof rsb_layout as (Hw & Hp & E1 & E2 & E3 & E4 & E5 & E6 & E7).
  pose proof (inv_SP s Hi). pose proof (inv_LB s Hi). pose proof ML_range.
  assert (Hal : forall f, f = rsb_rsbcode \/ f = rsb_PI \/ f = rsb_PC \/ f = rsb_LB \/ f = rsb_LIN \/
      f = rsb_FIL \/ f = rsbsize -> (LB s + f) mod wsize = 0).
  { intros. apply rsb_field_aligned; [apply Hi|done]. }
  rewrite !padd_small by lia.
  apply wp_bind, wp_st_lds; [apply int_size_psize|done|split; lia|apply Hal; tauto|].
  intros w1. rewrite R2. wregs.
  assert (Hi1 : Inv (set_PI (r_PI r) (set_warn w1 s))) by (destruct Hi; by constructor).
  apply wp_bind, wp_st_ldip; [done|split; cbn; lia|apply Hal; tauto|]. intros w2.
  rewrite (stk_same s), R3 by done.
  apply wp_bind. eapply wp_newPC; [exact Hp0|exact Hpr|done|done|].
  set (s2 := set_PC _ _). assert (Hi2 : Inv s2) by (destruct Hi; by constructor).
  apply wp_bind, wp_st_lddp; [done|split; cbn; lia|apply Hal; tauto|]. intros w3.
  rewrite (stk_same s), R4 by done.
  apply wp_bind, wp_newLB; [by apply Inv_set_warn|split; cbn; lia|done|exact Hf|].
  intros w4. apply (HQ w4).
  assert (Hab : r_LB r + rsbsize = r_LB r +p rsbsize) by (rewrite padd_small; lia).
  destruct Hi. constructor; cbn [SP LB AB stack SL HP data HL FRASize FRA set_AB set_LB set_PC set_PI set_warn]; auto; lia.
Qed.

(** LIN and FIL. *)
Lemma wp_restore_lines U lin fil lb s (body : M Z) (Q : Z -> state -> Prop) T :
  Inv s -> lin_fil_room s -> SP s = lb -> lb mod wsize = 0 -> lb + rsbsize <= ML + 1 ->
  stk s (lb + rsb_LIN) LINSIZE = lin -> stk s (lb + rsb_FIL) psize = fil ->
  (forall s1 s2, stored LINO_AD lin LINSIZE (set_LIN lin s) s1 -> stored FILN_AD fil psize (set_FIL fil s1) s2 ->
     Inv s2 -> wp U body Q T s2) ->
  wp U (l ← st_ldu (lb +p rsb_LIN) LINSIZE; putLIN l ;;
        f ← st_lddp (lb +p rsb_FIL); putFIL f ;; body) Q T s.
Proof.
  intros Hi Hr Esp Hlb Hml El Ef HQ.
  pose proof rsb_layout as (Hw & Hp & E1 & E2 & E3 & E4 & E5 & E6 & E7).
  pose proof (inv_SP s Hi). pose proof ML_range.
  rewrite !padd_small by lia.
  apply wp_bind, wp_st_ldu; [apply int_size_LINSIZE|done|split; unfold LINSIZE; lia
    |apply rsb_field_aligned; tauto|].
  intros w1. rewrite El.
  apply wp_bind, wp_putLIN; [by apply Inv_set_warn|done|]. intros s1 H1.
  assert (Hi1 : Inv s1).
  { eapply Inv_stored; [|exact H1]. destruct Hi; by constructor. }
  assert (Es1 : stack s1 = stack s /\ SP s1 = SP s /\ HP s1 = HP s) by (by destruct H1 as (? & ? & ->)).
  destruct Es1 as (Es1 & Esp1 & Ehp1).
  apply wp_bind, wp_st_lddp; [done|split; lia|apply rsb_field_aligned; tauto|].
  intros w2. rewrite (stk_same s), Ef by done.
  apply wp_bind, wp_putFIL; [by apply Inv_set_warn|unfold lin_fil_room in *; cbn; lia|]. intros s2 H2.
  apply (HQ (set_warn w2 s1) s2).
  - destruct H1 as (w & sh & ->). by exists w2, sh.
  - exact H2.
  - eapply Inv_stored; [|exact H2]. destruct Hi1; by constructor.
Qed.

Lemma dat_stored a l n s s' : 0 <= n -> stored a l n s s' -> dat s' a n = l mod 2 ^ (8 * n).
Proof. intros Hn (w & sh & ->). unfold dat. cbn. rewrite ldn_stn_eq. by rewrite Z2Nat.id. Qed.
Lemma dat_stored_ne a l n s s' b k :
  0 <= n -> 0 <= k -> b + k <= a \/ a + n <= b -> stored a l n s s' -> dat s' b k = dat s b k.
Proof. intros Hn Hk Hb (w & sh & ->). unfold dat. cbn. apply ldn_stn_ne. lia. Qed.

Lemma wp_restore U r k s (Q : Z -> state -> Prop) T :
  can_return r k s -> SP s = LB s ->
  (forall s', returned r k s s' -> Q (r_code r) s') -> wp U (restore (r_code r)) Q T s.
Proof.
  intros Hcr Esp HQ. pose proof Hcr as [Hi Hroom [_ _ _ _ R5 R6] Hc _ _ (HL1 & HL2 & HL3) _ (Hk & Hlim) Htop Hpop].
  pose proof rsb_layout as (Hw & Hp & _). pose proof (inv_SP s Hi). pose proof ML_range.
  pose proof rsbsize_range as Hrsb.
  unfold restore. wregs. rewrite Esp. eapply wp_restore_regs; [done|done|]. intros w3 s3 Hi3.
  eapply (wp_restore_lines U (r_LIN r) (r_FIL r) (LB s) s3);
    [done|done|exact Esp|apply Hi|lia|exact R5|exact R6|].
  intros s4 s5 H4 H5 Hi5.
  assert (E5 : PI s5 = r_PI r /\ PC s5 = r_PC r /\ LB s5 = r_LB r /\ AB s5 = r_LB r + rsbsize /\
    SP s5 = SP s /\ LIN s5 = r_LIN r /\ FIL s5 = r_FIL r /\ stack s5 = stack s /\ curr_frame s5 = curr_frame s /\
    AB_list s5 = AB_list s /\ frame_limit s5 = frame_limit s /\ HP s5 = HP s /\ ctl s5 = ctl s /\
    FRA s5 = FRA s /\ FRASize s5 = FRASize s /\ FRA_def s5 = FRA_def s).
  { by destruct H4 as (? & ? & ->), H5 as (? & ? & ->). }
  assert (Hd : dat s5 LINO_AD LINSIZE = r_LIN r mod 2 ^ (8 * LINSIZE) /\
    dat s5 FILN_AD psize = r_FIL r mod 2 ^ (8 * psize) /\
    forall a, FILN_AD + psize <= a -> mget (bytes (data s5)) a = mget (bytes (data s)) a).
  { split_and!.
    - rewrite (dat_stored_ne FILN_AD (r_FIL r) psize (set_FIL (r_FIL r) s4) s5 LINO_AD LINSIZE); [|lia|done|by left|exact H5].
      apply (dat_stored LINO_AD (r_LIN r) LINSIZE _ s4 ltac:(done) H4).
    - eapply dat_stored; [lia|exact H5].
    - intros a Ha. unfold FILN_AD in Ha. destruct H4 as (? & ? & ->), H5 as (? & ? & ->).
      cbn [data set_data set_warn set_FIL set_LIN bytes]. unfold FILN_AD, LINO_AD, LINSIZE.
      rewrite !stn_lookup_out by lia. done. }
  clearbody s3. destruct E5 as (EPI & EPC & ELB & EAB & ESP & ELIN & EFIL & Estk & Ecf & Eab & Efl & Ehp & Ectl & Ef1 & Ef2 & Ef3).
  destruct Hd as (Hd1 & Hd2 & Hd3).
  apply wp_bind, wp_st_dec; [done|lia|apply rsbsize_aligned|lia|].
  assert (Hi6 : Inv (set_SP (SP s5 + rsbsize) s5)).
  { apply Inv_set_SP; [done|lia|]. rewrite ESP, Esp. apply rsb_field_aligned; [apply Hi|tauto]. }
  apply wp_bind. eapply (wp_pop_frames U k);
    [cbn; lia|cbn; lia|cbn; rewrite Eab; lia|cbn; rewrite Ecf, Eab, EAB; exact Hpop|].
  apply wp_ret, HQ.
  constructor; cbn [PI PC LB AB SP LIN FIL stack curr_frame AB_list frame_limit HP data FRA FRASize FRA_def set_SP set_curr_frame];
    try done.
  - by rewrite ESP, Esp.
  - destruct Hi6. by constructor.
Qed.

(** [poprsb] from a frame that can be left. *)
Lemma wp_poprsb U rtt r k s (Q : Z -> state -> Prop) T :
  can_return r k s -> r_code r <> RSB_STP ->
  (forall s', returned r k s s' -> Q (r_code r) s') -> wp U (poprsb rtt) Q T s.
Proof.
  intros Hcr Hstp HQ. pose proof Hcr as [Hi _ [R1 _ _ _ _ _] Hc (pr & Hpi & Hpr) _ (HL1 & HL2 & HL3) _ _ _ _].
  pose proof (inv_SP s Hi). pose proof ML_range. pose proof rsbsize_range. pose proof wsize_range.
  pose proof rsb_layout as (Hw & Hp & E0 & _).
  unfold poprsb. wregs. apply wp_bind. eapply wp_get_proc; [done|exact Hpr|]. wregs.
  apply wp_bind, wp_when_warning; [by destruct rtt|]. intros w1.
  apply wp_bind, wp_when_warning; [by destruct rtt|]. intros w2.
  set (s2 := set_warn w2 (set_warn w1 s)).
  apply wp_bind. change (LB s) with (LB s2). apply wp_newSP_LB; [by do 2 apply Inv_set_warn|]. wregs.
  set (s3 := set_SP (LB s2) s2).
  assert (Hi3 : Inv s3).
  { apply Inv_set_SP; [by do 2 apply Inv_set_warn|cbn; lia|apply Hi]. }
  change (SP s3) with (LB s). rewrite E0 in R1 |- *. rewrite Z.add_0_r in R1. rewrite padd_small, Z.add_0_r by lia.
  apply wp_bind, wp_st_lduw; [done|split; cbn; lia|apply Hi|]. intros w4.
  rewrite (stk_same s) by done. rewrite (rsb_code_word r (LB s) s Hi Hc R1). cbv zeta.
  rewrite (rsbcode_mask _ Hc), Z.eqb_refl. cbn [negb].
  replace (r_code r =? RSB_STP) with false by lia.
  set (s4 := set_warn w4 s3). change (LB s) with (SP s4).
  apply (wp_restore U r k s4).
  - destruct Hcr as [? ? [] ? ? ? ? ? ? ? ?]. constructor; try done. by apply Inv_set_warn.
  - done.
  - intros s' []. apply HQ. by constructor.
Qed.
End Return.
