(* ===== verification/Results.v ===== *)
(** * Function results and the round trip of a call

    RET moves the function result from the stack to the Function Return Area, LFR
    moves it back; a call followed by a body that leaves the frame alone and by a
    return restores the caller. *)
From Stdlib Require Import ZArith Lia Bool.
From stdpp Require Import base gmap list.
From S2P Require Import Prelude Machine Warn Mem Wp Data Stack StackSpec DataSpec Text Proctab Frame Instr Calls.

(** [moved i k f g h]: the entries of [h] from [i] to [i + k] are those of [f],
    the others those of [g]. *)
Definition moved (i k : Z) (f g h : Z -> Z) : Prop :=
  forall j, h j = if (i <=? j) && (j <? i + k) then f j else g j.

Lemma moved_0 i f g h : moved i 0 f g h <-> forall j, h j = g j.
Proof.
  unfold moved. split; intros H j; specialize (H j);
    replace ((i <=? j) && (j <? i + 0)) with false in * by lia; done.
Qed.
(** One entry set, then the others. *)
Lemma moved_S i k f g g' h :
  0 <= k -> g' i = f i -> (forall j, j <> i -> g' j = g j) -> moved (i + 1) k f g' h -> moved i (k + 1) f g h.
Proof.
  intros Hk Hi Hne H j. rewrite H. destruct (Z.eq_dec j i) as [->|Hj].
  - replace ((i + 1 <=? i) && (i <? i + 1 + k)) with false by lia.
    by replace ((i <=? i) && (i <? i + (k + 1))) with true by lia.
  - rewrite (Hne j Hj). by replace ((i <=? j) && (j <? i + (k + 1))) with ((i + 1 <=? j) && (j <? i + 1 + k)) by lia.
Qed.

Section Results.
Context {cfg : Config} {ok : ConfigOk}.

Lemma set_FRA_id s : set_FRA (mkArea (bytes (FRA s)) (shad (FRA s)) (alloc (FRA s))) s = s.
Proof. destruct s; cbn. by match goal with |- context [bytes ?x] => destruct x end. Qed.

(** ** From the stack to the Function Return Area *)
Lemma popFRA_loop_run k : forall i s,
  Inv s -> 0 <= i -> i + Z.of_nat k <= FRALimit -> SP s + i + Z.of_nat k <= ML + 1 ->
  exists b h, popFRA_loop k i s = Ret tt (set_FRA (mkArea b h (alloc (FRA s))) s) /\ bytes_ok b /\
    moved i (Z.of_nat k) (fun j => mget (bytes (stack s)) (SP s + j)) (mget (bytes (FRA s))) (mget b).
Proof.
  induction k as [|k IH]; intros i s Hs Hi Hk Hsp.
  - exists (bytes (FRA s)), (shad (FRA s)). split_and!; [|apply Hs|by apply moved_0].
    by rewrite set_FRA_id.
  - pose proof (inv_SP s Hs). pose proof (inv_stack s Hs). pose proof (inv_FRA_alloc s Hs) as Ha. pose proof ML_range.
    assert (Hv : forall s', stack s' = stack s -> stack_valid (SP s + i) s' = true).
    { intros s' E. unfold stack_valid. rewrite E. lia. }
    assert (Hf : forall s', alloc (FRA s') = FRALimit -> fra_valid i s' = true).
    { intros s' E. unfold fra_valid. rewrite E. lia. }
    cbn [popFRA_loop]. run. rewrite padd_small by lia.
    unfold stack_loc at 1. rewrite Hv by done. run. unfold set_FRA_at at 1. rewrite Hf by done. run.
    unfold st_sh at 1. rewrite Hv by done. run. unfold set_FRA_sh_at at 1. rewrite Hf by done. run.
    set (v := mget (bytes (stack s)) (SP s + i)).
    assert (Hb : is_byte v) by apply mget_range, Hs.
    match goal with |- context [popFRA_loop k (i + 1) ?x] => set (s1 := x) end.
    assert (Hs1 : Inv s1) by (unfold s1; inv_set; by apply bytes_ok_insert).
    destruct (IH (i + 1) s1 Hs1 ltac:(lia) ltac:(lia)) as (b & h & E & Hok & Hm).
    { change (SP s1) with (SP s). lia. }
    exists b, h. split_and!; [exact E|done|]. rewrite Nat2Z.inj_succ.
    eapply moved_S; [lia| | |exact Hm]; cbv beta.
    + cbn. apply mget_insert_eq.
    + intros j Hj. cbn. by rewrite mget_insert_ne.
Qed.

(** The top [sz] bytes are the function result. *)
Definition result_taken (sz : Z) (s s' : state) : Prop :=
  exists b h, s' = set_SP (if sz =? 0 then SP s else SP s + width sz) (set_FRA (mkArea b h (alloc (FRA s))) s) /\
    bytes_ok b /\ ldn b 0 (Z.to_nat sz) = stk s (SP s) sz.
(** An object of [sz] bytes may be on top of the stack. *)
Definition result_on_stack (sz : Z) (s : state) : Prop :=
  0 <= sz <= FRALimit /\ (sz <> 0 -> (sz <= wsize \/ sz mod wsize = 0) /\ width sz < 2 ^ 32 /\ SP s + width sz <= LB s).

Lemma Inv_result_taken sz s s' : Inv s -> result_on_stack sz s -> result_taken sz s s' -> Inv s'.
Proof.
  intros Hs [Hsz Hr] (b & h & -> & Hb & _). apply Inv_set_SP.
  - inv_set.
  - pose proof (inv_SP s Hs). cbn. destruct (Z.eqb_spec sz 0); [lia|].
    destruct (Hr ltac:(done)) as (_ & _ & Hw). unfold width in *. lia.
  - cbn. destruct (Z.eqb_spec sz 0); [apply Hs|]. destruct (Hr ltac:(done)) as (H & _ & _).
    rewrite Zplus_mod, (inv_SP_aligned s Hs), (width_aligned sz H). apply Z.mod_0_l. pose proof ok_wsize. lia.
Qed.
Lemma wp_popFRA U sz (Q : unit -> state -> Prop) T s :
  Inv s -> result_on_stack sz s -> (forall s', result_taken sz s s' -> Q tt s') -> wp U (popFRA sz) Q T s.
Proof.
  intros Hs [Hsz Hr] HQ. pose proof (inv_LB s Hs). unfold popFRA. destruct (Z.eqb_spec sz 0) as [->|Hne].
  - apply wp_ret, HQ. exists (bytes (FRA s)), (shad (FRA s)). split_and!; [|apply Hs|done].
    cbn [Z.eqb]. rewrite set_FRA_id. by destruct s.
  - destruct (Hr Hne) as (Hal & Hlt & Hroom). pose proof (width_aligned sz Hal).
    destruct (popFRA_loop_run (Z.to_nat sz) 0 s) as (b & h & E & Hok & Hm); [done|lia|lia|unfold width in *; lia|].
    apply wp_bind. unfold wp at 1. rewrite E. change (Z.max sz wsize) with (width sz).
    assert (Hi : Inv (set_FRA (mkArea b h (alloc (FRA s))) s)) by inv_set.
    apply wp_st_dec; [done|unfold width in *; lia|done|done|].
    apply HQ. exists b, h. replace (sz =? 0) with false by lia. split_and!; [done|done|].
    apply ldn_ext. intros i Hi'. rewrite Hm. by replace ((0 <=? 0 + i) && (0 + i <? 0 + Z.of_nat (Z.to_nat sz))) with true by lia.
Qed.

(** ** From the Function Return Area to the stack *)
Lemma pushFRA_loop_run k : forall i s,
  Inv s -> 0 <= i -> i + Z.of_nat k <= FRALimit -> SP s + i + Z.of_nat k <= ML + 1 ->
  exists b h, pushFRA_loop k i s = Ret tt (set_stack (mkArea b h (alloc (stack s))) s) /\ bytes_ok b /\
    moved i (Z.of_nat k) (mget (bytes (FRA s))) (fun j => mget (bytes (stack s)) (SP s + j)) (fun j => mget b (SP s + j)).
Proof.
  induction k as [|k IH]; intros i s Hs Hi Hk Hsp.
  - exists (bytes (stack s)), (shad (stack s)). split_and!; [|apply Hs|by apply moved_0].
    destruct s as [???????????????? [???] ??????????]; reflexivity.
  - pose proof (inv_SP s Hs). pose proof (inv_stack s Hs). pose proof (inv_FRA_alloc s Hs) as Ha. pose proof ML_range.
    assert (Hv : forall s', alloc (stack s') = alloc (stack s) -> stack_valid (SP s + i) s' = true).
    { intros s' E. unfold stack_valid. rewrite E. lia. }
    assert (Hf : forall s', FRA s' = FRA s -> fra_valid i s' = true).
    { intros s' E. unfold fra_valid. rewrite E. lia. }
    cbn [pushFRA_loop]. run. rewrite padd_small by lia.
    unfold FRA_at at 1. rewrite Hf by done. run. unfold set_stack_loc at 1. rewrite Hv by done. run.
    set (v := mget (bytes (FRA s)) i).
    assert (Hb : is_byte v) by apply mget_range, Hs.
    set (s0 := set_stack _ s).
    assert (Hx : exists x, (if i <? FRASize s0 then FRA_sh_at i else ret UNDEFINED) s0 = Ret x s0).
    { destruct (i <? FRASize s0); [|by eexists]. unfold FRA_sh_at. rewrite Hf by done. by eexists. }
    destruct Hx as [x Hx]. rewrite Hx. run. unfold set_st_sh at 1. rewrite Hv by done. run.
    match goal with |- context [pushFRA_loop k (i + 1) ?x] => set (s1 := x) end.
    assert (Hs1 : Inv s1) by (unfold s1, s0; inv_set; by apply bytes_ok_insert).
    destruct (IH (i + 1) s1 Hs1 ltac:(lia) ltac:(done || lia)) as (b & h & E & Hok & Hm).
    { change (SP s1) with (SP s). lia. }
    exists b, h. split_and!; [exact E|done|]. rewrite Nat2Z.inj_succ.
    eapply moved_S; [lia| | |exact Hm]; cbv beta.
    + cbn. apply mget_insert_eq.
    + intros j Hj. cbn. rewrite mget_insert_ne; [done|lia].
Qed.

(** The [sz] bytes of the function result are pushed; nothing above them changes. *)
Record result_pushed (sz : Z) (s s' : state) : Prop := mkResultPushed {
  rp_SP : SP s' = SP s - width sz;
  rp_value : stk s' (SP s') sz = ldn (bytes (FRA s)) 0 (Z.to_nat sz);
  rp_rest : rest s' = rest (set_FRA_def (FRA_def s') s);
  rp_above : forall a, SP s <= a -> mget (bytes (stack s')) a = mget (bytes (stack s)) a;
  rp_inv : Inv s'
}.
Lemma wp_pushFRA U sz (Q : unit -> state -> Prop) T s :
  Inv s -> 0 < sz <= FRALimit -> sz <= wsize \/ sz mod wsize = 0 -> width sz < 2 ^ 32 -> room (width sz) s ->
  (forall s', result_pushed sz s s' -> FRA_def s' = FRA_def s -> Q tt s') -> wp U (pushFRA sz) Q T s.
Proof.
  intros Hs Hsz Hal Hlt Hroom HQ. pose proof (width_aligned sz Hal) as Hwa.
  assert (Hw : 0 < width sz /\ sz <= width sz) by (unfold width; lia).
  pose proof (inv_SP s Hs). pose proof (inv_LB s Hs).
  unfold pushFRA. replace (sz =? 0) with false by lia. change (Z.max sz wsize) with (width sz).
  apply wp_bind, wp_st_inc; [done|lia|done|done|]. set (s0 := grow (SP s - width sz) s).
  assert (Hi0 : Inv s0) by (apply Inv_grow_room; [done|lia|done|done]).
  assert (Er : rest s0 = rest s) by (unfold s0, grow, extend; by destruct (_ <? SL s)).
  assert (Ef : FRA s0 = FRA s) by apply (f_equal FRA Er).
  destruct (pushFRA_loop_run (Z.to_nat sz) 0 s0) as (b & h & E & Hok & Hm); [done|lia|lia|cbn; lia|].
  unfold wp. rewrite E. apply HQ; [|apply (f_equal FRA_def Er)].
  constructor.
  - done.
  - rewrite <- Ef. unfold stk. cbn [SP bytes stack set_stack]. apply ldn_ext. intros i Hi. rewrite Hm.
    by replace ((0 <=? i) && (i <? 0 + Z.of_nat (Z.to_nat sz))) with true by lia.
  - change (rest s0 = rest (set_FRA_def (FRA_def s0) s)). rewrite Er.
    replace (FRA_def s0) with (FRA_def s) by (symmetry; apply (f_equal FRA_def Er)). by destruct s.
  - intros a Ha. cbn [bytes stack set_stack]. specialize (Hm (a - SP s0)). cbv beta in Hm.
    replace (SP s0 + (a - SP s0)) with a in Hm by lia. rewrite Hm. unfold s0. rewrite bytes_grow.
    cbn [SP grow set_SP]. replace (_ && _) with false by lia. done.
  - inv_set.
Qed.

(** The result size that LFR is given. *)
Definition result_size (sz : Z) : Prop :=
  0 < sz <= FRALimit /\ (sz <= wsize \/ sz mod wsize = 0) /\ width sz < 2 ^ 32.

(** LFR pushes the function result that is in the Function Return Area: the
    value on top of the stack is the one stored there, nothing else changes but the
    area, which becomes undefined, and the warnings (fra.c, lfr of do_proc.c). *)
Theorem function_result sz s :
  Inv s -> result_size sz -> room (width sz) s ->
  exists s', lfr sz s = Ret tt s' /\ result_pushed sz s s' /\ FRA_def s' = UNDEFINED.
Proof.
  intros Hs (Hsz & Hal & Hlt) Hroom.
  assert (H : wp False (lfr sz) (fun _ s' => result_pushed sz s s' /\ FRA_def s' = UNDEFINED) (fun _ _ => False) s).
  { unfold lfr. replace (FRALimit <? sz) with false by lia. cbn [when]. unfold skip. wregs.
    apply wp_bind, wp_when_warning; [done|]. intros w1. wregs.
    apply wp_bind, wp_when_warning; [by destruct (_ <? _)|]. intros w2.
    apply wp_bind. eapply (wp_pushFRA _ sz); [by do 2 apply Inv_set_warn|done|done|done|done|].
    intros s' [] _. apply wp_modify. split; [|done]. constructor; try assumption; [|inv_set].
    change (set_FRA_def UNDEFINED (rest s') = set_FRA_def UNDEFINED (rest s)).
    rewrite rp_rest0. reflexivity. }
  destruct (wp_ret_inv _ _ _ H) as ([] & s' & E & H'). by exists s'.
Qed.
End Results.

(** ** RET *)
Section Ret.
Context {cfg : Config} {ok : ConfigOk}.

Definition ret_ready (sz : Z) (s : state) : state := set_FRASize sz (set_FRA_def DEFINED s).

Lemma can_return_taken r k sz s s1 :
  can_return r k s -> result_on_stack sz s -> result_taken sz (ret_ready sz s) s1 -> can_return r k s1.
Proof.
  intros [Hi Hroom Hrsb Hc Hce Hca HL Hf Hk Ht Hp] Hr H1.
  assert (Hi1 : Inv s1).
  { apply (Inv_result_taken sz (ret_ready sz s)); [|exact Hr|exact H1]. destruct Hr. unfold ret_ready. inv_set. }
  destruct H1 as (b & h & -> & _). destruct Hrsb. by constructor.
Qed.

Lemma wp_do_ret U r k sz (Q : unit -> state -> Prop) T s :
  can_return r k s -> r_code r = RSB_CAL -> result_on_stack sz s ->
  (forall s1 s', result_taken sz (ret_ready sz s) s1 -> returned r k s1 s' -> Q tt s') ->
  wp U (do_ret sz) Q T s.
Proof.
  intros Hcr Hcode Hr HQ. pose proof Hcr as [Hi _ _ _ _ _ _ _ _ _ _]. pose proof Hr as [Hsz _].
  unfold do_ret. replace (FRALimit <? sz) with false by lia. cbn [when]. unfold skip. wregs.
  assert (Hi0 : Inv (ret_ready sz s)) by (unfold ret_ready; inv_set).
  apply wp_bind. apply wp_popFRA; [exact Hi0|exact Hr|]. intros s1 H1.
  apply wp_bind. eapply (wp_poprsb _ _ r k); [exact (can_return_taken r k sz s s1 Hcr Hr H1)|by rewrite Hcode|].
  intros s' H'. rewrite Hcode. cbn. apply wp_ret. by eapply HQ.
Qed.

(** RET from a frame that can be left stores the function result and gives the
    caller its registers back: PI, PC, LB, AB, LIN and FIL are those of the Return
    Status Block, the frame is gone from the stack and from the list of actual
    bases, and the line number and file name are in the data space (do_proc.c,
    rsb.c, segment.c). *)
Theorem return_restores r k sz s :
  can_return r k s -> r_code r = RSB_CAL -> result_on_stack sz s ->
  exists s1 s', do_ret sz s = Ret tt s' /\ result_taken sz (ret_ready sz s) s1 /\ returned r k s1 s'.
Proof.
  intros Hcr Hc Hr.
  assert (H : wp False (do_ret sz) (fun _ s' => exists s1, result_taken sz (ret_ready sz s) s1 /\ returned r k s1 s')
    (fun _ _ => False) s) by (eapply wp_do_ret; eauto).
  destruct (wp_ret_inv _ _ _ H) as ([] & s' & E & s1 & H1 & H2). by exists s1, s'.
Qed.

(** ** The round trip *)

(** [s] is in a procedure called from another, whose frame is the last one. *)
Record calling (s : state) : Prop := mkCalling {
  cl_room : lin_fil_room s;
  cl_code : exists pr, 0 <= PI s /\ proctab !! Z.to_nat (PI s) = Some pr /\ PC s < DB /\ pr_ep pr <= PC s < pr_ff pr;
  cl_frame : LB s + wsize <= ML + 1 /\ Z.land (stks s (LB s) wsize) RSBMASK = RSBCODE;
  cl_top : LB s + rsbsize <= mget (AB_list s) (curr_frame s)
}.
(** A body that leaves the frame alone: it is on the stack still, and so is the
    result [v] of [sz] bytes on top. *)
Record body_done (sz v : Z) (s s' : state) : Prop := mkBodyDone {
  bd_inv : Inv s';
  bd_room : lin_fil_room s';
  bd_PI : PI s' = PI s;
  bd_LB : LB s' = LB s;
  bd_above : forall a, LB s <= a -> mget (bytes (stack s')) a = mget (bytes (stack s)) a;
  bd_frames : curr_frame s' = curr_frame s /\ frame_limit s <= frame_limit s' /\
    forall i, i <= curr_frame s -> mget (AB_list s') i = mget (AB_list s) i;
  bd_result : result_on_stack sz s' /\ stk s' (SP s') sz = v
}.
(** The caller goes on after the call, with the result in the Function Return Area. *)
Record resumed (sz v : Z) (s s' : state) : Prop := mkResumed {
  rs_regs : PI s' = PI s /\ PC s' = PC s /\ LB s' = LB s /\ SP s' = SP s /\ AB s' = LB s +p rsbsize;
  rs_lines : LIN s' = LIN s /\ FIL s' = FIL s;
  rs_above : forall a, SP s <= a -> mget (bytes (stack s')) a = mget (bytes (stack s)) a;
  rs_frames : curr_frame s' = curr_frame s /\ frame_limit s <= frame_limit s' /\
    forall i, i <= curr_frame s -> mget (AB_list s') i = mget (AB_list s) i;
  rs_result : FRASize s' = sz /\ FRA_def s' = DEFINED /\ ldn (bytes (FRA s')) 0 (Z.to_nat sz) = v;
  rs_inv : Inv s'
}.

Lemma rsb_at_above r lb s s' :
  (forall a, lb <= a -> mget (bytes (stack s')) a = mget (bytes (stack s)) a) -> rsb_at r lb s -> rsb_at r lb s'.
Proof.
  intros H []. pose proof rsb_layout.
  assert (E : forall f n, 0 <= f -> stk s' (lb + f) n = stk s (lb + f) n).
  { intros f n Hf. apply stk_above. intros a Ha. apply H. lia. }
  constructor; unfold stks in *; rewrite E by lia; assumption.
Qed.

(** The frame of the callee can be left. *)
Lemma can_return_body pi pr sz v s s1 s2 :
  Inv s -> calling s -> proc_ok pi pr -> can_save RSB_CAL s -> frames_ok s ->
  entered pi pr RSB_CAL s s1 -> body_done sz v s1 s2 -> can_return (saved RSB_CAL s) (curr_frame s) s2.
Proof.
  intros Hs [Hroom Hcode [Hlb Hframe] Htop] Hpr [_ Hok] [Hfr _] He [Hi2 Hroom2 Hpi Hlb2 Habove (Hcf & Hfl & Hab) _].
  pose proof (inv_SP s Hs). pose proof rsbsize_range.
  destruct He as [E1 E2 E3 E4 E5 Hrsb Hb _ (Hfr1 & Ecf & Eab & Hlim) _ _ Hi1].
  assert (Hb2 : forall a, SP s <= a -> mget (bytes (stack s2)) a = mget (bytes (stack s)) a).
  { intros a Ha. rewrite Habove by lia. by apply Hb. }
  constructor; cbn [saved r_code r_PI r_PC r_LB]; try done.
  - rewrite Hlb2. by apply (rsb_at_above _ _ s1).
  - by right; left.
  - exists pr. rewrite Hpi, E1. by destruct Hpr as (? & ? & _).
  - rewrite Hlb2, E3. split_and!; [lia|done|apply Hs].
  - unfold stks. rewrite (stk_above s s2) by (intros; apply Hb2; lia). exact Hframe.
  - destruct Hfr1. lia.
  - rewrite Hab by lia. rewrite Eab, mget_insert_ne by lia. done.
  - intros i Hi. assert (i = curr_frame s + 1) as -> by lia.
    rewrite Hab by lia. rewrite Eab, mget_insert_eq. lia.
Qed.

(** C4: a call, a body that leaves the frame alone and a return are a round trip:
    the caller's registers, its stack, its line number and file name and its list
    of actual bases are as before, and the value on top of the callee's stack is
    the function result. *)
Theorem call_return_roundtrip pi pr sz v (body : M unit) s :
  Inv s -> calling s -> frames_ok s -> proc_ok pi pr -> can_save RSB_CAL s ->
  has_room (SP s - rsbsize - pr_nloc pr) s = true ->
  (forall s1, entered pi pr RSB_CAL s s1 -> wp False body (fun _ => body_done sz v s1) (fun _ _ => False) s1) ->
  exists s', (call pi RSB_CAL ;; body ;; do_ret sz) s = Ret tt s' /\ resumed sz v s s'.
Proof.
  intros Hs Hcl Hf Hp Hc Hr Hbody. pose proof Hc as [_ Hok].
  assert (H : wp False (call pi RSB_CAL ;; body ;; do_ret sz) (fun _ => resumed sz v s) (fun _ _ => False) s).
  { apply wp_bind. eapply wp_called; [done|done|exact Hp|done|done|]. intros s1 He.
    apply wp_bind. eapply wp_call; [by apply Hbody|done|]. cbv beta; intros _ s2 Hb.
    pose proof (can_return_body _ _ _ _ _ _ _ Hs Hcl Hp Hc Hf He Hb) as Hcr.
    destruct Hb as [_ _ _ Hlb2 Habove (Hcf & Hfl & Hab) [Hres Hv]].
    eapply (wp_do_ret _ (saved RSB_CAL s) (curr_frame s)); [done|done|done|].
    intros s3 s' (b & h & -> & Hbo & Hbv) [R1 R2 R3 R4 R5 R6 R7 R8 (R9 & R10 & R11) _ _ _ (R12 & R13 & R14) R15].
    destruct He as [E1 E2 E3 E4 E5 Hrsb Hby _ (Hfr1 & Ecf & Eab & Hlim) _ _ Hi1].
    pose proof (inv_SP s Hs) as Hsp. pose proof rsbsize_range. cbn in R1, R2, R3, R4, R6, R7.
    constructor; try done.
    - rewrite R1, R2, R3, R4, R5. cbn [LB set_SP set_FRA ret_ready set_FRASize set_FRA_def].
      split_and!; try done; [lia|]. pose proof (inv_LB s Hs). pose proof ML_range.
      rewrite padd_small; lia.
    - intros a Ha. rewrite R8. cbn. rewrite Habove by lia. by apply Hby.
    - rewrite R9, R10, R11. cbn. split_and!; [done|lia|].
      intros i Hi. rewrite Hab by lia. by rewrite Eab, mget_insert_ne by lia.
    - rewrite R12, R13, R14. cbn. split_and!; [done|done|]. by rewrite Hbv. }
  destruct (wp_ret_inv _ _ _ H) as ([] & s' & E & H'). by exists s'.
Qed.
End Ret.
