(* ===== verification/Load.v ===== *)
(** * The "LOAD" and "STORE" group instructions ([do_load.c], [do_store.c]) *)
From Stdlib Require Import ZArith Lia Bool.
From stdpp Require Import base gmap list.
From S2P Require Import Prelude Machine Warn Mem Wp Data Stack StackSpec Text Frame Instr.

Section Load.
Context {cfg : Config}.

(** The macros [in_stack], [pushw_m] and [popw_m] evaluate their argument several
    times; this matters when the argument is itself a load with warnings. *)
Definition in_stack_e (e : M Z) : M bool :=
  p ← e; sp ← gets SP;
  if sp <=? p then p ← e; ret (p <=? ML) else ret false.
Definition pushw_m_e (e : M Z) : M unit :=
  b ← in_stack_e e; if b : bool then p ← e; pushw_st p else p ← e; pushw_dt p.
Definition popw_m_e (e : M Z) : M unit :=
  b ← in_stack_e e; if b : bool then p ← e; popw_st p else p ← e; popw_dt p.

(** LOC c: Load constant (i.e. push one word onto the stack) *)
Definition DoLOC (l : Z) : M unit := spoilFRA ;; l ← arg_c l; wpush l.

(** LDC d: Load double constant ( push two words ) *)
Definition DoLDC (l : Z) : M unit := spoilFRA ;; l ← arg_d l; npush l dwsize.

(** LOL l: Load word at l-th local (l<0) or parameter (l>=0) *)
Definition DoLOL (l : Z) : M unit :=
  spoilFRA ;; l ← arg_l l; a ← gets (loc_addr l); pushw_st a.

(** LOE g: Load external word g *)
Definition DoLOE (arg : Z) : M unit :=
  let p := u64 arg in spoilFRA ;; p ← arg_g p; pushw_m p.

(** LIL l: Load word pointed to by l-th local or parameter *)
Definition DoLIL (l : Z) : M unit :=
  spoilFRA ;; l ← arg_l l; pushw_m_e (a ← gets (loc_addr l); st_lddp a).

(** LOF f: Load offsetted (top of stack + f yield address) *)
Definition DoLOF (l : Z) : M unit :=
  p ← dppop; spoilFRA ;; l ← arg_f l; pushw_m (p +p l).

(** LAL l: Load address of local or parameter *)
Definition DoLAL (l : Z) : M unit :=
  spoilFRA ;; l ← arg_l l; a ← gets (loc_addr l); dppush a.

(** LAE g: Load address of external *)
Definition DoLAE (arg : Z) : M unit :=
  let p := u64 arg in spoilFRA ;; p ← arg_lae p; dppush p.

(** LB [n] static levels back. *)
Fixpoint lexback_loop (n : nat) (lb : Z) : M Z :=
  match n with
  | O => ret lb
  | S n' => lb ← st_lddp (lb +p rsbsize); lexback_loop n' lb
  end.
Definition lexback_LB (n : Z) : M Z := lb ← gets LB; lexback_loop (Z.to_nat n) lb.

(** LXL n: Load lexical (address of LB n static levels back) *)
Definition DoLXL (arg : Z) : M unit :=
  let l := u64 arg in spoilFRA ;; l ← arg_n l; p ← lexback_LB l; dppush p.

(** LXA n: Load lexical (address of AB n static levels back) *)
Definition DoLXA (arg : Z) : M unit :=
  let l := u64 arg in spoilFRA ;; l ← arg_n l; p ← lexback_LB l; dppush (p +p rsbsize).

(** LOI o: Load indirect o bytes (address is popped from the stack) *)
Definition DoLOI (l : Z) : M unit := p ← dppop; spoilFRA ;; l ← arg_o l; push_m p l.

(** LOS w: Load indirect, w-byte integer on top of stack gives object size *)
Definition DoLOS (l : Z) : M unit :=
  spoilFRA ;; l ← arg_wi l; l ← upop l; p ← dppop; l ← arg_o l; push_m p l.

(** LDL l: Load double local or parameter (two consecutive words are stacked) *)
Definition DoLDL (l : Z) : M unit :=
  spoilFRA ;; l ← arg_l l; a ← gets (loc_addr l); push_st a dwsize.

(** LDE g: Load double external (two consecutive externals are stacked) *)
Definition DoLDE (arg : Z) : M unit :=
  let p := u64 arg in spoilFRA ;; p ← arg_g p; push_m p dwsize.

(** LDF f: Load double offsetted (top of stack + f yield address) *)
Definition DoLDF (l : Z) : M unit :=
  p ← dppop; spoilFRA ;; l ← arg_f l; push_m (p +p l) dwsize.

(** LPI p: Load procedure identifier *)
Definition DoLPI (pi : Z) : M unit := spoilFRA ;; pi ← arg_p pi; npush pi psize.

(** STL l: Store local or parameter *)
Definition DoSTL (l : Z) : M unit :=
  spoilFRA ;; l ← arg_l l; a ← gets (loc_addr l); popw_st a.

(** STE g: Store external *)
Definition DoSTE (arg : Z) : M unit :=
  let p := u64 arg in spoilFRA ;; p ← arg_g p; popw_m p.

(** SIL l: Store into word pointed to by l-th local or parameter *)
Definition DoSIL (l : Z) : M unit :=
  spoilFRA ;; l ← arg_l l; popw_m_e (a ← gets (loc_addr l); st_lddp a).

(** STF f: Store offsetted *)
Definition DoSTF (l : Z) : M unit :=
  p ← dppop; spoilFRA ;; l ← arg_f l; popw_m (p +p l).

(** STI o: Store indirect o bytes (pop address, then data) *)
Definition DoSTI (l : Z) : M unit := p ← dppop; spoilFRA ;; l ← arg_o l; pop_m p l.

(** STS w: Store indirect, w-byte integer on top of stack gives object size *)
Definition DoSTS (l : Z) : M unit :=
  spoilFRA ;; l ← arg_wi l; l ← upop l; p ← dppop; l ← arg_o l; pop_m p l.

(** SDL l: Store double local or parameter *)
Definition DoSDL (l : Z) : M unit :=
  spoilFRA ;; l ← arg_l l; a ← gets (loc_addr l); pop_st a dwsize.

(** SDE g: Store double external *)
Definition DoSDE (arg : Z) : M unit :=
  let p := u64 arg in spoilFRA ;; p ← arg_g p; pop_m p dwsize.

(** SDF f: Store double offsetted *)
Definition DoSDF (l : Z) : M unit :=
  p ← dppop; spoilFRA ;; l ← arg_f l; pop_m (p +p l) dwsize.

End Load.

(** ** Invariant *)
#[export] Hint Unfold DoLOC DoLDC DoLOL DoLOE DoLIL DoLOF DoLAL DoLAE DoLXL DoLXA DoLOI DoLOS
  DoLDL DoLDE DoLDF DoLPI DoSTL DoSTE DoSIL DoSTF DoSTI DoSTS DoSDL DoSDE DoSDF : instr.

Section Keeps.
Context {cfg : Config} {ok : ConfigOk}.

Lemma keeps_in_stack_e e : keeps e any -> keeps (in_stack_e e) any.
Proof. intros. unfold in_stack_e. keeps_tac. Qed.
#[local] Hint Resolve keeps_in_stack_e : keeps.
Lemma keeps_pushw_m_e e : keeps e any -> keeps (pushw_m_e e) any.
Proof. intros. unfold pushw_m_e. keeps_tac. Qed.
Lemma keeps_popw_m_e e : keeps e any -> keeps (popw_m_e e) any.
Proof. intros. unfold popw_m_e. keeps_tac. Qed.
Lemma keeps_loc_ptr l : keeps (a ← gets (loc_addr l); st_lddp a) any.
Proof. keeps_tac. Qed.
Lemma keeps_lexback_loop n : forall lb, keeps (lexback_loop n lb) any.
Proof. induction n as [|n IH]; intros; cbn [lexback_loop]; keeps_tac. Qed.
#[local] Hint Resolve keeps_lexback_loop : keeps.
Lemma keeps_lexback_LB n : keeps (lexback_LB n) any.
Proof. unfold lexback_LB. keeps_tac. Qed.
End Keeps.
#[export] Hint Resolve keeps_pushw_m_e keeps_popw_m_e keeps_loc_ptr keeps_lexback_LB : keeps.
