(* ===== verification/Arith.v ===== *)
(** * Integer and unsigned arithmetic, increment and decrement
    ([do_intar.c], [do_unsar.c], [do_incdec.c]) *)
From Stdlib Require Import ZArith Lia Bool.
From stdpp Require Import base gmap list.
From S2P Require Import Prelude Machine Warn Mem Wp Data Stack StackSpec Text Frame Instr.

Section Arith.
Context {cfg : Config}.

(** [must_test && !(IgnMask&BIT(tr))]. *)
Definition tested (tr : Z) (s : state) : bool :=
  must_test && (Z.land (IgnMask s) (BIT tr) =? 0).
(** [IgnMask&BIT(tr)]. *)
Definition ignored (tr : Z) (s : state) : bool := negb (Z.land (IgnMask s) (BIT tr) =? 0).

Definition i_maxs (n : Z) : Z := if n =? 2 then I_MAXS2 else I_MAXS4.
Definition i_mins (n : Z) : Z := if n =? 2 then I_MINS2 else I_MINS4.

(** ** [do_intar.c] *)

Definition adi (w1 w2 nbytes : Z) : M Z :=
  t ← gets (tested EIOVFL);
  when t
    (if (0 <? w1) && (0 <? w2)
     then when (i_maxs nbytes - w1 <? w2) (trap EIOVFL)
     else if (w1 <? 0) && (w2 <? 0)
     then when (w2 <? i_mins nbytes - w1) (trap EIOVFL)
     else skip) ;;
  ret (w1 + w2).

Definition sbi (w1 w2 nbytes : Z) : M Z :=
  t ← gets (tested EIOVFL);
  when t
    (if (w2 <? 0) && (0 <? w1)
     then when (i_maxs nbytes + w2 <? w1) (trap EIOVFL)
     else if (0 <? w2) && (w1 <? 0)
     then when (w1 <? i_mins nbytes + w2) (trap EIOVFL)
     else skip) ;;
  ret (w1 - w2).

Definition labs (w : Z) : Z := if w <? 0 then - w else w.

Definition mli (w1 w2 nbytes : Z) : M Z :=
  if (w1 =? 0) || (w2 =? 0) then ret 0
  else
    t ← gets (tested EIOVFL);
    when t
      (if ((0 <? w1) && (0 <? w2)) || ((w2 <? 0) && (w1 <? 0))
       then when ((w1 =? i_mins nbytes) || (w2 =? i_mins nbytes)
                  || (Z.quot (i_maxs nbytes) (labs w1) <? labs w2)) (trap EIOVFL)
       else if 0 <? w1
       then when (w2 <? Z.quot (i_mins nbytes) w1) (trap EIOVFL)
       else when (w1 <? Z.quot (i_mins nbytes) w2) (trap EIOVFL)) ;;
    ret (w1 * w2).

Definition dvi (w1 w2 nbytes : Z) : M Z :=
  if w2 =? 0 then
    i ← gets (ignored EIDIVZ); if i : bool then ret 0 else trap EIDIVZ
  else if (w1 =? i_mins nbytes) && (w2 =? -1) then
    t ← gets (tested EIOVFL); if t : bool then trap EIOVFL else ret (i_mins nbytes)
  else ret (Z.quot w1 w2).

Definition rmi (w1 w2 : Z) : M Z :=
  if w2 =? 0 then
    i ← gets (ignored EIDIVZ); if i : bool then ret 0 else trap EIDIVZ
  else ret (Z.rem w1 w2).

Definition ngi (w1 nbytes : Z) : M Z :=
  t ← gets (tested EIOVFL);
  when (t && (w1 =? i_mins nbytes)) (trap EIOVFL) ;;
  ret (- w1).

(** A shift by a negative distance or by 64 and more is undefined in C. *)
Definition host_shl (w1 w2 : Z) : M Z :=
  if (0 <=? w2) && (w2 <? 64) then ret (s64 (Z.shiftl w1 w2)) else undef.
Definition host_shr (w1 w2 : Z) : M Z :=
  if (0 <=? w2) && (w2 <? 64) then ret (Z.shiftr w1 w2) else undef.

(** The check of the shift distance shared by [sli] and [sri]. *)
Definition shift_distance (w2 nbytes : Z) : M Z :=
  w2 ← (if w2 <? 0 then warning WSHNEG ;; ret 0 else ret w2);
  if nbytes * 8 <=? w2 then warning WSHLARGE ;; ret (nbytes * 8 - 1) else ret w2.

Definition sli (w1 w2 nbytes : Z) : M Z :=
  w2 ← (if must_test then
          w2 ← shift_distance w2 nbytes;
          i ← gets (ignored EIOVFL);
          when (negb i)
            (when ((0 <=? w1) && (Z.shiftr (i_maxs nbytes) w2 <? w1)) (trap EIOVFL) ;;
             when ((w1 <? 0) && (w1 <? Z.shiftr (i_mins nbytes) w2)) (trap EIOVFL)) ;;
          ret w2
        else ret w2);
  host_shl w1 w2.

Definition sri (w1 w2 nbytes : Z) : M Z :=
  w2 ← (if must_test then shift_distance w2 nbytes else ret w2);
  host_shr w1 w2.

(** ADI w: Addition (and so on) *)
Definition DoADI (l : Z) : M unit :=
  l' ← arg_wi l; t ← spop l'; spoilFRA ;; s ← spop l; r ← adi s t l; npush r l.
Definition DoSBI (l : Z) : M unit :=
  l' ← arg_wi l; t ← spop l'; spoilFRA ;; s ← spop l; r ← sbi s t l; npush r l.
Definition DoMLI (l : Z) : M unit :=
  l' ← arg_wi l; t ← spop l'; spoilFRA ;; s ← spop l; r ← mli s t l; npush r l.
Definition DoDVI (l : Z) : M unit :=
  l' ← arg_wi l; t ← spop l'; spoilFRA ;; s ← spop l; r ← dvi s t l; npush r l.
Definition DoRMI (l : Z) : M unit :=
  l' ← arg_wi l; t ← spop l'; spoilFRA ;; s ← spop l; r ← rmi s t; npush r l.
Definition DoNGI (l : Z) : M unit :=
  spoilFRA ;; l ← arg_wi l; s ← spop l; r ← ngi s l; npush r l.
Definition DoSLI (l : Z) : M unit :=
  t ← swpop; spoilFRA ;; l ← arg_wi l; s ← spop l; r ← sli s t l; npush r l.
Definition DoSRI (l : Z) : M unit :=
  t ← swpop; spoilFRA ;; l ← arg_wi l; s ← spop l; r ← sri s t l; npush r l.

(** ** [do_unsar.c]: [unsigned long] arithmetic *)
Definition adu (w1 w2 : Z) : Z := u64 (w1 + w2).
Definition sbu (w1 w2 : Z) : Z := u64 (w1 - w2).
Definition mlu (w1 w2 : Z) : Z := u64 (w1 * w2).
Definition dvu (w1 w2 : Z) : M Z :=
  if w2 =? 0 then
    i ← gets (ignored EIDIVZ); if i : bool then ret 0 else trap EIDIVZ
  else ret (w1 / w2).
Definition rmu (w1 w2 : Z) : M Z :=
  if w2 =? 0 then
    i ← gets (ignored EIDIVZ); if i : bool then ret 0 else trap EIDIVZ
  else ret (w1 mod w2).
Definition ushift_distance (w2 nbytes : Z) : M Z :=
  if must_test && (nbytes * 8 <=? w2) then warning WSHLARGE ;; ret (nbytes * 8 - 1)
  else ret w2.
Definition slu (w1 w2 nbytes : Z) : M Z :=
  w2 ← ushift_distance w2 nbytes;
  if (0 <=? w2) && (w2 <? 64) then ret (u64 (Z.shiftl w1 w2)) else undef.
Definition sru (w1 w2 nbytes : Z) : M Z :=
  w2 ← ushift_distance w2 nbytes; host_shr w1 w2.

Definition DoADU (l : Z) : M unit :=
  l' ← arg_wi l; t ← upop l'; spoilFRA ;; s ← upop l; npush (s64 (adu s t)) l.
Definition DoSBU (l : Z) : M unit :=
  l' ← arg_wi l; t ← upop l'; spoilFRA ;; s ← upop l; npush (s64 (sbu s t)) l.
Definition DoMLU (l : Z) : M unit :=
  l' ← arg_wi l; t ← upop l'; spoilFRA ;; s ← upop l; npush (s64 (mlu s t)) l.
Definition DoDVU (l : Z) : M unit :=
  l' ← arg_wi l; t ← upop l'; spoilFRA ;; s ← upop l; r ← dvu s t; npush (s64 r) l.
Definition DoRMU (l : Z) : M unit :=
  l' ← arg_wi l; t ← upop l'; spoilFRA ;; s ← upop l; r ← rmu s t; npush (s64 r) l.
Definition DoSLU (l : Z) : M unit :=
  t ← uwpop; spoilFRA ;; l ← arg_wi l; s ← upop l; r ← slu s t l; npush (s64 r) l.
Definition DoSRU (l : Z) : M unit :=
  t ← uwpop; spoilFRA ;; l ← arg_wi l; s ← upop l; r ← sru s t l; npush (s64 r) l.

(** ** [do_incdec.c] *)
Definition inc (l : Z) : M Z :=
  t ← gets (tested EIOVFL); when (t && (l =? i_maxsw)) (trap EIOVFL) ;; ret (l + 1).
Definition dec (l : Z) : M Z :=
  t ← gets (tested EIOVFL); when (t && (l =? i_minsw)) (trap EIOVFL) ;; ret (l - 1).

(** INC -: Increment word on top of stack by 1 *)
Definition DoINC : M unit := spoilFRA ;; l ← swpop; r ← inc l; wpush r.
(** INL l: Increment local or parameter *)
Definition DoINL (l : Z) : M unit :=
  spoilFRA ;; l ← arg_l l; p ← gets (loc_addr l);
  v ← st_ldsw p; r ← inc v; st_stw p r.
(** INE g: Increment external *)
Definition DoINE (arg : Z) : M unit :=
  let p := u64 arg in
  spoilFRA ;; p ← arg_g p; v ← dt_ldsw p; r ← inc v; dt_stw p r.
(** DEC, DEL, DEE: Decrement *)
Definition DoDEC : M unit := spoilFRA ;; l ← swpop; r ← dec l; wpush r.
Definition DoDEL (l : Z) : M unit :=
  spoilFRA ;; l ← arg_l l; p ← gets (loc_addr l);
  v ← st_ldsw p; r ← dec v; st_stw p r.
Definition DoDEE (arg : Z) : M unit :=
  let p := u64 arg in
  spoilFRA ;; p ← arg_g p; v ← dt_ldsw p; r ← dec v; dt_stw p r.
(** ZRL l: Zero local or parameter *)
Definition DoZRL (l : Z) : M unit :=
  spoilFRA ;; l ← arg_l l; a ← gets (loc_addr l); st_stw a 0.
(** ZRE g: Zero external *)
Definition DoZRE (arg : Z) : M unit :=
  let p := u64 arg in spoilFRA ;; p ← arg_g p; dt_stw p 0.
(** ZER w: Load w zero bytes *)
Definition DoZER (l : Z) : M unit := spoilFRA ;; l ← arg_w l; npush 0 l.

End Arith.

#[export] Hint Unfold DoADI DoSBI DoMLI DoDVI DoRMI DoNGI DoSLI DoSRI DoADU DoSBU DoMLU DoDVU
  DoRMU DoSLU DoSRU DoINC DoINL DoINE DoDEC DoDEL DoDEE DoZRL DoZRE DoZER : instr.

(** ** The arithmetic routines preserve the invariant *)
Section Keeps.
Context {cfg : Config} {ok : ConfigOk}.

Lemma keeps_adi a b n : keeps (adi a b n) any.
Proof. unfold adi. keeps_tac. Qed.
Lemma keeps_sbi a b n : keeps (sbi a b n) any.
Proof. unfold sbi. keeps_tac. Qed.
Lemma keeps_mli a b n : keeps (mli a b n) any.
Proof. unfold mli. keeps_tac. Qed.
Lemma keeps_dvi a b n : keeps (dvi a b n) any.
Proof. unfold dvi. keeps_tac. Qed.
Lemma keeps_rmi a b : keeps (rmi a b) any.
Proof. unfold rmi. keeps_tac. Qed.
Lemma keeps_ngi a n : keeps (ngi a n) any.
Proof. unfold ngi. keeps_tac. Qed.
Lemma keeps_host_shl a b : keeps (host_shl a b) any.
Proof. unfold host_shl. keeps_tac. Qed.
Lemma keeps_host_shr a b : keeps (host_shr a b) any.
Proof. unfold host_shr. keeps_tac. Qed.
Lemma keeps_shift_distance a n : keeps (shift_distance a n) any.
Proof. unfold shift_distance. keeps_tac. Qed.
#[local] Hint Resolve keeps_host_shl keeps_host_shr keeps_shift_distance : keeps.
Lemma keeps_sli a b n : keeps (sli a b n) any.
Proof. unfold sli. keeps_tac. Qed.
Lemma keeps_sri a b n : keeps (sri a b n) any.
Proof. unfold sri. keeps_tac. Qed.
Lemma keeps_dvu a b : keeps (dvu a b) any.
Proof. unfold dvu. keeps_tac. Qed.
Lemma keeps_rmu a b : keeps (rmu a b) any.
Proof. unfold rmu. keeps_tac. Qed.
Lemma keeps_ushift_distance a n : keeps (ushift_distance a n) any.
Proof. unfold ushift_distance. keeps_tac. Qed.
#[local] Hint Resolve keeps_ushift_distance : keeps.
Lemma keeps_slu a b n : keeps (slu a b n) any.
Proof. unfold slu. keeps_tac. Qed.
Lemma keeps_sru a b n : keeps (sru a b n) any.
Proof. unfold sru. keeps_tac. Qed.
Lemma keeps_inc a : keeps (inc a) any.
Proof. unfold inc. keeps_tac. Qed.
Lemma keeps_dec a : keeps (dec a) any.
Proof. unfold dec. keeps_tac. Qed.
End Keeps.
#[export] Hint Resolve keeps_adi keeps_sbi keeps_mli keeps_dvi keeps_rmi keeps_ngi
  keeps_shift_distance keeps_sli keeps_sri keeps_dvu keeps_rmu keeps_slu keeps_sru keeps_inc
  keeps_dec : keeps.

(** ** Quotients *)
Lemma quot_ltb_pos m x y : 0 <= m -> 0 < x -> (Z.quot m x <? y) = (m <? x * y).
Proof.
  intros Hm Hx. rewrite Z.quot_div_nonneg by lia.
  pose proof (Z.div_mod m x ltac:(lia)). pose proof (Z.mod_pos_bound m x Hx).
  destruct (Z.ltb_spec (m / x) y), (Z.ltb_spec m (x * y)); try done; nia.
Qed.
Lemma quot_ltb_neg m x y : m <= 0 -> 0 < x -> (y <? Z.quot m x) = (x * y <? m).
Proof.
  intros Hm Hx. replace m with (- (- m)) by lia. rewrite Z.quot_opp_l by lia.
  pose proof (quot_ltb_pos (- m) x (- y) ltac:(lia) Hx) as H.
  destruct (Z.ltb_spec y (- Z.quot (- m) x)), (Z.ltb_spec (x * y) (- - m)); try done;
    destruct (Z.ltb_spec (Z.quot (- m) x) (- y)), (Z.ltb_spec (- m) (x * - y)); try done; lia.
Qed.

(** ** Reference semantics

    [inl nr] is a trap, [inr v] a result. *)
Section Reference.
Context {cfg : Config}.

(** The [n] byte signed integers. *)
Definition fits (n v : Z) : bool := (i_mins n <=? v) && (v <=? i_maxs n).

Inductive iop := Add | Sub | Mul | Div | Rem.

(** Overflow is detected only when tests are on and it is not ignored; the check
    of SBI misses the overflow of 0 minus the smallest integer. *)
Definition checked (s : state) (n v : Z) : Z + Z :=
  if tested EIOVFL s && negb (fits n v) then inl EIOVFL else inr v.
Definition by_zero (s : state) : Z + Z := if ignored EIDIVZ s then inr 0 else inl EIDIVZ.
Definition iop_ref (op : iop) (s : state) (n a b : Z) : Z + Z :=
  match op with
  | Add => checked s n (a + b)
  | Sub => if a =? 0 then inr (a - b) else checked s n (a - b)
  | Mul => checked s n (a * b)
  | Div => if b =? 0 then by_zero s
           else if tested EIOVFL s && negb (fits n (Z.quot a b)) then inl EIOVFL
           else inr (sext (8 * n) (Z.quot a b))
  | Rem => if b =? 0 then by_zero s else inr (Z.rem a b)
  end.
Definition iop_fun (op : iop) (n a b : Z) : M Z :=
  match op with
  | Add => adi a b n | Sub => sbi a b n | Mul => mli a b n | Div => dvi a b n | Rem => rmi a b
  end.
Definition iop_instr (op : iop) : Z -> M unit :=
  match op with Add => DoADI | Sub => DoSBI | Mul => DoMLI | Div => DoDVI | Rem => DoRMI end.

(** What a computation that leaves the state alone returns. *)
Definition outcome {A} (r : Z + A) (s : state) : result A :=
  match r with inl nr => Trap nr s | inr v => Ret v s end.

Lemma i_mins_maxs n : n = 2 \/ n = 4 -> i_mins n = - i_maxs n - 1 /\ 0 < i_maxs n.
Proof. by intros [-> | ->]. Qed.

Lemma adi_ref n a b s :
  n = 2 \/ n = 4 -> fits n a = true -> fits n b = true -> adi a b n s = outcome (checked s n (a + b)) s.
Proof.
  intros Hn Ha Hb. destruct (i_mins_maxs n Hn) as [Hm Hp]. unfold fits in *.
  unfold adi, checked, outcome. run. destruct (tested EIOVFL s); run; [|done].
  unfold fits. destruct ((0 <? a) && (0 <? b)) eqn:E1; [|destruct ((a <? 0) && (b <? 0)) eqn:E2].
  - destruct (Z.ltb_spec (i_maxs n - a) b); run;
      [replace (_ && _) with false by lia | replace (_ && _) with true by lia]; done.
  - destruct (Z.ltb_spec b (i_mins n - a)); run;
      [replace (_ && _) with false by lia | replace (_ && _) with true by lia]; done.
  - run. replace (_ && _) with true by lia. done.
Qed.
Lemma sbi_ref n a b s :
  n = 2 \/ n = 4 -> fits n a = true -> fits n b = true ->
  sbi a b n s = outcome (iop_ref Sub s n a b) s.
Proof.
  intros Hn Ha Hb. destruct (i_mins_maxs n Hn) as [Hm Hp]. unfold fits in *.
  unfold sbi, iop_ref, checked, outcome. run. destruct (tested EIOVFL s); run; [|by destruct (_ =? _)].
  unfold fits. destruct ((b <? 0) && (0 <? a)) eqn:E1; [|destruct ((0 <? b) && (a <? 0)) eqn:E2].
  - replace (a =? 0) with false by lia. destruct (Z.ltb_spec (i_maxs n + b) a); run;
      [replace (_ && _) with false by lia | replace (_ && _) with true by lia]; done.
  - replace (a =? 0) with false by lia. destruct (Z.ltb_spec a (i_mins n + b)); run;
      [replace (_ && _) with false by lia | replace (_ && _) with true by lia]; done.
  - run. destruct (Z.eqb_spec a 0); [done|]. replace (_ && _) with true by lia. done.
Qed.
Lemma mli_ref n a b s :
  n = 2 \/ n = 4 -> fits n a = true -> fits n b = true -> mli a b n s = outcome (checked s n (a * b)) s.
Proof.
  intros Hn Ha Hb. destruct (i_mins_maxs n Hn) as [Hm Hp]. unfold fits in *.
  unfold mli, checked, outcome, labs. 
  destruct ((a =? 0) || (b =? 0)) eqn:E0.
  { assert (a * b = 0) as -> by (destruct (Z.eqb_spec a 0); [subst; lia|]; assert (b = 0) by lia; subst; lia).
    replace (fits n 0) with true by (unfold fits; lia).
    by rewrite andb_false_r. }
  run. destruct (tested EIOVFL s); run; [|done]. unfold fits.
  destruct (((0 <? a) && (0 <? b)) || ((b <? 0) && (a <? 0))) eqn:E1; [|destruct (Z.ltb_spec 0 a)].
  - destruct (Z.ltb_spec a 0), (Z.ltb_spec b 0); try lia; rewrite quot_ltb_pos by lia.
    + destruct ((a =? i_mins n) || (b =? i_mins n) || (i_maxs n <? - a * - b)) eqn:Ec; run.
      * assert (i_maxs n < a * b).
        { apply orb_true_iff in Ec as [[Ec|Ec]%orb_true_iff|Ec]; [assert (a = i_mins n) by lia
            | assert (b = i_mins n) by lia | replace (a * b) with (- a * - b) by lia; lia]; nia. }
        replace (_ && _) with false by lia. done.
      * replace (- a * - b) with (a * b) in Ec by lia. assert (0 < a * b) by nia.
        replace (_ && _) with true by lia. done.
    + replace ((a =? i_mins n) || (b =? i_mins n)) with false by lia. run.
      destruct (Z.ltb_spec (i_maxs n) (a * b)); run.
      * replace (_ && _) with false by lia. done.
      * assert (0 < a * b) by nia. replace (_ && _) with true by lia. done.
  - rewrite quot_ltb_neg by lia. destruct (Z.ltb_spec (a * b) (i_mins n)); run.
    + replace (_ && _) with false by lia. done.
    + assert (a * b < 0) by nia. replace (_ && _) with true by lia. done.
  - rewrite quot_ltb_neg by lia. rewrite (Z.mul_comm b a). destruct (Z.ltb_spec (a * b) (i_mins n)); run.
    + replace (_ && _) with false by lia. done.
    + assert (a * b < 0) by nia. replace (_ && _) with true by lia. done.
Qed.

Lemma quot_fits n a b :
  n = 2 \/ n = 4 -> fits n a = true -> b <> 0 ->
  fits n (Z.quot a b) = negb ((a =? i_mins n) && (b =? -1)).
Proof.
  intros Hn Ha Hb. destruct (i_mins_maxs n Hn) as [Hm Hp]. unfold fits in *.
  destruct (Z.eqb_spec a (i_mins n)) as [->|]; [destruct (Z.eqb_spec b (-1)) as [->|]|]; cbn [negb andb].
  - change (-1) with (- (1)). rewrite Z.quot_opp_r, Z.quot_1_r by lia. lia.
  - assert (b = 1 \/ 2 <= Z.abs b) as [->|Hb2] by lia; [rewrite Z.quot_1_r; lia|].
    assert (2 * Z.abs (Z.quot (i_mins n) b) <= Z.abs (i_mins n)).
    { rewrite <- Z.quot_abs by lia. pose proof (Z.mul_quot_le (Z.abs (i_mins n)) (Z.abs b)).
      pose proof (Z.quot_pos (Z.abs (i_mins n)) (Z.abs b)). nia. }
    lia.
  - assert (Z.abs (Z.quot a b) <= Z.abs a).
    { rewrite <- Z.quot_abs by lia. pose proof (Z.mul_quot_le (Z.abs a) (Z.abs b)).
      pose proof (Z.quot_pos (Z.abs a) (Z.abs b)). nia. }
    lia.
Qed.
Lemma dvi_ref n a b s :
  n = 2 \/ n = 4 -> fits n a = true -> dvi a b n s = outcome (iop_ref Div s n a b) s.
Proof.
  intros Hn Ha. unfold dvi, iop_ref, by_zero, checked.
  destruct (Z.eqb_spec b 0) as [->|Hb]; run; [by destruct (ignored EIDIVZ s)|].
  pose proof (quot_fits n a b Hn Ha Hb) as Hf. rewrite Hf.
  destruct ((a =? i_mins n) && (b =? -1)) eqn:E; run.
  - apply andb_true_iff in E as [->%Z.eqb_eq ->%Z.eqb_eq].
    destruct (tested EIOVFL s); run; [done|].
    destruct Hn as [-> | ->]; reflexivity.
  - rewrite andb_false_r. cbn [outcome]. rewrite sext_small; [done|lia|].
    unfold fits in Hf. destruct Hn as [-> | ->]; unfold i_mins, i_maxs, I_MINS2, I_MAXS2, I_MINS4, I_MAXS4 in Hf; cbn in Hf |- *; lia.
Qed.
Lemma rmi_ref n a b s : rmi a b s = outcome (iop_ref Rem s n a b) s.
Proof.
  unfold rmi, iop_ref, by_zero. destruct (b =? 0); run; [by destruct (ignored EIDIVZ s) | done].
Qed.
Lemma iop_fun_ref op n a b s :
  n = 2 \/ n = 4 -> fits n a = true -> fits n b = true ->
  iop_fun op n a b s = outcome (iop_ref op s n a b) s.
Proof.
  intros. destruct op; [by apply adi_ref | by apply sbi_ref | by apply mli_ref
    | by apply dvi_ref | by apply rmi_ref].
Qed.
End Reference.

(** ** The instructions implement the reference *)
Section Refinement.
Context {cfg : Config} {ok : ConfigOk}.

(** An instruction that replaces [k] bytes of the stack by an integer of [n]
    bytes, or traps after it has popped them. *)
Definition implements (m : M unit) (s : state) (k n : Z) (r : Z + Z) : Prop :=
  match r with
  | inl nr => exists s', m s = Trap nr s' /\ after (spoiled s) k s'
  | inr v => exists s', m s = Ret tt s' /\ replaces (spoiled s) k n v s'
  end.

(** Operands of [k] bytes on the stack, and room for a result of [n] bytes. *)
Definition operands (k n : Z) (s : state) : Prop :=
  Inv s /\ SP s + k <= LB s /\ has_room (SP s + k - n) s = true.

Lemma wp_implements m s k n r :
  wp False m (fun _ s' => exists v, r = inr v /\ replaces (spoiled s) k n v s')
    (fun nr s' => r = inl nr /\ after (spoiled s) k s') s ->
  implements m s k n r.
Proof.
  intros [([] & s' & E & v & -> & H)|(nr & s' & E & -> & H)]%wp_result; by exists s'.
Qed.

Lemma wp_eq {A} U (m m' : M A) (Q : A -> state -> Prop) T s :
  m s = m' s -> wp U m' Q T s -> wp U m Q T s.
Proof. unfold wp. by intros ->. Qed.
Lemma wp_outcome {A} (m : M A) (r : Z + A) Q (T : Z -> state -> Prop) s :
  m s = outcome r s -> (forall v, r = inr v -> Q v s) -> (forall nr, r = inl nr -> T nr s) ->
  wp False m Q T s.
Proof. intros E HQ HT. unfold wp. rewrite E. destruct r; cbn [outcome]; auto. Qed.

(** Signed operands are in range. *)
Lemma stks_fits s a n : n = 2 \/ n = 4 -> fits n (stks s a n) = true.
Proof.
  intros Hn. pose proof (sext_range (8 * n) (stk s a n) ltac:(lia)) as H.
  unfold fits, stks. destruct Hn as [-> | ->];
    unfold i_mins, i_maxs, I_MINS2, I_MAXS2, I_MINS4, I_MAXS4; cbn in H |- *; lia.
Qed.

(** The shape of the binary instructions of [do_intar.c] and [do_unsar.c]. *)
Lemma int_binop_implements (f : Z -> Z -> M Z) (r : state -> Z -> Z -> Z + Z) l s :
  wi_size l -> operands (2 * l) l s ->
  (forall s2, after (spoiled s) (2 * l) s2 ->
     f (stks s (SP s + l) l) (stks s (SP s) l) s2
     = outcome (r s (stks s (SP s + l) l) (stks s (SP s) l)) s2) ->
  implements (l' ← arg_wi l; t ← spop l'; spoilFRA ;; a ← spop l; v ← f a t; npush v l)
    s (2 * l) l (r s (stks s (SP s + l) l) (stks s (SP s) l)).
Proof.
  intros Hl (Hs & Hle & Hroom) Hf. destruct (wi_size_pop l Hl) as [Hp Hw].
  pose proof (after_refl s Hs) as H0. assert (Hpos : 0 < l) by (destruct Hl; lia).
  apply wp_implements.
  apply wp_bind, wp_arg_wi; [done|].
  apply wp_bind. eapply wp_after_spop; [exact H0|done|rewrite Hw; lia|]. rewrite Hw, Z.add_0_r. intros s1 H1.
  apply wp_bind. eapply wp_spoilFRA; [exact H1|]. intros s2 H2.
  apply wp_bind. eapply wp_after_spop; [exact H2|done|rewrite Hw; cbn; lia|]. rewrite Hw. intros s3 H3.
  replace (0 + l + l) with (2 * l) in H3 by lia.
  change (stks (spoiled s) (SP (spoiled s) + (0 + l)) l) with (stks s (SP s + (0 + l)) l).
  rewrite Z.add_0_l. apply wp_bind.
  eapply wp_outcome; [by apply Hf| |].
  - intros v Ev. eapply wp_after_npush; [exact H3|done|exact Hroom|]. intros s4 H4. by exists v.
  - by intros nr Enr.
Qed.

(** The five instructions, with what the check of SBI misses. *)
Lemma iop_implements op l s :
  wi_size l -> operands (2 * l) l s ->
  implements (iop_instr op l) s (2 * l) l (iop_ref op s l (stks s (SP s + l) l) (stks s (SP s) l)).
Proof.
  intros Hl Hops.
  assert (H := int_binop_implements (fun a b => iop_fun op l a b) (fun s => iop_ref op s l) l s Hl Hops).
  assert (Hn : l = 2 \/ l = 4) by apply Hl.
  lapply H; clear H; [intros H; by destruct op|].
  intros s2 H2. rewrite iop_fun_ref; [|done|by apply stks_fits..].
    f_equal. assert (IgnMask s2 = IgnMask s) as E by apply (after_IgnMask _ _ _ H2).
    destruct op; unfold iop_ref, checked, by_zero, tested, ignored; by rewrite E.
Qed.

(** Arithmetic as it is meant: the exact result, none after a division by zero; with
    tests on, a result that does not fit is an overflow. *)
Definition exact (op : iop) (a b : Z) : option Z :=
  match op with
  | Add => Some (a + b) | Sub => Some (a - b) | Mul => Some (a * b)
  | Div => if b =? 0 then None else Some (Z.quot a b)
  | Rem => if b =? 0 then None else Some (Z.rem a b)
  end.
Definition exact_result (op : iop) (s : state) (n a b : Z) : Z + Z :=
  match exact op a b with Some v => checked s n v | None => by_zero s end.

Lemma rem_fits n a b : n = 2 \/ n = 4 -> fits n a = true -> b <> 0 -> fits n (Z.rem a b) = true.
Proof.
  intros Hn Ha Hb. destruct (i_mins_maxs n Hn). unfold fits in *.
  pose proof (Z.rem_sign_mul a b Hb). assert (Z.abs (Z.rem a b) <= Z.abs a); [|nia].
  rewrite <- Z.rem_abs by done. apply Z.rem_le; lia.
Qed.
(** The same trap, or results that are the same object of [n] bytes. *)
Definition same_result (n : Z) (r r' : Z + Z) : Prop :=
  match r, r' with inl nr, inl nr' => nr = nr' | inr v, inr v' => v mod 2 ^ (8 * n) = v' mod 2 ^ (8 * n) | _, _ => False end.
Lemma same_refl n r : same_result n r r.
Proof. by destruct r. Qed.
Lemma iop_ref_exact op s n a b :
  n = 2 \/ n = 4 -> fits n a = true -> ~ (op = Sub /\ a = 0 /\ b = i_mins n) -> fits n b = true ->
  same_result n (iop_ref op s n a b) (exact_result op s n a b).
Proof.
  intros Hn Ha Hx Hb. destruct (i_mins_maxs n Hn). unfold exact_result.
  destruct op; cbn [iop_ref exact]; [apply same_refl| |apply same_refl|..].
  - destruct (Z.eqb_spec a 0) as [->|]; [|apply same_refl]. unfold checked.
    assert (b <> i_mins n) by naive_solver. replace (fits n (0 - b)) with true by (unfold fits in *; lia). by rewrite andb_false_r.
  - destruct (Z.eqb_spec b 0); [apply same_refl|]. unfold checked. destruct (_ && _); [done|]. by apply sext_mod; lia.
  - destruct (Z.eqb_spec b 0); [apply same_refl|]. unfold checked. by rewrite rem_fits, andb_false_r.
Qed.

(** C29: ADI, SBI, MLI, DVI and RMI replace their two operands by the sum, difference,
    product, quotient or remainder, modulo the size of the integers; with tests on, a
    result that does not fit traps with EIOVFL unless it is ignored, and a division by
    zero traps with EIDIVZ or gives 0; a trap leaves the operands popped and nothing
    else changed.  Not for 0 minus the smallest integer, which SBI does not check. *)
Theorem signed_arithmetic op l s :
  let a := stks s (SP s + l) l in let b := stks s (SP s) l in
  wi_size l -> operands (2 * l) l s -> ~ (op = Sub /\ a = 0 /\ b = i_mins l) ->
  implements (iop_instr op l) s (2 * l) l (exact_result op s l a b).
Proof.
  intros a b Hl Hops Hx. pose proof (iop_implements op l s Hl Hops) as H. fold a b in H.
  assert (Hn : l = 2 \/ l = 4) by apply Hl.
  pose proof (iop_ref_exact op s l a b Hn (stks_fits _ _ _ Hn) Hx (stks_fits _ _ _ Hn)) as E.
  unfold same_result in E. destruct (iop_ref op s l a b), (exact_result op s l a b); [by subst|done|done|].
  destruct H as (s' & Es & Hr). exists s'. split; [done|]. by eapply replaces_mod.
Qed.
(** SBI of 0 and the smallest integer: the result does not fit, and there is no trap. *)
Lemma sbi_unchecked n s : sbi 0 (i_mins n) n s = Ret (0 - i_mins n) s.
Proof. unfold sbi. run. rewrite andb_false_r. destruct (tested EIOVFL s); run; by rewrite ?andb_false_r. Qed.

(** ** Unsigned arithmetic *)
Definition uop_ref (op : iop) (s : state) (a b : Z) : Z + Z :=
  match op with
  | Add => inr (a + b)
  | Sub => inr (a - b)
  | Mul => inr (a * b)
  | Div => if b =? 0 then by_zero s else inr (a / b)
  | Rem => if b =? 0 then by_zero s else inr (a mod b)
  end.
Definition uop_fun (op : iop) (a b : Z) : M Z :=
  match op with
  | Add => ret (adu a b) | Sub => ret (sbu a b) | Mul => ret (mlu a b)
  | Div => dvu a b | Rem => rmu a b
  end.
Definition uop_instr (op : iop) : Z -> M unit :=
  match op with Add => DoADU | Sub => DoSBU | Mul => DoMLU | Div => DoDVU | Rem => DoRMU end.

(** The host's [unsigned long] arithmetic is exact modulo the size of the object. *)
Lemma mod_pow_le x i j : 0 <= i <= j -> (x mod 2 ^ j) mod 2 ^ i = x mod 2 ^ i.
Proof.
  intros H. apply Z.mod_mod_divide.
  exists (2 ^ (j - i)). rewrite <- Z.pow_add_r by lia. f_equal. lia.
Qed.
Lemma s64_mod x l : wi_size l -> s64 x mod 2 ^ (8 * l) = x mod 2 ^ (8 * l).
Proof.
  intros [Hl _]. assert (0 <= 8 * l <= 64) by lia.
  unfold s64. rewrite <- (mod_pow_le (sext 64 x) _ 64), <- (mod_pow_le x _ 64) by done.
  by rewrite sext_mod.
Qed.
Lemma u64_mod x l : wi_size l -> u64 x mod 2 ^ (8 * l) = x mod 2 ^ (8 * l).
Proof. intros [Hl _]. apply mod_pow_le. lia. Qed.
Lemma replaces_s64 s k l v s' : wi_size l -> replaces s k l (s64 v) s' -> replaces s k l v s'.
Proof. intros. eapply replaces_mod; [by apply s64_mod | done]. Qed.
Lemma replaces_u64 s k l v s' : wi_size l -> replaces s k l (u64 v) s' -> replaces s k l v s'.
Proof. intros. eapply replaces_mod; [by apply u64_mod | done]. Qed.

Lemma unsigned_binop_shape op l s :
  uop_instr op l s =
  (l' ← arg_wi l; t ← upop l'; spoilFRA ;; a ← upop l; v ← uop_fun op a t; npush (s64 v) l) s.
Proof. by destruct op. Qed.

Lemma uop_fun_ref op a b s :
  exists r, uop_fun op a b s = outcome r s /\
    match r, uop_ref op s a b with
    | inr v, inr v' => u64 v = u64 v'
    | inl nr, inl nr' => nr = nr'
    | _, _ => False
    end.
Proof.
  assert (Hu : forall x, u64 (u64 x) = u64 x) by (intros; apply Z.mod_mod; lia).
  destruct op; unfold uop_fun, uop_ref, by_zero.
  1-3: eexists (inr _); split; [reflexivity | apply Hu].
  - unfold dvu. destruct (b =? 0); run; [destruct (ignored EIDIVZ s)|];
      first [by eexists (inr _) | by eexists (inl _)].
  - unfold rmu. destruct (b =? 0); run; [destruct (ignored EIDIVZ s)|];
      first [by eexists (inr _) | by eexists (inl _)].
Qed.

(** ADU, SBU, MLU, DVU and RMU replace their two operands by the unsigned
    result modulo the size of the integers; only a division by zero can trap. *)
Theorem unsigned_arithmetic op l s :
  wi_size l -> operands (2 * l) l s ->
  implements (uop_instr op l) s (2 * l) l (uop_ref op s (stk s (SP s + l) l) (stk s (SP s) l)).
Proof.
  intros Hl (Hs & Hle & Hroom). destruct (wi_size_pop l Hl) as [Hp Hw].
  pose proof (after_refl s Hs) as H0. assert (Hpos : 0 < l) by (destruct Hl; lia).
  apply wp_implements. eapply wp_eq; [apply unsigned_binop_shape|].
  apply wp_bind, wp_arg_wi; [done|].
  apply wp_bind. eapply wp_after_upop; [exact H0|done|rewrite Hw; lia|]. rewrite Hw, Z.add_0_r. intros s1 H1.
  apply wp_bind. eapply wp_spoilFRA; [exact H1|]. intros s2 H2.
  apply wp_bind. eapply wp_after_upop; [exact H2|done|rewrite Hw; cbn; lia|]. rewrite Hw. intros s3 H3.
  replace (0 + l + l) with (2 * l) in H3 by lia.
  change (stk (spoiled s) (SP (spoiled s) + (0 + l)) l) with (stk s (SP s + (0 + l)) l).
  rewrite Z.add_0_l. apply wp_bind.
  destruct (uop_fun_ref op (stk s (SP s + l) l) (stk s (SP s) l) s3) as (r & E & Hr).
  assert (uop_ref op s3 = uop_ref op s) as Eref.
  { assert (IgnMask s3 = IgnMask s) as Em by apply (after_IgnMask _ _ _ H3).
    unfold uop_ref, by_zero, ignored. by rewrite Em. }
  rewrite Eref in Hr. eapply wp_outcome; [exact E| |].
  - intros v ->. eapply wp_after_npush; [exact H3|done|exact Hroom|]. intros s4 H4.
    destruct (uop_ref _ _ _ _) as [|v']; [done|]. exists v'. split; [done|].
    apply (replaces_u64 _ _ _ v'); [done|]. rewrite <- Hr.
    eapply replaces_mod; [|apply replaces_s64; [done|exact H4]]. symmetry. by apply u64_mod.
  - intros nr ->. destruct (uop_ref _ _ _ _) as [nr'|]; [|done]. by subst.
Qed.

(** ** Shifts: the distance is a word on top of the operand *)
Inductive shop := Sli | Sri | Slu | Sru.

(** With tests on, the distance is forced into [0 .. 8n-1]. *)
Definition distance (n d : Z) : Z :=
  if must_test then (if d <? 0 then 0 else if 8 * n <=? d then 8 * n - 1 else d) else d.
Definition shop_signed (op : shop) : bool := match op with Sli | Sri => true | _ => false end.
Definition shop_ref (op : shop) (s : state) (n a d : Z) : Z + Z :=
  let d := distance n d in
  match op with
  | Sli => checked s n (a * 2 ^ d)
  | Sri | Sru => inr (a / 2 ^ d)
  | Slu => inr (a * 2 ^ d)
  end.
Definition shop_fun (op : shop) (n a d : Z) : M Z :=
  match op with
  | Sli => sli a d n | Sri => sri a d n
  | Slu => r ← slu a d n; ret (s64 r) | Sru => r ← sru a d n; ret (s64 r)
  end.
Definition shop_instr (op : shop) : Z -> M unit :=
  match op with Sli => DoSLI | Sri => DoSRI | Slu => DoSLU | Sru => DoSRU end.

Lemma wp_shift_distance U n d (Q : Z -> state -> Prop) T s k s1 :
  n = 2 \/ n = 4 -> must_test = true -> after s k s1 ->
  (forall s2, after s k s2 -> Q (distance n d) s2) -> wp U (shift_distance d n) Q T s1.
Proof.
  intros Hn Ht H HQ. unfold shift_distance, distance in *. rewrite Ht in HQ. unfold wp.
  assert (Hw : forall nr s2, after s k s2 -> after s k (warned nr s2)).
  { intros nr s2 H2. eapply after_eqw; [exact H2|by eexists]. }
  destruct (Z.ltb_spec d 0); run.
  - rewrite warning_ret by done. run. replace (n * 8 <=? 0) with false by lia. run. by apply HQ, Hw.
  - rewrite (Z.mul_comm n 8). destruct (8 * n <=? d); run; [rewrite warning_ret by done; run|].
    + by apply HQ, Hw.
    + by apply HQ.
Qed.
Lemma wp_ushift_distance U n d (Q : Z -> state -> Prop) T s k s1 :
  n = 2 \/ n = 4 -> 0 <= d -> after s k s1 ->
  (forall s2, after s k s2 -> Q (distance n d) s2) -> wp U (ushift_distance d n) Q T s1.
Proof.
  intros Hn Hd H HQ. unfold ushift_distance, distance in *. unfold wp. rewrite (Z.mul_comm n 8).
  replace (d <? 0) with false in HQ by lia. destruct must_test; run; [|by apply HQ].
  destruct (8 * n <=? d); run; [|by apply HQ]. rewrite warning_ret by done. run.
  apply HQ. eapply after_eqw; [exact H | by eexists].
Qed.

(** Without tests the distance must be legal for the host. *)
Definition legal_distance (d : Z) : Prop := must_test = true \/ 0 <= d < 64.
Lemma distance_range n d : n = 2 \/ n = 4 -> legal_distance d -> 0 <= distance n d < 64.
Proof.
  intros Hn [Ht|Hd]; unfold distance; [rewrite Ht|destruct must_test; [|done]];
    destruct (Z.ltb_spec d 0), (Z.leb_spec (8 * n) d); lia.
Qed.
Lemma distance_small n d : n = 2 \/ n = 4 -> must_test = true -> 0 <= distance n d < 8 * n.
Proof.
  intros Hn Ht. unfold distance. rewrite Ht.
  destruct (Z.ltb_spec d 0), (Z.leb_spec (8 * n) d); lia.
Qed.

(** The overflow check of SLI on an operand in range. *)
Lemma shl_check n a d : n = 2 \/ n = 4 -> 0 <= d < 8 * n -> 
  ((0 <=? a) && (Z.shiftr (i_maxs n) d <? a)) || ((a <? 0) && (a <? Z.shiftr (i_mins n) d))
  = negb (fits n (a * 2 ^ d)).
Proof.
  intros Hn Hd. rewrite !Z.shiftr_div_pow2 by lia. set (p := 2 ^ d).
  assert (Hp : 0 < p) by (apply Z.pow_pos_nonneg; lia).
  assert (Hmin : exists q, i_mins n = - (p * q) /\ 0 < q).
  { exists (2 ^ (8 * n - 1 - d)). unfold p. rewrite <- Z.pow_add_r by lia.
    replace (d + (8 * n - 1 - d)) with (8 * n - 1) by lia. split; [|apply Z.pow_pos_nonneg; lia].
    by destruct Hn as [-> | ->]. }
  destruct Hmin as (q & Hq & Hq0). unfold fits.
  pose proof (i_mins_maxs n Hn) as [Hm Hpos].
  replace (i_mins n / p) with (- q) by (rewrite Hq, <- Z.mul_opp_r, Z.mul_comm, Z.div_mul; lia).
  pose proof (Z.div_mod (i_maxs n) p ltac:(lia)). pose proof (Z.mod_pos_bound (i_maxs n) p Hp).
  set (m := i_maxs n / p) in *. apply eq_true_iff_eq.
  rewrite negb_true_iff, andb_false_iff, orb_true_iff, !andb_true_iff, !Z.leb_gt, !Z.leb_le, !Z.ltb_lt.
  split.
  - intros [[? ?]|[? ?]]; [right|left]; nia.
  - intros [?|?]; [right|left]; nia.
Qed.

Lemma tested_ignored tr s : must_test = true -> tested tr s = negb (ignored tr s).
Proof. intros Ht. unfold tested, ignored. rewrite Ht. cbn [andb]. by rewrite negb_involutive. Qed.

Lemma wp_sli n a d Q (T : Z -> state -> Prop) s k s1 :
  n = 2 \/ n = 4 -> fits n a = true -> legal_distance d -> after s k s1 ->
  (forall v s2, shop_ref Sli s n a d = inr v -> after s k s2 -> Q (s64 v) s2) ->
  (forall nr s2, shop_ref Sli s n a d = inl nr -> after s k s2 -> T nr s2) ->
  wp False (sli a d n) Q T s1.
Proof.
  intros Hn Ha Hd H HQ HT. pose proof (distance_range n d Hn Hd) as Hr.
  unfold shop_ref in *. cbv zeta in HQ, HT. set (e := distance n d) in *.
  assert (Hshl : forall s2, host_shl a e s2 = Ret (s64 (a * 2 ^ e)) s2).
  { intros s2. unfold host_shl. replace (_ && _) with true by lia.
    by rewrite Z.shiftl_mul_pow2 by lia. }
  unfold sli. destruct must_test eqn:Ht.
  - apply wp_bind, wp_bind. eapply wp_shift_distance; [done|done|exact H|]. fold e. intros s2 H2.
    wregs. assert (Hi : ignored EIOVFL s2 = ignored EIOVFL s).
    { unfold ignored. by rewrite (after_IgnMask _ _ _ H2). }
    rewrite Hi. unfold checked in *. rewrite tested_ignored in HQ, HT by done.
    assert (He : 0 <= e < 8 * n) by (by apply distance_small).
    pose proof (shl_check n a e Hn He) as Hchk.
    unfold wp. run. destruct (ignored EIOVFL s); run.
    + rewrite Hshl. by apply HQ.
    + run in HQ. run in HT. rewrite <- Hchk in HQ, HT.
      destruct ((0 <=? a) && (Z.shiftr (i_maxs n) e <? a)); run; [by apply HT|].
      run in HQ. run in HT. destruct ((a <? 0) && (a <? Z.shiftr (i_mins n) e)); run; [by apply HT|].
      rewrite Hshl. by apply HQ.
  - wregs. assert (Ed : e = d) by (unfold e, distance; by rewrite Ht). rewrite <- Ed.
    unfold wp. rewrite Hshl. apply HQ; [|done]. unfold checked, tested. by rewrite Ht.
Qed.
Lemma wp_sri n a d Q T s k s1 :
  n = 2 \/ n = 4 -> legal_distance d -> after s k s1 ->
  (forall s2, after s k s2 -> Q (a / 2 ^ distance n d) s2) -> wp False (sri a d n) Q T s1.
Proof.
  intros Hn Hd H HQ. pose proof (distance_range n d Hn Hd) as Hr. set (e := distance n d) in *.
  assert (Hshr : forall s2, host_shr a e s2 = Ret (a / 2 ^ e) s2).
  { intros s2. unfold host_shr. replace (_ && _) with true by lia.
    by rewrite Z.shiftr_div_pow2 by lia. }
  unfold sri. destruct must_test eqn:Ht.
  - apply wp_bind. eapply wp_shift_distance; [done|done|exact H|]. fold e. intros s2 H2.
    unfold wp. rewrite Hshr. by apply HQ.
  - wregs. assert (Ed : e = d) by (unfold e, distance; by rewrite Ht). rewrite <- Ed.
    unfold wp. rewrite Hshr. by apply HQ.
Qed.
Lemma wp_slu n a d Q T s k s1 :
  n = 2 \/ n = 4 -> 0 <= d -> legal_distance d -> after s k s1 ->
  (forall s2, after s k s2 -> Q (u64 (a * 2 ^ distance n d)) s2) -> wp False (slu a d n) Q T s1.
Proof.
  intros Hn H0 Hd H HQ. pose proof (distance_range n d Hn Hd) as Hr.
  unfold slu. apply wp_bind. eapply wp_ushift_distance; [done|done|exact H|]. intros s2 H2.
  unfold wp. replace (_ && _) with true by lia. rewrite Z.shiftl_mul_pow2 by lia. by apply HQ.
Qed.
Lemma wp_sru n a d Q T s k s1 :
  n = 2 \/ n = 4 -> 0 <= d -> legal_distance d -> after s k s1 ->
  (forall s2, after s k s2 -> Q (a / 2 ^ distance n d) s2) -> wp False (sru a d n) Q T s1.
Proof.
  intros Hn H0 Hd H HQ. pose proof (distance_range n d Hn Hd) as Hr.
  unfold sru. apply wp_bind. eapply wp_ushift_distance; [done|done|exact H|]. intros s2 H2.
  unfold wp, host_shr. replace (_ && _) with true by lia. rewrite Z.shiftr_div_pow2 by lia. by apply HQ.
Qed.

Definition shop_operand (op : shop) (s : state) (l : Z) : Z :=
  if shop_signed op then stks s (SP s + wsize) l else stk s (SP s + wsize) l.
Definition shop_distance (op : shop) (s : state) : Z :=
  if shop_signed op then stks s (SP s) wsize else stk s (SP s) wsize.

Lemma stk_nonneg s a n : Inv s -> 0 <= stk s a n.
Proof. intros Hs. apply ldn_range, Hs. Qed.

(** The shape of the shifts: a word, the distance, above the operand. *)
Lemma signed_shift_shape (f : Z -> Z -> Z -> M Z) r l s :
  wi_size l -> operands (wsize + l) l s ->
  (forall s3 Q (T : Z -> state -> Prop), after (spoiled s) (wsize + l) s3 ->
     (forall v v' s4, r = inr v' -> v mod 2 ^ (8 * l) = v' mod 2 ^ (8 * l) ->
        after (spoiled s) (wsize + l) s4 -> Q v s4) ->
     (forall nr s4, r = inl nr -> after (spoiled s) (wsize + l) s4 -> T nr s4) ->
     wp False (f (stks s (SP s + wsize) l) (stks s (SP s) wsize) l) Q T s3) ->
  implements (t ← swpop; spoilFRA ;; l ← arg_wi l; a ← spop l; v ← f a t l; npush v l)
    s (wsize + l) l r.
Proof.
  intros Hl (Hs & Hle & Hroom) Hf. destruct (wi_size_pop l Hl) as [Hp Hw].
  pose proof (after_refl s Hs) as H0. pose proof wsize_range as Hws. assert (Hl0 : 0 < l) by (destruct Hl; lia).
  apply wp_implements.
  apply wp_bind. eapply wp_after_swpop; [exact H0|lia|]. intros s1 H1.
  apply wp_bind. eapply wp_spoilFRA; [exact H1|]. intros s2 H2.
  apply wp_bind, wp_arg_wi; [done|].
  apply wp_bind. eapply wp_after_spop; [exact H2|done|rewrite Hw; cbn; lia|].
  rewrite Hw, Z.add_0_l. change (SP (spoiled s)) with (SP s). rewrite Z.add_0_r. intros s3 H3.
  apply wp_bind, (Hf s3); [done| |].
  - intros v v' s4 -> Ev H4. eapply wp_after_npush; [exact H4|done|exact Hroom|].
    intros s5 H5. exists v'. split; [done|]. by eapply replaces_mod.
  - intros nr s4 -> H4. by split.
Qed.
Lemma unsigned_shift_shape (f : Z -> Z -> Z -> M Z) r l s :
  wi_size l -> operands (wsize + l) l s ->
  (forall s3 Q (T : Z -> state -> Prop), after (spoiled s) (wsize + l) s3 ->
     (forall v v' s4, r = inr v' -> v mod 2 ^ (8 * l) = v' mod 2 ^ (8 * l) ->
        after (spoiled s) (wsize + l) s4 -> Q v s4) ->
     (forall nr s4, r = inl nr -> after (spoiled s) (wsize + l) s4 -> T nr s4) ->
     wp False (f (stk s (SP s + wsize) l) (stk s (SP s) wsize) l) Q T s3) ->
  implements (t ← uwpop; spoilFRA ;; l ← arg_wi l; a ← upop l; v ← f a t l; npush (s64 v) l)
    s (wsize + l) l r.
Proof.
  intros Hl (Hs & Hle & Hroom) Hf. destruct (wi_size_pop l Hl) as [Hp Hw].
  pose proof (after_refl s Hs) as H0. pose proof wsize_range as Hws. assert (Hl0 : 0 < l) by (destruct Hl; lia).
  apply wp_implements.
  apply wp_bind. eapply wp_after_uwpop; [exact H0|lia|]. intros s1 H1.
  apply wp_bind. eapply wp_spoilFRA; [exact H1|]. intros s2 H2.
  apply wp_bind, wp_arg_wi; [done|].
  apply wp_bind. eapply wp_after_upop; [exact H2|done|rewrite Hw; cbn; lia|].
  rewrite Hw, Z.add_0_l. change (SP (spoiled s)) with (SP s). rewrite Z.add_0_r. intros s3 H3.
  apply wp_bind, (Hf s3); [done| |].
  - intros v v' s4 -> Ev H4. eapply wp_after_npush; [exact H4|done|exact Hroom|].
    intros s5 H5. exists v'. split; [done|]. eapply replaces_mod; [|exact H5].
    by rewrite s64_mod.
  - intros nr s4 -> H4. by split.
Qed.

(** SLI, SRI, SLU and SRU shift the operand below the distance: to the left
    a multiplication by a power of two, with SLI trapping exactly when the result
    does not fit, to the right a division rounding down; with tests on every
    distance is forced into the size of the operand. *)
Theorem shifts op l s :
  wi_size l -> operands (wsize + l) l s -> legal_distance (shop_distance op s) ->
  implements (shop_instr op l) s (wsize + l) l
    (shop_ref op s l (shop_operand op s l) (shop_distance op s)).
Proof.
  intros Hl Hops Hd. assert (Hn : l = 2 \/ l = 4) by apply Hl. assert (Hs : Inv s) by apply Hops.
  assert (0 <= stk s (SP s) wsize) by (by apply stk_nonneg).
  assert (Eref : shop_ref op (spoiled s) = shop_ref op s) by (by destruct op).
  destruct op; unfold shop_operand, shop_distance in *; cbn [shop_signed shop_instr] in *.
  - apply (signed_shift_shape sli); [done..|]. intros s3 Q T H3 HQ HT.
    eapply wp_sli; [done|by apply stks_fits|done|exact H3| |].
    + intros v s4 Ev H4. rewrite Eref in Ev. eapply HQ; [exact Ev|by apply s64_mod|done].
    + intros nr s4 Ev H4. rewrite Eref in Ev. by eapply HT.
  - apply (signed_shift_shape sri); [done..|]. intros s3 Q T H3 HQ HT.
    eapply wp_sri; [done|done|exact H3|]. intros s4 H4. by eapply HQ.
  - apply (unsigned_shift_shape slu); [done..|]. intros s3 Q T H3 HQ HT.
    eapply wp_slu; [done|done|done|exact H3|]. intros s4 H4.
    eapply HQ; [done|by apply u64_mod|done].
  - apply (unsigned_shift_shape sru); [done..|]. intros s3 Q T H3 HQ HT.
    eapply wp_sru; [done|done|done|exact H3|]. intros s4 H4. by eapply HQ.
Qed.

(** ** Negation, increment, decrement *)
Inductive unop := Neg (l : Z) | Inc | Dec.
Definition unop_size (op : unop) : Z := match op with Neg l => l | _ => wsize end.
Definition unop_instr (op : unop) : M unit :=
  match op with Neg l => DoNGI l | Inc => DoINC | Dec => DoDEC end.
Definition unop_ref (op : unop) (s : state) (a : Z) : Z + Z :=
  checked s (unop_size op) (match op with Neg _ => - a | Inc => a + 1 | Dec => a - 1 end).

Lemma i_maxsw_maxs : i_maxsw = i_maxs wsize /\ i_minsw = i_mins wsize.
Proof. unfold i_maxsw, i_minsw, i_maxs, i_mins. by sizes. Qed.
Lemma wi_size_wsize : wi_size wsize.
Proof. split; [apply ok_wsize | apply wsize_mod]. Qed.

Definition unop_fun (op : unop) (a : Z) : M Z :=
  match op with Neg l => ngi a l | Inc => inc a | Dec => dec a end.
Lemma unop_fun_ref op a s :
  unop_size op = 2 \/ unop_size op = 4 -> fits (unop_size op) a = true ->
  unop_fun op a s = outcome (unop_ref op s a) s.
Proof.
  intros Hn Ha. destruct (i_mins_maxs _ Hn) as [Hm Hpos]. destruct i_maxsw_maxs as [E1 E2].
  unfold unop_fun, unop_ref, checked, ngi, inc, dec. rewrite E1, E2.
  destruct op as [l| |]; cbn [unop_size] in *; run; (destruct (tested EIOVFL s); run; [|done]);
    unfold fits in *;
    match goal with |- context [?x =? ?y] => destruct (Z.eqb_spec x y) end; run;
    match goal with |- context [(?x <=? ?y) && (?y <=? ?z)] =>
      first [ replace ((x <=? y) && (y <=? z)) with false by lia
            | replace ((x <=? y) && (y <=? z)) with true by lia ] end; done.
Qed.

(** NGI, INC and DEC replace the integer on top by its negation, successor or
    predecessor and trap with EIOVFL exactly when that does not fit, if tests are on
    and the trap is not ignored. *)
Theorem unary_arithmetic op s :
  wi_size (unop_size op) -> operands (unop_size op) (unop_size op) s ->
  implements (unop_instr op) s (unop_size op) (unop_size op)
    (unop_ref op s (stks s (SP s) (unop_size op))).
Proof.
  intros Hl (Hs & Hle & Hroom). destruct (wi_size_pop _ Hl) as [Hp Hw].
  pose proof (after_refl s Hs) as H0.
  assert (Hn : unop_size op = 2 \/ unop_size op = 4) by apply Hl.
  assert (Hf : forall s2, after (spoiled s) (unop_size op) s2 ->
    unop_fun op (stks s (SP s) (unop_size op)) s2 =
    outcome (unop_ref op s (stks s (SP s) (unop_size op))) s2).
  { intros s2 H2. rewrite unop_fun_ref by (done || by apply stks_fits). f_equal.
    unfold unop_ref, checked, tested. by rewrite (after_IgnMask _ _ _ H2). }
  apply wp_implements.
  destruct op as [l| |]; cbn [unop_instr unop_size unop_fun] in *;
    [unfold DoNGI | unfold DoINC | unfold DoDEC];
    apply wp_bind; (eapply wp_spoilFRA; [exact H0|]); intros s1 H1.
  - apply wp_bind, wp_arg_wi; [done|].
    apply wp_bind. eapply wp_after_spop; [exact H1|done|rewrite Hw; cbn; lia|].
    rewrite Hw, Z.add_0_r. intros s2 H2. apply wp_bind.
    eapply wp_outcome; [apply Hf, H2| |by intros nr Enr].
    intros v Ev. eapply wp_after_npush; [exact H2|done|exact Hroom|]. intros s3 H3. by exists v.
  - apply wp_bind. eapply wp_after_swpop; [exact H1|cbn; lia|].
    rewrite Z.add_0_r. intros s2 H2. apply wp_bind.
    eapply wp_outcome; [apply Hf, H2| |by intros nr Enr].
    intros v Ev. eapply wp_after_wpush; [exact H2|exact Hroom|]. intros s3 H3. by exists v.
  - apply wp_bind. eapply wp_after_swpop; [exact H1|cbn; lia|].
    rewrite Z.add_0_r. intros s2 H2. apply wp_bind.
    eapply wp_outcome; [apply Hf, H2| |by intros nr Enr].
    intros v Ev. eapply wp_after_wpush; [exact H2|exact Hroom|]. intros s3 H3. by exists v.
Qed.
End Refinement.
