(* ===== verification/Logic.v ===== *)
(** * Logical operations, sets and comparisons
    ([do_logic.c], [do_sets.c], [do_comp.c]) *)
From Stdlib Require Import ZArith Lia Bool.
From stdpp Require Import base gmap list.
From S2P Require Import Prelude Machine Warn Mem Wp Data Stack StackSpec Text Frame Instr Arith.

Section Logic.
Context {cfg : Config}.

(** ** [do_logic.c] *)

(** [check_def(p,l)]. *)
Definition check_def (p l : Z) : M unit :=
  x ← st_sh p;
  if x =? 0 then warning WUNLOG
  else y ← st_sh (p +p l); when (y =? 0) (warning WUNLOG).

(** The loop of AND, IOR and XOR: [i] bytes from [p] up, combined into the
    operand [l] bytes deeper. *)
Fixpoint logic_loop (op : Z -> Z -> Z) (i : nat) (p l : Z) : M unit :=
  match i with
  | O => skip
  | S i' =>
      check_def p l ;;
      x ← stack_loc (p +p l); y ← stack_loc p;
      set_stack_loc (p +p l) (char (op x y)) ;;
      logic_loop op i' (p +p 1) l
  end.

Definition logic_op (op : Z -> Z -> Z) (l : Z) : M unit :=
  spoilFRA ;; l ← arg_w l;
  sp ← gets SP; logic_loop op (Z.to_nat l) sp l ;; st_dec l.

(** AND w, IOR w, XOR w *)
Definition DoAND (l : Z) : M unit := logic_op Z.land l.
Definition DoIOR (l : Z) : M unit := logic_op Z.lor l.
Definition DoXOR (l : Z) : M unit := logic_op Z.lxor l.

Fixpoint com_loop (i : nat) (p : Z) : M unit :=
  match i with
  | O => skip
  | S i' =>
      check_def p 0 ;;
      x ← stack_loc p; set_stack_loc p (char (Z.lnot x)) ;;
      com_loop i' (p +p 1)
  end.
(** COM w: Complement (one's complement of top w bytes) *)
Definition DoCOM (l : Z) : M unit :=
  spoilFRA ;; l ← arg_w l; sp ← gets SP; com_loop (Z.to_nat l) sp.

(** One turn of the loops of ROL and ROR on a host [long]. *)
Definition rol_step (signbit s : Z) : Z :=
  if Z.land s signbit =? 0 then s64 (Z.shiftl s 1)
  else Z.lor (s64 (Z.shiftl s 1)) (BIT 0).
Definition ror_step (signbit s : Z) : Z :=
  if Z.land s (BIT 0) =? 0 then Z.ldiff (Z.shiftr s 1) signbit
  else Z.lor (Z.shiftr s 1) signbit.

Definition rotate (step : Z -> Z -> Z) (l : Z) : M unit :=
  t ← uwpop;
  spoilFRA ;;
  l' ← arg_wi l;
  let signbit := if l' =? 2 then SIGNBIT2 else SIGNBIT4 in
  s ← upop l;
  t ← (if must_test then shift_distance t l else ret t);
  npush (Nat.iter (Z.to_nat t) (step signbit) s) l.

(** ROL w: Rotate left a group of w bytes; ROR w: Rotate right *)
Definition DoROL (l : Z) : M unit := rotate rol_step l.
Definition DoROR (l : Z) : M unit := rotate ror_step l.

(** ** [do_sets.c] *)

(** The byte and the bit of a set that hold [bitno], by C division. *)
Definition wordoff (bitno : Z) : Z := Z.quot bitno 8.
Definition bitoff (bitno : Z) : Z :=
  let b := Z.rem bitno 8 in if b <? 0 then b + 8 else b.

Definition bit_test (w : Z) : M unit :=
  v ← swpop;
  let bitno := s32 v in
  t ← gets (tested ESET);
  when (t && (w <=? wordoff bitno)) (trap ESET) ;;
  sp ← gets SP; test_byte ← stack_loc (sp +p wordoff bitno);
  st_dec w ;;
  wpush (if Z.land test_byte (BIT (bitoff bitno)) =? 0 then 0 else 1).

(** The loop that clears the new set, from its last byte to its first. *)
Fixpoint clear_set (nbytes : nat) : M unit :=
  match nbytes with
  | O => skip
  | S n => sp ← gets SP; st_stn (sp +p Z.of_nat n) 0 1 ;; clear_set n
  end.

Definition create_set (w : Z) : M unit :=
  v ← swpop;
  let bitno := s32 v in
  st_inc w ;;
  clear_set (Z.to_nat w) ;;
  t ← gets (tested ESET);
  when (t && (w <=? wordoff bitno)) (trap ESET) ;;
  sp ← gets SP; st_stn (sp +p wordoff bitno) (BIT (bitoff bitno)) 1.

(** INN w: Bit test on w byte set; SET w: Create singleton w byte set *)
Definition DoINN (l : Z) : M unit := spoilFRA ;; l ← arg_w l; bit_test l.
Definition DoSET (l : Z) : M unit := spoilFRA ;; l ← arg_w l; create_set l.

(** ** [do_comp.c] *)

(** [t < s ? 1 : t > s ? -1 : 0] *)
Definition cmp3 (t s : Z) : Z := if t <? s then 1 else if s <? t then -1 else 0.

Definition DoCMI (l : Z) : M unit :=
  l' ← arg_wi l; t ← spop l'; s ← spop l; spoilFRA ;; wpush (cmp3 t s).
Definition DoCMU (l : Z) : M unit :=
  l' ← arg_wi l; t ← upop l'; s ← upop l; spoilFRA ;; wpush (cmp3 t s).
Definition DoCMP : M unit := spoilFRA ;; t ← dppop; s ← dppop; wpush (cmp3 t s).

(** The loop of [compare_obj]: undefined bytes are not equal. *)
Fixpoint compare_loop (i : nat) (addr1 addr2 : Z) : M Z :=
  match i with
  | O => ret 0
  | S i' =>
      x ← st_sh addr1;
      u ← (if x =? 0 then ret true else y ← st_sh addr2; ret (y =? 0));
      if u : bool then warning WUNCMP ;; ret 1
      else
        b1 ← stack_loc addr1; b2 ← stack_loc addr2;
        if negb (b1 =? b2) then ret 1
        else compare_loop i' (addr1 +p 1) (addr2 +p 1)
  end.
Definition compare_obj (obj_size : Z) : M unit :=
  sp ← gets SP;
  comp_res ← compare_loop (Z.to_nat obj_size) sp (sp +p obj_size);
  st_dec (2 * obj_size) ;;
  wpush comp_res.
(** CMS w: bit for bit equality test *)
Definition DoCMS (l : Z) : M unit := spoilFRA ;; l ← arg_w l; compare_obj l.

(** TLT, TLE, TEQ, TNE, TGE, TGT *)
Definition test_op (f : Z -> bool) : M unit :=
  spoilFRA ;; v ← wpop; wpush (if f v then 1 else 0).
Definition DoTLT : M unit := test_op (fun v => v <? 0).
Definition DoTLE : M unit := test_op (fun v => v <=? 0).
Definition DoTEQ : M unit := test_op (fun v => v =? 0).
Definition DoTNE : M unit := test_op (fun v => negb (v =? 0)).
Definition DoTGE : M unit := test_op (fun v => 0 <=? v).
Definition DoTGT : M unit := test_op (fun v => 0 <? v).

End Logic.

#[export] Hint Unfold DoAND DoIOR DoXOR DoCOM DoROL DoROR DoINN DoSET DoCMI DoCMU DoCMP DoCMS
  DoTLT DoTLE DoTEQ DoTNE DoTGE DoTGT : instr.

(** ** Logic, sets and comparisons preserve the invariant *)
Section Keeps.
Context {cfg : Config} {ok : ConfigOk}.

Lemma keeps_check_def p l : keeps (check_def p l) any.
Proof. unfold check_def. keeps_tac. Qed.
#[local] Hint Resolve keeps_check_def : keeps.
Lemma keeps_logic_loop op i : forall p l, keeps (logic_loop op i p l) any.
Proof. induction i as [|i IH]; intros; cbn [logic_loop]; keeps_tac. Qed.
Lemma keeps_com_loop i : forall p, keeps (com_loop i p) any.
Proof. induction i as [|i IH]; intros; cbn [com_loop]; keeps_tac. Qed.
#[local] Hint Resolve keeps_logic_loop : keeps.
Lemma keeps_logic_op op l : keeps (logic_op op l) any.
Proof. unfold logic_op. keeps_tac. Qed.
Lemma keeps_rotate step l : keeps (rotate step l) any.
Proof. unfold rotate. keeps_tac. Qed.
Lemma keeps_bit_test w : keeps (bit_test w) any.
Proof. unfold bit_test. keeps_tac. Qed.
Lemma keeps_clear_set n : keeps (clear_set n) any.
Proof. induction n as [|n IH]; cbn [clear_set]; keeps_tac. Qed.
#[local] Hint Resolve keeps_clear_set : keeps.
Lemma keeps_create_set w : keeps (create_set w) any.
Proof. unfold create_set. keeps_tac. Qed.
Lemma keeps_compare_loop i : forall a b, keeps (compare_loop i a b) any.
Proof. induction i as [|i IH]; intros; cbn [compare_loop]; keeps_tac. Qed.
#[local] Hint Resolve keeps_compare_loop : keeps.
Lemma keeps_compare_obj n : keeps (compare_obj n) any.
Proof. unfold compare_obj. keeps_tac. Qed.
Lemma keeps_test_op f : keeps (test_op f) any.
Proof. unfold test_op. keeps_tac. Qed.
End Keeps.
#[export] Hint Resolve keeps_logic_op keeps_com_loop keeps_rotate keeps_bit_test keeps_create_set
  keeps_compare_obj keeps_test_op : keeps.

(** ** Comparisons and tests *)
Section Comparisons.
Context {cfg : Config} {ok : ConfigOk}.

Inductive cmpop := Cmi (l : Z) | Cmu (l : Z) | Cmp.
Definition cmp_size (op : cmpop) : Z := match op with Cmi l | Cmu l => l | Cmp => psize end.
Definition cmp_size_ok (op : cmpop) : Prop := match op with Cmi l | Cmu l => wi_size l | Cmp => True end.
Definition cmp_operand (op : cmpop) (s : state) (a : Z) : Z :=
  match op with Cmi l => stks s a l | Cmu l => stk s a l | Cmp => stk s a psize end.
Definition cmp_instr (op : cmpop) : M unit :=
  match op with Cmi l => DoCMI l | Cmu l => DoCMU l | Cmp => DoCMP end.

Lemma cmp3_sgn t s : cmp3 t s = Z.sgn (s - t).
Proof. unfold cmp3. destruct (Z.ltb_spec t s), (Z.ltb_spec s t); lia. Qed.

(** The last steps: the result is pushed as a word. *)
Lemma wp_push_result s k v v' s1 :
  after (spoiled s) k s1 -> has_room (SP s + k - wsize) s = true -> v = v' ->
  wp False (wpush v) (fun _ s' => exists u, inr (A := Z) v' = inr u /\ replaces (spoiled s) k wsize u s')
    (fun nr s' => inr v' = inl nr /\ after (spoiled s) k s') s1.
Proof.
  intros H Hr ->. eapply wp_after_wpush; [exact H|exact Hr|]. intros s2 H2. by exists v'.
Qed.

(** CMI, CMU and CMP replace their operands by -1, 0 or 1 as the operand below
    the top is less than, equal to or greater than the top, compared as signed
    integers, unsigned integers or pointers. *)
Theorem comparisons op s :
  cmp_size_ok op -> operands (2 * cmp_size op) wsize s ->
  implements (cmp_instr op) s (2 * cmp_size op) wsize
    (inr (Z.sgn (cmp_operand op s (SP s + cmp_size op) - cmp_operand op s (SP s)))).
Proof.
  intros Hok (Hs & Hle & Hroom). pose proof (after_refl s Hs) as H0.
  pose proof psize_range as Hps. pose proof wsize_range.
  apply wp_implements.
  destruct op as [l|l|]; cbn [cmp_size cmp_size_ok cmp_operand cmp_instr] in *.
  - destruct (wi_size_pop l Hok) as [Hp Hw]. assert (Hpos : 0 < l) by (destruct Hok; lia).
    unfold DoCMI. apply wp_bind, wp_arg_wi; [done|].
    apply wp_bind. eapply wp_after_spop; [exact H0|done|rewrite Hw; lia|].
    rewrite Hw, Z.add_0_r, Z.add_0_l. intros s1 H1.
    apply wp_bind. eapply wp_after_spop; [exact H1|done|rewrite Hw; lia|].
    rewrite Hw. intros s2 H2. replace (l + l) with (2 * l) in H2 by lia.
    apply wp_bind. eapply wp_spoilFRA; [exact H2|]. intros s3 H3.
    apply wp_push_result; [done|done|apply cmp3_sgn].
  - destruct (wi_size_pop l Hok) as [Hp Hw]. assert (Hpos : 0 < l) by (destruct Hok; lia).
    unfold DoCMU. apply wp_bind, wp_arg_wi; [done|].
    apply wp_bind. eapply wp_after_upop; [exact H0|done|rewrite Hw; lia|].
    rewrite Hw, Z.add_0_r, Z.add_0_l. intros s1 H1.
    apply wp_bind. eapply wp_after_upop; [exact H1|done|rewrite Hw; lia|].
    rewrite Hw. intros s2 H2. replace (l + l) with (2 * l) in H2 by lia.
    apply wp_bind. eapply wp_spoilFRA; [exact H2|]. intros s3 H3.
    apply wp_push_result; [done|done|apply cmp3_sgn].
  - unfold DoCMP. apply wp_bind. eapply wp_spoilFRA; [exact H0|]. intros s1 H1.
    apply wp_bind. eapply wp_after_dppop; [exact H1|cbn; lia|].
    rewrite Z.add_0_r, Z.add_0_l. intros s2 H2.
    apply wp_bind. eapply wp_after_dppop; [exact H2|cbn; lia|].
    intros s3 H3. replace (psize + psize) with (2 * psize) in H3 by lia.
    apply wp_push_result; [done|done|apply cmp3_sgn].
Qed.

(** The six relations of the tests and the conditional branches. *)
Inductive rel := LT | LE | EQ | NE | GE | GT.
Definition holds (r : rel) (a b : Z) : Prop :=
  match r with LT => a < b | LE => a <= b | EQ => a = b | NE => a <> b | GE => b <= a | GT => b < a end.
#[export] Instance holds_dec r a b : Decision (holds r a b).
Proof. destruct r; cbn [holds]; apply _. Defined.
Definition test_instr (r : rel) : M unit :=
  match r with LT => DoTLT | LE => DoTLE | EQ => DoTEQ | NE => DoTNE | GE => DoTGE | GT => DoTGT end.

Lemma test_op_implements f s :
  operands wsize wsize s ->
  implements (test_op f) s wsize wsize (inr (if f (stks s (SP s) wsize) then 1 else 0)).
Proof.
  intros (Hs & Hle & Hroom). pose proof (after_refl s Hs) as H0. apply wp_implements.
  unfold test_op. apply wp_bind. eapply wp_spoilFRA; [exact H0|]. intros s1 H1.
  apply wp_bind. eapply wp_after_wpop; [exact H1|cbn; lia|].
  rewrite Z.add_0_r, Z.add_0_l. intros s2 H2. by apply wp_push_result.
Qed.

(** TLT, TLE, TEQ, TNE, TGE and TGT replace the word on top by 1 if it is in
    the relation to zero and by 0 otherwise. *)
Theorem tests r s :
  operands wsize wsize s ->
  implements (test_instr r) s wsize wsize
    (inr (if decide (holds r (stks s (SP s) wsize) 0) then 1 else 0)).
Proof.
  intros Hops. destruct r; cbn [test_instr]; unfold DoTLT, DoTLE, DoTEQ, DoTNE, DoTGE, DoTGT;
    match goal with |- implements (test_op ?f) _ _ _ _ => pose proof (test_op_implements f s Hops) as H end;
    cbv beta in H; (eapply eq_ind; [exact H|]); f_equal; destruct (decide _) as [Hd|Hd]; cbn [holds] in Hd;
    match goal with |- (if ?b then _ else _) = _ => destruct b eqn:E end; first [done | lia].
Qed.
End Comparisons.

(** ** Bytewise operations *)

(** The bits of a number whose low byte is [b]. *)
Lemma testbit_byte b r i : 0 <= b < 256 -> 0 <= i ->
  Z.testbit (b + 256 * r) i = if i <? 8 then Z.testbit b i else Z.testbit r (i - 8).
Proof.
  intros Hb Hi. rewrite <- lor_byte by done. rewrite Z.lor_spec, Z.shiftl_spec by done.
  destruct (Z.ltb_spec i 8).
  - rewrite (Z.testbit_neg_r r) by lia. apply orb_false_r.
  - destruct (Z.eq_dec b 0) as [->|]; [by rewrite Z.bits_0|].
    rewrite (Z.bits_above_log2 b i); [done|lia|].
    apply Z.lt_le_trans with 8; [|done]. apply Z.log2_lt_pow2; lia.
Qed.

(** An operation on numbers that works bit by bit. *)
Definition bitwise (op : Z -> Z -> Z) : Prop :=
  exists f, forall a b i, 0 <= i -> Z.testbit (op a b) i = f (Z.testbit a i) (Z.testbit b i).
Lemma bitwise_land : bitwise Z.land.
Proof. exists andb. intros. apply Z.land_spec. Qed.
Lemma bitwise_lor : bitwise Z.lor.
Proof. exists orb. intros. apply Z.lor_spec. Qed.
Lemma bitwise_lxor : bitwise Z.lxor.
Proof. exists xorb. intros. apply Z.lxor_spec. Qed.

Lemma char_bits x i : 0 <= i -> Z.testbit (char x) i = if i <? 8 then Z.testbit x i else false.
Proof.
  intros Hi. unfold char. change 256 with (2 ^ 8). destruct (Z.ltb_spec i 8).
  - by rewrite Z.mod_pow2_bits_low by lia.
  - by rewrite Z.mod_pow2_bits_high by lia.
Qed.
(** On bytes, and on the rest. *)
Lemma bitwise_byte op a b x y :
  bitwise op -> 0 <= a < 256 -> 0 <= b < 256 ->
  op (a + 256 * x) (b + 256 * y) = char (op a b) + 256 * op x y.
Proof.
  intros [f Hf] Ha Hb. apply Z.bits_inj'. intros i Hi.
  rewrite Hf, !testbit_byte by (try apply char_range; done).
  destruct (Z.ltb_spec i 8).
  - rewrite char_bits by done. replace (i <? 8) with true by lia. by rewrite Hf.
  - by rewrite Hf by lia.
Qed.

(** The memory in which [n] bytes at [a] are the bytewise combination of the bytes
    of [m] [l] bytes lower with those at [a]. *)
Lemma ldn_combined op n : forall m m' a l,
  bitwise op -> bytes_ok m -> op 0 0 = 0 ->
  (forall i, 0 <= i < Z.of_nat n -> mget m' (a + l + i) = char (op (mget m (a + l + i)) (mget m (a + i)))) ->
  ldn m' (a + l) n = op (ldn m (a + l) n) (ldn m a n).
Proof.
  induction n as [|n IH]; intros m m' a l Hop Hm H0 H; cbn [ldn]; [done|].
  rewrite bitwise_byte by (try apply mget_range; done).
  pose proof (H 0 ltac:(lia)) as E. rewrite !Z.add_0_r in E. rewrite E. f_equal. f_equal.
  replace (a + l + 1) with (a + 1 + l) by lia. apply IH; [done..|]. intros i Hi.
  replace (a + 1 + l + i) with (a + l + (1 + i)) by lia.
  replace (a + 1 + i) with (a + (1 + i)) by lia. apply H. lia.
Qed.
Lemma ldn_lnot n : forall m m' a,
  bytes_ok m -> (forall i, 0 <= i < Z.of_nat n -> mget m' (a + i) = char (Z.lnot (mget m (a + i)))) ->
  ldn m' a n = 2 ^ (8 * Z.of_nat n) - 1 - ldn m a n.
Proof.
  induction n as [|n IH]; intros m m' a Hm H; cbn [ldn]; [done|].
  rewrite (IH m m' (a + 1)); [|done|].
  - pose proof (H 0 ltac:(lia)) as E. rewrite !Z.add_0_r in E. rewrite E.
    pose proof (mget_range m a Hm). unfold char, Z.lnot.
    replace (Z.pred (- mget m a)) with (255 - mget m a + -1 * 256) by lia.
    rewrite Z_mod_plus_full, Z.mod_small by lia.
    replace (8 * Z.of_nat (S n)) with (8 + 8 * Z.of_nat n) by lia.
    rewrite Z.pow_add_r by lia. change (2 ^ 8) with 256. lia.
  - intros i Hi. replace (a + 1 + i) with (a + (1 + i)) by lia. apply H. lia.
Qed.

Section Bytewise.
Context {cfg : Config} {ok : ConfigOk}.

Lemma check_def_run p l s :
  stack_valid p s = true -> stack_valid (p +p l) s = true ->
  exists w, check_def p l s = Ret tt (set_warn w s).
Proof.
  intros H1 H2. unfold check_def, st_sh. run. rewrite H1. run.
  destruct (_ =? 0); run; [by exists (warned WUNLOG s).(warn)|]. rewrite H2. run.
  destruct (_ =? 0); run; [by exists (warned WUNLOG s).(warn) | exists (warn s); by rewrite set_warn_id].
Qed.

(** [s] with other bytes in the stack. *)
Definition put_bytes (m : gmap Z Z) (s : state) : state := set_stack (set_bytes m (stack s)) s.
Lemma put_bytes_id s : put_bytes (bytes (stack s)) s = s.
Proof. by destruct s as [???????????????? [? ? ?] ??????????]. Qed.

Fixpoint combine (op : Z -> Z -> Z) (m : gmap Z Z) (p l : Z) (i : nat) : gmap Z Z :=
  match i with
  | O => m
  | S i' => combine op (<[p + l := char (op (mget m (p + l)) (mget m p))]> m) (p + 1) l i'
  end.
Lemma combine_lookup op i : forall m p l a, Z.of_nat i <= l ->
  mget (combine op m p l i) a =
  if (p + l <=? a) && (a <? p + l + Z.of_nat i) then char (op (mget m a) (mget m (a - l))) else mget m a.
Proof.
  induction i as [|i IH]; intros m p l a Hi; cbn [combine].
  - by replace (_ && _) with false by lia.
  - rewrite IH by lia. destruct (decide (a = p + l)) as [->|Hne].
    + replace (_ && _) with false by lia. replace (_ && _) with true by lia.
      rewrite mget_insert_eq. do 3 f_equal. lia.
    + rewrite !mget_insert_ne by done.
      replace (p + 1 + l <=? a) with (p + l <=? a) by lia.
      replace (a <? p + 1 + l + Z.of_nat i) with (a <? p + l + Z.of_nat (S i)) by lia.
      destruct ((p + l <=? a) && (a <? p + l + Z.of_nat (S i))) eqn:E; [|done].
      by rewrite mget_insert_ne by lia.
Qed.
Lemma bytes_ok_combine op i : forall m p l, bytes_ok m -> bytes_ok (combine op m p l i).
Proof.
  induction i as [|i IH]; intros m p l Hm; cbn [combine]; [done|].
  apply IH, bytes_ok_insert; [done | apply char_range].
Qed.

Lemma logic_loop_run op i : forall p l s,
  ML + 1 - alloc (stack s) <= p -> 0 <= p -> 0 <= l -> p + l + Z.of_nat i <= ML + 1 ->
  exists w, logic_loop op i p l s
    = Ret tt (set_warn w (put_bytes (combine op (bytes (stack s)) p l i) s)).
Proof.
  pose proof ML_range as HML.
  induction i as [|i IH]; intros p l s Hlo H0 Hl Hhi; cbn [logic_loop combine].
  - exists (warn s). by rewrite put_bytes_id, set_warn_id.
  - assert (Hv1 : stack_valid p s = true) by (unfold stack_valid; lia).
    assert (Hv2 : stack_valid (p +p l) s = true) by (rewrite padd_small by lia; unfold stack_valid; lia).
    destruct (check_def_run p l s Hv1 Hv2) as [w Hw]. run. rewrite Hw. run.
    unfold stack_loc, set_stack_loc.
    change (stack_valid ?a (set_warn w s)) with (stack_valid a s). rewrite Hv2. run.
    change (stack_valid ?a (set_warn w s)) with (stack_valid a s). rewrite Hv1. run.
    change (stack_valid ?a (set_warn w s)) with (stack_valid a s). rewrite Hv2. run.
    rewrite !padd_small by lia.
    match goal with |- context [logic_loop op i _ _ ?x] =>
      destruct (IH (p + 1) l x) as [w' Hw']; [cbn; lia..|] end.
    rewrite Hw'. by exists w'.
Qed.
Lemma Inv_put_bytes m s : Inv s -> bytes_ok m -> Inv (put_bytes m s).
Proof. intros [] Hm. by constructor. Qed.

(** The result replaces two objects of [l] bytes. *)
Record combined (v l : Z) (s s' : state) : Prop := mkCombined {
  cb_SP : SP s' = SP s + l;
  cb_val : stk s' (SP s') l = v;
  cb_above : forall a, SP s + 2 * l <= a -> mget (bytes (stack s')) a = mget (bytes (stack s)) a;
  cb_rest : rest s' = rest s;
  cb_inv : Inv s'
}.

Lemma logic_op_combined op l s :
  bitwise op -> op 0 0 = 0 ->
  Inv s -> 0 < l <= max_off -> l mod wsize = 0 -> SP s + 2 * l <= LB s ->
  exists s', logic_op op l s = Ret tt s' /\
    combined (op (stk s (SP s + l) l) (stk s (SP s) l)) l (spoiled s) s'.
Proof.
  intros Hop Hop0 Hs Hl Hal Hle. pose proof (Inv_spoiled s Hs) as Hs1.
  pose proof (inv_SP s Hs). pose proof (inv_LB s Hs). pose proof (inv_stack s Hs). pose proof max_off_range.
  apply (wp_run (logic_op op l) s tt).
  unfold logic_op. apply wp_bind. change (wp False spoilFRA ?Q ?T s) with (Q tt (spoiled s)). cbv beta.
  apply wp_bind, wp_arg_w; [done|done|]. wregs. apply wp_bind.
  destruct (logic_loop_run op (Z.to_nat l) (SP (spoiled s)) l (spoiled s)) as [w Hw]; [cbn; lia..|].
  unfold wp at 1. rewrite Hw.
  set (m := combine op _ _ _ _).
  assert (Hm : bytes_ok m) by (apply bytes_ok_combine, Hs1).
  apply wp_st_dec; [by apply Inv_set_warn, Inv_put_bytes|lia|done| |].
  { change (SP s + l <= LB s). lia. }
  split; [done|].
  constructor; [done| | |done|].
  - change (stk (set_SP _ _) _ l) with (ldn m (SP s + l) (Z.to_nat l)).
    apply (ldn_combined op (Z.to_nat l) (bytes (stack s)) m (SP s) l); [done|apply Hs|done|].
    intros i Hi. unfold m. rewrite combine_lookup by lia. cbn [SP spoiled set_FRA_def].
    change (SP (spoiled s)) with (SP s). replace (_ && _) with true by lia.
    change (stack (spoiled s)) with (stack s). do 3 f_equal. lia.
  - intros a Ha. change (SP (spoiled s)) with (SP s) in Ha.
    change (mget m a = mget (bytes (stack s)) a). unfold m. rewrite combine_lookup by lia.
    change (SP (spoiled s)) with (SP s). by replace (_ && _) with false by lia.
  - apply (Inv_set_SP (SP s + l) (set_warn w (put_bytes m (spoiled s)))).
    + by apply Inv_set_warn, Inv_put_bytes.
    + change (SP (set_warn _ _)) with (SP s). change (LB (set_warn _ _)) with (LB s). lia.
    + rewrite Zplus_mod, (inv_SP_aligned s Hs), Hal. apply Z.mod_0_l. pose proof ok_wsize; lia.
Qed.

Fixpoint complement (m : gmap Z Z) (p : Z) (i : nat) : gmap Z Z :=
  match i with
  | O => m
  | S i' => complement (<[p := char (Z.lnot (mget m p))]> m) (p + 1) i'
  end.
Lemma complement_lookup i : forall m p a,
  mget (complement m p i) a =
  if (p <=? a) && (a <? p + Z.of_nat i) then char (Z.lnot (mget m a)) else mget m a.
Proof.
  induction i as [|i IH]; intros m p a; cbn [complement].
  - by replace (_ && _) with false by lia.
  - rewrite IH. destruct (decide (a = p)) as [->|Hne].
    + replace ((p + 1 <=? p) && _) with false by lia. replace (_ && _) with true by lia.
      by rewrite mget_insert_eq.
    + rewrite !mget_insert_ne by done.
      replace (p + 1 <=? a) with (p <=? a) by lia.
      by replace (a <? p + 1 + Z.of_nat i) with (a <? p + Z.of_nat (S i)) by lia.
Qed.
Lemma bytes_ok_complement i : forall m p, bytes_ok m -> bytes_ok (complement m p i).
Proof.
  induction i as [|i IH]; intros m p Hm; cbn [complement]; [done|].
  apply IH, bytes_ok_insert; [done | apply char_range].
Qed.
Lemma com_loop_run i : forall p s,
  ML + 1 - alloc (stack s) <= p -> 0 <= p -> p + Z.of_nat i <= ML + 1 ->
  exists w, com_loop i p s = Ret tt (set_warn w (put_bytes (complement (bytes (stack s)) p i) s)).
Proof.
  pose proof ML_range as HML.
  induction i as [|i IH]; intros p s Hlo H0 Hhi; cbn [com_loop complement].
  - exists (warn s). by rewrite put_bytes_id, set_warn_id.
  - assert (Hv1 : stack_valid p s = true) by (unfold stack_valid; lia).
    assert (Hv2 : stack_valid (p +p 0) s = true) by (rewrite padd_small by lia; unfold stack_valid; lia).
    destruct (check_def_run p 0 s Hv1 Hv2) as [w Hw]. run. rewrite Hw. run.
    unfold stack_loc, set_stack_loc.
    change (stack_valid ?a (set_warn w s)) with (stack_valid a s). rewrite Hv1. run.
    change (stack_valid ?a (set_warn w s)) with (stack_valid a s). rewrite Hv1. run.
    rewrite padd_small by lia.
    match goal with |- context [com_loop i _ ?x] =>
      destruct (IH (p + 1) x) as [w' Hw']; [cbn; lia..|] end.
    rewrite Hw'. by exists w'.
Qed.

Inductive logop := And | Ior | Xor.
Definition logop_instr (op : logop) : Z -> M unit :=
  match op with And => DoAND | Ior => DoIOR | Xor => DoXOR end.
Definition logop_fun (op : logop) : Z -> Z -> Z :=
  match op with And => Z.land | Ior => Z.lor | Xor => Z.lxor end.

(** AND, IOR and XOR, byte loops over operands of any legal size, replace the two
    operands by the bitwise operation on them as numbers of that size. *)
Theorem logical_operations op l s :
  Inv s -> 0 < l <= max_off -> l mod wsize = 0 -> SP s + 2 * l <= LB s ->
  exists s', logop_instr op l s = Ret tt s' /\
    combined (logop_fun op (stk s (SP s + l) l) (stk s (SP s) l)) l (spoiled s) s'.
Proof.
  destruct op; intros; apply logic_op_combined;
    auto using bitwise_land, bitwise_lor, bitwise_lxor.
Qed.

(** COM replaces the operand of any legal size by its one's complement. *)
Theorem complement_operation l s :
  Inv s -> 0 < l <= max_off -> l mod wsize = 0 -> SP s + l <= LB s ->
  exists s', DoCOM l s = Ret tt s' /\
    SP s' = SP s /\ rest s' = rest (spoiled s) /\ Inv s' /\
    stk s' (SP s) l = 2 ^ (8 * l) - 1 - stk s (SP s) l /\
    forall a, SP s + l <= a -> mget (bytes (stack s')) a = mget (bytes (stack s)) a.
Proof.
  intros Hs Hl Hal Hle. pose proof (Inv_spoiled s Hs) as Hs1.
  pose proof (inv_SP s Hs). pose proof (inv_LB s Hs). pose proof (inv_stack s Hs). pose proof max_off_range.
  apply (wp_run (DoCOM l) s tt).
  unfold DoCOM. apply wp_bind. change (wp False spoilFRA ?Q ?T s) with (Q tt (spoiled s)). cbv beta.
  apply wp_bind, wp_arg_w; [done|done|]. wregs.
  destruct (com_loop_run (Z.to_nat l) (SP (spoiled s)) (spoiled s)) as [w Hw]; [cbn; lia..|].
  unfold wp at 1. rewrite Hw. change (SP (spoiled s)) with (SP s).
  change (stack (spoiled s)) with (stack s).
  set (m := complement _ _ _).
  assert (Hm : bytes_ok m) by (apply bytes_ok_complement, Hs).
  split_and!; [done|done|done|by apply Inv_set_warn, Inv_put_bytes| |].
  - change (stk (set_warn _ _) _ l) with (ldn m (SP s) (Z.to_nat l)).
    rewrite (ldn_lnot (Z.to_nat l) (bytes (stack s)) m (SP s)); [by rewrite Z2Nat.id by lia|apply Hs|].
    intros i Hi. unfold m. rewrite complement_lookup. by replace (_ && _) with true by lia.
  - intros a Ha. change (mget m a = mget (bytes (stack s)) a). unfold m.
    rewrite complement_lookup. by replace (_ && _) with false by lia.
Qed.
End Bytewise.

(** ** Rotations *)
Lemma sext_bits w x i : 0 < w -> 0 <= i < w -> Z.testbit (sext w x) i = Z.testbit x i.
Proof.
  intros Hw Hi. rewrite <- (Z.mod_pow2_bits_low x w i) by lia. rewrite <- sext_mod by done.
  by rewrite Z.mod_pow2_bits_low by lia.
Qed.
Lemma BIT_pow n : 0 <= n -> BIT n = 2 ^ n.
Proof. intros. unfold BIT. rewrite Z.shiftl_mul_pow2 by done. lia. Qed.
Lemma BIT_bits n i : 0 <= n -> Z.testbit (BIT n) i = (i =? n).
Proof.
  intros Hn. rewrite BIT_pow by done. destruct (Z.eqb_spec i n) as [->|Hne].
  - by apply Z.pow2_bits_true.
  - apply Z.pow2_bits_false. done.
Qed.
Lemma land_BIT x n : 0 <= n -> (Z.land x (BIT n) =? 0) = negb (Z.testbit x n).
Proof.
  intros Hn. destruct (Z.eqb_spec (Z.land x (BIT n)) 0) as [E|E].
  - apply (f_equal (fun y => Z.testbit y n)) in E.
    rewrite Z.land_spec, BIT_bits, Z.eqb_refl, Z.bits_0, andb_true_r in E by done. by rewrite E.
  - destruct (Z.testbit x n) eqn:Hb; [done|]. exfalso. apply E. apply Z.bits_inj'. intros i Hi.
    rewrite Z.land_spec, BIT_bits, Z.bits_0 by done.
    destruct (Z.eqb_spec i n) as [->|]; [by rewrite Hb | apply andb_false_r].
Qed.

Lemma rol_step_bits w x i : 0 < w <= 32 -> 0 <= i < w ->
  Z.testbit (rol_step (BIT (w - 1)) x) i = Z.testbit x ((i - 1) mod w).
Proof.
  intros Hw Hi. unfold rol_step. rewrite land_BIT by lia.
  assert (Hs : Z.testbit (s64 (Z.shiftl x 1)) i = Z.testbit x (i - 1)).
  { unfold s64. rewrite sext_bits by lia. by rewrite Z.shiftl_spec by lia. }
  destruct (Z.eq_dec i 0) as [->|Hne].
  - replace ((0 - 1) mod w) with (w - 1)
      by (rewrite <- (Z_mod_plus_full _ 1), Z.mod_small; lia).
    destruct (Z.testbit x (w - 1)); cbn [negb].
    + rewrite Z.lor_spec, BIT_bits by lia. apply orb_true_r.
    + rewrite Hs. by apply Z.testbit_neg_r.
  - rewrite (Z.mod_small (i - 1)) by lia. destruct (negb _); [done|].
    rewrite Z.lor_spec, BIT_bits, Hs by lia. replace (i =? 0) with false by lia. apply orb_false_r.
Qed.
Lemma ror_step_bits w x i : 0 < w <= 32 -> 0 <= i < w ->
  Z.testbit (ror_step (BIT (w - 1)) x) i = Z.testbit x ((i + 1) mod w).
Proof.
  intros Hw Hi. unfold ror_step. rewrite land_BIT by lia.
  destruct (Z.eq_dec i (w - 1)) as [->|Hne].
  - replace ((w - 1 + 1) mod w) with 0 by (replace (w - 1 + 1) with w by lia; by rewrite Z_mod_same_full).
    destruct (Z.testbit x 0); cbn [negb].
    + rewrite Z.lor_spec, BIT_bits, Z.eqb_refl by lia. apply orb_true_r.
    + rewrite Z.ldiff_spec, BIT_bits, Z.eqb_refl by lia. apply andb_false_r.
  - rewrite (Z.mod_small (i + 1)) by lia. destruct (negb _).
    + rewrite Z.ldiff_spec, BIT_bits, Z.shiftr_spec by lia. replace (i =? w - 1) with false by lia.
      apply andb_true_r.
    + rewrite Z.lor_spec, BIT_bits, Z.shiftr_spec by lia. replace (i =? w - 1) with false by lia.
      apply orb_false_r.
Qed.

Section Rotations.
Context {cfg : Config} {ok : ConfigOk}.

Inductive rotop := Rol | Ror.
Definition rot_step (op : rotop) : Z -> Z -> Z := match op with Rol => rol_step | Ror => ror_step end.
Definition rot_instr (op : rotop) : Z -> M unit := match op with Rol => DoROL | Ror => DoROR end.
(** The bit of the operand that a rotation of [w] bits over [d] puts at [i]. *)
Definition rot_from (op : rotop) (w d i : Z) : Z :=
  match op with Rol => (i - d) mod w | Ror => (i + d) mod w end.

Lemma rot_iter_bits op w x n : forall i, 0 < w <= 32 -> 0 <= i < w ->
  Z.testbit (Nat.iter n (rot_step op (BIT (w - 1))) x) i = Z.testbit x (rot_from op w (Z.of_nat n) i).
Proof.
  induction n as [|n IH]; intros i Hw Hi.
  - cbn. f_equal. destruct op; unfold rot_from; rewrite ?Z.sub_0_r, ?Z.add_0_r; by rewrite Z.mod_small.
  - cbn [Nat.iter nat_rect]. change (nat_rect _ x (fun _ => rot_step op (BIT (w - 1))) n)
      with (Nat.iter n (rot_step op (BIT (w - 1))) x).
    destruct op; cbn [rot_step rot_from] in *.
    + rewrite rol_step_bits, IH by (try apply Z.mod_pos_bound; lia). f_equal.
      rewrite Zminus_mod_idemp_l. f_equal. lia.
    + rewrite ror_step_bits, IH by (try apply Z.mod_pos_bound; lia). f_equal.
      rewrite Zplus_mod_idemp_l. f_equal. lia.
Qed.

(** ROL and ROR rotate the operand below the distance, one bit at a time in a
    host long that is wider than the operand: bit i of the result is the bit of the
    operand that is the distance away, around the size of the operand. *)
Theorem rotations op l s :
  wi_size l -> operands (wsize + l) l s ->
  exists v, implements (rot_instr op l) s (wsize + l) l (inr v) /\
    forall i, 0 <= i < 8 * l ->
      Z.testbit v i = Z.testbit (stk s (SP s + wsize) l)
        (rot_from op (8 * l) (distance l (stk s (SP s) wsize)) i).
Proof.
  intros Hl (Hs & Hle & Hroom). destruct (wi_size_pop l Hl) as [Hp Hw].
  pose proof (after_refl s Hs) as H0. pose proof wsize_range as Hws.
  assert (Hn : l = 2 \/ l = 4) by apply Hl.
  set (x := stk s (SP s + wsize) l). set (d := distance l (stk s (SP s) wsize)).
  assert (Hd0 : 0 <= stk s (SP s) wsize) by (by apply stk_nonneg).
  assert (Hd : 0 <= d).
  { unfold d, distance. destruct must_test; [|done].
    destruct (_ <? 0); [lia|]. destruct (8 * l <=? _); lia. }
  exists (Nat.iter (Z.to_nat d) (rot_step op (BIT (8 * l - 1))) x). split.
  2: { intros i Hi. rewrite rot_iter_bits by lia. by rewrite Z2Nat.id. }
  assert (E : forall st, rot_instr op l st = rotate (rot_step op) l st) by (by destruct op).
  apply wp_implements. eapply wp_eq; [apply E|]. unfold rotate.
  apply wp_bind. eapply wp_after_uwpop; [exact H0|lia|]. rewrite Z.add_0_r, Z.add_0_l. intros s1 H1.
  apply wp_bind. eapply wp_spoilFRA; [exact H1|]. intros s2 H2.
  apply wp_bind, wp_arg_wi; [done|].
  apply wp_bind. eapply wp_after_upop; [exact H2|done|rewrite Hw; cbn; lia|]. rewrite Hw. intros s3 H3.
  assert (Ebit : (if l =? 2 then SIGNBIT2 else SIGNBIT4) = BIT (8 * l - 1)).
  { by destruct Hn as [-> | ->]. }
  rewrite Ebit. apply wp_bind.
  assert (Hfin : forall s4, after (spoiled s) (wsize + l) s4 ->
    wp False (npush (Nat.iter (Z.to_nat d) (rot_step op (BIT (8 * l - 1))) x) l)
      (fun _ s' => exists v, inr (A := Z) (Nat.iter (Z.to_nat d) (rot_step op (BIT (8 * l - 1))) x) = inr v
         /\ replaces (spoiled s) (wsize + l) l v s')
      (fun nr s' => inr (Nat.iter (Z.to_nat d) (rot_step op (BIT (8 * l - 1))) x) = inl nr
         /\ after (spoiled s) (wsize + l) s') s4).
  { intros s4 H4. eapply wp_after_npush; [exact H4|done|exact Hroom|]. intros s5 H5. by eexists. }
  destruct must_test eqn:Ht.
  - eapply wp_shift_distance; [done|done|exact H3|]. intros s4 H4. by apply Hfin.
  - apply wp_ret. assert (Ed : stk s (SP s) wsize = d) by (unfold d, distance; by rewrite Ht).
    rewrite Ed. by apply Hfin.
Qed.
End Rotations.

(** ** Sets and block comparison *)
Lemma ldn_bits n : forall m a i, bytes_ok m -> 0 <= i < 8 * Z.of_nat n ->
  Z.testbit (ldn m a n) i = Z.testbit (mget m (a + i / 8)) (i mod 8).
Proof.
  induction n as [|n IH]; intros m a i Hm Hi; [lia|]. cbn [ldn].
  rewrite testbit_byte by (try apply mget_range; done || lia).
  destruct (Z.ltb_spec i 8).
  - rewrite Z.div_small, Z.mod_small, Z.add_0_r by lia. done.
  - rewrite IH by (done || lia).
    replace i with (i - 8 + 1 * 8) at 3 4 by lia.
    rewrite Z.div_add, Z_mod_plus_full by lia. do 2 f_equal. lia.
Qed.

Section Sets.
Context {cfg : Config} {ok : ConfigOk}.

Lemma wp_after_st_dec U k n (Q : unit -> state -> Prop) T s s1 :
  after s k s1 -> 0 <= n < 2 ^ 32 -> n mod wsize = 0 -> SP s + k + n <= LB s ->
  (forall s2, after s (k + n) s2 -> Q tt s2) -> wp U (st_dec n) Q T s1.
Proof.
  intros H Hn Hal Hle HQ. pose proof (af_SP _ _ _ H) as E. pose proof (after_LB _ _ _ H) as E'.
  apply wp_st_dec; [apply H|done|done|lia|]. apply HQ.
  pose proof (after_popped s k s1 n (warn s1) H) as G. unfold popped in G. rewrite set_warn_id in G.
  apply G; [lia|done|lia].
Qed.

(** The bit number on top of a set of [l] bytes. *)
Definition set_bitno (s : state) : Z := stks s (SP s) wsize.

Lemma wordoff_nonneg b l : 0 <= b < 8 * l -> 0 <= wordoff b < l /\ wordoff b = b / 8.
Proof.
  intros Hb. unfold wordoff. rewrite Z.quot_div_nonneg by lia.
  pose proof (Z.div_mod b 8 ltac:(lia)). pose proof (Z.mod_pos_bound b 8 ltac:(lia)). lia.
Qed.
Lemma bitoff_nonneg b : 0 <= b -> bitoff b = b mod 8.
Proof.
  intros Hb. unfold bitoff. rewrite Z.rem_mod_nonneg by lia.
  pose proof (Z.mod_pos_bound b 8 ltac:(lia)). by replace (b mod 8 <? 0) with false by lia.
Qed.
Lemma s32_word s a : s32 (stks s a wsize) = stks s a wsize.
Proof.
  apply sext_small; [lia|]. pose proof (stks_fits s a wsize ok_wsize) as H. unfold fits in H.
  destruct ok_wsize as [E|E]; rewrite E in *; unfold i_mins, i_maxs, I_MINS2, I_MAXS2, I_MINS4, I_MAXS4 in H;
    cbn in H |- *; lia.
Qed.

Lemma wp_bitno l s Q T :
  Inv s -> 0 < l <= max_off -> l mod wsize = 0 -> SP s + wsize <= LB s ->
  forall k : Z -> Z -> M unit, (forall s1, after (spoiled s) wsize s1 -> wp False (k l (set_bitno s)) Q T s1) ->
  wp False (spoilFRA ;; l ← arg_w l; v ← swpop; k l (s32 v)) Q T s.
Proof.
  intros Hs Hl Hal Hle k HQ. pose proof (after_refl s Hs) as H0.
  apply wp_bind. eapply wp_spoilFRA; [exact H0|]. intros s1 H1.
  apply wp_bind, wp_arg_w; [done|done|].
  apply wp_bind. eapply wp_after_swpop; [exact H1|cbn; lia|]. rewrite Z.add_0_r, Z.add_0_l. intros s2 H2.
  rewrite s32_word. by apply HQ.
Qed.

(** [bit_test] and [create_set] behind the pop of the bit number. *)
Definition bit_test_body (l bitno : Z) : M unit :=
  t ← gets (tested ESET); when (t && (l <=? wordoff bitno)) (trap ESET) ;;
  sp ← gets SP; test_byte ← stack_loc (sp +p wordoff bitno);
  st_dec l ;; wpush (if Z.land test_byte (BIT (bitoff bitno)) =? 0 then 0 else 1).
Definition create_set_body (l bitno : Z) : M unit :=
  st_inc l ;; clear_set (Z.to_nat l) ;;
  t ← gets (tested ESET); when (t && (l <=? wordoff bitno)) (trap ESET) ;;
  sp ← gets SP; st_stn (sp +p wordoff bitno) (BIT (bitoff bitno)) 1.

(** INN replaces a bit number and the set below it by the bit of the set, seen
    as a number of any legal size; a bit number outside the set traps with ESET, if
    tests are on and the trap is not ignored. *)
Theorem set_membership l s :
  0 < l <= max_off -> l mod wsize = 0 -> operands (wsize + l) wsize s -> 0 <= set_bitno s ->
  (set_bitno s < 8 * l ->
     implements (DoINN l) s (wsize + l) wsize
       (inr (Z.b2z (Z.testbit (stk s (SP s + wsize) l) (set_bitno s))))) /\
  (8 * l <= set_bitno s -> tested ESET s = true ->
     exists s', DoINN l s = Trap ESET s' /\ after (spoiled s) wsize s').
Proof.
  intros Hl Hal (Hs & Hle & Hroom) Hb. pose proof max_off_range as Hmax. pose proof wsize_range as Hws.
  pose proof (inv_SP s Hs) as Hsp. pose proof (inv_LB s Hs) as Hlb. pose proof ML_range as HML.
  set (b := set_bitno s) in *.
  assert (Ht : forall s1, after (spoiled s) wsize s1 -> tested ESET s1 = tested ESET s).
  { intros s1 H1. unfold tested. by rewrite (after_IgnMask _ _ _ H1). }
  split; intros Hb'.
  - apply wp_implements.
    apply (wp_bitno l s _ _ Hs Hl Hal ltac:(lia) bit_test_body). unfold bit_test_body.
    intros s1 H1. fold b. destruct (wordoff_nonneg b l ltac:(lia)) as [Hw Ew]. wregs.
    replace (l <=? wordoff b) with false by lia. rewrite andb_false_r. unfold when, skip. wregs.
    pose proof (af_SP _ _ _ H1) as Esp. change (SP (spoiled s)) with (SP s) in Esp.
    pose proof (inv_stack s1 (af_inv _ _ _ H1)).
    apply wp_bind. unfold wp at 1. unfold stack_loc. rewrite padd_small by lia.
    replace (stack_valid _ s1) with true by (unfold stack_valid; lia). cbv beta.
    apply wp_bind. eapply wp_after_st_dec; [exact H1|lia|done|cbn; lia|]. intros s2 H2.
    apply wp_push_result; [done|done|].
    rewrite land_BIT by (rewrite bitoff_nonneg by done; by apply Z.mod_pos_bound).
    unfold stk. rewrite ldn_bits, <- Ew by (apply Hs || lia). rewrite <- bitoff_nonneg by done.
    rewrite (af_stack _ _ _ H1), Esp. change (stack (spoiled s)) with (stack s).
    by destruct (Z.testbit _ _).
  - intros Htest.
    assert (Hwp : wp False (DoINN l) (fun _ _ => False)
      (fun nr s' => nr = ESET /\ after (spoiled s) wsize s') s).
    { apply (wp_bitno l s _ _ Hs Hl Hal ltac:(lia) bit_test_body). unfold bit_test_body.
      intros s1 H1. fold b. wregs. rewrite Ht, Htest by done.
      assert (l <= wordoff b).
      { unfold wordoff. rewrite Z.quot_div_nonneg by lia. apply Z.div_le_lower_bound; lia. }
      replace (l <=? wordoff b) with true by lia. apply wp_bind. by split. }
    apply wp_trap_inv in Hwp as (nr & s' & E & -> & H'). by exists s'.
Qed.

(** The bytes of the new set, all zero. *)
Definition zeroed (n : nat) (s : state) : state :=
  set_stack (mkArea (fill (bytes (stack s)) (SP s) 0 n) (fill (shad (stack s)) (SP s) SH_INT n)
               (alloc (stack s))) s.
Lemma Inv_zeroed n s : Inv s -> Inv (zeroed n s).
Proof. intros []. constructor; cbn -[fill]; auto. by apply bytes_ok_fill; [|lia]. Qed.

Lemma wp_st_byte U a l (Q : unit -> state -> Prop) T s :
  Inv s -> on_stack a 1 s -> (forall w, Q tt (set_warn w (put_stk a l SH_INT 1 s))) ->
  wp U (st_stn a l 1) Q T s.
Proof.
  intros Hs Ha HQ. pose proof ML_range. pose proof (inv_SP s Hs). pose proof (inv_stack s Hs).
  pose proof Ha as [Ha1 Ha2].
  unfold st_stn, wp. run. rewrite ch_in_stack_run by (done || lia). run.
  unfold ch_aligned, is_aligned. assert (Z.min 1 wsize = 1) as -> by (sizes; done).
  change (u64 1) with 1. cbn [Z.eqb]. run. rewrite Z.mod_1_r. cbn [Z.eqb]. run.
  assert (sh_flags l 1 = SH_INT) as ->.
  { unfold sh_flags. replace (1 =? psize) with false by (sizes; done). by rewrite andb_false_r. }
  destruct (st_st_loop_run 1 a l SH_INT s) as [w Hw]; [lia..|].
  change (Z.to_nat 1) with 1%nat. rewrite Hw. apply HQ.
Qed.
Lemma clear_set_run n : forall s,
  Inv s -> SP s + Z.of_nat n <= ML + 1 -> exists w, clear_set n s = Ret tt (set_warn w (zeroed n s)).
Proof.
  pose proof ML_range.
  induction n as [|n IH]; intros s Hs Hn; cbn [clear_set].
  - exists (warn s). unfold zeroed. cbn. by destruct s as [???????????????? [? ? ?] ??????????].
  - pose proof (inv_SP s Hs).
    destruct (wp_run (st_stn (SP s +p Z.of_nat n) 0 1) s tt
      (fun s' => exists w, s' = set_warn w (put_stk (SP s + Z.of_nat n) 0 SH_INT 1 s))) as (s1 & E & w & ->).
    { rewrite padd_small by lia. apply wp_st_byte; [done|split; lia|]. intros w. split; [done|]. by exists w. }
    run. rewrite E.
    destruct (IH (set_warn w (put_stk (SP s + Z.of_nat n) 0 SH_INT 1 s))) as [w' E'];
      [by apply Inv_set_warn, Inv_put_stk|cbn; lia|].
    rewrite E'. exists w'. unfold zeroed, put_stk. rewrite !fill_S_last. done.
Qed.


(** One bit in a field of zeroes. *)
Lemma ldn_singleton n m a b :
  bytes_ok m -> 0 <= b < 8 * Z.of_nat n ->
  (forall i, 0 <= i < Z.of_nat n -> mget m (a + i) = if i =? b / 8 then BIT (b mod 8) else 0) ->
  ldn m a n = 2 ^ b.
Proof.
  intros Hm Hb H. apply Z.bits_inj'. intros i Hi.
  pose proof (Z.mod_pos_bound b 8 ltac:(lia)). pose proof (Z.div_mod b 8 ltac:(lia)).
  pose proof (Z.mod_pos_bound i 8 ltac:(lia)). pose proof (Z.div_mod i 8 ltac:(lia)).
  destruct (Z.ltb_spec i (8 * Z.of_nat n)).
  - rewrite ldn_bits, H by (done || lia).
    destruct (Z.eqb_spec (i / 8) (b / 8)).
    + rewrite BIT_bits by lia. destruct (Z.eqb_spec (i mod 8) (b mod 8)).
      * assert (i = b) as -> by lia. by rewrite Z.pow2_bits_true by lia.
      * by rewrite Z.pow2_bits_false by lia.
    + rewrite Z.bits_0. by rewrite Z.pow2_bits_false by lia.
  - rewrite Z.pow2_bits_false by lia. pose proof (ldn_range n m a Hm).
    destruct (Z.eq_dec (ldn m a n) 0) as [->|]; [by rewrite Z.bits_0|].
    apply Z.bits_above_log2; [lia|]. apply Z.lt_le_trans with (8 * Z.of_nat n); [|done].
    apply Z.log2_lt_pow2; lia.
Qed.

(** The new set with one bit, on a state [s1] that has popped the bit number. *)
Definition singleton (l b : Z) (s1 : state) : state :=
  put_stk (SP s1 - l + b / 8) (BIT (b mod 8)) SH_INT 1 (zeroed (Z.to_nat l) (grow (SP s1 - l) s1)).

Lemma singleton_replaces l b s s1 w :
  after (spoiled s) wsize s1 -> 0 < l <= max_off -> l mod wsize = 0 -> 0 <= b < 8 * l -> room l s1 ->
  replaces (spoiled s) wsize l (2 ^ b) (set_warn w (singleton l b s1)).
Proof.
  intros H1 Hl Hal Hb Hr. destruct (wordoff_nonneg b l Hb) as [Hw Ew]. rewrite Ew in Hw.
  pose proof (Z.mod_pos_bound b 8 ltac:(lia)) as Hbm.
  pose proof (Inv_grow_room l s1 (af_inv _ _ _ H1) ltac:(lia) Hal Hr) as Hg.
  pose proof (Inv_zeroed (Z.to_nat l) _ Hg) as Hz.
  destruct (grow_contract (SP s1 - l) s1 ltac:(lia)) as [Gb Gs].
  pose proof (af_SP _ _ _ H1) as Esp. change (SP (spoiled s)) with (SP s) in Esp.
  assert (Hb1 : forall a, mget (bytes (stack (singleton l b s1))) a =
    if a =? SP s1 - l + b / 8 then BIT (b mod 8) else
    if (SP s1 - l <=? a) && (a <? SP s1) then 0 else mget (bytes (stack s)) a).
  { intros a. change (bytes (stack (singleton l b s1))) with
      (<[SP s1 - l + b / 8 := char (BIT (b mod 8))]>
         (fill (bytes (stack (grow (SP s1 - l) s1))) (SP s1 - l) 0 (Z.to_nat l))).
    destruct (Z.eqb_spec a (SP s1 - l + b / 8)) as [->|].
    - rewrite mget_insert_eq. unfold char. apply Z.mod_small. rewrite BIT_pow by lia.
      split; [lia|]. change 256 with (2 ^ 8). apply Z.pow_lt_mono_r; lia.
    - rewrite mget_insert_ne by done. rewrite fill_lookup, Gb.
      rewrite (af_stack _ _ _ H1).
      replace (SP s1 - l + Z.of_nat (Z.to_nat l)) with (SP s1) by lia. done. }
  assert (Hs1 : forall a, mget (shad (stack (singleton l b s1))) a =
    if (SP s1 - l <=? a) && (a <? SP s1) then SH_INT else mget (shad (stack s)) a).
  { intros a. change (shad (stack (singleton l b s1))) with
      (<[SP s1 - l + b / 8 := SH_INT]>
         (fill (shad (stack (grow (SP s1 - l) s1))) (SP s1 - l) SH_INT (Z.to_nat l))).
    destruct (Z.eqb_spec a (SP s1 - l + b / 8)) as [->|].
    - rewrite mget_insert_eq. by replace (_ && _) with true by lia.
    - rewrite mget_insert_ne by done. rewrite fill_lookup, Gs.
      replace (SP s1 - l + Z.of_nat (Z.to_nat l)) with (SP s1) by lia. rewrite (af_stack _ _ _ H1).
      by destruct (_ && _). }
  constructor; rewrite ?SP_set_warn, ?stack_set_warn, ?stk_set_warn, ?rest_set_warn;
    change (SP (singleton l b s1)) with (SP s1 - l); change (SP (spoiled s)) with (SP s).
  - lia.
  - unfold stk. rewrite (ldn_singleton (Z.to_nat l) _ _ b).
    + symmetry. apply Z.mod_small. split; [lia|]. apply Z.pow_lt_mono_r; lia.
    + by apply Inv_put_stk.
    + lia.
    + intros i Hi. rewrite Hb1.
      replace (SP s1 - l + i =? SP s1 - l + b / 8) with (i =? b / 8) by lia.
      destruct (i =? b / 8); [done|]. by replace (_ && _) with true by lia.
  - intros i Hi. rewrite Hs1. by replace (_ && _) with true by lia.
  - intros a Ha. rewrite Hb1. replace (a =? _) with false by lia. by replace (_ && _) with false by lia.
  - intros a Ha. rewrite Hs1. by replace (_ && _) with false by lia.
  - rewrite <- (af_rest _ _ _ H1). unfold singleton, put_stk, zeroed, grow, extend.
    by destruct (SP s1 - l <? SL s1).
  - by apply Inv_set_warn, Inv_put_stk.
Qed.

Lemma wp_create_set l b s s1 Q T :
  after (spoiled s) wsize s1 -> 0 < l <= max_off -> l mod wsize = 0 -> 0 <= b -> room l s1 ->
  (b < 8 * l -> forall w, Q tt (set_warn w (singleton l b s1))) ->
  (tested ESET s = true -> 8 * l <= b -> forall s2, T ESET s2) ->
  b < 8 * l \/ (tested ESET s = true /\ 8 * l <= b) ->
  wp False (create_set_body l b) Q T s1.
Proof.
  intros H1 Hl Hal Hb Hr HQ HT Hcase. pose proof max_off_range.
  pose proof (af_inv _ _ _ H1) as Hi. pose proof (Inv_grow_room l s1 Hi ltac:(lia) Hal Hr) as Hg.
  pose proof (inv_SP _ Hg) as Hsp. pose proof (inv_LB _ Hg) as Hlb. pose proof ML_range.
  change (SP (grow (SP s1 - l) s1)) with (SP s1 - l) in Hsp.
  pose proof (inv_SP _ Hi). pose proof (inv_LB _ Hi).
  unfold create_set_body. apply wp_bind, wp_st_inc; [done|lia|done|done|].
  destruct (clear_set_run (Z.to_nat l) (grow (SP s1 - l) s1)) as [w E];
    [done|change (SP (grow (SP s1 - l) s1)) with (SP s1 - l); lia|].
  apply wp_bind. unfold wp at 1. rewrite E. wregs.
  assert (Et : tested ESET (set_warn w (zeroed (Z.to_nat l) (grow (SP s1 - l) s1))) = tested ESET s).
  { unfold tested. assert (IgnMask s1 = IgnMask s) as <- by apply (after_IgnMask _ _ _ H1).
    do 3 f_equal. unfold grow, extend. by destruct (SP s1 - l <? SL s1). }
  rewrite Et. destruct Hcase as [Hb'|[Htest Hb']].
  - destruct (wordoff_nonneg b l ltac:(lia)) as [Hw Ew].
    replace (l <=? wordoff b) with false by lia. rewrite andb_false_r. unfold when, skip. wregs.
    change (SP (set_warn _ _)) with (SP s1 - l). rewrite padd_small, Ew, bitoff_nonneg by lia.
    apply wp_st_byte; [by apply Inv_set_warn, Inv_zeroed| |].
    + split; [change (SP s1 - l <= SP s1 - l + b / 8); lia|lia].
    + intros w'. apply (HQ Hb' w').
  - assert (l <= wordoff b).
    { unfold wordoff. rewrite Z.quot_div_nonneg by lia. apply Z.div_le_lower_bound; lia. }
    rewrite Htest. replace (l <=? wordoff b) with true by lia. apply wp_bind. by apply HT.
Qed.

(** SET replaces a bit number by the set of any legal size that has this one
    member, the power of two as a number; a bit number outside the set traps with
    ESET, if tests are on and the trap is not ignored. *)
Theorem singleton_sets l s :
  0 < l <= max_off -> l mod wsize = 0 -> operands wsize l s -> 0 <= set_bitno s ->
  (set_bitno s < 8 * l -> implements (DoSET l) s wsize l (inr (2 ^ set_bitno s))) /\
  (8 * l <= set_bitno s -> tested ESET s = true -> exists s', DoSET l s = Trap ESET s').
Proof.
  intros Hl Hal (Hs & Hle & Hroom) Hb. split; intros Hb'.
  - apply wp_implements. apply (wp_bitno l s _ _ Hs Hl Hal Hle create_set_body). intros s1 H1.
    assert (Hr : room l s1) by by apply (after_room _ _ _ _ H1).
    eapply wp_create_set; [exact H1|done|done|done|done| |lia|by left].
    intros _ w. exists (2 ^ set_bitno s). split; [done|]. by apply singleton_replaces.
  - intros Ht. assert (Hwp : wp False (DoSET l) (fun _ _ => False) (fun nr _ => nr = ESET) s).
    { apply (wp_bitno l s _ _ Hs Hl Hal Hle create_set_body). intros s1 H1.
      assert (Hr : room l s1) by by apply (after_room _ _ _ _ H1).
      eapply wp_create_set; [exact H1|done|done|done|done|lia|done|by right]. }
    apply wp_trap_inv in Hwp as (nr & s' & E & ->). by exists s'.
Qed.

(** [n] bytes at [a] and at [b] are all defined and equal. *)
Definition same_defined (s : state) (a b n : Z) : Prop :=
  forall i, 0 <= i < n ->
    mget (shad (stack s)) (a + i) <> 0 /\ mget (shad (stack s)) (b + i) <> 0 /\
    mget (bytes (stack s)) (a + i) = mget (bytes (stack s)) (b + i).

Lemma compare_loop_run n : forall a b s,
  ML + 1 - alloc (stack s) <= a -> ML + 1 - alloc (stack s) <= b -> 0 <= a -> 0 <= b ->
  a + Z.of_nat n <= ML + 1 -> b + Z.of_nat n <= ML + 1 ->
  exists w r, compare_loop n a b s = Ret r (set_warn w s) /\
    ((r = 0 /\ same_defined s a b (Z.of_nat n)) \/ (r = 1 /\ ~ same_defined s a b (Z.of_nat n))).
Proof.
  pose proof ML_range.
  induction n as [|n IH]; intros a b s Ha Hb Ha0 Hb0 Ha1 Hb1; cbn [compare_loop].
  - exists (warn s), 0. run. rewrite set_warn_id. split; [done|]. left. split; [done|]. intros i Hi. lia.
  - assert (Hva : stack_valid a s = true) by (unfold stack_valid; lia).
    assert (Hvb : stack_valid b s = true) by (unfold stack_valid; lia).
    unfold st_sh, stack_loc. run. rewrite Hva.
    assert (Hat : forall i, same_defined s a b (Z.of_nat (S n)) -> i = 0 ->
      mget (shad (stack s)) a <> 0 /\ mget (shad (stack s)) b <> 0 /\
      mget (bytes (stack s)) a = mget (bytes (stack s)) b).
    { intros i Hd ->. pose proof (Hd 0 ltac:(lia)) as G. by rewrite !Z.add_0_r in G. }
    destruct (Z.eqb_spec (mget (shad (stack s)) a) 0) as [E|E]; run.
    { exists (warn (warned WUNCMP s)), 1. rewrite warning_ret by done. run. split; [done|]. right.
      split; [done|]. intros Hd. by destruct (Hat 0 Hd eq_refl). }
    rewrite Hvb. run. destruct (Z.eqb_spec (mget (shad (stack s)) b) 0) as [E'|E']; run.
    { exists (warn (warned WUNCMP s)), 1. rewrite warning_ret by done. run. split; [done|]. right.
      split; [done|]. intros Hd. by destruct (Hat 0 Hd eq_refl) as (_ & ? & _). }
    rewrite Hva. run. rewrite Hvb. run.
    destruct (Z.eqb_spec (mget (bytes (stack s)) a) (mget (bytes (stack s)) b)) as [Eb|Eb]; run.
    2: { exists (warn s), 1. rewrite set_warn_id. split; [done|]. right. split; [done|].
         intros Hd. by destruct (Hat 0 Hd eq_refl) as (_ & _ & ?). }
    rewrite !padd_small by lia. destruct (IH (a + 1) (b + 1) s) as (w & r & Er & Hr); [lia..|].
    exists w, r. split; [done|].
    assert (Hiff : same_defined s (a + 1) (b + 1) (Z.of_nat n) <-> same_defined s a b (Z.of_nat (S n))).
    { split; intros Hd i Hi.
      - destruct (Z.eq_dec i 0) as [->|]; [by rewrite !Z.add_0_r|].
        pose proof (Hd (i - 1) ltac:(lia)) as G.
        replace (a + 1 + (i - 1)) with (a + i) in G by lia.
        by replace (b + 1 + (i - 1)) with (b + i) in G by lia.
      - pose proof (Hd (1 + i) ltac:(lia)) as G. by rewrite !Z.add_assoc in G. }
    destruct Hr as [[-> Hr]|[-> Hr]]; [left | right]; (split; [done|]); by rewrite <- Hiff.
Qed.

(** CMS replaces two blocks of any legal size by 0 when all their bytes are
    defined and equal, and by 1 otherwise. *)
Theorem block_comparison l s :
  0 < l <= max_off -> l mod wsize = 0 -> operands (2 * l) wsize s ->
  (same_defined s (SP s) (SP s + l) l /\ implements (DoCMS l) s (2 * l) wsize (inr 0)) \/
  (~ same_defined s (SP s) (SP s + l) l /\ implements (DoCMS l) s (2 * l) wsize (inr 1)).
Proof.
  intros Hl Hal (Hs & Hle & Hroom). pose proof (after_refl s Hs) as H0.
  pose proof max_off_range as Hmax. pose proof ML_range as HML.
  pose proof (inv_SP s Hs) as Hsp. pose proof (inv_LB s Hs) as Hlb. pose proof (inv_stack s Hs) as Hst.
  destruct (compare_loop_run (Z.to_nat l) (SP s) (SP s + l) (spoiled s)) as (w & r & E & Hr); [cbn; lia..|].
  rewrite Z2Nat.id in Hr by lia.
  assert (H : implements (DoCMS l) s (2 * l) wsize (inr r)).
  { apply wp_implements. unfold DoCMS. apply wp_bind.
    change (wp False spoilFRA ?Q ?T s) with (Q tt (spoiled s)). cbv beta.
    apply wp_bind, wp_arg_w; [done|done|]. unfold compare_obj. wregs.
    apply wp_bind. unfold wp at 1. change (SP (spoiled s)) with (SP s). rewrite padd_small, E by lia.
    assert (H1 : after (spoiled s) 0 (set_warn w (spoiled s))).
    { eapply after_eqw; [apply after_refl, Inv_spoiled, Hs|by eexists]. }
    apply wp_bind. eapply wp_after_st_dec; [exact H1|lia| |cbn; lia|].
    { rewrite Z.mul_mod, Hal by (sizes; lia). by rewrite Z.mul_0_r, Z.mod_0_l by (sizes; lia). }
    rewrite Z.add_0_l. intros s2 H2. by apply wp_push_result. }
  destruct Hr as [[-> Hr]|[-> Hr]]; [left | right]; by split.
Qed.
End Sets.
