(* ===== verification/Branch.v ===== *)
(** * Branches and integer conversions ([do_branch.c], [do_conv.c]) *)
From Stdlib Require Import ZArith Lia Bool.
From stdpp Require Import base gmap list.
From S2P Require Import Prelude Machine Warn Mem Wp Data Stack StackSpec Text Frame Instr Arith Logic.

Section Branch.
Context {cfg : Config}.

(** ** [do_branch.c] *)
Definition do_jump (j : Z) : M unit := pc ← gets PC; newPC (pc +p j).

(** BRA b: Branch unconditionally *)
Definition DoBRA (jump : Z) : M unit := j ← arg_c jump; do_jump j.

(** The branches on two words: [t] is the top, the test is [second ? top]. *)
Definition branch2 (f : Z -> Z -> bool) (jump : Z) : M unit :=
  t ← wpop; spoilFRA ;; s ← wpop;
  if f s t then j ← arg_c jump; do_jump j else skip.
Definition DoBLT := branch2 (fun s t => s <? t).
Definition DoBLE := branch2 (fun s t => s <=? t).
Definition DoBEQ := branch2 (fun s t => t =? s).
Definition DoBNE := branch2 (fun s t => negb (t =? s)).
Definition DoBGE := branch2 (fun s t => t <=? s).
Definition DoBGT := branch2 (fun s t => t <? s).

(** The branches on one word. *)
Definition branch1 (f : Z -> bool) (jump : Z) : M unit :=
  spoilFRA ;; s ← wpop;
  if f s then j ← arg_c jump; do_jump j else skip.
Definition DoZLT := branch1 (fun s => s <? 0).
Definition DoZLE := branch1 (fun s => s <=? 0).
Definition DoZEQ := branch1 (fun s => s =? 0).
Definition DoZNE := branch1 (fun s => negb (s =? 0)).
Definition DoZGE := branch1 (fun s => 0 <=? s).
Definition DoZGT := branch1 (fun s => 0 <? s).

(** ** [do_conv.c]: the conversions between integers and unsigneds *)
Definition bad_conv : M unit := wtrap WILLCONV EILLINS.
(** [if (wsize == 4) { wtrap(WILLCONV, EILLINS); }] *)
Definition not_on_4 : M unit := when (wsize =? 4) bad_conv.
(** [must_test && !(IgnMask&BIT(ECONV))] guarding a range. *)
Definition conv_check (bad : bool) : M unit :=
  t ← gets (tested ECONV); when (t && bad) (trap ECONV).
(** [(int)(10 * swpop() + newsize)], [newsize] being popped first. *)
Definition conv_sizes : M Z :=
  n ← swpop; let newsize := s32 n in
  spoilFRA ;;
  o ← swpop; ret (s32 (10 * o + newsize)).

(** CII -: Convert integer to integer *)
Definition DoCII : M unit :=
  c ← conv_sizes;
  if c =? 12 then not_on_4 ;; v ← spop 1; npush v 2
  else if c =? 14 then v ← spop 1; npush v 4
  else if c =? 22 then not_on_4
  else if c =? 24 then v ← spop 2; npush v 4
  else if c =? 42 then
    not_on_4 ;; s ← spop 4;
    conv_check ((s <? I_MINS2) || (I_MAXS2 <? s)) ;; npush s 2
  else if c =? 44 then skip
  else bad_conv.

(** CUI -: Convert unsigned to integer *)
Definition DoCUI : M unit :=
  c ← conv_sizes;
  if c =? 22 then
    not_on_4 ;; u ← upop 2; conv_check (I_MAXS2 <? u) ;; npush (s64 u) 2
  else if c =? 24 then not_on_4 ;; u ← upop 2; npush (s64 u) 4
  else if c =? 42 then
    not_on_4 ;; u ← upop 4; conv_check (I_MAXS2 <? u) ;; npush (s64 u) 2
  else if c =? 44 then
    u ← upop 4; conv_check (I_MAXS4 <? u) ;; npush (s64 u) 4
  else bad_conv.

(** CIU -: Convert integer to unsigned *)
Definition DoCIU : M unit :=
  c ← conv_sizes;
  if c =? 22 then not_on_4
  else if c =? 24 then not_on_4 ;; u ← upop 2; npush (s64 u) 4
  else if c =? 42 then not_on_4 ;; u ← upop 4; npush (s64 u) 2
  else if c =? 44 then skip
  else bad_conv.

(** CUU -: Convert unsigned to unsigned *)
Definition DoCUU : M unit :=
  c ← conv_sizes;
  if c =? 22 then not_on_4
  else if c =? 24 then not_on_4 ;; u ← upop 2; npush (s64 u) 4
  else if c =? 42 then not_on_4 ;; u ← upop 4; npush (s64 u) 2
  else if c =? 44 then skip
  else bad_conv.

End Branch.

#[export] Hint Unfold DoBRA DoBLT DoBLE DoBEQ DoBNE DoBGE DoBGT DoZLT DoZLE DoZEQ DoZNE DoZGE
  DoZGT DoCII DoCUI DoCIU DoCUU : instr.

(** ** Branches and conversions preserve the invariant *)
Section Keeps.
Context {cfg : Config} {ok : ConfigOk}.

Lemma keeps_do_jump j : keeps (do_jump j) any.
Proof. unfold do_jump. keeps_tac. Qed.
#[local] Hint Resolve keeps_do_jump : keeps.
Lemma keeps_branch2 f j : keeps (branch2 f j) any.
Proof. unfold branch2. keeps_tac. Qed.
Lemma keeps_branch1 f j : keeps (branch1 f j) any.
Proof. unfold branch1. keeps_tac. Qed.
Lemma keeps_conv_check b : keeps (conv_check b) any.
Proof. unfold conv_check. keeps_tac. Qed.
Lemma keeps_conv_sizes : keeps conv_sizes any.
Proof. unfold conv_sizes. keeps_tac. Qed.
(** After the guard on the word size, two-byte objects are words. *)
Lemma keeps_not_on_4 : keeps not_on_4 (fun _ => (wsize =? 4) = false).
Proof. apply keeps_guard_wtrap. Qed.
Lemma keeps_bad_conv : keeps bad_conv any.
Proof. apply keeps_wtrap. Qed.
Lemma obj_size_small n : 0 <= n <= 2 -> obj_size n.
Proof. intros. split; [lia|]. sizes; [..|left; lia];
  (destruct (Z.ltb_spec n 2); [left; lia | right; by replace n with 2 by lia]). Qed.
Lemma obj_size_1 : obj_size 1.
Proof. by apply obj_size_small. Qed.
Lemma obj_size_2 : obj_size 2.
Proof. by apply obj_size_small. Qed.
Lemma obj_size_4 : obj_size 4.
Proof. split; [lia|right]. by sizes. Qed.
End Keeps.
#[export] Hint Resolve keeps_do_jump keeps_branch2 keeps_branch1 keeps_conv_check keeps_conv_sizes
  keeps_not_on_4 keeps_bad_conv obj_size_1 obj_size_2 obj_size_4 : keeps.

(** ** Conditional branches *)
Section Branches.
Context {cfg : Config} {ok : ConfigOk}.

Definition branch1_instr (r : rel) : Z -> M unit :=
  match r with LT => DoZLT | LE => DoZLE | EQ => DoZEQ | NE => DoZNE | GE => DoZGE | GT => DoZGT end.
Definition branch2_instr (r : rel) : Z -> M unit :=
  match r with LT => DoBLT | LE => DoBLE | EQ => DoBEQ | NE => DoBNE | GE => DoBGE | GT => DoBGT end.

(** A state in which [m] behaves as [m'] does after [k] bytes have been popped. *)
Definition continues (m m' : M unit) (s : state) (k : Z) : Prop :=
  exists s1, after (spoiled s) k s1 /\ m s = m' s1.
Definition branch_to (taken : bool) (j : Z) : M unit := if taken then do_jump j else skip.

Lemma branch1_continues f j s :
  i_minsw <= j <= i_maxsw -> Inv s -> SP s + wsize <= LB s ->
  continues (branch1 f j) (branch_to (f (stks s (SP s) wsize)) j) s wsize.
Proof.
  intros Hj Hs Hle. pose proof (after_refl s Hs) as H0.
  destruct (wp_run (spoilFRA ;; wpop) s (stks s (SP s) wsize) (after (spoiled s) wsize)) as (s1 & E & H1).
  { apply wp_bind. eapply wp_spoilFRA; [exact H0|]. intros s1 H1.
    eapply wp_after_wpop; [exact H1|cbn; lia|]. rewrite Z.add_0_r, Z.add_0_l. by intros s2 H2. }
  exists s1. split; [done|]. unfold branch1, branch_to. unfold bind in E |- *.
  destruct (spoilFRA s) as [? s2| | |]; [|done..]. rewrite E. destruct (f _); [|done].
  unfold arg_c, check. by replace (_ || _) with false by lia.
Qed.
Lemma branch2_continues f j s :
  i_minsw <= j <= i_maxsw -> Inv s -> SP s + 2 * wsize <= LB s ->
  continues (branch2 f j) (branch_to (f (stks s (SP s + wsize) wsize) (stks s (SP s) wsize)) j) s (2 * wsize).
Proof.
  intros Hj Hs Hle. pose proof (after_refl s Hs) as H0. pose proof wsize_range as Hws.
  destruct (wp_run (t ← wpop; spoilFRA ;; u ← wpop; ret (u, t)) s
    (stks s (SP s + wsize) wsize, stks s (SP s) wsize) (after (spoiled s) (2 * wsize))) as (s1 & E & H1).
  { apply wp_bind. eapply wp_after_wpop; [exact H0|lia|]. rewrite Z.add_0_r, Z.add_0_l. intros s1 H1.
    apply wp_bind. eapply wp_spoilFRA; [exact H1|]. intros s2 H2.
    apply wp_bind. eapply wp_after_wpop; [exact H2|cbn; lia|]. intros s3 H3. apply wp_ret.
    split; [done|]. by replace (2 * wsize) with (wsize + wsize) by lia. }
  exists s1. split; [done|]. unfold branch2, branch_to. unfold bind in E |- *.
  destruct (wpop s) as [t s2| | |]; [|done..]. destruct (spoilFRA s2) as [? s3| | |]; [|done..].
  destruct (wpop s3) as [u s4| | |]; [|done..]. injection E as -> -> ->.
  destruct (f _ _); [|done]. unfold arg_c, check. by replace (_ || _) with false by lia.
Qed.

Lemma continues_taken m b b' j s k :
  continues m (branch_to b j) s k -> (b = true <-> b' = true) -> continues m (branch_to b' j) s k.
Proof. intros H E%eq_true_iff_eq. by subst. Qed.

(** A conditional branch pops its one or two words and jumps exactly when the
    word, compared with zero, or the word below the top, compared with the top, is
    in the relation that the instruction names; the jump is relative to the
    instruction that follows, and is checked by newPC. *)
Theorem conditional_branches r j s :
  i_minsw <= j <= i_maxsw -> Inv s ->
  (SP s + wsize <= LB s ->
     continues (branch1_instr r j)
       (branch_to (bool_decide (holds r (stks s (SP s) wsize) 0)) j) s wsize) /\
  (SP s + 2 * wsize <= LB s ->
     continues (branch2_instr r j)
       (branch_to (bool_decide (holds r (stks s (SP s + wsize) wsize) (stks s (SP s) wsize))) j)
       s (2 * wsize)).
Proof.
  intros Hj Hs. split; intros Hle.
  - destruct r; cbn [branch1_instr]; unfold DoZLT, DoZLE, DoZEQ, DoZNE, DoZGE, DoZGT;
      match goal with |- continues (branch1 ?f _) _ _ _ =>
        pose proof (branch1_continues f j s Hj Hs Hle) as H end;
      cbv beta in H; (eapply continues_taken; [exact H|]); rewrite bool_decide_eq_true; cbn [holds]; lia.
  - destruct r; cbn [branch2_instr]; unfold DoBLT, DoBLE, DoBEQ, DoBNE, DoBGE, DoBGT;
      match goal with |- continues (branch2 ?f _) _ _ _ =>
        pose proof (branch2_continues f j s Hj Hs Hle) as H end;
      cbv beta in H; (eapply continues_taken; [exact H|]); rewrite bool_decide_eq_true; cbn [holds]; lia.
Qed.
End Branches.

(** ** Conversions *)
Section Conversions.
Context {cfg : Config} {ok : ConfigOk}.

Inductive conv := Cii | Cui | Ciu | Cuu.
Definition conv_instr (c : conv) : M unit :=
  match c with Cii => DoCII | Cui => DoCUI | Ciu => DoCIU | Cuu => DoCUU end.
(** Only CII reads its operand as a signed integer. *)
Definition conv_operand (c : conv) (s : state) (o : Z) : Z :=
  let a := SP s + 2 * wsize in match c with Cii => stks s a o | _ => stk s a o end.
(** The sizes of the operand and of the result: single bytes can only be widened by
    CII, and two byte integers exist only on a machine with two byte words. *)
Definition conv_legal (c : conv) (o n : Z) : bool :=
  ((n =? 4) || ((n =? 2) && (wsize =? 2))) &&
  ((o =? 4) || ((o =? 2) && (wsize =? 2)) ||
   ((o =? 1) && match c with Cii => true | _ => false end)).
(** A conversion to a signed integer traps when the value does not fit. *)
Definition conv_ref (c : conv) (s : state) (n v : Z) : Z + Z :=
  match c with
  | Cii | Cui => if tested ECONV s && negb (fits n v) then inl ECONV else inr v
  | Ciu | Cuu => inr v
  end.

(** [n] bytes of the stack have replaced [k]. *)
Record converted (s : state) (k n v : Z) (s' : state) : Prop := mkConverted {
  cv_SP : SP s' = SP s + k - n;
  cv_val : stk s' (SP s') n = v mod 2 ^ (8 * n);
  cv_bytes : forall a, SP s + k <= a -> mget (bytes (stack s')) a = mget (bytes (stack s)) a;
  cv_rest : rest s' = rest s;
  cv_inv : Inv s'
}.
Lemma replaces_converted s k n v s' : replaces s k n v s' -> converted s k n v s'.
Proof. by intros []. Qed.
Lemma after_converted s k n v s' :
  after s k s' -> v mod 2 ^ (8 * n) = stk s (SP s + k) n -> converted s (k + n) n v s'.
Proof.
  intros H Hv. pose proof (after_stk s k s' (SP s + k) n H). destruct H as [H1 H2 H3 H4].
  constructor; [lia|congruence|by rewrite H2|done..].
Qed.

Lemma wp_conv_sizes o n s Q T :
  Inv s -> SP s + 2 * wsize <= LB s ->
  stks s (SP s) wsize = n -> stks s (SP s + wsize) wsize = o ->
  0 <= o <= 8 -> 0 <= n <= 8 ->
  (forall s2, after (spoiled s) (2 * wsize) s2 -> Q (10 * o + n) s2) -> wp False conv_sizes Q T s.
Proof.
  intros Hs Hle En Eo Ho Hn HQ. pose proof (after_refl s Hs) as H0. pose proof wsize_range as Hws.
  unfold conv_sizes. apply wp_bind. eapply wp_after_swpop; [exact H0|lia|].
  rewrite Z.add_0_r, Z.add_0_l, En. intros s1 H1.
  apply wp_bind. eapply wp_spoilFRA; [exact H1|]. intros s2 H2.
  apply wp_bind. eapply wp_after_swpop; [exact H2|cbn; lia|]. intros s3 H3.
  change (stks (spoiled s) (SP (spoiled s) + wsize) wsize) with (stks s (SP s + wsize) wsize).
  rewrite Eo. apply wp_ret. unfold s32. rewrite (sext_small 32 n), (sext_small 32) by lia. apply HQ.
  by replace (2 * wsize) with (wsize + wsize) by lia.
Qed.

(** What a conversion of [k] bytes ends in. *)
Definition conv_post (s : state) (k n : Z) (r : Z + Z) : (unit -> state -> Prop) * (Z -> state -> Prop) :=
  ((fun _ s' => exists v, r = inr v /\ converted (spoiled s) k n v s'),
   (fun nr s' => r = inl nr /\ after (spoiled s) k s')).

Lemma wp_conv_check s k n bad v s1 (r : Z + Z) :
  after (spoiled s) k s1 -> wi_size n -> has_room (SP s + k - n) s = true ->
  r = (if tested ECONV s && bad then inl ECONV else inr v) ->
  forall v', v' mod 2 ^ (8 * n) = v mod 2 ^ (8 * n) ->
  wp False (conv_check bad ;; npush v' n) (conv_post s k n r).1 (conv_post s k n r).2 s1.
Proof.
  intros H Hn Hr -> v' Ev. assert (Et : tested ECONV s1 = tested ECONV s).
  { unfold tested. by rewrite (after_IgnMask _ _ _ H). }
  unfold conv_check. apply wp_bind. wregs. rewrite Et. destruct (tested ECONV s && bad); [by split|].
  eapply wp_after_npush; [exact H|done|exact Hr|]. intros s2 H2. exists v. split; [done|].
  apply replaces_converted. by eapply replaces_mod.
Qed.
Lemma wp_conv_plain s k n v s1 :
  after (spoiled s) k s1 -> wi_size n -> has_room (SP s + k - n) s = true ->
  forall v', v' mod 2 ^ (8 * n) = v mod 2 ^ (8 * n) ->
  wp False (npush v' n) (conv_post s k n (inr v)).1 (conv_post s k n (inr v)).2 s1.
Proof.
  intros H Hn Hr v' Ev. eapply wp_after_npush; [exact H|done|exact Hr|]. intros s2 H2. exists v.
  split; [done|]. apply replaces_converted. by eapply replaces_mod.
Qed.
Lemma conv_skip s n v (r : Z + Z) s1 :
  after (spoiled s) (2 * wsize) s1 -> r = inr v -> v mod 2 ^ (8 * n) = stk s (SP s + 2 * wsize) n ->
  wp False skip (conv_post s (2 * wsize + n) n r).1 (conv_post s (2 * wsize + n) n r).2 s1.
Proof. intros H -> Hv. exists v. split; [done|]. by apply after_converted. Qed.

Lemma stks_range s a n : n = 2 \/ n = 4 -> i_mins n <= stks s a n <= i_maxs n.
Proof. intros H. pose proof (stks_fits s a n H) as F. unfold fits in F. lia. Qed.
Lemma stk_range s a n : Inv s -> 0 < n -> 0 <= stk s a n < 2 ^ (8 * n).
Proof.
  intros Hs Hn. unfold stk. replace (8 * n) with (8 * Z.of_nat (Z.to_nat n)) by lia.
  apply ldn_range, Hs.
Qed.
Lemma stks_byte s a : - 128 <= stks s a 1 < 128.
Proof. apply (sext_range 8). lia. Qed.

(** The operand and the room for the result. *)
Definition conv_ready (o n : Z) (s : state) : Prop :=
  Inv s /\ stks s (SP s) wsize = n /\ stks s (SP s + wsize) wsize = o /\
  SP s + 2 * wsize + width o <= LB s /\ has_room (SP s + 2 * wsize + width o - n) s = true.

(** The routine of a conversion of [o] bytes into [n], behind [conv_sizes]. *)
Definition conv_body (c : conv) (k : Z) : M unit :=
  match c with
  | Cii =>
      if k =? 12 then not_on_4 ;; v ← spop 1; npush v 2
      else if k =? 14 then v ← spop 1; npush v 4
      else if k =? 22 then not_on_4
      else if k =? 24 then v ← spop 2; npush v 4
      else if k =? 42 then
        not_on_4 ;; s ← spop 4; conv_check ((s <? I_MINS2) || (I_MAXS2 <? s)) ;; npush s 2
      else if k =? 44 then skip else bad_conv
  | Cui =>
      if k =? 22 then not_on_4 ;; u ← upop 2; conv_check (I_MAXS2 <? u) ;; npush (s64 u) 2
      else if k =? 24 then not_on_4 ;; u ← upop 2; npush (s64 u) 4
      else if k =? 42 then not_on_4 ;; u ← upop 4; conv_check (I_MAXS2 <? u) ;; npush (s64 u) 2
      else if k =? 44 then u ← upop 4; conv_check (I_MAXS4 <? u) ;; npush (s64 u) 4
      else bad_conv
  | Ciu | Cuu =>
      if k =? 22 then not_on_4
      else if k =? 24 then not_on_4 ;; u ← upop 2; npush (s64 u) 4
      else if k =? 42 then not_on_4 ;; u ← upop 4; npush (s64 u) 2
      else if k =? 44 then skip else bad_conv
  end.
Lemma conv_instr_body c s : conv_instr c s = (k ← conv_sizes; conv_body c k) s.
Proof. by destruct c. Qed.

Lemma wp_not_on_4 (Q : unit -> state -> Prop) T s : wsize = 2 -> Q tt s -> wp False not_on_4 Q T s.
Proof. intros H HQ. unfold not_on_4. by rewrite H. Qed.
Lemma pop_size_12 o : o = 1 \/ (o = 2 /\ wsize = 2) \/ o = 4 -> pop_size o.
Proof.
  intros H. unfold pop_size, int_size. sizes; destruct H as [ -> | [ [ -> ? ] | -> ] ]; try lia;
    (split; [split; [lia|]|]); first [by left | by right | left; lia | right; lia].
Qed.

Lemma conv_ref_fits c s n v : fits n v = true -> conv_ref c s n v = inr v.
Proof. intros E. unfold conv_ref. rewrite E, andb_false_r. by destruct c. Qed.
Lemma fits_2 v : fits 2 v = (I_MINS2 <=? v) && (v <=? I_MAXS2).
Proof. done. Qed.
Lemma fits_4 v : fits 4 v = (I_MINS4 <=? v) && (v <=? I_MAXS4).
Proof. done. Qed.

(** The operand is popped; the continuation sees its value. *)
Lemma wp_conv_spop s o (k : Z -> M unit) Q T s2 :
  after (spoiled s) (2 * wsize) s2 -> pop_size o -> SP s + 2 * wsize + width o <= LB s ->
  (forall s3, after (spoiled s) (2 * wsize + width o) s3 ->
     wp False (k (stks s (SP s + 2 * wsize) o)) Q T s3) ->
  wp False (v ← spop o; k v) Q T s2.
Proof. intros H Ho Hle HQ. apply wp_bind. by eapply wp_after_spop. Qed.
Lemma wp_conv_upop s o (k : Z -> M unit) Q T s2 :
  after (spoiled s) (2 * wsize) s2 -> pop_size o -> SP s + 2 * wsize + width o <= LB s ->
  (forall s3, after (spoiled s) (2 * wsize + width o) s3 ->
     wp False (k (stk s (SP s + 2 * wsize) o)) Q T s3) ->
  wp False (v ← upop o; k v) Q T s2.
Proof. intros H Ho Hle HQ. apply wp_bind. by eapply wp_after_upop. Qed.

Definition conv_outcome (c : conv) (o n : Z) (s : state) :=
  conv_post s (2 * wsize + width o) n (conv_ref c s n (conv_operand c s o)).
Definition conv_goal (c : conv) (o n : Z) (s : state) : Prop :=
  conv_ready o n s -> conv_legal c o n = true ->
  forall s2, after (spoiled s) (2 * wsize) s2 ->
  wp False (conv_body c (10 * o + n)) (conv_outcome c o n s).1 (conv_outcome c o n s).2 s2.

Lemma wi_size_4 : wi_size 4.
Proof. split; [by right|]. by sizes. Qed.
Lemma wi_size_2 : wsize = 2 -> wi_size 2.
Proof. intros H. split; [by left|]. by rewrite H. Qed.
Lemma s64_small l v : wi_size l -> s64 v mod 2 ^ (8 * l) = v mod 2 ^ (8 * l).
Proof. apply s64_mod. Qed.
Lemma width_wi l : wi_size l -> width l = l.
Proof. intros H. by destruct (wi_size_pop l H). Qed.

Lemma conv_same c o s :
  wi_size o -> conv_ready o o s ->
  (match c with Cui => False | _ => True end) ->
  forall s2, after (spoiled s) (2 * wsize) s2 ->
  wp False skip (conv_outcome c o o s).1 (conv_outcome c o o s).2 s2.
Proof.
  intros Ho (Hs & _) Hc s2 H2. unfold conv_outcome. rewrite (width_wi o Ho).
  apply (conv_skip s o (conv_operand c s o)); [done| |].
  - destruct c; [|done..]. apply conv_ref_fits, stks_fits, Ho.
  - assert (0 < o) by (destruct Ho; lia).
    pose proof (stk_range s (SP s + 2 * wsize) o Hs ltac:(lia)).
    destruct c; cbn [conv_operand]; [|done|by apply Z.mod_small..].
    unfold stks. rewrite sext_mod by lia. by apply Z.mod_small.
Qed.

(** A conversion that changes the size, on the popped value. *)
Lemma conv_plain c o n s s3 v' :
  conv_ready o n s -> wi_size n -> after (spoiled s) (2 * wsize + width o) s3 ->
  (match c with Cii | Cui => fits n (conv_operand c s o) = true | _ => True end) ->
  v' mod 2 ^ (8 * n) = conv_operand c s o mod 2 ^ (8 * n) ->
  wp False (npush v' n) (conv_outcome c o n s).1 (conv_outcome c o n s).2 s3.
Proof.
  intros (_ & _ & _ & _ & Hroom) Hn H3 Hf Ev. unfold conv_outcome.
  assert (conv_ref c s n (conv_operand c s o) = inr (conv_operand c s o)) as ->.
  { destruct c; [by apply conv_ref_fits..|done|done]. }
  apply wp_conv_plain; [exact H3|done| |exact Ev]. by rewrite Z.add_assoc.
Qed.
Lemma conv_checked c o n s s3 v' bad :
  conv_ready o n s -> wi_size n -> after (spoiled s) (2 * wsize + width o) s3 ->
  (match c with Cii | Cui => bad = negb (fits n (conv_operand c s o)) | _ => False end) ->
  v' mod 2 ^ (8 * n) = conv_operand c s o mod 2 ^ (8 * n) ->
  wp False (conv_check bad ;; npush v' n) (conv_outcome c o n s).1 (conv_outcome c o n s).2 s3.
Proof.
  intros (_ & _ & _ & _ & Hroom) Hn H3 Hb Ev. unfold conv_outcome.
  eapply wp_conv_check; [exact H3|done|by rewrite Z.add_assoc| |exact Ev].
  unfold conv_ref. destruct c; [by rewrite Hb..|done|done].
Qed.
Lemma pop_size_wi l : wi_size l -> pop_size l.
Proof. intros H. by destruct (wi_size_pop l H). Qed.

Lemma conv_Cii o n s : conv_goal Cii o n s.
Proof.
  intros Hr Hl s2 H2. pose proof Hr as (Hs & _ & _ & Hle & _).
  pose proof wi_size_4 as H4. pose proof (wi_size_2) as H2'.
  pose proof (stks_byte s (SP s + 2 * wsize)) as R1.
  pose proof (stks_range s (SP s + 2 * wsize) 2 ltac:(lia)) as R2.
  unfold i_mins, i_maxs in R2. cbn [Z.eqb Pos.eqb] in R2. change I_MINS2 with (-32768) in R2. change I_MAXS2 with 32767 in R2.
  unfold conv_legal in Hl.
  assert (Hcases : (o = 1 /\ n = 2 /\ wsize = 2) \/ (o = 1 /\ n = 4) \/ (o = 2 /\ n = 2 /\ wsize = 2) \/
    (o = 2 /\ n = 4 /\ wsize = 2) \/ (o = 4 /\ n = 2 /\ wsize = 2) \/ (o = 4 /\ n = 4)) by lia.
  destruct Hcases as [(-> & -> & Hw)|[(-> & ->)|[(-> & -> & Hw)|[(-> & -> & Hw)|[(-> & -> & Hw)|(-> & ->)]]]]];
    cbn [conv_body Z.eqb Pos.eqb Z.mul Z.add Pos.mul Pos.add Pos.succ].
  - apply wp_bind, wp_not_on_4; [done|].
    eapply wp_conv_spop; [done|apply pop_size_12; lia|lia|]. intros s3 H3.
    apply conv_plain; [done|by apply H2'|done| |done]. cbn [conv_operand]. rewrite fits_2.
    unfold I_MINS2, I_MAXS2. lia.
  - eapply wp_conv_spop; [done|apply pop_size_12; lia|lia|]. intros s3 H3.
    apply conv_plain; [done|done|done| |done]. cbn [conv_operand]. rewrite fits_4.
    unfold I_MINS4, I_MAXS4. lia.
  - apply wp_not_on_4; [done|]. apply (conv_same Cii 2 s); [by apply H2'|done|done|done].
  - eapply wp_conv_spop; [done|apply pop_size_12; lia|lia|]. intros s3 H3.
    apply conv_plain; [done|done|done| |done]. cbn [conv_operand]. rewrite fits_4.
    unfold I_MINS4, I_MAXS4. lia.
  - apply wp_bind, wp_not_on_4; [done|].
    eapply wp_conv_spop; [done|apply pop_size_12; lia|lia|]. intros s3 H3.
    apply conv_checked; [done|by apply H2'|done| |done]. cbn [conv_operand]. rewrite fits_2. lia.
  - by apply (conv_same Cii 4 s).
Qed.

Lemma conv_cases_u c o n :
  conv_legal c o n = true -> c <> Cii ->
  (o = 2 /\ n = 2 /\ wsize = 2) \/ (o = 2 /\ n = 4 /\ wsize = 2) \/
  (o = 4 /\ n = 2 /\ wsize = 2) \/ (o = 4 /\ n = 4).
Proof. unfold conv_legal. destruct c; [done|lia..]. Qed.
Lemma conv_Cui o n s : conv_goal Cui o n s.
Proof.
  intros Hr Hl s2 H2. pose proof Hr as (Hs & _ & _ & Hle & _).
  pose proof wi_size_4 as H4. pose proof (wi_size_2) as H2'.
  pose proof (stk_range s (SP s + 2 * wsize) 2 Hs ltac:(lia)) as R2. change (2 ^ (8 * 2)) with 65536 in R2.
  pose proof (stk_range s (SP s + 2 * wsize) 4 Hs ltac:(lia)) as R4.
  destruct (conv_cases_u Cui o n Hl ltac:(done)) as [(-> & -> & Hw)|[(-> & -> & Hw)|[(-> & -> & Hw)|(-> & ->)]]];
    cbn [conv_body Z.eqb Pos.eqb Z.mul Z.add Pos.mul Pos.add Pos.succ].
  - apply wp_bind, wp_not_on_4; [done|].
    eapply wp_conv_upop; [done|apply pop_size_12; lia|lia|]. intros s3 H3.
    apply conv_checked; [done|by apply H2'|done| |apply s64_mod, H2', Hw].
    cbn [conv_operand]. rewrite fits_2. unfold I_MINS2. lia.
  - apply wp_bind, wp_not_on_4; [done|].
    eapply wp_conv_upop; [done|apply pop_size_12; lia|lia|]. intros s3 H3.
    apply conv_plain; [done|done|done| |apply s64_mod, H4].
    cbn [conv_operand]. rewrite fits_4. unfold I_MINS4, I_MAXS4. lia.
  - apply wp_bind, wp_not_on_4; [done|].
    eapply wp_conv_upop; [done|apply pop_size_12; lia|lia|]. intros s3 H3.
    apply conv_checked; [done|by apply H2'|done| |apply s64_mod, H2', Hw].
    cbn [conv_operand]. rewrite fits_2. unfold I_MINS2. lia.
  - eapply wp_conv_upop; [done|apply pop_size_12; lia|lia|]. intros s3 H3.
    apply conv_checked; [done|done|done| |apply s64_mod, H4].
    cbn [conv_operand]. rewrite fits_4. unfold I_MINS4. lia.
Qed.
Lemma conv_unsigned c o n s : c = Ciu \/ c = Cuu -> conv_goal c o n s.
Proof.
  intros Hc Hr Hl s2 H2. pose proof Hr as (Hs & _ & _ & Hle & _).
  pose proof wi_size_4 as H4. pose proof (wi_size_2) as H2'.
  destruct (conv_cases_u c o n Hl ltac:(by destruct Hc as [-> | ->]))
    as [(-> & -> & Hw)|[(-> & -> & Hw)|[(-> & -> & Hw)|(-> & ->)]]].
  - assert (conv_body c (10 * 2 + 2) = not_on_4) as -> by (by destruct Hc as [-> | ->]).
    apply wp_not_on_4; [done|]. apply (conv_same c 2 s); [by apply H2'|done| |done].
    by destruct Hc as [-> | ->].
  - assert (conv_body c (10 * 2 + 4) = (not_on_4 ;; u ← upop 2; npush (s64 u) 4)) as ->
      by (by destruct Hc as [-> | ->]).
    apply wp_bind, wp_not_on_4; [done|].
    eapply wp_conv_upop; [done|apply pop_size_12; lia|lia|]. intros s3 H3.
    apply conv_plain; [done|done|done|by destruct Hc as [-> | ->]|].
    rewrite s64_mod by done. by destruct Hc as [-> | ->].
  - assert (conv_body c (10 * 4 + 2) = (not_on_4 ;; u ← upop 4; npush (s64 u) 2)) as ->
      by (by destruct Hc as [-> | ->]).
    apply wp_bind, wp_not_on_4; [done|].
    eapply wp_conv_upop; [done|apply pop_size_12; lia|lia|]. intros s3 H3.
    apply conv_plain; [done|by apply H2'|done|by destruct Hc as [-> | ->]|].
    rewrite s64_mod by by apply H2'. by destruct Hc as [-> | ->].
  - assert (conv_body c (10 * 4 + 4) = skip) as -> by (by destruct Hc as [-> | ->]).
    apply (conv_same c 4 s); [done|done| |done]. by destruct Hc as [-> | ->].
Qed.

(** The sizes that are not legal. *)
Lemma conv_illegal c o n s :
  (o = 1 \/ o = 2 \/ o = 4) -> (n = 1 \/ n = 2 \/ n = 4) -> conv_legal c o n = false ->
  (c = Cii -> (o, n) <> (2, 4)) ->
  conv_body c (10 * o + n) s = Trap EILLINS (warned WILLCONV s).
Proof.
  intros Ho Hn Hl Hx. unfold conv_legal in Hl.
  destruct c, Ho as [->|[->| ->]], Hn as [->|[->| ->]];
    cbn [conv_body Z.eqb Pos.eqb Z.mul Z.add Pos.mul Pos.add Pos.succ] in *;
    unfold not_on_4, bad_conv; sizes; cbn [Z.eqb Pos.eqb andb orb] in Hl; run;
    first [done | by rewrite wtrap_trap | by specialize (Hx eq_refl)].
Qed.

(** C38: CII, CUI, CIU and CUU, given legal sizes of the operand and the result on
    top, replace the operand by the same number in the new size, modulo that size;
    a conversion to a signed integer traps with ECONV exactly when the number does
    not fit, if tests are on and the trap is not ignored. *)
Theorem conversions c o n s :
  conv_ready o n s -> conv_legal c o n = true ->
  match conv_ref c s n (conv_operand c s o) with
  | inr v => exists s', conv_instr c s = Ret tt s' /\
      converted (spoiled s) (2 * wsize + width o) n v s'
  | inl nr => exists s', conv_instr c s = Trap nr s' /\
      after (spoiled s) (2 * wsize + width o) s'
  end.
Proof.
  intros Hr Hl. pose proof Hr as (Hs & En & Eo & Hle & _).
  assert (Hw : wp False (conv_instr c) (conv_outcome c o n s).1 (conv_outcome c o n s).2 s).
  { eapply wp_eq; [apply conv_instr_body|]. apply wp_bind.
    unfold conv_legal in Hl. assert (0 < width o) by (unfold width; sizes; lia).
    eapply wp_conv_sizes; [done|lia|exact En|exact Eo|lia|lia|]. intros s2 H2.
    destruct c; [by apply conv_Cii|by apply conv_Cui|apply conv_unsigned; auto..]. }
  apply wp_result in Hw as [([] & s' & E & v & -> & H)|(nr & s' & E & -> & H)]; by exists s'.
Qed.

(** A conversion between integer sizes that do not exist on the machine, or that
    the instruction does not handle, traps with EILLINS after the sizes have been
    popped; CII from two to four bytes is not checked against four byte words. *)
Theorem illegal_conversions c o n s :
  Inv s -> SP s + 2 * wsize <= LB s ->
  stks s (SP s) wsize = n -> stks s (SP s + wsize) wsize = o ->
  (o = 1 \/ o = 2 \/ o = 4) -> (n = 1 \/ n = 2 \/ n = 4) -> conv_legal c o n = false ->
  (c = Cii -> (o, n) <> (2, 4)) ->
  exists s', conv_instr c s = Trap EILLINS s' /\ after (spoiled s) (2 * wsize) s'.
Proof.
  intros Hs Hle En Eo Ho Hn Hl Hx.
  assert (Hw : wp False (conv_instr c) (fun _ _ => False)
    (fun nr s' => nr = EILLINS /\ after (spoiled s) (2 * wsize) s') s).
  { eapply wp_eq; [apply conv_instr_body|]. apply wp_bind.
    eapply wp_conv_sizes; [done|lia|exact En|exact Eo|lia|lia|]. intros s2 H2.
    unfold wp. rewrite conv_illegal by done. split; [done|]. eapply after_eqw; [exact H2|by eexists]. }
  apply wp_trap_inv in Hw as (nr & s' & E & -> & H). by exists s'.
Qed.
End Conversions.
