(* ===== verification/Real.v ===== *)
(** * Host floating point: [double] and [float]

    The values of the C types [float] and [double] on a host with IEEE 754
    arithmetic (binary32 and binary64, round to nearest even), over the
    Standard Library's [spec_float]; their bytes in memory; the conversions
    between them and to and from [long].  All NaNs are identified: the bytes
    of a NaN that is stored are the host's. *)
From Stdlib Require Import ZArith Lia Bool.
From Stdlib Require Import Floats.SpecFloat.
From stdpp Require Import base gmap list.
From S2P Require Import Prelude.

(** ** Number formats: precision [prec], largest exponent [emax] *)
Section Format.
Context (prec emax : Z).
#[local] Abbreviation emin := (emin prec emax).

(** The sign bit, and the weight of the exponent field. *)
Definition exp_unit : Z := 2 ^ (prec - 1).
Definition sign_unit : Z := 2 * emax * exp_unit.
Definition sign_bit (s : bool) : Z := if s then sign_unit else 0.

(** The bits of a number.  A subnormal number has the least exponent and no
    leading bit, which is what the sum below gives for it. *)
Definition encode (nan : Z) (f : spec_float) : Z :=
  match f with
  | S754_zero s => sign_bit s
  | S754_infinity s => sign_bit s + (2 * emax - 1) * exp_unit
  | S754_nan => nan
  | S754_finite s m e => sign_bit s + ((e - emin) * exp_unit + Zpos m)
  end.
Definition decode (x : Z) : spec_float :=
  let s := sign_unit <=? x in
  let y := x mod sign_unit in
  let be := y / exp_unit in
  let m := y mod exp_unit in
  if be =? 2 * emax - 1 then if m =? 0 then S754_infinity s else S754_nan
  else match (if be =? 0 then m else m + exp_unit) with
       | Zpos p => S754_finite s p (emin + (if be =? 0 then 0 else be - 1))
       | _ => S754_zero s
       end.

Context (Hprec : 1 < prec) (Hemax : prec < emax).

Lemma digits_range m : 2 ^ (Zpos (digits2_pos m) - 1) <= Zpos m < 2 ^ Zpos (digits2_pos m).
Proof.
  change (digits2_pos m) with (Pos.size m). pose proof (Pos.size_le m) as H1. pose proof (Pos.size_gt m) as H2.
  apply Pos2Z.pos_le_pos in H1. apply Pos2Z.pos_lt_pos in H2. rewrite Pos2Z.inj_pow in H1, H2.
  replace (Zpos (Pos.size m)) with (Zpos (Pos.size m) - 1 + 1) in H1 by lia. rewrite Z.pow_add_r in H1 by lia.
  split; lia.
Qed.
Lemma digits_unique m d : 2 ^ (d - 1) <= Zpos m < 2 ^ d -> Zpos (digits2_pos m) = d.
Proof.
  intros [H1 H2]. pose proof (digits_range m) as [H3 H4].
  destruct (Z.lt_trichotomy (Zpos (digits2_pos m)) d) as [H|[H|H]]; [|done|].
  - assert (2 ^ Zpos (digits2_pos m) <= 2 ^ (d - 1)) by (apply Z.pow_le_mono_r; lia). lia.
  - assert (2 ^ d <= 2 ^ (Zpos (digits2_pos m) - 1)) by (apply Z.pow_le_mono_r; lia). lia.
Qed.

(** A canonical number is normal or has the least exponent. *)
Lemma bounded_cases m e :
  bounded prec emax m e = true <->
  emin <= e <= emax - prec /\ Zpos (digits2_pos m) <= prec /\ (Zpos (digits2_pos m) = prec \/ e = emin).
Proof.
  unfold bounded, canonical_mantissa, fexp. rewrite andb_true_iff, Z.eqb_eq, Z.leb_le. lia.
Qed.
Lemma exp_unit_pos : 0 < exp_unit.
Proof. unfold exp_unit. apply Z.pow_pos_nonneg; lia. Qed.
Lemma exp_unit_prec : 2 ^ prec = 2 * exp_unit.
Proof. unfold exp_unit. rewrite <- Z.pow_succ_r by lia. f_equal. lia. Qed.

(** The encoding of a canonical number fits below the sign bit. *)
Lemma encode_finite_range m e :
  bounded prec emax m e = true -> 0 < (e - emin) * exp_unit + Zpos m < (2 * emax - 1) * exp_unit.
Proof.
  intros (He & Hd & _)%bounded_cases. pose proof exp_unit_pos as Hu. pose proof (digits_range m) as [_ Hm].
  assert (Zpos m < 2 * exp_unit).
  { rewrite <- exp_unit_prec. eapply Z.lt_le_trans; [exact Hm|]. apply Z.pow_le_mono_r; lia. }
  assert (e - emin <= 2 * emax - 3) by (unfold SpecFloat.emin in *; lia). split; nia.
Qed.

Lemma decode_parts s y :
  0 <= y < sign_unit -> (sign_unit <=? sign_bit s + y) = s /\ (sign_bit s + y) mod sign_unit = y.
Proof.
  intros Hy. unfold sign_bit. destruct s; split; try lia.
  - rewrite Z.add_comm, <- (Z.mul_1_l sign_unit) at 1. rewrite Z_mod_plus_full. by apply Z.mod_small.
  - rewrite Z.add_0_l. by apply Z.mod_small.
Qed.

(** A number is decoded from its encoding. *)
Lemma decode_encode nan f : valid_binary prec emax f = true -> f <> S754_nan -> decode (encode nan f) = f.
Proof.
  pose proof exp_unit_pos as Hu. intros Hv Hn. unfold decode.
  assert (Es : sign_unit = 2 * emax * exp_unit) by reflexivity.
  destruct f as [s|s| |s m e]; cbn [encode]; [..|].
  - destruct (decode_parts s 0) as [E1 E2]; [nia|]. rewrite Z.add_0_r in E1, E2. rewrite E1, E2.
    rewrite Z.div_0_l, Z.mod_0_l by lia. by replace (0 =? 2 * emax - 1) with false by lia.
  - destruct (decode_parts s ((2 * emax - 1) * exp_unit)) as [E1 E2]; [nia|]. rewrite E1, E2.
    rewrite Z.div_mul, Z_mod_mult, Z.eqb_refl by lia. done.
  - done.
  - cbn [valid_binary] in Hv. pose proof (encode_finite_range m e Hv) as Hr.
    destruct (decode_parts s ((e - emin) * exp_unit + Zpos m)) as [E1 E2]; [nia|]. rewrite E1, E2.
    apply bounded_cases in Hv as (He & Hd & Hc). pose proof (digits_range m) as [Hm1 Hm2]. pose proof exp_unit_prec as Hp.
    destruct (Z.eq_dec (Zpos (digits2_pos m)) prec) as [Ed|Ed].
    + rewrite Ed in Hm1, Hm2. change (2 ^ (prec - 1)) with exp_unit in Hm1.
      replace ((e - emin) * exp_unit + Zpos m) with (Zpos m - exp_unit + (e - emin + 1) * exp_unit) by lia.
      rewrite Z.div_add, Z_mod_plus_full, Z.div_small, Z.mod_small by lia.
      assert (e - emin <= 2 * emax - 3) by (unfold SpecFloat.emin in *; lia).
      replace (0 + (e - emin + 1) =? 2 * emax - 1) with false by lia.
      replace (0 + (e - emin + 1) =? 0) with false by lia.
      replace (Zpos m - exp_unit + exp_unit) with (Zpos m) by lia. f_equal. lia.
    + assert (e = emin) as -> by lia. replace ((emin - emin) * exp_unit + Zpos m) with (Zpos m) by lia.
      assert (Zpos m < exp_unit).
      { eapply Z.lt_le_trans; [exact Hm2|]. apply Z.pow_le_mono_r; lia. }
      rewrite Z.div_small, Z.mod_small by lia. replace (0 =? 2 * emax - 1) with false by lia.
      cbn [Z.eqb]. f_equal. lia.
Qed.

Lemma encode_range nan f :
  valid_binary prec emax f = true -> f <> S754_nan -> 0 <= encode nan f < 2 * sign_unit.
Proof.
  pose proof exp_unit_pos as Hu. assert (Es : sign_unit = 2 * emax * exp_unit) by reflexivity.
  assert (Hs : forall s y, 0 <= y < sign_unit -> 0 <= sign_bit s + y < 2 * sign_unit).
  { intros s y Hy. unfold sign_bit. destruct s; lia. }
  intros Hv Hn. destruct f as [s|s| |s m e]; cbn [encode]; [| |done|].
  - pose proof (Hs s 0). nia.
  - apply Hs. nia.
  - apply Hs. pose proof (encode_finite_range m e Hv). nia.
Qed.

(** Whatever the bits, a valid number is decoded. *)
Lemma decode_valid x : valid_binary prec emax (decode x) = true.
Proof.
  pose proof exp_unit_pos as Hu. unfold decode. set (y := x mod sign_unit). set (be := y / exp_unit).
  assert (Hy : 0 <= y < sign_unit) by (apply Z.mod_pos_bound; unfold sign_unit; nia).
  assert (Hbe : 0 <= be <= 2 * emax - 1).
  { split; [apply Z.div_pos; lia|]. assert (be < 2 * emax); [|lia].
    apply Z.div_lt_upper_bound; [lia|]. unfold sign_unit in Hy. lia. }
  pose proof (Z.mod_pos_bound y exp_unit Hu) as Hm. destruct (Z.eqb_spec be (2 * emax - 1)); [by destruct (_ =? 0)|].
  destruct (Z.eqb_spec be 0).
  - destruct (y mod exp_unit) as [|p|p]; [done| |done]. cbn [valid_binary]. apply bounded_cases.
    pose proof (digits_range p) as [H1 _].
    assert (Zpos (digits2_pos p) - 1 < prec - 1) by (apply (Z.pow_lt_mono_r_iff 2); [lia|lia|unfold exp_unit in *; lia]).
    unfold SpecFloat.emin. lia.
  - destruct (y mod exp_unit + exp_unit) as [|p|p] eqn:E; [done| |done]. cbn [valid_binary]. apply bounded_cases.
    assert (Zpos (digits2_pos p) = prec).
    { apply digits_unique. rewrite exp_unit_prec. unfold exp_unit in *. lia. }
    unfold SpecFloat.emin. lia.
Qed.

(** ** Rounding of numbers that need no rounding *)

Lemma digits_mul m k : 0 <= k -> exists p, Zpos m * 2 ^ k = Zpos p /\ Zpos (digits2_pos p) = Zpos (digits2_pos m) + k.
Proof.
  intros Hk. pose proof (Z.pow_pos_nonneg 2 k ltac:(lia) Hk) as Hpos.
  destruct (Zpos m * 2 ^ k) as [|p|p] eqn:E; [lia| |lia]. exists p. split; [done|].
  apply digits_unique. pose proof (digits_range m) as [H1 H2]. rewrite <- E.
  replace (Zpos (digits2_pos m) + k - 1) with (Zpos (digits2_pos m) - 1 + k) by lia.
  rewrite !Z.pow_add_r by lia. split; nia.
Qed.

Lemma iter_pos_nat {A} (f : A -> A) n : forall x, SpecFloat.iter_pos f n x = Nat.iter (Pos.to_nat n) f x.
Proof.
  induction n as [n IH|n IH|]; intros x; cbn [SpecFloat.iter_pos]; [| |done].
  - rewrite !IH. replace (Pos.to_nat n~1) with (Pos.to_nat n + (Pos.to_nat n + 1))%nat by lia.
    by rewrite !Nat.iter_add.
  - rewrite !IH. replace (Pos.to_nat n~0) with (Pos.to_nat n + Pos.to_nat n)%nat by lia. by rewrite Nat.iter_add.
Qed.
Lemma shr_1_even m : shr_1 (Build_shr_record (Zpos m~0) false false) = Build_shr_record (Zpos m) false false.
Proof. done. Qed.
Lemma shr_exact p k : forall m, Zpos m = Zpos p * 2 ^ Z.of_nat k ->
  Nat.iter k shr_1 (Build_shr_record (Zpos m) false false) = Build_shr_record (Zpos p) false false.
Proof.
  induction k as [|k IH]; intros m Hm.
  - cbn in Hm. rewrite Z.mul_1_r in Hm. by injection Hm as ->.
  - rewrite Nat.iter_succ_r. rewrite Nat2Z.inj_succ, Z.pow_succ_r in Hm by lia.
    destruct m as [m|m|]; [lia| |lia]. rewrite shr_1_even. apply IH. lia.
Qed.

(** [m * 2 ^ e] written with a smaller exponent. *)
Lemma round_aux_exact s m e k :
  bounded prec emax m e = true -> 0 <= k ->
  binary_round_aux prec emax s (Zpos m * 2 ^ k) (e - k) loc_Exact = S754_finite s m e.
Proof.
  intros Hb Hk. destruct (digits_mul m k Hk) as (p & Ep & Ed). rewrite Ep.
  assert (Hf : fexp prec emax (Zpos (digits2_pos m) + e) = e /\ e <= emax - prec).
  { apply andb_true_iff in Hb as [H1 H2]. unfold canonical_mantissa in H1. lia. }
  destruct Hf as [Hf Hmax]. unfold binary_round_aux, shr_fexp. cbn [Zdigits2 shr_record_of_loc].
  replace (Zpos (digits2_pos p) + (e - k)) with (Zpos (digits2_pos m) + e) by lia. rewrite Hf.
  replace (e - (e - k)) with k by lia.
  assert (E1 : shr (Build_shr_record (Zpos p) false false) (e - k) k = (Build_shr_record (Zpos m) false false, e)).
  { unfold shr. destruct k as [|k|k]; [|rewrite iter_pos_nat, (shr_exact m)|lia].
    - rewrite Z.mul_1_r in Ep. injection Ep as ->. by rewrite Z.sub_0_r.
    - f_equal. lia.
    - rewrite positive_nat_Z. by rewrite <- Ep. }
  rewrite E1. cbn [shr_m loc_of_shr_record round_nearest_even Zdigits2 shr_record_of_loc].
  rewrite Hf, Z.sub_diag. cbn [shr shr_m]. by replace (e <=? emax - prec) with true by lia.
Qed.

Lemma round_aux_canonical s m e :
  bounded prec emax m e = true -> binary_round_aux prec emax s (Zpos m) e loc_Exact = S754_finite s m e.
Proof.
  intros Hb. rewrite <- (round_aux_exact s m e 0) by done. by rewrite Z.mul_1_r, Z.sub_0_r.
Qed.

Lemma iter_xO m d p : Zpos p = Zpos m * 2 ^ Zpos d -> PosDef.Pos.iter xO m d = p.
Proof.
  change (PosDef.Pos.iter xO m d) with (Pos.iter xO m d). revert p. induction d using Pos.peano_ind; intros p Ep.
  - cbn in *. lia.
  - rewrite Pos.iter_succ. rewrite Pos2Z.inj_succ, Z.pow_succ_r in Ep by lia.
    destruct p as [p|p|]; [lia| |lia]. by rewrite (IHd p) by lia.
Qed.

(** A mantissa and an exponent of the same value as the canonical ones. *)
Lemma round_exact s m e m0 e0 :
  bounded prec emax m e = true ->
  (exists d, 0 <= d /\ Zpos m = Zpos m0 * 2 ^ d /\ e = e0 - d) \/
  (exists k, 0 <= k /\ Zpos m0 = Zpos m * 2 ^ k /\ e0 = e - k) ->
  binary_round prec emax s m0 e0 = S754_finite s m e.
Proof.
  intros Hb Hc. pose proof Hb as Hf. apply andb_true_iff in Hf as [Hf _]. unfold canonical_mantissa in Hf.
  unfold binary_round, shl_align. destruct Hc as [(d & Hd & Em & ->)|(k & Hk & Em & ->)].
  - destruct (digits_mul m0 d Hd) as (p & Ep & Ed). assert (p = m) as -> by congruence.
    replace (Zpos (digits2_pos m0) + e0) with (Zpos (digits2_pos m) + (e0 - d)) by lia.
    replace (fexp prec emax (Zpos (digits2_pos m) + (e0 - d))) with (e0 - d) by lia.
    replace (e0 - d - e0) with (- d) by lia. destruct d as [|d|d]; [| |lia].
    + rewrite Z.mul_1_r in Em. injection Em as <-. rewrite Z.sub_0_r in *.
      by apply round_aux_canonical.
    + change (- Zpos d) with (Zneg d). cbv beta iota. rewrite (iter_xO m0 d m) by done.
      by apply round_aux_canonical.
  - destruct (digits_mul m k Hk) as (p & Ep & Ed). assert (p = m0) as -> by congruence.
    replace (Zpos (digits2_pos m0) + (e - k)) with (Zpos (digits2_pos m) + e) by lia.
    replace (fexp prec emax (Zpos (digits2_pos m) + e)) with e by lia.
    replace (e - (e - k)) with k by lia.
    assert (E : match k with Zneg d => (Pos.iter xO m0 d, e) | _ => (m0, e - k) end = (m0, e - k)) by (by destruct k; [| |lia]).
    rewrite E, Em. by apply round_aux_exact.
Qed.
(** ** Rounding gives a canonical number *)
Lemma shr_m_iter k : forall r, 0 <= shr_m r -> shr_m (Nat.iter k shr_1 r) = shr_m r / 2 ^ Z.of_nat k.
Proof.
  assert (H1 : forall r, 0 <= shr_m r -> shr_m (shr_1 r) = shr_m r / 2).
  { intros [m r s] Hm. cbn [shr_m] in *. destruct m as [|[m|m|]|m]; [done| | |done|lia].
    - change (Zpos m = Zpos m~1 / 2). by rewrite <- Z.div2_div.
    - change (Zpos m = Zpos m~0 / 2). by rewrite <- Z.div2_div. }
  induction k as [|k IH]; intros r Hm.
  - by rewrite Z.div_1_r.
  - assert (0 <= shr_m r / 2 ^ Z.of_nat k) by (apply Z.div_pos; lia).
    rewrite Nat.iter_succ, H1, IH by (rewrite ?IH; done). rewrite Z.div_div by lia. f_equal. rewrite Nat2Z.inj_succ, Z.pow_succ_r by lia. lia.
Qed.
Lemma shr_fexp_spec m e l :
  e <= fexp prec emax (Zpos (digits2_pos m) + e) ->
  (shr_fexp prec emax (Zpos m) e l).2 = fexp prec emax (Zpos (digits2_pos m) + e) /\
  shr_m (shr_fexp prec emax (Zpos m) e l).1 = Zpos m / 2 ^ (fexp prec emax (Zpos (digits2_pos m) + e) - e).
Proof.
  intros He. unfold shr_fexp. cbn [Zdigits2]. set (f := fexp prec emax _) in *.
  assert (Hr : shr_m (shr_record_of_loc (Zpos m) l) = Zpos m) by (by destruct l as [|[]]).
  unfold shr. destruct (f - e) as [|n|n] eqn:E; [| |lia]; cbn [fst snd].
  - rewrite Hr, Z.div_1_r. split; [lia|done].
  - rewrite iter_pos_nat, shr_m_iter, Hr, positive_nat_Z by lia. split; [lia|done].
Qed.

(** The shifted and rounded mantissa has at most [prec] bits, or is a power of two. *)
Lemma rounded_mantissa m e (q q' : Z) :
  e <= fexp prec emax (Zpos (digits2_pos m) + e) ->
  q = Zpos m / 2 ^ (fexp prec emax (Zpos (digits2_pos m) + e) - e) -> q' = q \/ q' = q + 1 ->
  0 <= q' <= 2 ^ prec /\ (fexp prec emax (Zpos (digits2_pos m) + e) = emin \/ 2 ^ (prec - 1) <= q').
Proof.
  intros He -> Hq. pose proof (digits_range m) as [D1 D2]. set (f := fexp prec emax _) in *.
  assert (Hf : f = Zpos (digits2_pos m) + e - prec \/ (f = emin /\ Zpos (digits2_pos m) + e - prec <= f))
    by (unfold f, fexp; lia).
  assert (Hpow : 0 < 2 ^ (f - e)) by (apply Z.pow_pos_nonneg; lia).
  assert (Hlt : Zpos m / 2 ^ (f - e) < 2 ^ prec).
  { apply Z.div_lt_upper_bound; [done|]. rewrite <- Z.pow_add_r by lia. eapply Z.lt_le_trans; [exact D2|].
    apply Z.pow_le_mono_r; lia. }
  assert (0 <= Zpos m / 2 ^ (f - e)) by (apply Z.div_pos; lia). split; [lia|].
  destruct Hf as [Hf|[Hf _]]; [|by left]. right.
  assert (2 ^ (prec - 1) <= Zpos m / 2 ^ (f - e)); [|lia]. apply Z.div_le_lower_bound; [done|].
  rewrite <- Z.pow_add_r by lia. replace (f - e + (prec - 1)) with (Zpos (digits2_pos m) - 1) by lia. done.
Qed.
Lemma round_aux_valid s m e l :
  e <= fexp prec emax (Zpos (digits2_pos m) + e) ->
  valid_binary prec emax (binary_round_aux prec emax s (Zpos m) e l) = true.
Proof.
  intros He. unfold binary_round_aux. destruct (shr_fexp_spec m e l He) as [E1 E2].
  destruct (shr_fexp prec emax (Zpos m) e l) as [mrs e']. cbn [fst snd] in *.
  set (q := round_nearest_even _ _).
  assert (Hq : q = shr_m mrs \/ q = shr_m mrs + 1).
  { unfold q, round_nearest_even. destruct (loc_of_shr_record mrs) as [|[]]; auto. destruct (Z.even _); auto. }
  destruct (rounded_mantissa m e (shr_m mrs) q He E2 Hq) as [Hr Hn]. rewrite <- E1 in Hn.
  assert (Hmin : emin <= e') by (rewrite E1; unfold fexp; lia).
  destruct q as [|p|p]; [|clear Hq|lia].
  { assert (E0 : shr_m (shr_fexp prec emax 0 e' loc_Exact).1 = 0).
    { unfold shr_fexp, shr. destruct (fexp prec emax (Zdigits2 0 + e') - e') as [|n|n]; [done| |done]. cbn [fst].
      rewrite iter_pos_nat, shr_m_iter by done. apply Z.div_0_l, Z.pow_nonzero; lia. }
    destruct (shr_fexp prec emax 0 e' loc_Exact) as [mrs2 e2]. cbn [fst] in E0. by rewrite E0. }
  pose proof (digits_range p) as [D1 D2]. pose proof exp_unit_prec as Hp. unfold exp_unit in Hp.
  destruct (Z.eq_dec (Zpos p) (2 ^ prec)) as [Ep|Ep].
  - assert (Ed : Zpos (digits2_pos p) = prec + 1).
    { apply digits_unique. rewrite Ep, Z.add_simpl_r, Z.pow_add_r by lia. change (2 ^ 1) with 2. lia. }
    assert (Ef : fexp prec emax (Zpos (digits2_pos p) + e') = e' + 1) by (unfold fexp; lia).
    destruct (shr_fexp_spec p e' loc_Exact ltac:(lia)) as [E3 E4]. rewrite Ef in E3, E4.
    destruct (shr_fexp prec emax (Zpos p) e' loc_Exact) as [mrs2 e2]. cbn [fst snd] in *. rewrite E3, E4.
    replace (e' + 1 - e') with 1 by lia. rewrite Ep, Hp, (Z.mul_comm 2), Z.div_mul by lia.
    pose proof (Z.pow_pos_nonneg 2 (prec - 1) ltac:(lia) ltac:(lia)).
    destruct (2 ^ (prec - 1)) as [|k|k] eqn:Ek; [lia| |lia]. destruct (Z.leb_spec (e' + 1) (emax - prec)); [|done].
    cbn [valid_binary]. apply bounded_cases. assert (Zpos (digits2_pos k) = prec) by (apply digits_unique; lia). lia.
  - assert (Hd : Zpos (digits2_pos p) <= prec).
    { assert (Zpos (digits2_pos p) - 1 < prec); [|lia]. apply (Z.pow_lt_mono_r_iff 2); lia. }
    assert (Hc : Zpos (digits2_pos p) = prec \/ e' = emin).
    { destruct Hn as [->|Hn]; [by right|]. left. apply digits_unique. lia. }
    assert (Ef : fexp prec emax (Zpos (digits2_pos p) + e') = e') by (unfold fexp; lia).
    destruct (shr_fexp_spec p e' loc_Exact ltac:(lia)) as [E3 E4]. rewrite Ef in E3, E4.
    destruct (shr_fexp prec emax (Zpos p) e' loc_Exact) as [mrs2 e2]. cbn [fst snd] in *. rewrite E3, E4.
    rewrite Z.sub_diag, Z.div_1_r. destruct (Z.leb_spec e' (emax - prec)); [|done].
    cbn [valid_binary]. apply bounded_cases. lia.
Qed.
Lemma round_valid s m e : valid_binary prec emax (binary_round prec emax s m e) = true.
Proof.
  unfold binary_round, shl_align. set (f := fexp prec emax (Zpos (digits2_pos m) + e)).
  destruct (f - e) as [|d|d] eqn:E; [apply round_aux_valid; lia..|].
  destruct (digits_mul m (Zpos d) ltac:(lia)) as (p & Ep & Ed). rewrite (iter_xO m d p) by done.
  apply round_aux_valid. rewrite Ed. replace (Zpos (digits2_pos m) + Zpos d + f) with (Zpos (digits2_pos m) + e) by lia.
  fold f. lia.
Qed.
End Format.

(** ** [double] and [float] *)
Definition double := spec_float.
Definition DP : Z := 53.
Definition DE : Z := 1024.
Definition FP : Z := 24.
Definition FE : Z := 128.

Definition fadd : double -> double -> double := SFadd DP DE.
Definition fsub : double -> double -> double := SFsub DP DE.
Definition fmul : double -> double -> double := SFmul DP DE.
Definition fdiv : double -> double -> double := SFdiv DP DE.
Definition fneg : double -> double := SFopp.
Definition flt : double -> double -> bool := SFltb.
Definition fle : double -> double -> bool := SFleb.
Definition feq : double -> double -> bool := SFeqb.

(** [(float) f], [(double) f]. *)
Definition to_float (f : double) : spec_float :=
  match f with S754_finite s m e => binary_round FP FE s m e | _ => f end.
Definition to_double (f : spec_float) : double :=
  match f with S754_finite s m e => binary_round DP DE s m e | _ => f end.

(** [(double) x] of an integer; [(long) f] and [(unsigned long) f], which have a
    meaning when the integer part is representable. *)
Definition of_long (x : Z) : double := binary_normalize DP DE x 0 false.
Definition trunc (f : double) : option Z :=
  match f with
  | S754_zero _ => Some 0
  | S754_finite s m e => Some (cond_Zopp s (if 0 <=? e then Zpos m * 2 ^ e else Z.shiftr (Zpos m) (- e)))
  | _ => None
  end.
Definition to_long (f : double) : option Z :=
  match trunc f with
  | Some x => if (- 2 ^ 63 <=? x) && (x <? 2 ^ 63) then Some x else None
  | None => None
  end.
Definition to_ulong (f : double) : option Z :=
  match trunc f with
  | Some x => if (0 <=? x) && (x <? 2 ^ 64) then Some x else None
  | None => None
  end.

(** The constants of the source. *)
Definition f_zero : double := S754_zero false.
Definition f_one : double := Eval vm_compute in of_long 1.
Definition f_two : double := Eval vm_compute in of_long 2.
Definition f_ten : double := Eval vm_compute in of_long 10.
Definition f_half : double := Eval vm_compute in fdiv (of_long 1) (of_long 2).
(** [DBL_MAX] *)
Definition MAXDOUBLE : double := Eval vm_compute in S754_finite false (2 ^ 53 - 1) 971.
Definition SMALL : double := Eval vm_compute in fdiv f_one MAXDOUBLE.

(** The bytes of a real of [n] bytes in memory, the least significant first. *)
#[export] Instance spec_float_eq_decision : EqDecision spec_float.
Proof. solve_decision. Defined.
Class Host := { host_nan : Z -> Z }.
Definition real_bits {host : Host} (n : Z) (f : double) : Z :=
  if n =? 4 then encode FP FE (host_nan 4) (to_float f) else encode DP DE (host_nan 8) f.
Definition real_of (n x : Z) : double :=
  if n =? 4 then to_double (decode FP FE x) else decode DP DE x.

Definition valid_double (f : double) : Prop := valid_binary DP DE f = true.
Definition valid_float (f : spec_float) : Prop := valid_binary FP FE f = true.

(** ** Exact conversions *)

(** A mantissa of at most 53 bits, brought to 53 bits. *)
Lemma bounded_widened m e :
  Zpos (digits2_pos m) <= DP -> emin DP DE <= e - (DP - Zpos (digits2_pos m)) <= DE - DP ->
  exists p, Zpos p = Zpos m * 2 ^ (DP - Zpos (digits2_pos m)) /\ Zpos (digits2_pos p) = DP /\
    bounded DP DE p (e - (DP - Zpos (digits2_pos m))) = true.
Proof.
  intros Hd He. destruct (digits_mul m (DP - Zpos (digits2_pos m)) ltac:(lia)) as (p & Ep & Ed).
  exists p. split_and!; [done|lia|]. apply bounded_cases. lia.
Qed.
Lemma round_widened s m e :
  Zpos (digits2_pos m) <= DP -> emin DP DE <= e - (DP - Zpos (digits2_pos m)) <= DE - DP ->
  exists p, Zpos p = Zpos m * 2 ^ (DP - Zpos (digits2_pos m)) /\ Zpos (digits2_pos p) = DP /\
    bounded DP DE p (e - (DP - Zpos (digits2_pos m))) = true /\
    binary_round DP DE s m e = S754_finite s p (e - (DP - Zpos (digits2_pos m))).
Proof.
  intros Hd He. destruct (bounded_widened m e Hd He) as (p & Ep & Edp & Hb). exists p. split_and!; [done|done|done|].
  apply round_exact; [done..|]. left. exists (DP - Zpos (digits2_pos m)). split_and!; [lia|done|done].
Qed.

(** A [float] is a [double], which converts back to it. *)
Lemma to_double_exact g :
  valid_float g -> valid_double (to_double g) /\ to_float (to_double g) = g.
Proof.
  intros Hv. destruct g as [s|s| |s m e]; try done. pose proof Hv as Hb. apply bounded_cases in Hb as (He & Hd & _).
  unfold FP, FE, emin in *. cbn [to_double].
  destruct (round_widened s m e) as (p & Ep & Edp & Hb & E); [unfold DP; lia|unfold DP, DE, emin; lia|].
  rewrite E. split; [exact Hb|]. cbn [to_float]. apply round_exact; [done..|].
  right. exists (DP - Zpos (digits2_pos m)). split_and!; [unfold DP; lia|done|done].
Qed.

(** Integers of less than 53 bits are converted without rounding. *)
Lemma of_long_pos p : Zpos p < 2 ^ 53 ->
  exists q, Zpos q = Zpos p * 2 ^ (DP - Zpos (digits2_pos p)) /\ Zpos (digits2_pos q) = DP /\
    0 <= DP - Zpos (digits2_pos p) /\
    forall s, binary_round DP DE s p 0 = S754_finite s q (- (DP - Zpos (digits2_pos p))).
Proof.
  intros Hp. pose proof (digits_range p) as [H1 _].
  assert (Hd : Zpos (digits2_pos p) - 1 < 53) by (apply (Z.pow_lt_mono_r_iff 2); lia).
  assert (Hd' : Zpos (digits2_pos p) <= DP) by (unfold DP; lia).
  assert (He : emin DP DE <= 0 - (DP - Zpos (digits2_pos p)) <= DE - DP) by (unfold DP, DE, emin in *; lia).
  destruct (bounded_widened p 0 Hd' He) as (q & Eqv & Edq & _). exists q. split_and!; [done|done|lia|].
  intros s. destruct (round_widened s p 0 Hd' He) as (q' & Eq' & _ & _ & E). rewrite E.
  assert (q' = q) as -> by congruence. f_equal.
Qed.

Lemma trunc_of_long x : - 2 ^ 53 < x < 2 ^ 53 -> trunc (of_long x) = Some x.
Proof.
  intros Hx. unfold of_long. destruct x as [|p|p]; [done| |]; cbn [binary_normalize].
  all: destruct (of_long_pos p) as (q & Eqv & _ & Hd & E); [lia|]; rewrite E; cbn [trunc cond_Zopp].
  all: set (d := DP - Zpos (digits2_pos p)) in *; f_equal.
  all: assert (Ht : (if 0 <=? - d then Zpos q * 2 ^ (- d) else Z.shiftr (Zpos q) (- - d)) = Zpos p); [|rewrite Ht; done].
  all: destruct (Z.leb_spec 0 (- d)).
  1,3: assert (d = 0) as -> by lia; cbn [Z.opp]; rewrite Eqv; lia.
  all: rewrite Z.shiftr_div_pow2, Z.opp_involutive, Eqv by lia; apply Z.div_mul; pose proof (Z.pow_pos_nonneg 2 d); lia.
Qed.
Lemma to_long_of_long x : - 2 ^ 53 < x < 2 ^ 53 -> to_long (of_long x) = Some x.
Proof. intros Hx. unfold to_long. rewrite trunc_of_long by done. by replace (_ && _) with true by lia. Qed.

(** Comparison of numbers that are integers is comparison of integers. *)
Lemma compare_widened p q p' q' :
  Zpos p < 2 ^ 53 -> Zpos q < 2 ^ 53 ->
  Zpos p' = Zpos p * 2 ^ (DP - Zpos (digits2_pos p)) -> Zpos q' = Zpos q * 2 ^ (DP - Zpos (digits2_pos q)) ->
  match - (DP - Zpos (digits2_pos p)) ?= - (DP - Zpos (digits2_pos q)) with
  | Eq => Pos.compare_cont Eq p' q' | Lt => Lt | Gt => Gt
  end = (Zpos p ?= Zpos q).
Proof.
  intros Hp Hq Ep Eqv. pose proof (digits_range p) as [P1 P2]. pose proof (digits_range q) as [Q1 Q2].
  assert (Hdp : Zpos (digits2_pos p) - 1 < 53) by (apply (Z.pow_lt_mono_r_iff 2); lia).
  destruct (Z.compare_spec (- (DP - Zpos (digits2_pos p))) (- (DP - Zpos (digits2_pos q)))) as [E|E|E].
  - change (Pos.compare_cont Eq p' q') with (Zpos p' ?= Zpos q'). rewrite Ep, Eqv.
    assert (Zpos (digits2_pos p) = Zpos (digits2_pos q)) as -> by lia.
    set (k := 2 ^ (DP - Zpos (digits2_pos q))). assert (0 < k) by (apply Z.pow_pos_nonneg; unfold DP; lia).
    symmetry. rewrite !(Z.mul_comm _ k). by apply Zmult_compare_compat_l; lia.
  - symmetry. apply Z.compare_lt_iff. eapply Z.lt_le_trans; [exact P2|]. eapply Z.le_trans; [|exact Q1].
    apply Z.pow_le_mono_r; lia.
  - symmetry. apply Z.compare_gt_iff. eapply Z.lt_le_trans; [exact Q2|]. eapply Z.le_trans; [|exact P1].
    apply Z.pow_le_mono_r; lia.
Qed.
Lemma compare_of_long x y :
  - 2 ^ 53 < x < 2 ^ 53 -> - 2 ^ 53 < y < 2 ^ 53 -> SFcompare (of_long x) (of_long y) = Some (x ?= y).
Proof.
  intros Hx Hy. unfold of_long.
  destruct x as [|p|p], y as [|q|q]; cbn [binary_normalize]; try done.
  all: try (destruct (of_long_pos p) as (p' & Ep & _ & _ & E); [lia|]; rewrite E).
  all: try (destruct (of_long_pos q) as (q' & Eqv & _ & _ & E'); [lia|]; rewrite E').
  all: try done; cbn [SFcompare]; f_equal.
  - by apply compare_widened; [lia..| |].
  - change (Zneg p ?= Zneg q) with (CompOpp (Zpos p ?= Zpos q)).
    rewrite <- (compare_widened p q p' q') by (done || lia). by destruct (- _ ?= _).
Qed.

(** The rounding to the size in memory. *)
Definition rounded (n : Z) (f : double) : double := if n =? 4 then to_double (to_float f) else f.

(** The host's NaNs are NaNs of their size. *)
Class HostOk {host : Host} : Prop := {
  host_nan_4 : 0 <= host_nan 4 < 2 ^ 32 /\ decode FP FE (host_nan 4) = S754_nan;
  host_nan_8 : 0 <= host_nan 8 < 2 ^ 64 /\ decode DP DE (host_nan 8) = S754_nan
}.

Lemma to_float_valid f : valid_double f -> valid_float (to_float f).
Proof. intros Hf. destruct f as [| | |s m e]; [done..|]. by apply round_valid. Qed.
Lemma of_long_valid x : valid_double (of_long x).
Proof. unfold of_long. destruct x as [|p|p]; [done|by apply round_valid..]. Qed.
Lemma rounded_valid n f : valid_double f -> valid_double (rounded n f).
Proof. intros Hf. unfold rounded. destruct (n =? 4); [|done]. by apply to_double_exact, to_float_valid. Qed.
Lemma rounded_idem n f : valid_double f -> rounded n (rounded n f) = rounded n f.
Proof.
  intros Hf. unfold rounded. destruct (n =? 4); [|done].
  by rewrite (proj2 (to_double_exact (to_float f) (to_float_valid f Hf))).
Qed.
(** A real that is stored is loaded, rounded to its size. *)
Lemma real_of_bits {host : Host} {hok : HostOk} n f :
  n = 4 \/ n = 8 -> valid_double f -> real_of n (real_bits n f mod 2 ^ (8 * n)) = rounded n f.
Proof.
  intros Hn Hf. unfold real_of, real_bits, rounded. destruct Hn as [-> | ->]; cbn [Z.eqb Pos.eqb].
  - pose proof (to_float_valid f Hf) as Hg. f_equal.
    destruct (decide (to_float f = S754_nan)) as [E|E].
    + rewrite E. cbn [encode]. destruct host_nan_4 as [Hr Hd]. by rewrite Z.mod_small.
    + pose proof (encode_range FP FE ltac:(done) ltac:(done) (host_nan 4) _ Hg E) as Hr.
      rewrite Z.mod_small by exact Hr. by apply decode_encode.
  - destruct (decide (f = S754_nan)) as [E|E].
    + rewrite E. cbn [encode]. destruct host_nan_8 as [Hr Hd]. by rewrite Z.mod_small.
    + pose proof (encode_range DP DE ltac:(done) ltac:(done) (host_nan 8) _ Hf E) as Hr.
      rewrite Z.mod_small by exact Hr. by apply decode_encode.
Qed.
Lemma real_of_valid n x : valid_double (real_of n x).
Proof.
  unfold real_of. destruct (n =? 4); [|by apply decode_valid]. apply to_double_exact, decode_valid; done.
Qed.

(** ** Scaling by two *)

(** The number lies between [2 ^ (magnitude - 1)] and [2 ^ magnitude]. *)
Definition magnitude (m : positive) (e : Z) : Z := Zpos (digits2_pos m) + e.
(** The mantissa brought to 53 bits. *)
Definition full_mantissa (m : positive) : Z := Zpos m * 2 ^ (DP - Zpos (digits2_pos m)).
#[local] Abbreviation canonical m e := (bounded DP DE m e = true).

Lemma canonical_cases m e :
  canonical m e -> -1074 <= e <= 971 /\ Zpos (digits2_pos m) <= 53 /\ (Zpos (digits2_pos m) = 53 \/ e = -1074).
Proof. intros H. apply bounded_cases in H. unfold emin, DP, DE in H. lia. Qed.
Lemma canonical_intro m e :
  -1074 <= e <= 971 -> Zpos (digits2_pos m) <= 53 -> (Zpos (digits2_pos m) = 53 \/ e = -1074) -> canonical m e.
Proof. intros. apply bounded_cases. unfold emin, DP, DE. lia. Qed.

(** Comparison with a power of two, which has the mantissa [2 ^ 52]. *)
#[local] Abbreviation lead := 4503599627370496%positive.
Lemma lead_val : Zpos lead = 2 ^ (53 - 1).
Proof. reflexivity. Qed.
Lemma compare_pos p q : Pos.compare_cont Eq p q = (Zpos p ?= Zpos q).
Proof. reflexivity. Qed.
Lemma compare_power c m e :
  -1074 < c -> canonical m e ->
  match SFcompare (S754_finite false lead c) (S754_finite false m e) with
  | Some (Lt | Eq) => true | _ => false
  end = (c + 53 <=? magnitude m e) /\
  match SFcompare (S754_finite false m e) (S754_finite false lead c) with
  | Some Lt => true | _ => false
  end = (magnitude m e <? c + 53).
Proof.
  intros Hc Hb. apply canonical_cases in Hb as (He & Hd & Hn). pose proof (digits_range m) as [H1 H2].
  unfold magnitude. cbn [SFcompare]. rewrite !compare_pos.
  destruct (Z.compare_spec c e) as [E|E|E], (Z.compare_spec e c) as [E'|E'|E']; try lia; try (split; lia).
  assert (Zpos (digits2_pos m) = 53) as Ed by lia. rewrite Ed, <- lead_val in H1. rewrite Ed.
  destruct (Z.compare_spec (Zpos lead) (Zpos m)), (Z.compare_spec (Zpos m) (Zpos lead)); split; lia.
Qed.
Lemma fle_one m e : canonical m e -> fle f_one (S754_finite false m e) = (1 <=? magnitude m e).
Proof. intros H. apply (compare_power (-52) m e ltac:(lia) H). Qed.
Lemma flt_half m e : canonical m e -> flt (S754_finite false m e) f_half = (magnitude m e <? 0).
Proof. intros H. apply (compare_power (-53) m e ltac:(lia) H). Qed.

Lemma twice_exact s m e :
  canonical m e -> magnitude m e < DE ->
  exists m' e', fmul (S754_finite s m e) f_two = S754_finite s m' e' /\ canonical m' e' /\
    magnitude m' e' = magnitude m e + 1 /\ full_mantissa m' = full_mantissa m.
Proof.
  intros Hb Hlt. apply canonical_cases in Hb as (He & Hd & Hn). unfold magnitude, DE in *.
  change f_two with (S754_finite false lead (-51)). unfold fmul. cbn [SFmul]. rewrite xorb_false_r.
  rewrite Pos2Z.inj_mul. change (Zpos lead) with (2 ^ 52).
  destruct (Z.eq_dec (Zpos (digits2_pos m)) 53) as [Ed|Ed].
  - exists m, (e + 1). assert (Hb' : canonical m (e + 1)) by (apply canonical_intro; lia).
    replace (e + -51) with (e + 1 - 52) by lia. rewrite round_aux_exact by done. split_and!; [done|done|lia|done].
  - destruct (digits_mul m 1 ltac:(lia)) as (p & Ep & Edp). exists p, e.
    assert (Hb' : canonical p e) by (apply canonical_intro; lia).
    replace (Zpos m * 2 ^ 52) with (Zpos p * 2 ^ 51) by (rewrite <- Ep; lia).
    replace (e + -51) with (e - 51) by lia. rewrite round_aux_exact by done. split_and!; [done|done|lia|].
    unfold full_mantissa. rewrite <- Ep, Edp. rewrite <- Z.mul_assoc, <- Z.pow_add_r by (unfold DP; lia).
    do 2 f_equal. lia.
Qed.

Lemma half_exact s m e :
  canonical m e -> -1072 <= e -> fdiv (S754_finite s m e) f_two = S754_finite s m (e - 1) /\ canonical m (e - 1).
Proof.
  intros Hb Hlo. apply canonical_cases in Hb as (He & Hd & Hn).
  assert (Hb' : canonical m (e - 1)) by (apply canonical_intro; lia). split; [|done].
  change f_two with (S754_finite false lead (-51)). unfold fdiv. cbn [SFdiv]. rewrite xorb_false_r.
  unfold SFdiv_core_binary. cbn [Zdigits2]. assert (Zpos (digits2_pos m) = 53) as -> by lia.
  change (Zpos (digits2_pos lead)) with 53.
  assert (Ef : Z.min (fexp DP DE (53 + e - (53 + -51))) (e - -51) = e - 2) by (unfold fexp, emin, DP, DE; lia).
  rewrite Ef. replace (e - -51 - (e - 2)) with 53 by lia.
  rewrite Z.shiftl_mul_pow2 by lia. change (Zpos lead) with (2 ^ 52).
  replace (Zpos m * 2 ^ 53) with (Zpos m * 2 * 2 ^ 52) by lia.
  assert (Eq : Z.div_eucl (Zpos m * 2 * 2 ^ 52) (2 ^ 52) = (Zpos m * 2, 0)).
  { pose proof (Z_div_mult_full (Zpos m * 2) (2 ^ 52) ltac:(done)) as E1.
    pose proof (Z_mod_mult (Zpos m * 2) (2 ^ 52)) as E2. unfold Z.div, Z.modulo in E1, E2.
    destruct (Z.div_eucl _ _) as [q r]. by rewrite E1, E2. }
  rewrite Eq. cbn [new_location]. change (new_location (2 ^ 52) 0) with loc_Exact.
  replace (e - 2) with (e - 1 - 1) by lia. change (Zpos m * 2) with (Zpos m * 2 ^ 1). by apply round_aux_exact.
Qed.
