(* ===== verification/Float.v ===== *)
(** * Reals: loads, stores, arithmetic, conversions
    ([do_fpar.c]; the parts of [stack.c], [data.c], [do_conv.c], [do_comp.c] and
    [do_incdec.c] under [#ifndef NOFLOAT])

    A loop that may not end is given fuel: [None] stands for an endless loop.  The
    loops of [floor] and [fef] walk through the binary exponents of a [double], of
    which there are fewer than [exponents]. *)
From Stdlib Require Import ZArith Lia Bool.
From Stdlib Require Import Floats.SpecFloat.
From stdpp Require Import base gmap list.
From S2P Require Import Prelude Machine Warn Mem Wp Data Stack StackSpec Text Frame Instr Arith Logic Branch Real.

Section Float.
Context {cfg : Config} {host : Host}.

(** ** Memory *)
Definition dt_stf (addr : Z) (f : double) (n : Z) : M unit :=
  ch_in_data addr n ;;
  ch_wordaligned addr ;;
  dt_st_loop (Z.to_nat n) addr (real_bits n f) SH_FLOAT.
Definition st_stf (addr : Z) (f : double) (n : Z) : M unit :=
  ch_in_stack addr n ;;
  ch_wordaligned addr ;;
  st_st_loop (Z.to_nat n) addr (real_bits n f) SH_FLOAT.
Definition st_ldf (addr n : Z) : M double :=
  ch_in_stack addr n ;;
  ch_wordaligned addr ;;
  b ← is_st_set addr n SH_FLOAT;
  when (negb b) (warning WLFEXP ;; warn_stbits addr n) ;;
  x ← bytes_in stack_loc addr (Z.to_nat n);
  ret (real_of n x).
Definition fpop (n : Z) : M double := sp ← gets SP; d ← st_ldf sp n; decSP n ;; ret d.
Definition fpush (f : double) (n : Z) : M unit := incSP n ;; sp ← gets SP; st_stf sp f n.

(** ** Service routines of [do_fpar.c] *)
Definition fabs (f : double) : double := if flt f f_zero then fneg f else f.

Definition adf (f1 f2 : double) : M double :=
  t ← gets (tested EFOVFL);
  when t
    (if flt f_zero f1 && flt f_zero f2
     then when (flt (fsub MAXDOUBLE f1) f2) (trap EFOVFL)
     else if flt f1 f_zero && flt f2 f_zero
     then when (flt f2 (fneg (fadd MAXDOUBLE f1))) (trap EFOVFL)
     else skip) ;;
  ret (fadd f1 f2).

Definition sbf (f1 f2 : double) : M double :=
  t ← gets (tested EFOVFL);
  when t
    (if flt f2 f_zero && flt f_zero f1
     then when (flt (fsub MAXDOUBLE f1) (fneg f2)) (trap EFOVFL)
     else if flt f_zero f2 && flt f1 f_zero
     then when (flt f1 (fsub f2 MAXDOUBLE)) (trap EFOVFL)
     else skip) ;;
  ret (fsub f1 f2).

Definition mlf (f1 f2 : double) : M double :=
  let ff1 := fabs f1 in
  let ff2 := fabs f2 in
  if feq f1 f_zero || feq f2 f_zero then ret f_zero
  else if (fle f_one ff1 && fle ff2 f_one) || (fle f_one ff2 && fle ff1 f_one) then ret (fmul f1 f2)
  else
    tu ← gets (tested EFUNFL);
    if tu && (flt ff1 f_one && flt ff2 f_one) then
      when (flt ff2 (fdiv SMALL ff1)) (trap EFUNFL) ;; ret (fmul f1 f2)
    else
      t ← gets (tested EFOVFL);
      when (t && flt (fdiv MAXDOUBLE ff1) ff2) (trap EFOVFL) ;;
      ret (fmul f1 f2).

Definition dvf (f1 f2 : double) : M double :=
  let ff1 := fabs f1 in
  let ff2 := fabs f2 in
  if feq f2 f_zero then
    i ← gets (ignored EFDIVZ);
    if negb i then trap EFDIVZ else ret f_zero
  else if feq f1 f_zero then ret f_zero
  else if (fle f_one ff2 && fle f_one ff1) || (fle ff1 f_one && fle ff2 f_one) then ret (fdiv f1 f2)
  else
    tu ← gets (tested EFUNFL);
    if tu && (flt f_one ff2 && flt ff1 f_one) then
      when (flt ff1 (fdiv SMALL ff2)) (trap EFUNFL) ;; ret (fdiv f1 f2)
    else
      t ← gets (tested EFOVFL);
      when (t && flt (fmul MAXDOUBLE ff2) ff1) (trap EFOVFL) ;;
      ret (fdiv f1 f2).

Definition exponents : nat := 2200.

(** [while (f - d >= d) d *= 2.0;] and
    [while (d >= 1.0) { if (res + d <= f) res += d; d /= 2.0; }] *)
Fixpoint floor_up (k : nat) (f d : double) : option double :=
  match k with
  | O => None
  | S k' => if fle d (fsub f d) then floor_up k' f (fmul d f_two) else Some d
  end.
Fixpoint floor_down (k : nat) (f d res : double) : option double :=
  match k with
  | O => None
  | S k' =>
      if fle f_one d
      then floor_down k' f (fdiv d f_two) (if fle (fadd res d) f then fadd res d else res)
      else Some res
  end.
Definition floor (f : double) : option double :=
  let neg := flt f f_zero in
  let f1 := if neg then fneg f else f in
  match floor_up exponents f1 f_one with
  | None => None
  | Some d =>
      match floor_down exponents f1 d f_zero with
      | None => None
      | Some res =>
          Some (if neg then
                  let res := fneg res in
                  if flt (fneg f1) res then fsub res f_one else res
                else res)
      end
  end.

(** [for (f = fabs(f), exponent = 0; f >= 1.0; exponent++) f /= 2.0;] and
    [for (; f < 0.5; exponent--) f *= 2.0;] *)
Fixpoint fef_down (k : nat) (f : double) (exponent : Z) : option (double * Z) :=
  match k with
  | O => None
  | S k' => if fle f_one f then fef_down k' (fdiv f f_two) (exponent + 1) else Some (f, exponent)
  end.
Fixpoint fef_up (k : nat) (f : double) (exponent : Z) : option (double * Z) :=
  match k with
  | O => None
  | S k' => if flt f f_half then fef_up k' (fmul f f_two) (exponent - 1) else Some (f, exponent)
  end.
Definition split_exponent (f : double) : option (double * Z) :=
  match fef_down exponents f 0 with
  | Some (f, exponent) => fef_up exponents f exponent
  | None => None
  end.

(** The value of a computation that may not end. *)
Definition ending {A} (o : option A) : M A := match o with Some a => ret a | None => undef end.

Definition fif (f1 f2 : double) (n : Z) : M unit :=
  f ← mlf f1 f2;
  fl ← ending (floor (fabs f));
  fpush (fsub (fabs f) fl) n ;;
  fpush (if flt f f_zero then fneg fl else fl) n.

Definition fef (f : double) (n : Z) : M unit :=
  if feq f f_zero then fpush f n ;; wpush 0
  else
    r ← ending (split_exponent (fabs f));
    fpush (if flt f f_zero then fneg r.1 else r.1) n ;;
    wpush r.2.

(** ** The instructions of [do_fpar.c] *)
Definition float2 (op : double -> double -> M double) (l : Z) : M unit :=
  a ← arg_wf l; t ← fpop a; spoilFRA ;; f ← fpop l; r ← op f t; fpush r l.
(** ADF w, SBF w, MLF w, DVF w: Floating add, subtract, multiply, divide *)
Definition DoADF (l : Z) : M unit := float2 adf l.
Definition DoSBF (l : Z) : M unit := float2 sbf l.
Definition DoMLF (l : Z) : M unit := float2 mlf l.
Definition DoDVF (l : Z) : M unit := float2 dvf l.
(** NGF w: Floating negate *)
Definition DoNGF (l : Z) : M unit := a ← arg_wf l; t ← fpop a; spoilFRA ;; fpush (fneg t) l.
(** FIF w: Floating multiply and split integer and fraction part *)
Definition DoFIF (l : Z) : M unit :=
  a ← arg_wf l; t ← fpop a; spoilFRA ;; f ← fpop l; fif f t l.
(** FEF w: Split floating number in exponent and fraction part *)
Definition DoFEF (l : Z) : M unit := spoilFRA ;; a ← arg_wf l; f ← fpop a; fef f l.

(** ** [do_comp.c], [do_incdec.c] *)
(** CMF w: Compare w byte reals *)
Definition DoCMF (l : Z) : M unit :=
  a ← arg_wf l; t ← fpop a; s ← fpop l; spoilFRA ;;
  wpush (if flt t s then 1 else if flt s t then -1 else 0).
(** ZRF w: Load a floating zero of size w *)
Definition DoZRF (l : Z) : M unit := spoilFRA ;; a ← arg_wf l; fpush f_zero a.

(** ** The conversions of [do_conv.c] *)
(** A cast of a real that may have no meaning. *)
Definition cast (o : option Z) : M Z := ending o.

(** CFI -: Convert floating to integer *)
Definition cfi (lo hi : Z) (o n : Z) : M unit :=
  f ← fpop o;
  conv_check (fle f (fsub (of_long lo) f_one) || flt (of_long hi) f) ;;
  v ← cast (to_long f); npush v n.
Definition DoCFI : M unit :=
  c ← conv_sizes;
  if c =? 42 then not_on_4 ;; cfi I_MINS2 I_MAXS2 4 2
  else if c =? 44 then cfi I_MINS4 I_MAXS4 4 4
  else if c =? 82 then not_on_4 ;; cfi I_MINS2 I_MAXS2 8 2
  else if c =? 84 then cfi I_MINS4 I_MAXS4 8 4
  else bad_conv.

(** CIF -: Convert integer to floating *)
Definition DoCIF : M unit :=
  c ← conv_sizes;
  if c =? 24 then not_on_4 ;; v ← spop 2; fpush (of_long v) 4
  else if c =? 28 then not_on_4 ;; v ← spop 2; fpush (of_long v) 8
  else if c =? 44 then v ← spop 4; fpush (of_long v) 4
  else if c =? 48 then v ← spop 4; fpush (of_long v) 8
  else bad_conv.

(** CUF -: Convert unsigned to floating *)
Definition cuf4 (n : Z) : M unit :=
  u ← upop 4;
  if I_MAXS4 <? u
  then fpush (fsub (of_long (u64 (u64 (u - I_MAXS4) - 1))) (of_long (- I_MAXS4 - 1))) n
  else fpush (of_long u) n.
Definition DoCUF : M unit :=
  c ← conv_sizes;
  if c =? 24 then not_on_4 ;; u ← upop 2; fpush (of_long u) 4
  else if c =? 28 then not_on_4 ;; u ← upop 2; fpush (of_long u) 8
  else if c =? 44 then cuf4 4
  else if c =? 48 then cuf4 8
  else bad_conv.

(** CFF -: Convert floating to floating *)
Definition DoCFF : M unit :=
  c ← conv_sizes;
  if c =? 44 then skip
  else if c =? 48 then f ← fpop 4; fpush f 8
  else if c =? 88 then skip
  else if c =? 84 then f ← fpop 8; fpush f 4
  else bad_conv.

(** CFU -: Convert floating to unsigned *)
Definition cfu (o n : Z) : M unit := f ← fpop o; v ← cast (to_ulong f); npush (s64 v) n.
Definition DoCFU : M unit :=
  c ← conv_sizes;
  if c =? 42 then not_on_4 ;; cfu 4 2
  else if c =? 44 then cfu 4 4
  else if c =? 82 then not_on_4 ;; cfu 8 2
  else if c =? 84 then cfu 8 4
  else bad_conv.

(** ** Reading reals from the load file *)

(** Times ten to the power. *)
Fixpoint ttttp_loop (n : nat) (op : double -> double -> M double) (f : double) : M double :=
  match n with
  | O => ret f
  | S n' => f ← op f f_ten; ttttp_loop n' op f
  end.
Definition ttttp (f : double) (n : Z) : M double :=
  f ← ttttp_loop (Z.to_nat n) mlf f; ttttp_loop (Z.to_nat (- n)) dvf f.

Definition bad_float {A} : M A := fatal (FLoad LFloatGarbled).
Definition is_digit (b : Z) : bool := (48 <=? b) && (b <=? 57).
(** [b = *str++], zero at the end of the string. *)
Definition next (str : list Z) : Z * list Z := match str with [] => (0, []) | b :: str => (b, str) end.
(** An optional sign: the sign, the next character, the rest. *)
Definition read_sign (str : list Z) : Z * (Z * list Z) :=
  let '(b, str) := next str in
  if b =? 45 then (-1, next str) else if b =? 43 then (1, next str) else (1, (b, str)).

(** The digits up to the end or an e, which is followed by the exponent. *)
Fixpoint mantissa_loop (str : list Z) (frac : Z) (mantissa : double) : M (double * option (list Z)) :=
  match str with
  | [] => ret (mantissa, None)
  | b :: str =>
      if (b =? 101) || (b =? 69) then ret (mantissa, Some str)
      else if b =? 46 then if frac =? 0 then mantissa_loop str 1 mantissa else bad_float
      else if is_digit b then
        let bval := of_long (b - 48) in
        if negb (frac =? 0)
        then t ← ttttp bval (- frac); m ← adf mantissa t; mantissa_loop str (frac + 1) m
        else t ← mlf mantissa f_ten; m ← adf t bval; mantissa_loop str frac m
      else bad_float
  end.
(** The digits of the exponent, an [int]. *)
Fixpoint exponent_loop (b : Z) (str : list Z) (ex : Z) {struct str} : M Z :=
  if is_digit b then
    let ex := 10 * ex + (b - 48) in
    if I_MAXS4 <? ex then undef
    else match str with [] => ret ex | b :: str => exponent_loop b str ex end
  else bad_float.

Definition str2double (str : list Z) : M double :=
  let '(sign, (b, str)) := read_sign str in
  start ← (if is_digit b then ret (of_long (b - 48), 0)
           else if b =? 46 then warning WBADFLOAT ;; ret (f_zero, 1)
           else bad_float);
  r ← mantissa_loop str start.2 start.1;
  let mantissa := fmul (of_long sign) r.1 in
  match r.2 with
  | None => ret mantissa
  | Some str =>
      let '(sign, (b, str)) := read_sign str in
      ex ← exponent_loop b str 0;
      ttttp mantissa (sign * ex)
  end.

End Float.
#[export] Hint Unfold DoADF DoSBF DoMLF DoDVF DoNGF DoFIF DoFEF DoCMF DoZRF DoCFI DoCIF DoCUF DoCFF DoCFU : instr.

(** ** The real instructions preserve the invariant *)
Section Keeps.
Context {cfg : Config} {ok : ConfigOk} {host : Host}.

(** The sizes of reals. *)
Definition wf_size (n : Z) : Prop := n = 4 \/ n = 8.
Lemma wf_size_aligned n : wf_size n -> n mod wsize = 0.
Proof. intros [-> | ->]; by sizes. Qed.
Lemma keeps_incSP_wf n : wf_size n -> keeps (incSP n) any.
Proof. intros Hn. apply keeps_incSP; [destruct Hn; lia|by apply wf_size_aligned]. Qed.
Lemma keeps_decSP_wf n : wf_size n -> keeps (decSP n) any.
Proof. intros Hn. apply keeps_decSP; [destruct Hn; lia|by apply wf_size_aligned]. Qed.
Lemma wf_size_4 : wf_size 4.
Proof. by left. Qed.
Lemma wf_size_8 : wf_size 8.
Proof. by right. Qed.
Lemma keeps_arg_wf l : keeps (arg_wf l) (fun n => n = l /\ wf_size l).
Proof. apply keeps_check; [apply keeps_trap|]. intros. split; [done|]. unfold wf_size. lia. Qed.
#[local] Hint Resolve keeps_incSP_wf keeps_decSP_wf wf_size_4 wf_size_8 keeps_arg_wf keeps_conv_sizes keeps_conv_check
  keeps_bad_conv keeps_spop keeps_upop keeps_npush keeps_wpush obj_size_2 obj_size_4 keeps_dt_st_loop
  keeps_st_st_loop keeps_warn_stbits : keeps.

Lemma keeps_dt_stf a f n : keeps (dt_stf a f n) any.
Proof. unfold dt_stf. keeps_tac. Qed.
Lemma keeps_bytes_in_stack a n : keeps (bytes_in stack_loc a n) any.
Proof. eapply keeps_any, keeps_bytes_in, keeps_stack_loc. Qed.
Lemma keeps_st_stf a f n : keeps (st_stf a f n) any.
Proof. unfold st_stf. keeps_tac. Qed.
#[local] Hint Resolve keeps_bytes_in_stack keeps_st_stf : keeps.
Lemma keeps_st_ldf a n : keeps (st_ldf a n) any.
Proof. unfold st_ldf. keeps_tac. Qed.
#[local] Hint Resolve keeps_st_ldf : keeps.
Lemma keeps_fpop n : wf_size n -> keeps (fpop n) any.
Proof. intros. unfold fpop. keeps_tac. Qed.
Lemma keeps_fpush f n : wf_size n -> keeps (fpush f n) any.
Proof. intros. unfold fpush. keeps_tac. Qed.
#[local] Hint Resolve keeps_fpop keeps_fpush : keeps.

Lemma keeps_adf f g : keeps (adf f g) any.
Proof. unfold adf. keeps_tac. Qed.
Lemma keeps_sbf f g : keeps (sbf f g) any.
Proof. unfold sbf. keeps_tac. Qed.
Lemma keeps_mlf f g : keeps (mlf f g) any.
Proof. unfold mlf. keeps_tac. Qed.
Lemma keeps_dvf f g : keeps (dvf f g) any.
Proof. unfold dvf. keeps_tac. Qed.
Lemma keeps_ending {A} (o : option A) : keeps (ending o) any.
Proof. destruct o; [by apply keeps_ret|apply keeps_undef]. Qed.
#[local] Hint Resolve keeps_adf keeps_sbf keeps_mlf keeps_dvf keeps_ending : keeps.
Lemma keeps_fif f g n : wf_size n -> keeps (fif f g n) any.
Proof. intros. unfold fif. keeps_tac. Qed.
Lemma keeps_fef f n : wf_size n -> keeps (fef f n) any.
Proof. intros. unfold fef. keeps_tac. Qed.
Lemma keeps_float2 op l : (forall f g, keeps (op f g) any) -> keeps (float2 op l) any.
Proof. intros. unfold float2. keeps_tac. Qed.
Lemma keeps_cfi lo hi o n : wf_size o -> obj_size n -> keeps (cfi lo hi o n) any.
Proof. intros. unfold cfi, cast. keeps_tac. Qed.
Lemma keeps_cuf4 n : wf_size n -> keeps (cuf4 n) any.
Proof. intros. unfold cuf4. keeps_tac. Qed.
Lemma keeps_cfu o n : wf_size o -> obj_size n -> keeps (cfu o n) any.
Proof. intros. unfold cfu, cast. keeps_tac. Qed.

Lemma keeps_ttttp_loop n op : (forall f g, keeps (op f g) any) -> forall f, keeps (ttttp_loop n op f) any.
Proof. intros H. induction n as [|n IH]; intros f; cbn [ttttp_loop]; keeps_tac. Qed.
Lemma keeps_ttttp f n : keeps (ttttp f n) any.
Proof.
  unfold ttttp. eapply keeps_bind; [apply keeps_ttttp_loop, keeps_mlf|]. intros g _. apply keeps_ttttp_loop, keeps_dvf.
Qed.
#[local] Hint Resolve keeps_ttttp : keeps.
Lemma keeps_bad_float {A} (P : A -> Prop) : keeps bad_float P.
Proof. apply keeps_fatal. Qed.
Lemma keeps_mantissa_loop str : forall frac m, keeps (mantissa_loop str frac m) any.
Proof.
  induction str as [|b str IH]; intros frac m; cbn [mantissa_loop]; [by apply keeps_ret|].
  keeps_tac; apply keeps_bad_float.
Qed.
Lemma keeps_exponent_loop str : forall b ex, keeps (exponent_loop b str ex) any.
Proof.
  induction str as [|c str IH]; intros b ex; cbn [exponent_loop]; keeps_tac; try apply IH; apply keeps_bad_float.
Qed.
#[local] Hint Resolve keeps_mantissa_loop keeps_exponent_loop keeps_bad_float : keeps.
Lemma keeps_str2double str : keeps (str2double str) any.
Proof. unfold str2double. keeps_tac. Qed.
End Keeps.
#[export] Hint Resolve keeps_incSP_wf keeps_decSP_wf wf_size_4 wf_size_8 keeps_arg_wf keeps_dt_stf keeps_fpop keeps_fpush
  keeps_adf keeps_sbf keeps_mlf keeps_dvf keeps_fif keeps_fef keeps_float2 keeps_cfi keeps_cuf4 keeps_cfu
  keeps_str2double : keeps.
