(* ===== verification/FloatSpec.v ===== *)
(** * Reals: what the instructions compute

    Reals on the operand stack, the round trip of a real through memory, the
    splitting loops of FEF as the function [frexp], comparison, and the
    conversions of integers to reals and back. *)
From Stdlib Require Import ZArith Lia Bool.
From Stdlib Require Import Floats.SpecFloat.
From stdpp Require Import base gmap list.
From S2P Require Import Prelude Machine Warn Mem Wp Data Stack StackSpec Text Frame Instr Arith Logic Branch Real Float.

#[local] Abbreviation canonical m e := (bounded DP DE m e = true).

(** ** Splitting in exponent and fraction *)
Lemma fef_down_run k : forall m e x,
  canonical m e -> magnitude m e < Z.of_nat k -> 0 < Z.of_nat k ->
  exists m' e', fef_down k (S754_finite false m e) x = Some (S754_finite false m' e', x + Z.max 0 (magnitude m e)) /\
    canonical m' e' /\ magnitude m' e' = Z.min 0 (magnitude m e) /\ full_mantissa m' = full_mantissa m.
Proof.
  induction k as [|k IH]; intros m e x Hb Hk Hk0; [lia|]. cbn [fef_down]. rewrite fle_one by done.
  destruct (Z.leb_spec 1 (magnitude m e)).
  - pose proof (canonical_cases m e Hb) as (_ & Hd & _). unfold magnitude in *.
    destruct (half_exact false m e Hb) as [E Hb']; [lia|]. rewrite E.
    destruct (IH m (e - 1) (x + 1) Hb') as (m' & e' & E' & H1 & H2 & H3); [lia|lia|].
    exists m', e'. rewrite E'. split_and!; [do 2 f_equal; lia|done|lia|done].
  - exists m, e. split_and!; [do 2 f_equal; lia|done|lia|done].
Qed.
Lemma fef_up_run k : forall m e x,
  canonical m e -> - magnitude m e < Z.of_nat k -> magnitude m e <= 0 ->
  exists m' e', fef_up k (S754_finite false m e) x = Some (S754_finite false m' e', x + magnitude m e) /\
    canonical m' e' /\ magnitude m' e' = 0 /\ full_mantissa m' = full_mantissa m.
Proof.
  induction k as [|k IH]; intros m e x Hb Hk Hle; [lia|]. cbn [fef_up]. rewrite flt_half by done.
  destruct (Z.ltb_spec (magnitude m e) 0).
  - destruct (twice_exact false m e Hb) as (m1 & e1 & E & Hb' & Hm & Hf); [unfold DE; lia|]. rewrite E.
    destruct (IH m1 e1 (x - 1) Hb') as (m' & e' & E' & H1 & H2 & H3); [lia|lia|].
    exists m', e'. rewrite E'. split_and!; [do 2 f_equal; lia|done|done|congruence].
  - exists m, e. split_and!; [do 2 f_equal; lia|done|lia|done].
Qed.

(** A number between a half and one is in the form that [frexp] returns. *)
Lemma frexp_form m m' e' :
  Zpos (digits2_pos m) <= 53 -> canonical m' e' -> magnitude m' e' = 0 -> full_mantissa m' = full_mantissa m ->
  forall e, SFfrexp DP DE (S754_finite false m e) = (S754_finite false m' e', magnitude m e).
Proof.
  intros Hd Hb Hm Hf e. pose proof (canonical_cases m' e' Hb) as (He' & Hd' & Hn'). unfold magnitude, full_mantissa in *.
  assert (Zpos (digits2_pos m') = 53) as E' by lia. assert (e' = -53) as -> by lia.
  rewrite E' in Hf. change (2 ^ (DP - 53)) with 1 in Hf. rewrite Z.mul_1_r in Hf.
  unfold SFfrexp. change (- DP) with (-53). destruct (Z.leb_spec DP (Zpos (digits2_pos m))).
  - unfold DP in *. assert (Zpos (digits2_pos m) = 53) as E by lia. rewrite E in Hf.
    change (2 ^ (53 - 53)) with 1 in Hf. rewrite Z.mul_1_r in Hf. injection Hf as ->. f_equal. lia.
  - assert (E : Zpos (Z.to_pos (DP - Zpos (digits2_pos m))) = DP - Zpos (digits2_pos m)) by (apply Z2Pos.id; lia).
    rewrite (iter_xO m _ m') by (rewrite E; exact Hf). f_equal. unfold DP. lia.
Qed.

(** The loops of [fef] compute [frexp], for every number but zero. *)
Lemma split_exponent_frexp m e :
  canonical m e -> split_exponent (S754_finite false m e) = Some (SFfrexp DP DE (S754_finite false m e)).
Proof.
  intros Hb. pose proof (canonical_cases m e Hb) as (He & Hd & Hn). pose proof (digits_range m) as [D1 D2].
  assert (Hk : Z.of_nat exponents = 2200) by reflexivity.
  assert (Hm : -1074 < magnitude m e <= 1024) by (unfold magnitude; lia).
  destruct (fef_down_run exponents m e 0 Hb) as (m1 & e1 & E1 & Hb1 & Hm1 & Hf1); [lia|lia|].
  destruct (fef_up_run exponents m1 e1 (0 + Z.max 0 (magnitude m e)) Hb1) as (m2 & e2 & E2 & Hb2 & Hm2 & Hf2); [lia|lia|].
  unfold split_exponent. rewrite E1, E2.
  rewrite (frexp_form m m2 e2) by (done || congruence). do 2 f_equal. lia.
Qed.

Section FloatSpec.
Context {cfg : Config} {ok : ConfigOk} {host : Host}.

Lemma fef_frexp s m e n :
  canonical m e ->
  let r := SFfrexp DP DE (S754_finite s m e) in
  fef (S754_finite s m e) n = (fpush r.1 n ;; wpush r.2).
Proof.
  intros Hb r. unfold fef. change (feq (S754_finite s m e) f_zero) with (SFeqb (S754_finite s m e) f_zero).
  assert (E1 : SFeqb (S754_finite s m e) f_zero = false) by by destruct s.
  assert (E2 : fabs (S754_finite s m e) = S754_finite false m e) by by destruct s.
  assert (E3 : flt (S754_finite s m e) f_zero = s) by by destruct s.
  rewrite E1, E2, E3, split_exponent_frexp by done. cbn [ending]. unfold r. clear.
  unfold SFfrexp. destruct (DP <=? Zpos (digits2_pos m)), s; reflexivity.
Qed.

(** ** Reals on the stack *)

(** The real of [n] bytes at [a]. *)
Definition stf (s : state) (a n : Z) : double := real_of n (stk s a n).

Lemma wf_size_range n : wf_size n -> 0 < n < 2 ^ 32.
Proof. intros [-> | ->]; lia. Qed.
Lemma wp_st_ldf U a n (Q : double -> state -> Prop) T s :
  wf_size n -> Inv s -> on_stack a n s -> a mod wsize = 0 ->
  (forall w, Q (stf s a n) (set_warn w s)) -> wp U (st_ldf a n) Q T s.
Proof.
  intros Hn Hs Ha Hal HQ. pose proof (wf_size_range n Hn) as Hr. unfold st_ldf, wp. run.
  rewrite ch_in_stack_run by done. run. rewrite ch_wordaligned_run by done. run.
  destruct (sh_check_run a n SH_FLOAT WLFEXP s) as (v & w & Hv & Hw); [done|done|done|done|].
  rewrite Hv. run. rewrite Hw. run. destruct Ha as [H1 H2].
  rewrite bytes_in_run; [apply HQ|by apply Inv_set_warn|done|lia].
Qed.
Lemma wp_fpop U n (Q : double -> state -> Prop) T s :
  wf_size n -> Inv s -> SP s + n <= LB s ->
  (forall w, Q (stf s (SP s) n) (popped n w s)) -> wp U (fpop n) Q T s.
Proof.
  intros Hn Hs Hle HQ. pose proof (wf_size_range n Hn) as Hr. unfold fpop. wregs.
  apply wp_bind, wp_st_ldf; [done|done|by eapply on_stack_SP|apply Hs|]. intros w.
  apply wp_bind, wp_popped; [done|lia|by apply wf_size_aligned|done|apply HQ].
Qed.
Lemma wp_fpush U f n (Q : unit -> state -> Prop) T s :
  wf_size n -> Inv s -> room n s ->
  (forall w, Q tt (set_warn w (pushed (real_bits n f) SH_FLOAT n s))) -> wp U (fpush f n) Q T s.
Proof.
  intros Hn Hs Hr HQ. pose proof (wf_size_range n Hn) as Hn0. pose proof (wf_size_aligned n Hn) as Hm.
  unfold fpush. apply wp_bind, wp_incSP; [done|done|done|done|]. wregs.
  unfold st_stf, wp. run. change (SP (grow _ _)) with (SP s - n).
  rewrite ch_in_stack_run; [|done|by apply Inv_grow_room; [|lia|..]|by apply on_stack_grow]. run.
  rewrite ch_wordaligned_run by by apply sub_aligned. run.
  apply (wp_st_st_loop_top U); [done|lia|done|done|done].
Qed.

(** From a state that has popped operands. *)
Lemma after_stf s k s' a n : after s k s' -> stf s' a n = stf s a n.
Proof. intros H. unfold stf. by rewrite (after_stk s k). Qed.
Lemma stf_valid s a n : valid_double (stf s a n).
Proof. apply real_of_valid. Qed.
Lemma wp_after_fpop U n (Q : double -> state -> Prop) T s k s1 :
  after s k s1 -> wf_size n -> SP s + k + n <= LB s ->
  (forall s2, after s (k + n) s2 -> Q (stf s (SP s + k) n) s2) -> wp U (fpop n) Q T s1.
Proof.
  intros H Hn Hle HQ. pose proof (after_LB _ _ _ H) as HLB. pose proof (wf_size_range n Hn).
  apply wp_fpop; [done|apply H|rewrite (af_SP _ _ _ H); lia|]. intros w.
  rewrite (after_stf s k), (af_SP _ _ _ H) by done.
  apply HQ, after_popped; [done|lia|by apply wf_size_aligned|]. rewrite (af_SP _ _ _ H). lia.
Qed.

(** [k] bytes of the stack have been replaced by the [n] byte real [f]. *)
Record real_pushed (s : state) (k n : Z) (f : double) (s' : state) : Prop := mkRealPushed {
  rl_SP : SP s' = SP s + k - n;
  rl_val : stf s' (SP s') n = rounded n f;
  rl_shad : forall i, 0 <= i < n -> mget (shad (stack s')) (SP s' + i) = SH_FLOAT;
  rl_bytes : forall a, SP s + k <= a -> mget (bytes (stack s')) a = mget (bytes (stack s)) a;
  rl_rest : rest s' = rest s;
  rl_inv : Inv s'
}.
Context {hok : HostOk}.
Lemma wp_after_fpush U f n (Q : unit -> state -> Prop) T s k s1 :
  after s k s1 -> wf_size n -> valid_double f -> has_room (SP s + k - n) s = true ->
  (forall s', real_pushed s k n f s' -> Q tt s') -> wp U (fpush f n) Q T s1.
Proof.
  intros H Hn Hf Hr HQ. rewrite <- (after_room s k s1) in Hr by done. pose proof (wf_size_range n Hn) as Hn0.
  apply wp_fpush; [done|apply H|done|]. intros w. apply HQ. destruct H as [H1 H2 H3 H4].
  constructor; unfold stf; rewrite ?SP_set_warn, ?stack_set_warn, ?stk_set_warn, ?rest_set_warn, ?SP_pushed.
  - lia.
  - rewrite stk_pushed_top by lia. by apply real_of_bits.
  - intros i Hi. by apply mshad_pushed_top.
  - intros a Ha. rewrite mget_pushed by lia. by rewrite H2.
  - by rewrite rest_pushed.
  - apply Inv_set_warn, Inv_pushed; [done|lia|by apply wf_size_aligned|done].
Qed.
Lemma wp_arg_wf U n (Q : Z -> state -> Prop) T s : wf_size n -> Q n s -> wp U (arg_wf n) Q T s.
Proof. intros [-> | ->] HQ; exact HQ. Qed.

(** A real that is pushed is popped again, rounded to its size; a double is
    popped exactly; the stack pointer, the stack and the rest of the machine are as
    before. *)
Theorem push_pop_real f n s :
  wf_size n -> valid_double f -> Inv s -> room n s ->
  exists s', (fpush f n ;; fpop n) s = Ret (rounded n f) s' /\ restored s s'.
Proof.
  intros Hn Hf Hs Hr. pose proof (wf_size_range n Hn) as Hn0. pose proof (wf_size_aligned n Hn) as Hal.
  apply wp_run. apply wp_bind, wp_fpush; [done..|]. intros w.
  apply wp_fpop; [done|apply Inv_set_warn, Inv_pushed; done || lia|by apply pushed_fits|]. intros w'.
  split; [|by apply restored_popped].
  unfold stf. rewrite stk_set_warn, SP_set_warn, SP_pushed, stk_pushed_top by lia. by apply real_of_bits.
Qed.
(** ** FEF *)
Lemma frexp_parts s m e :
  canonical m e -> exists m', SFfrexp DP DE (S754_finite s m e) = (S754_finite s m' (-53), magnitude m e) /\
    canonical m' (-53) /\ Zpos m' = full_mantissa m.
Proof.
  intros Hb. pose proof (canonical_cases m e Hb) as (He & Hd & Hn).
  destruct (fef_down_run exponents m e 0 Hb) as (m1 & e1 & _ & Hb1 & Hm1 & Hf1);
    [change (Z.of_nat exponents) with 2200; unfold magnitude; lia|done|].
  destruct (fef_up_run exponents m1 e1 0 Hb1) as (m2 & e2 & _ & Hb2 & Hm2 & Hf2);
    [change (Z.of_nat exponents) with 2200; unfold magnitude in *; lia|lia|].
  pose proof (canonical_cases m2 e2 Hb2) as (He2 & Hd2 & Hn2). unfold magnitude in Hm2.
  assert (e2 = -53) as -> by lia. assert (Ed : Zpos (digits2_pos m2) = 53) by lia.
  exists m2. split_and!; [|done|].
  - pose proof (frexp_form m m2 (-53) Hd Hb2 ltac:(unfold magnitude; lia) ltac:(congruence) e) as E.
    revert E. clear. unfold SFfrexp. destruct (DP <=? Zpos (digits2_pos m)); intros [= -> <-]; reflexivity.
  - rewrite <- Hf1, <- Hf2. unfold full_mantissa. rewrite Ed. change (DP - 53) with 0. lia.
Qed.
(** The fraction is at least a half and less than one, and scales back to the number. *)
Lemma frexp_inverse s m e :
  canonical m e ->
  let r := SFfrexp DP DE (S754_finite s m e) in SFldexp DP DE r.1 r.2 = S754_finite s m e.
Proof.
  intros Hb r. destruct (frexp_parts s m e Hb) as (m' & E & _ & Em). unfold r. rewrite E. cbn [fst snd SFldexp].
  pose proof (canonical_cases m e Hb) as (He & Hd & _).
  apply round_exact; [done..|]. right. exists (DP - Zpos (digits2_pos m)). unfold DP, magnitude. split_and!; [lia| |lia].
  exact Em.
Qed.

Lemma has_room_HP p s s' : HP s' = HP s -> has_room p s' = has_room p s.
Proof. intros E. unfold has_room. by rewrite E. Qed.
Lemma sext_word x : -2 ^ 15 <= x < 2 ^ 15 -> sext (8 * wsize) (x mod 2 ^ (8 * wsize)) = x.
Proof.
  intros Hx. transitivity (sext (8 * wsize) x).
  - apply sext_eqm, Z.mod_mod. sizes; lia.
  - apply sext_small; sizes; lia.
Qed.

(** C31: FEF splits a real that is not zero, infinite or a NaN in its fraction and its
    exponent, as [frexp] does: the fraction is at least a half and less than one, and
    the fraction scaled by the exponent is the real.  The loops of the source, which
    halve and double, end and are exact, for subnormal numbers too. *)
Theorem float_split n s sg m e :
  wf_size n -> Inv s -> SP s + n <= LB s -> has_room (SP s - wsize) s = true ->
  stf s (SP s) n = S754_finite sg m e ->
  let r := SFfrexp DP DE (S754_finite sg m e) in
  SFldexp DP DE r.1 r.2 = S754_finite sg m e /\
  exists s', DoFEF n s = Ret tt s' /\ SP s' = SP s - wsize /\
    stks s' (SP s') wsize = r.2 /\ stf s' (SP s' + wsize) n = rounded n r.1 /\
    (forall a, SP s + n <= a -> mget (bytes (stack s')) a = mget (bytes (stack s)) a) /\
    rest s' = rest (spoiled s) /\ Inv s'.
Proof.
  intros Hn Hs Hle Hroom Ef r. pose proof (stf_valid s (SP s) n) as Hv. rewrite Ef in Hv. cbn in Hv.
  change (canonical m e) in Hv. pose proof (wf_size_range n Hn) as Hn0. pose proof wsize_range as Hw. pose proof ok_wsize as Hw2.
  split; [by apply frexp_inverse|]. pose proof (canonical_cases m e Hv) as (He & Hd & _).
  destruct (frexp_parts sg m e Hv) as (m' & Er & Hb' & _). change (SFfrexp DP DE (S754_finite sg m e)) with r in Er.
  pose proof (inv_SP s Hs) as Hsp. pose proof (inv_LB s Hs) as Hlb. pose proof ML_range as HML.
  assert (Hroom' : has_room (SP (spoiled s) + n - n) (spoiled s) = true).
  { replace (SP (spoiled s) + n - n) with (SP s) by (cbn; lia). change (has_room (SP s) s = true).
    assert (0 <= SP s - wsize) by (unfold has_room in Hroom; pose proof (inv_HP s Hs); pose proof ok_HB; lia).
    apply (has_room_mono (SP s - wsize)); [lia|lia|done]. }
  apply wp_ret_inv_tt. unfold DoFEF. pose proof (after_refl s Hs) as H0.
  apply wp_bind. eapply wp_spoilFRA; [exact H0|]. intros s1 H1. apply wp_bind, wp_arg_wf; [done|].
  apply wp_bind. eapply wp_after_fpop; [exact H1|done|cbn; lia|]. rewrite Z.add_0_r, Z.add_0_l.
  change (stf (spoiled s) (SP (spoiled s)) n) with (stf s (SP s) n). rewrite Ef. intros s2 H2.
  rewrite fef_frexp by done. fold r. rewrite Er. cbn [fst snd].
  apply wp_bind. eapply wp_after_fpush; [exact H2|done|exact Hb'|exact Hroom'|]. intros s3 [P1 P2 P3 P4 P5 P6].
  cbn [SP spoiled set_FRA_def] in P1. assert (Esp : SP s3 = SP s) by lia.
  pose proof (f_equal HP P5) as Ehp. cbn in Ehp.
  apply wp_wpush; [exact P6|unfold room; rewrite Esp, (has_room_HP _ s); done|]. intros w.
  rewrite !SP_set_warn, !SP_pushed, Esp. unfold stks, stf. rewrite !stk_set_warn. split_and!; [done|..].
  - rewrite <- Esp, stk_pushed_top by lia. apply sext_word. unfold magnitude. lia.
  - rewrite stk_pushed_above by lia. replace (SP s - wsize + wsize) with (SP s3) by lia. exact P2.
  - intros a Ha. rewrite stack_set_warn, mget_pushed by lia. apply P4. cbn. lia.
  - by rewrite rest_set_warn, rest_pushed.
  - apply Inv_set_warn, Inv_pushed; [done|lia|apply wsize_mod|unfold room; rewrite Esp, (has_room_HP _ s); done].
Qed.
(** ** Comparison *)
Lemma SFcompare_swap f g : SFcompare g f = option_map CompOpp (SFcompare f g).
Proof.
  destruct f as [[]|[]| |[] m e], g as [[]|[]| |[] k d]; try done; cbn [SFcompare option_map]; f_equal.
  all: rewrite (Z.compare_antisym e d); destruct (e ?= d); cbn [CompOpp]; try done.
  all: rewrite !compare_pos, (Z.compare_antisym (Zpos m) (Zpos k)); done.
Qed.
Definition real_sign (f g : double) : Z :=
  match SFcompare f g with Some Lt => -1 | Some Gt => 1 | _ => 0 end.

(** CMF replaces two reals by -1, 0 or 1 as the one below the top is less than,
    equal to or greater than the top; reals that cannot be compared, a NaN being one
    of them, count as equal. *)
Theorem real_comparison n s :
  wf_size n -> operands (2 * n) wsize s ->
  implements (DoCMF n) s (2 * n) wsize (inr (real_sign (stf s (SP s + n) n) (stf s (SP s) n))).
Proof.
  intros Hn (Hs & Hle & Hroom). pose proof (after_refl s Hs) as H0. pose proof (wf_size_range n Hn) as Hn0.
  apply wp_implements. unfold DoCMF. apply wp_bind, wp_arg_wf; [done|].
  apply wp_bind. eapply wp_after_fpop; [exact H0|done|lia|]. rewrite Z.add_0_r, Z.add_0_l. intros s1 H1.
  apply wp_bind. eapply wp_after_fpop; [exact H1|done|lia|]. intros s2 H2.
  apply wp_bind. eapply wp_spoilFRA; [exact H2|]. intros s3 H3.
  replace (n + n) with (2 * n) in H3 by lia.
  eapply wp_after_wpush; [exact H3|exact Hroom|]. intros s4 H4. eexists. split; [reflexivity|].
  set (f := stf s (SP s + n) n) in *. set (g := stf s (SP s) n) in *.
  unfold real_sign, flt, SFltb in *. rewrite (SFcompare_swap f g) in H4.
  by destruct (SFcompare f g) as [[]|].
Qed.

(** ** Conversions *)
Lemma width_wf n : wf_size n -> width n = n.
Proof. intros [-> | ->]; unfold width; by sizes. Qed.
Lemma wp_cif o n s k s1 :
  after (spoiled s) k s1 -> pop_size o -> wf_size n -> SP s + k + width o <= LB s ->
  has_room (SP s + (k + width o) - n) s = true ->
  wp False (v ← spop o; fpush (of_long v) n)
    (fun _ => real_pushed (spoiled s) (k + width o) n (of_long (stks s (SP s + k) o))) (fun _ _ => False) s1.
Proof.
  intros H Ho Hn Hle Hr. apply wp_bind. eapply wp_after_spop; [exact H|done|exact Hle|]. intros s2 H2.
  eapply wp_after_fpush; [exact H2|done|apply of_long_valid|exact Hr|done].
Qed.
(** The sizes of a conversion of an integer of [o] bytes. *)
Definition int_operand (o : Z) : Prop := o = 4 \/ (o = 2 /\ wsize = 2).
Lemma wp_DoCIF o n s :
  int_operand o -> wf_size n -> conv_ready o n s ->
  wp False DoCIF (fun _ => real_pushed (spoiled s) (2 * wsize + width o) n (of_long (stks s (SP s + 2 * wsize) o)))
    (fun _ _ => False) s.
Proof.
  intros Ho Hn (Hs & En & Eo & Hle & Hroom). pose proof wsize_range. pose proof (wf_size_range n Hn).
  assert (Hp : pop_size o) by (apply pop_size_12; unfold int_operand in Ho; lia).
  assert (0 <= width o) by (pose proof (width_range o Hp); lia).
  unfold DoCIF. apply wp_bind. eapply wp_conv_sizes; [done|lia|exact En|exact Eo|destruct Ho; lia|destruct Hn; lia|].
  intros s2 H2. rewrite <- Z.add_assoc in Hroom. pose proof (wp_cif o n s (2 * wsize) s2 H2 Hp Hn Hle Hroom) as G.
  destruct Ho as [-> |[-> Hw]], Hn as [-> | ->]; cbn [Z.eqb Pos.eqb Z.mul Z.add Pos.mul Pos.add Pos.succ]; try exact G.
  all: apply wp_bind, wp_not_on_4; [done|exact G].
Qed.

(** The range check of CFI, on a real that is an integer. *)
Lemma fsub_one_2 : fsub (of_long I_MINS2) f_one = of_long (I_MINS2 - 1).
Proof. by vm_compute. Qed.
Lemma fsub_one_4 : fsub (of_long I_MINS4) f_one = of_long (I_MINS4 - 1).
Proof. by vm_compute. Qed.
Lemma cfi_check lo hi n v :
  (n = 2 /\ lo = I_MINS2 /\ hi = I_MAXS2) \/ (n = 4 /\ lo = I_MINS4 /\ hi = I_MAXS4) -> - 2 ^ 53 < v < 2 ^ 53 ->
  fle (of_long v) (fsub (of_long lo) f_one) || flt (of_long hi) (of_long v) = negb (fits n v).
Proof.
  intros Hn Hv. unfold fle, flt, SFleb, SFltb.
  assert (E : exists x, fsub (of_long lo) f_one = of_long x /\ x = lo - 1 /\ - 2 ^ 53 < x < 2 ^ 53 /\ - 2 ^ 53 < hi < 2 ^ 53).
  { destruct Hn as [(_ & -> & ->)|(_ & -> & ->)]; eexists; (split; [apply fsub_one_2 || apply fsub_one_4|done]). }
  destruct E as (x & E & Ex & Hx & Hhi). rewrite E, !compare_of_long by done.
  assert (Hf : fits n v = (lo <=? v) && (v <=? hi)) by (destruct Hn as [(-> & -> & ->)|(-> & -> & ->)]; reflexivity).
  rewrite Hf. destruct (Z.compare_spec v x), (Z.compare_spec hi v); lia.
Qed.
Lemma wp_cfi lo hi o n s v s1 :
  (n = 2 /\ lo = I_MINS2 /\ hi = I_MAXS2) \/ (n = 4 /\ lo = I_MINS4 /\ hi = I_MAXS4) -> - 2 ^ 53 < v < 2 ^ 53 ->
  after (spoiled s) (2 * wsize) s1 -> wf_size o -> wi_size n -> SP s + 2 * wsize + o <= LB s ->
  has_room (SP s + (2 * wsize + o) - n) s = true -> stf s (SP s + 2 * wsize) o = of_long v ->
  let r := if tested ECONV s && negb (fits n v) then inl ECONV else inr v in
  wp False (cfi lo hi o n) (conv_post s (2 * wsize + o) n r).1 (conv_post s (2 * wsize + o) n r).2 s1.
Proof.
  intros Hlh Hv H Ho Hn Hle Hroom Ef r. unfold cfi. apply wp_bind.
  eapply wp_after_fpop; [exact H|done|exact Hle|]. change (stf (spoiled s) (SP (spoiled s) + 2 * wsize) o)
    with (stf s (SP s + 2 * wsize) o). rewrite Ef. intros s2 H2.
  rewrite (cfi_check lo hi n v) by done. pose proof (wp_conv_check s _ n (negb (fits n v)) v s2 r H2 Hn Hroom eq_refl v eq_refl) as G.
  unfold cast. rewrite to_long_of_long by done. exact G.
Qed.

(** What CFI does to a real that is an integer. *)
Definition cfi_post (o n v : Z) (s : state) : (unit -> state -> Prop) * (Z -> state -> Prop) :=
  ((fun _ s' => tested ECONV s && negb (fits n v) = false /\ converted (spoiled s) (2 * wsize + o) n v s'),
   (fun nr s' => tested ECONV s && negb (fits n v) = true /\ nr = ECONV /\ after (spoiled s) (2 * wsize + o) s')).
Lemma wp_DoCFI o n s v :
  int_operand n -> wf_size o -> conv_ready o n s ->
  stf s (SP s + 2 * wsize) o = of_long v -> - 2 ^ 53 < v < 2 ^ 53 ->
  wp False DoCFI (cfi_post o n v s).1 (cfi_post o n v s).2 s.
Proof.
  intros Hn Ho (Hs & En & Eo & Hle & Hroom) Ef Hv. pose proof wsize_range. rewrite (width_wf o Ho) in Hle, Hroom.
  pose proof (wf_size_range o Ho). rewrite <- Z.add_assoc in Hroom.
  assert (Hwi : wi_size n) by (destruct Hn as [->|[-> Hw]]; [apply wi_size_4|by apply wi_size_2]).
  unfold DoCFI. apply wp_bind. eapply wp_conv_sizes; [done|lia|exact En|exact Eo|destruct Ho; lia|destruct Hn; lia|].
  intros s2 H2. assert (K : forall lo hi, (n = 2 /\ lo = I_MINS2 /\ hi = I_MAXS2) \/ (n = 4 /\ lo = I_MINS4 /\ hi = I_MAXS4) ->
    wp False (cfi lo hi o n) (cfi_post o n v s).1 (cfi_post o n v s).2 s2).
  { intros lo hi Hlh. eapply wp_conseq; [by apply (wp_cfi lo hi o n s v s2)|done|..]; cbv beta.
    - intros a s' (u & Er & Hc). cbn [cfi_post fst]. destruct (_ && _); [done|]. injection Er as ->. done.
    - intros nr s' (Er & Ha). cbn [cfi_post snd]. destruct (_ && _); [|done]. injection Er as ->. done. }
  destruct Hn as [-> |[-> Hw]], Ho as [-> | ->]; cbn [Z.eqb Pos.eqb Z.mul Z.add Pos.mul Pos.add Pos.succ].
  all: first [apply K; by right | apply wp_bind, wp_not_on_4; [done|apply K; by left]].
Qed.

(** C39: CFI replaces a real that is an integer by that integer, and traps with ECONV,
    when tests are on and the trap is not ignored, exactly if it does not fit. *)
Theorem real_to_integer o n s v :
  int_operand n -> wf_size o -> conv_ready o n s ->
  stf s (SP s + 2 * wsize) o = of_long v -> - 2 ^ 53 < v < 2 ^ 53 ->
  if tested ECONV s && negb (fits n v)
  then exists s', DoCFI s = Trap ECONV s' /\ after (spoiled s) (2 * wsize + o) s'
  else exists s', DoCFI s = Ret tt s' /\ converted (spoiled s) (2 * wsize + o) n v s'.
Proof.
  intros Hn Ho Hr Ef Hv. pose proof (wp_DoCFI o n s v Hn Ho Hr Ef Hv) as G.
  apply wp_result in G as [([] & s' & E & -> & G)|(nr & s' & E & -> & -> & G)]; by exists s'.
Qed.

Lemma int_fits o s a : int_operand o -> fits o (stks s a o) = true.
Proof. intros Ho. apply stks_fits. unfold int_operand in Ho. lia. Qed.
Lemma stks_exact s a o : int_operand o -> - 2 ^ 53 < stks s a o < 2 ^ 53.
Proof.
  intros Ho. pose proof (stks_range s a o ltac:(unfold int_operand in Ho; lia)) as H.
  assert (- 2 ^ 31 <= i_mins o /\ i_maxs o < 2 ^ 31) by (destruct Ho as [-> |[-> _]]; done). lia.
Qed.

(** An integer that CIF converts to a double and CFI converts back is the same
    integer; the rest of the stack and of the machine is as before. *)
Theorem integer_real_roundtrip o s :
  int_operand o -> conv_ready o 8 s -> has_room (SP s + width o - 8) s = true ->
  exists s', (DoCIF ;; wpush 8 ;; wpush o ;; DoCFI) s = Ret tt s' /\
    SP s' = SP s + 2 * wsize + width o - o /\ stks s' (SP s') o = stks s (SP s + 2 * wsize) o /\
    (forall a, SP s + 2 * wsize + width o <= a -> mget (bytes (stack s')) a = mget (bytes (stack s)) a) /\
    rest s' = rest (spoiled s) /\ Inv s'.
Proof.
  intros Ho Hr Hroom. pose proof Hr as (Hs & _ & _ & Hle & Hroom'). pose proof ok_wsize as Hw. pose proof wsize_range.
  assert (Hp : pop_size o) by (apply pop_size_12; unfold int_operand in Ho; lia). pose proof (width_range o Hp) as Hwo.
  assert (Ho0 : 2 <= o <= 4) by (destruct Ho; lia).
  assert (Ewo : width o = o) by (unfold width; destruct Ho as [-> |[-> ->]]; sizes; lia).
  pose proof (inv_SP s Hs) as Hsp. pose proof (inv_LB s Hs) as Hlb. pose proof ML_range as HML.
  assert (Hpos : 0 <= SP s + width o - 8) by (unfold has_room in Hroom; pose proof (inv_HP s Hs); pose proof ok_HB; lia).
  set (v := stks s (SP s + 2 * wsize) o). pose proof (stks_exact s (SP s + 2 * wsize) o Ho) as Hv. fold v in Hv.
  apply wp_ret_inv_tt. apply wp_bind. eapply wp_call; [by apply (wp_DoCIF o 8 s); [|right|]|done|]. cbv beta.
  intros _ s1 [P1 P2 _ P4 P5 P6]. fold v in P2. cbn [SP spoiled set_FRA_def] in P1.
  change (rounded 8 (of_long v)) with (of_long v) in P2. pose proof (f_equal HP P5) as Ehp1. cbn in Ehp1.
  pose proof (f_equal LB P5) as Elb1. cbn in Elb1.
  apply wp_bind. eapply (wp_after_wpush _ _ _ _ s1 0 s1); [by apply after_refl| |].
  { rewrite (has_room_HP _ s) by done. apply (has_room_mono (SP s + width o - 8)); [lia|lia|done]. }
  intros s2 [Q1 Q2 _ Q4 _ Q5 Q6]. pose proof (f_equal HP Q5) as Ehp2. cbn in Ehp2. pose proof (f_equal LB Q5) as Elb2. cbn in Elb2.
  apply wp_bind. eapply (wp_after_wpush _ _ _ _ s2 0 s2); [by apply after_refl| |].
  { rewrite (has_room_HP _ s) by congruence. apply (has_room_mono (SP s + width o - 8)); [lia|lia|done]. }
  intros s3 [R1 R2 _ R4 _ R5 R6]. pose proof (f_equal HP R5) as Ehp3. cbn in Ehp3. pose proof (f_equal LB R5) as Elb3. cbn in Elb3.
  assert (E2 : stf s3 (SP s3 + 2 * wsize) 8 = of_long v).
  { rewrite <- P2. unfold stf, stk. f_equal. replace (SP s3 + 2 * wsize) with (SP s1) by lia.
    apply ldn_ext. intros i Hi. rewrite R4, Q4 by lia. done. }
  assert (Hr3 : conv_ready 8 o s3).
  { unfold conv_ready. rewrite (width_wf 8) by by right. split_and!; [done|..].
    - unfold stks. rewrite R2. apply sext_word. destruct Ho; lia.
    - unfold stks. rewrite (stk_above s2 s3) by (intros b Hb; apply R4; lia).
      replace (SP s3 + wsize) with (SP s2) by lia. rewrite Q2. by apply sext_word.
    - lia.
    - rewrite (has_room_HP _ s) by congruence. apply (has_room_mono (SP s + width o - 8)); [lia|lia|done]. }
  eapply wp_conseq; [by apply (wp_DoCFI 8 o s3 v); [|right|..]|done|..]; cbn [cfi_post fst snd].
  - intros _ s4 (_ & [T1 T2 T3 T4 T5]). cbn [SP spoiled set_FRA_def] in T1. split_and!; [lia| | | |done].
    + unfold stks. rewrite T2. unfold v, stks. apply sext_eqm.
      rewrite Z.mod_mod by (apply Z.pow_nonzero; lia). apply sext_mod. lia.
    + intros a Ha. rewrite T3 by (cbn; lia). cbn [stack spoiled set_FRA_def]. rewrite R4, Q4, P4 by (cbn; lia). done.
    + rewrite T4. apply (f_equal (set_FRA_def UNDEFINED)) in R5, Q5, P5.
      transitivity (set_FRA_def UNDEFINED (rest s3)); [done|]. rewrite R5, Q5, P5. done.
  - intros nr s4 (Hb & _). unfold v in Hb. rewrite int_fits in Hb by done. by rewrite andb_false_r in Hb.
Qed.
End FloatSpec.
