(* ===== verification/Pointer.v ===== *)
(** * Pointer arithmetic and arrays ([do_ptrar.c], [do_array.c]) *)
From Stdlib Require Import ZArith Lia Bool.
From stdpp Require Import base gmap list.
From S2P Require Import Prelude Machine Warn Mem Wp Data Stack StackSpec Text Frame Instr Arith.

Section Pointer.
Context {cfg : Config}.

(** ** [do_ptrar.c] *)
Definition check_seg (s1 s2 w : Z) : M unit := when (negb (s1 =? s2)) (warning w).

(** ADP f: Add f to pointer on top of stack *)
Definition DoADP (l : Z) : M unit :=
  sp ← gets SP; t ← st_lddp sp;
  spoilFRA ;;
  when (t =? 0) (warning WNULLPA) ;;
  l ← arg_f l;
  let p := t +p l in
  s1 ← ptr2seg t; s2 ← ptr2seg p; check_seg s1 s2 WSEGADP ;;
  sp ← gets SP; st_stdp sp p.

(** ADS w: Add w-byte value and pointer *)
Definition DoADS (l : Z) : M unit :=
  l' ← arg_wi l; t ← spop l';
  sp ← gets SP; s ← st_lddp sp;
  spoilFRA ;;
  t ← arg_f t;
  when (s =? 0) (warning WNULLPA) ;;
  let p := s +p t in
  s1 ← ptr2seg s; s2 ← ptr2seg p; check_seg s1 s2 WSEGADP ;;
  sp ← gets SP; st_stdp sp p.

(** SBS w: Subtract pointers in same fragment and push diff as size w integer *)
Definition DoSBS (l : Z) : M unit :=
  sp ← gets SP; t ← st_lddp sp; s ← st_lddp (sp +p psize);
  spoilFRA ;;
  l ← arg_wi l;
  s1 ← ptr2seg t; s2 ← ptr2seg s; check_seg s1 s2 WSEGSBS ;;
  let w := s64 (u64 (s - t)) in
  b ← gets (tested EIOVFL);
  when (b && ((l =? 2) && ((w <? I_MINS2) || (I_MAXS2 <? w)))) (trap EIOVFL) ;;
  _ ← dppop; _ ← dppop;
  npush w l.

(** ** [do_array.c] *)
Inductive arr_op := LAR | SAR | AAR.

Definition arr (type : arr_op) (elm_size : Z) : M unit :=
  desc ← dppop;
  index ← spop elm_size;
  lower ← mem_lds desc elm_size;
  let diff := index - lower in
  arr_addr ← dppop;
  t ← gets (tested EARRAY);
  when t
    (if diff <? 0 then trap EARRAY
     else upper ← mem_lds (desc +p elm_size) elm_size;
          when (upper <? index) (trap EARRAY)) ;;
  obj_size ← mem_lds (desc +p (2 * elm_size)) elm_size;
  obj_size ← arg_o obj_size;
  spoilFRA ;;
  let a := arr_addr +p (diff * obj_size) in
  match type with
  | LAR => push_m a obj_size
  | SAR => pop_m a obj_size
  | AAR => dppush a
  end.

Definition DoLAR (arg : Z) : M unit := w ← arg_wi arg; arr LAR w.
Definition DoSAR (arg : Z) : M unit := w ← arg_wi arg; arr SAR w.
Definition DoAAR (arg : Z) : M unit := w ← arg_wi arg; arr AAR w.

End Pointer.

#[export] Hint Unfold DoADP DoADS DoSBS DoLAR DoSAR DoAAR : instr.

(** ** Pointers and arrays preserve the invariant *)
Section Keeps.
Context {cfg : Config} {ok : ConfigOk}.

Lemma keeps_check_seg s1 s2 w : keeps (check_seg s1 s2 w) any.
Proof. unfold check_seg. keeps_tac. Qed.
Lemma keeps_arr type n : obj_size n -> keeps (arr type n) any.
Proof. intros. unfold arr. keeps_tac. Qed.
End Keeps.
#[export] Hint Resolve keeps_check_seg keeps_arr : keeps.
