(* ===== verification/Misc.v ===== *)
(** * Procedure calls and miscellaneous instructions
    ([do_proc.c], [do_misc.c]) *)
From Stdlib Require Import ZArith Lia Bool.
From stdpp Require Import base gmap list.
From S2P Require Import Prelude Machine Warn Mem Wp Data Stack StackSpec Text Frame Instr Arith.

Section Misc.
Context {cfg : Config}.

(** ** [do_proc.c] *)
(** CAI -: Call procedure (procedure identifier on stack) *)
Definition DoCAI : M unit := pi ← spop psize; pi ← arg_p pi; call pi RSB_CAL.
(** CAL p: Call procedure (with identifier p) *)
Definition DoCAL (pi : Z) : M unit := pi ← arg_p pi; call pi RSB_CAL.
(** LFR s: Load function result *)
Definition DoLFR (l : Z) : M unit := l ← arg_s l; lfr l.
(** RET z: Return (function result consists of top z bytes) *)
Definition DoRET (l : Z) : M unit := l ← arg_z l; do_ret l.

(** ** [do_misc.c] *)
Definition asp (l : Z) : M unit := l ← arg_f l; sp ← gets SP; newSP (sp +p l).
(** ASP f: Adjust the stack pointer by f *)
Definition DoASP (l : Z) : M unit := asp l.
(** ASS w: Adjust the stack pointer by w-byte integer *)
Definition DoASS (l : Z) : M unit := spoilFRA ;; l ← arg_wi l; l ← spop l; asp l.

Definition block_move (a1 a2 n : Z) : M unit :=
  b1 ← gets (in_stack a1); b2 ← gets (in_stack a2);
  if b1 : bool then
    if b2 : bool then st_mvs a1 a2 n else st_mvd a1 a2 n
  else
    if b2 : bool then dt_mvs a1 a2 n else dt_mvd a1 a2 n.
(** BLM z: Block move z bytes; first pop destination addr, then source addr *)
Definition DoBLM (l : Z) : M unit :=
  spoilFRA ;; dp1 ← dppop; dp2 ← dppop; l ← arg_z l; block_move dp1 dp2 l.
(** BLS w: Block move, size is in w-byte integer on top of stack *)
Definition DoBLS (l : Z) : M unit :=
  spoilFRA ;; l ← arg_wi l; l ← upop l;
  dp1 ← dppop; dp2 ← dppop; l ← arg_z l; block_move dp1 dp2 l.

(** Case jump by indexing. *)
Definition index_jump (nbytes : Z) : M unit :=
  cdp ← dppop;
  v ← spop nbytes; lo ← mem_lds (cdp +p psize) nbytes;
  let t_index := v - lo in
  nPC ← (if 0 <=? t_index then
           cnt ← mem_lds (cdp +p (nbytes + psize)) nbytes;
           if t_index <=? cnt
           then mem_ldip (cdp +p (2 * nbytes) +p ((t_index + 1) * psize))
           else ret 0
         else ret 0);
  nPC ← (if nPC =? 0 then mem_ldip cdp else ret nPC);
  if nPC =? 0 then trap ECASE else newPC nPC.

(** Case jump by table search: the table is searched from its end. *)
Fixpoint search_loop (nt : nat) (cdp sv nbytes : Z) : M (option Z) :=
  match nt with
  | O => ret None
  | S n =>
      let off := (Z.of_nat n + 1) * (nbytes + psize) in
      v ← mem_lds (cdp +p off) nbytes;
      if sv =? v then p ← mem_ldip (cdp +p nbytes +p off); ret (Some p)
      else search_loop n cdp sv nbytes
  end.
Definition search_jump (nbytes : Z) : M unit :=
  cdp ← dppop;
  sv ← spop nbytes;
  nt ← mem_lds (cdp +p psize) nbytes;
  r ← search_loop (Z.to_nat nt) cdp sv nbytes;
  nPC ← match r with Some p => ret p | None => mem_ldip cdp end;
  if nPC =? 0 then trap ECASE else newPC nPC.

(** CSA w, CSB w *)
Definition DoCSA (l : Z) : M unit := spoilFRA ;; l ← arg_wi l; index_jump l.
Definition DoCSB (l : Z) : M unit := spoilFRA ;; l ← arg_wi l; search_jump l.

(** DCH -: Follow dynamic chain, convert LB to LB of caller *)
Definition DoDCH : M unit :=
  spoilFRA ;; lb ← dppop; b ← is_LB lb;
  when (negb b) (wtrap WDCHBADLB ESTACK) ;;
  p ← st_lddp (lb +p rsb_LB); dppush p.

(** DUP s: Duplicate top s bytes *)
Definition DoDUP (arg : Z) : M unit :=
  oldSP ← gets SP; spoilFRA ;;
  a ← arg_s arg; st_inc a ;; sp ← gets SP; st_mvs sp oldSP arg.
(** DUS w: Duplicate top w bytes *)
Definition DoDUS (l : Z) : M unit :=
  spoilFRA ;; l ← arg_wi l; l ← upop l;
  oldSP ← gets SP; a ← arg_s l; st_inc a ;; sp ← gets SP; st_mvs sp oldSP l.
(** EXG w: Exchange top w bytes *)
Definition DoEXG (l : Z) : M unit :=
  oldSP ← gets SP; spoilFRA ;;
  a ← arg_w l; st_inc a ;;
  sp ← gets SP; st_mvs sp oldSP l ;;
  st_mvs oldSP (oldSP +p l) l ;;
  sp ← gets SP; st_mvs (oldSP +p l) sp l ;;
  st_dec l.

(** FIL g: File name (external 4 := g) *)
Definition DoFIL (arg : Z) : M unit :=
  let p := u64 arg in
  spoilFRA ;; when (HB <? p) (wtrap WILLFIL EILLINS) ;;
  p ← arg_g p; putFIL p.

(** The loop of [gto] over the dynamic chain.  The chain is read from memory
    that does not change meanwhile, so a walk of more steps than the stack has
    bytes is an endless loop. *)
Fixpoint gto_loop (fuel : nat) (old_LB new_LB : Z) : M Z :=
  match fuel with
  | O => undef
  | S f =>
      if old_LB <? new_LB then
        pi ← st_lds (old_LB +p rsb_PI) psize; modify (set_PI pi) ;;
        lb ← st_lddp (old_LB +p rsb_LB);
        gto_loop f lb new_LB
      else ret old_LB
  end.
Definition gto (p : Z) : M unit :=
  old_LB ← gets LB;
  new_PC ← dt_ldip p;
  new_SP ← dt_lddp (p +p psize);
  new_LB ← dt_lddp (p +p (2 * psize));
  sp ← gets SP;
  old_LB ← gto_loop (Z.to_nat (ML + 2 - sp)) old_LB new_LB;
  when (negb (old_LB =? new_LB)) (wtrap WGTORSB EBADGTO) ;;
  newLB new_LB ;;
  pop_frames ;;
  newSP new_SP ;;
  newPC new_PC.
(** GTO g: Non-local goto, descriptor at g *)
Definition DoGTO (arg : Z) : M unit := let p := u64 arg in p ← arg_gto p; gto p.

(** LIM -: Load 16 bit ignore mask *)
Definition DoLIM : M unit := spoilFRA ;; m ← gets IgnMask; wpush m.
(** LIN n: Line number (external 0 := n) *)
Definition DoLIN (arg : Z) : M unit :=
  let l := u64 arg in spoilFRA ;; l ← arg_lin l; putLIN l.
(** LNI -: Line number increment *)
Definition DoLNI : M unit := spoilFRA ;; n ← gets LIN; putLIN (n + 1).

(** LOR r: Load register (0=LB, 1=SP, 2=HP) *)
Definition DoLOR (l : Z) : M unit :=
  spoilFRA ;; r ← arg_r l;
  if r =? 0 then p ← gets LB; dppush p
  else if r =? 1 then p ← gets SP; dppush p
  else if r =? 2 then p ← gets HP; dppush p
  else skip.
(** LPB -: Convert local base to argument base *)
Definition DoLPB : M unit :=
  spoilFRA ;; lb ← dppop; b ← is_LB lb;
  when (negb b) (wtrap WLPBBADLB ESTACK) ;;
  dppush (lb +p rsbsize).
(** NOP -: No operation *)
Definition DoNOP : M unit :=
  spoilFRA ;;
  modify (fun s => set_warn (mkWarn (warn_cnt (warn s)) (latest_warning_printed (warn s))
                               (mess (warn s) ++ [MNop (FIL s) (LIN s)])) s).

(** RCK w: Range check; trap on error *)
Definition range_check (nbytes : Z) : M unit :=
  rdp ← dppop;
  sp ← gets SP; cv ← st_lds sp nbytes;
  t ← gets (tested ERANGE);
  when t
    (lo ← mem_lds rdp nbytes;
     if cv <? lo then trap ERANGE
     else hi ← mem_lds (rdp +p nbytes) nbytes; when (hi <? cv) (trap ERANGE)).
Definition DoRCK (l : Z) : M unit := spoilFRA ;; l ← arg_wi l; range_check l.

(** RTT -: Return from trap *)
Definition DoRTT : M unit :=
  c ← poprsb true;
  if c =? RSB_STP then warning WRTTEMPTY ;; stop_running
  else if c =? RSB_CAL then warning WRTTCALL
  else if c =? RSB_RTT then
    _ ← uwpop;
    d ← uwpop; modify (set_FRA_def (s32 d)) ;;
    z ← uwpop; modify (set_FRASize z) ;;
    popFRA z
  else if c =? RSB_NRT then warning WRTTNRTT ;; stop_running
  else warning WRTTBAD.

(** SIG -: Trap errors to proc identifier on top of stack, -2 resets default *)
Definition DoSIG : M unit :=
  tpi ← spop psize;
  spoilFRA ;;
  mode ← gets OnTrap;
  (if decide (mode = TR_HALT) then npush (-2) psize
   else t ← gets TrapPI; npush t psize) ;;
  if tpi =? -2 then modify (set_OnTrap TR_HALT) ;; modify (set_TrapPI 0)
  else
    tpi ← arg_p tpi;
    modify (set_OnTrap TR_TRAP) ;; modify (set_TrapPI tpi).

(** SIM -: Store 16 bit ignore mask *)
Definition DoSIM : M unit :=
  spoilFRA ;; v ← uwpop; modify (set_IgnMask (Z.land (Z.lor v PreIgnMask) MASK2)).

(** STR r: Store register (0=LB, 1=SP, 2=HP) *)
Definition DoSTR (l : Z) : M unit :=
  spoilFRA ;; r ← arg_r l;
  if r =? 0 then p ← dppop; newLB p ;; pop_frames
  else if r =? 1 then p ← dppop; newSP p
  else if r =? 2 then p ← dppop; newHP p
  else skip.

(** TRP -: Cause trap to occur (Error number on stack) *)
Definition DoTRP : M unit :=
  v ← uwpop;
  let tr := v mod 2 ^ 32 in
  spoilFRA ;;
  if 15 <? tr then wtrap WTRP (s32 tr)
  else i ← gets (ignored tr); when (negb i) (wtrap WTRP (s32 tr)).

End Misc.

#[export] Hint Unfold DoCAI DoCAL DoLFR DoRET DoASP DoASS DoBLM DoBLS DoCSA DoCSB DoDCH DoDUP
  DoDUS DoEXG DoFIL DoGTO DoLIM DoLIN DoLNI DoLOR DoLPB DoNOP DoRCK DoRTT DoSIG DoSIM DoSTR DoTRP : instr.

(** ** The miscellaneous instructions preserve the invariant *)
Section Keeps.
Context {cfg : Config} {ok : ConfigOk}.

Lemma keeps_asp l : keeps (asp l) any.
Proof. unfold asp. keeps_tac. Qed.
Lemma keeps_block_move a b n : keeps (block_move a b n) any.
Proof. unfold block_move. keeps_tac. Qed.
Lemma keeps_index_jump n : obj_size n -> keeps (index_jump n) any.
Proof. intros. unfold index_jump. keeps_tac. Qed.
Lemma keeps_search_loop nt : forall c v n, keeps (search_loop nt c v n) any.
Proof. induction nt as [|nt IH]; intros; cbn [search_loop]; keeps_tac. Qed.
#[local] Hint Resolve keeps_search_loop : keeps.
Lemma keeps_search_jump n : obj_size n -> keeps (search_jump n) any.
Proof. intros. unfold search_jump. keeps_tac. Qed.
Lemma keeps_gto_loop f : forall a b, keeps (gto_loop f a b) any.
Proof. induction f as [|f IH]; intros; cbn [gto_loop]; keeps_tac. Qed.
#[local] Hint Resolve keeps_gto_loop : keeps.
Lemma keeps_gto p : keeps (gto p) any.
Proof. unfold gto. keeps_tac. Qed.
Lemma keeps_range_check n : keeps (range_check n) any.
Proof. unfold range_check. keeps_tac. Qed.
End Keeps.
#[export] Hint Resolve keeps_asp keeps_block_move keeps_index_jump keeps_search_jump keeps_gto
  keeps_range_check : keeps.
