(* ===== verification/Mon.v ===== *)
(** * Monitor calls ([moncalls.c], [monstruct.c], [m_ioctl.c])

    MON pops the number of a call and its parameters, makes the system call, and
    pushes the results and an error code.  The build has SYS_V and V7IOCTL; mount,
    umount and stime are left out of it. *)
From Stdlib Require Import ZArith Lia Bool.
From stdpp Require Import base gmap list.
From S2P Require Import Prelude Os Machine Log Warn Mem Wp Sigtrp Data Stack.

Section Mon.
Context {cfg : Config} {os : Os}.

(** ** Parameters and results *)
Definition INT2SIZE : Z := Z.max wsize 2.
Definition INT4SIZE : Z := Z.max wsize 4.
Definition pop_int : M Z := v ← swpop; ret (s32 v).
Definition pop_int2 : M Z := v ← spop INT2SIZE; ret (s32 v).
Definition pop_int4 : M Z := spop INT4SIZE.
Definition pop_intp : M Z := v ← spop psize; ret (s32 v).
Definition pop_uns2 : M Z := v ← upop INT2SIZE; ret (v mod 2 ^ 32).
Definition pop_ptr : M Z := dppop.
Definition push_int (a : Z) : M unit := wpush a.
Definition push_i2 (a : Z) : M unit := npush a INT2SIZE.
Definition push_i4 (a : Z) : M unit := npush a INT4SIZE.
Definition push_unsp (a : Z) : M unit := npush a psize.
Definition get_errno : M Z := gets (fun s => errno (mon s)).
Definition push_err : M unit :=
  e ← get_errno; push_int e ;; e ← get_errno; push_int e.

Definition good_fd (fd : Z) : M bool :=
  lim ← gets (fun s => fd_limit (mon s));
  if fd <? lim then ret true else mod_mon (set_errno EBADF) ;; ret false.

(** ** Memory *)
Definition is_in_mem (a n : Z) (s : state) : bool := is_in_data a n s || is_in_stack a n s.
Definition mem_loc (a : Z) : M Z :=
  b ← gets (in_stack a); if b : bool then stack_loc a else data_loc a.
Definition mem_sh (a : Z) : M Z :=
  b ← gets (in_stack a); if b : bool then st_sh a else dt_sh a.
Definition mem_stn (a l n : Z) : M unit :=
  b ← gets (in_stack a); if b : bool then st_stn a l n else dt_stn a l n.

(** True is a fault. *)
Definition memfault (addr length : Z) : M bool :=
  b ← gets (is_in_mem addr length);
  if b : bool then ret false else efault WMONFLT ;; ret true.

(** ** Buffers *)
Definition get_buf_cnt (n : Z) : M Z := gets (fun s => mget (buf_cnt (mon s)) n).
Definition put_buf_cnt (n sz : Z) : M unit :=
  mod_mon (fun m => set_buf_cnt (<[n := sz]> (buf_cnt m)) m).
Definition check_buf (n sz : Z) : M unit :=
  cnt ← get_buf_cnt n;
  if cnt =? 0 then put_buf_cnt n (Z.max 128 sz)
  else when (cnt <? sz) (put_buf_cnt n (allocfrac sz)).
(** The byte at [i] of [buf\[n\]] is accessed. *)
Definition in_buf (n i : Z) : M unit :=
  cnt ← get_buf_cnt n; if (0 <=? i) && (i <? cnt) then skip else undef.

(** A loop over memory ends after as many turns as there are bytes. *)
Definition mem_turns (s : state) : nat := S (Z.to_nat (HP s + (ML + 1 - SP s))).

(** [savestr(n, addr)]: the string at [addr] is copied to [buf\[n\]]; [None] is 0. *)
Fixpoint strlen_loop (turns : nat) (addr len : Z) : M (option Z) :=
  match turns with
  | O => undef
  | S k =>
      bad ← memfault (addr +p len) 1;
      if bad : bool then ret None
      else ch ← mem_loc (addr +p len);
           if ch =? 0 then ret (Some (len + 1)) else strlen_loop k addr (len + 1)
  end.
Fixpoint strcpy_loop (turns : nat) (n i addr : Z) : M (list Z) :=
  match turns with
  | O => undef
  | S k =>
      ch ← mem_loc addr; in_buf n i ;;
      if ch =? 0 then ret [] else str ← strcpy_loop k n (i + 1) (addr +p 1); ret (ch :: str)
  end.
Definition savestr (n addr : Z) : M (option cstr) :=
  turns ← gets mem_turns;
  o ← strlen_loop turns addr 0;
  match o with
  | None => ret None
  | Some len =>
      check_buf n len ;;
      str ← strcpy_loop (Z.to_nat len) n 0 addr; ret (Some str)
  end.

(** [strlen(s) + 1]. *)
Definition strsize (str : cstr) : Z := Z.of_nat (length str) + 1.

(** [vec(n1, n2, addr, vecvec)]: the vector of strings at [addr]. *)
Fixpoint vec_count (turns : nat) (n2 addr p n_ent str : Z) : M (option (Z * Z)) :=
  match turns with
  | O => undef
  | S k =>
      bad ← memfault addr psize;
      if bad : bool then ret None
      else
        ldp ← mem_lddp p;
        o ← savestr n2 ldp;
        match o with
        | None => ret None
        | Some s =>
            if ldp =? 0 then ret (Some (n_ent + 1, str + strsize s))
            else vec_count k n2 addr (p +p psize) (n_ent + 1) (str + strsize s)
        end
  end.
(** [i]: the place in [buf\[n1\]]; the entries of the vector number [cnt]. *)
Fixpoint vec_copy (turns : nat) (n1 n2 p n_ent cnt i : Z) : M (option (list cstr)) :=
  match turns with
  | O => undef
  | S k =>
      ldp ← mem_lddp p;
      (if n_ent <? cnt then skip else undef) ;;
      if ldp =? 0 then ret (Some [])
      else
        o ← savestr n2 ldp;
        match o with
        | None => ret None
        | Some s =>
            in_buf n1 (i + strsize s - 1) ;;
            o ← vec_copy k n1 n2 (p +p psize) (n_ent + 1) cnt (i + strsize s);
            ret (match o with Some l => Some (s :: l) | None => None end)
        end
  end.
Definition vec (n1 n2 addr : Z) : M (option (list cstr)) :=
  turns ← gets mem_turns;
  o ← vec_count turns n2 addr addr 0 0;
  match o with
  | None => ret None
  | Some (n_ent, str) =>
      check_buf n1 str ;;
      vec_copy turns n1 n2 addr 0 (n_ent + 1) 0
  end.

(** ** Structures ([monstruct.c]) *)
Definition mem_stfld (addr offset length val : Z) : M unit := mem_stn (addr +p offset) val length.
Definition mem_ldfld (addr offset length : Z) : M Z := mem_ldu (addr +p offset) length.
(** The fields of a structure, as pairs of an offset and a length, with their values. *)
Fixpoint mem_stflds (addr : Z) (flds : list (Z * Z)) (vals : list Z) : M unit :=
  match flds, vals with
  | (offset, length) :: flds', v :: vals' =>
      mem_stfld addr offset length v ;; mem_stflds addr flds' vals'
  | _, _ => skip
  end.
(** [k] values of a reply. *)
Definition out (k : nat) (r : reply) : list Z := map (fun i => s64 (nth i (r_out r) 0)) (seq 0 k).

Definition V7st_align1 : Z := (14 + wsize - 1) / wsize * wsize.
Definition V7st : list (Z * Z) :=
  [(0, 2); (2, 2); (4, 2); (6, 2); (8, 2); (10, 2); (12, 2);
   (V7st_align1 + 0, 4); (V7st_align1 + 4, 4); (V7st_align1 + 8, 4); (V7st_align1 + 12, 4)].
Definition V7st_sz : Z := V7st_align1 + 16.
Definition V7tb : list (Z * Z) := [(0, 4); (4, 2); (6, 2); (8, 2)].
Definition V7tb_sz : Z := 10.
Definition V7tms : list (Z * Z) := [(0, 4); (4, 4); (8, 4); (12, 4)].
Definition V7tms_sz : Z := 16.

(** [stat2mem], [timeb2mem], [tms2mem]: true is success. *)
Definition struct2mem (flds : list (Z * Z)) (sz addr : Z) (vals : list Z) : M bool :=
  bad ← memfault addr sz;
  if bad : bool then ret false else mem_stflds addr flds vals ;; ret true.
Definition stat2mem (addr : Z) (r : reply) : M bool := struct2mem V7st V7st_sz addr (out 11 r).
Definition timeb2mem (addr : Z) (tb : list Z) : M bool := struct2mem V7tb V7tb_sz addr tb.
Definition tms2mem (addr : Z) (r : reply) : M bool := struct2mem V7tms V7tms_sz addr (out 4 r).

(** ** [do_ioctl]: no request of V7 is supported *)
Definition do_ioctl (fd req addr : Z) : M Z := einval WBADIOCTL ;; ret (-1).

(** ** The calls *)

(** A call that fails with -1; the results of a call, [None] if it failed. *)
Definition checked (c : syscall) : M (option Z) :=
  v ← sys c; ret (if v =? -1 then None else Some v).
Definition with_str {A} (n addr : Z) (k : cstr -> M (option A)) : M (option A) :=
  o ← savestr n addr; match o with Some str => k str | None => ret None end.
Definition with_fd {A} (fd : Z) (m : M (option A)) : M (option A) :=
  b ← good_fd fd; if b : bool then m else ret None.
Definition stored (b : bool) : option Z := if b then Some 0 else None.
(** The error code, without and with a result. *)
Definition done_ (o : option Z) : M unit :=
  match o with Some _ => push_int 0 | None => push_err end.
Definition done_int (o : option Z) : M unit :=
  match o with Some v => push_int v ;; push_int 0 | None => push_err end.

Definition mon_exit : M unit :=
  sp ← gets SP;
  x ← st_sh sp; 
  u ← (if x =? UNDEFINED then ret true else y ← st_sh (sp +p wsize +p -1); ret (y =? UNDEFINED));
  modify (set_ES_def (negb u)) ;;
  es ← pop_int; modify (set_ES es) ;; modify (set_running false).

Definition mon_fork : M unit :=
  ppid ← sys s_getpid;
  pid ← sys s_fork;
  if pid =? 0 then _ ← init_ofiles false [] log0; push_int ppid ;; push_int 1 ;; push_int 0
  else if 0 <? pid then incr_mess_id ;; push_int pid ;; push_int 0 ;; push_int 0
  else push_err.

(** The bytes that were read are stored. *)
Fixpoint store_read (bs : list Z) (addr : Z) : M unit :=
  match bs with
  | [] => skip
  | b :: bs' =>
      i ← gets (in_stack addr);
      (if i : bool then ch_st_prot addr ;; set_stack_loc addr (char b) ;; set_st_sh addr SH_INT
       else ch_dt_prot addr ;; set_data_loc addr (char b) ;; set_dt_sh addr SH_INT) ;;
      store_read bs' (addr +p 1)
  end.
(** The reply holds [n] bytes, which fit in the buffer. *)
Definition read_bytes (n nbytes : Z) (r : reply) : M (list Z) :=
  if (0 <=? n) && (n <=? nbytes) && (Z.of_nat (length (r_out r)) =? n) then ret (r_out r) else undef.
Definition mon_read : M unit :=
  fd ← pop_int; dsp1 ← pop_ptr; nbytes ← pop_intp;
  ok ← good_fd fd;
  if negb ok then push_err
  else if nbytes <? 0 then mod_mon (set_errno EINVAL) ;; push_err
  else
    check_buf 0 nbytes ;;
    r ← os_call (s_read fd nbytes);
    let n := s32 (r_val r) in
    if n =? -1 then push_err
    else if in_gda dsp1 && negb (in_gda (dsp1 +p (n - 1))) then efault WRGDAH ;; push_err
    else
      b ← gets (is_in_mem dsp1 n);
      if negb b then efault WRUMEM ;; push_err
      else bs ← read_bytes n nbytes r; store_read bs dsp1 ;; push_unsp n ;; push_int 0.

Fixpoint warn_write (k : nat) (addr : Z) : M unit :=
  match k with
  | O => skip
  | S k' =>
      x ← mem_sh addr;
      when (x =? UNDEFINED)
        (b ← gets (in_stack addr); warning (if b : bool then WWLUNDEF else WWGUNDEF)) ;;
      warn_write k' (addr +p 1)
  end.
Fixpoint load_write (k : nat) (addr i : Z) : M (list Z) :=
  match k with
  | O => ret []
  | S k' =>
      b ← mem_loc addr; in_buf 0 i ;; bs ← load_write k' (addr +p 1) (i + 1); ret (b :: bs)
  end.
Definition mon_write : M unit :=
  fd ← pop_int; dsp1 ← pop_ptr; nbytes ← pop_intp;
  ok ← good_fd fd;
  if negb ok then push_err
  else if nbytes <? 0 then mod_mon (set_errno EINVAL) ;; push_err
  else if in_gda dsp1 && negb (in_gda (dsp1 +p (nbytes - 1))) then efault WWGDAH ;; push_err
  else
    b ← gets (is_in_mem dsp1 nbytes);
    if negb b then efault WWUMEM ;; push_err
    else
      warn_write (Z.to_nat nbytes) dsp1 ;;
      check_buf 0 nbytes ;;
      bs ← load_write (Z.to_nat nbytes) dsp1 0;
      n ← sys (s_write fd bs);
      if n =? -1 then push_err else push_unsp n ;; push_int 0.

Definition mon_open : M unit :=
  dsp1 ← pop_ptr; flag ← pop_int;
  o ← with_str 0 dsp1 (fun p => checked (s_open p flag)); done_int o.
Definition mon_close : M unit :=
  fd ← pop_int; o ← with_fd fd (checked (s_close fd)); done_ o.
Definition mon_wait : M unit :=
  r ← os_call s_wait;
  let pid := s32 (r_val r) in
  if pid =? -1 then push_err
  else push_i2 pid ;; push_i2 (s32 (nth 0 (r_out r) 0)) ;; push_int 0.
Definition mon_creat : M unit :=
  dsp1 ← pop_ptr; flag ← pop_int;
  o ← with_str 0 dsp1 (fun p => checked (s_creat p flag)); done_int o.
Definition mon_link : M unit :=
  dsp1 ← pop_ptr; dsp2 ← pop_ptr;
  o ← with_str 0 dsp1 (fun p => with_str 1 dsp2 (fun q => checked (s_link p q))); done_ o.
Definition mon_unlink : M unit :=
  dsp1 ← pop_ptr; o ← with_str 0 dsp1 (fun p => checked (s_unlink p)); done_ o.
Definition mon_chdir : M unit :=
  dsp1 ← pop_ptr; o ← with_str 0 dsp1 (fun p => checked (s_chdir p)); done_ o.
Definition mon_mknod : M unit :=
  dsp1 ← pop_ptr; mode ← pop_int; address ← pop_int2;
  o ← with_str 0 dsp1 (fun p => checked (s_mknod p mode address)); done_ o.
Definition mon_chmod : M unit :=
  dsp1 ← pop_ptr; mode ← pop_int2;
  o ← with_str 0 dsp1 (fun p => checked (s_chmod p mode)); done_ o.
Definition mon_chown : M unit :=
  dsp1 ← pop_ptr; owner ← pop_int2; group ← pop_int2;
  o ← with_str 0 dsp1 (fun p => checked (s_chown p owner group)); done_ o.
Definition stat_call (c : syscall) (dsp2 : Z) : M (option Z) :=
  r ← os_call c;
  if s32 (r_val r) =? -1 then ret None else b ← stat2mem dsp2 r; ret (stored b).
Definition mon_stat : M unit :=
  dsp1 ← pop_ptr; dsp2 ← pop_ptr;
  o ← with_str 0 dsp1 (fun p => stat_call (s_stat p) dsp2); done_ o.
Definition mon_lseek : M unit :=
  fd ← pop_int; off ← pop_int4; whence ← pop_int;
  o ← with_fd fd (r ← os_call (s_lseek fd off whence);
                  ret (if s64 (r_val r) =? -1 then None else Some (s64 (r_val r))));
  match o with Some off => push_i4 off ;; push_int 0 | None => push_err end.
Definition mon_getpid : M unit := pid ← sys s_getpid; push_i2 pid.
Definition mon_setuid : M unit := userid ← pop_int2; o ← checked (s_setuid userid); done_ o.
Definition mon_getuid : M unit :=
  userid ← sys s_getuid; push_i2 userid ;; userid ← sys s_geteuid; push_i2 userid.
Definition mon_ptrace : M unit :=
  request ← pop_int; pid ← pop_int2; dsp3 ← pop_ptr; n ← pop_int; einval WPTRACEIMP ;; push_err.
Definition mon_alarm : M unit :=
  seconds ← pop_uns2; r ← os_call (s_alarm seconds); push_i2 (r_val r mod 2 ^ 32).
Definition mon_fstat : M unit :=
  fd ← pop_int; dsp2 ← pop_ptr; o ← with_fd fd (stat_call (s_fstat fd) dsp2); done_ o.
Definition mon_pause : M unit := _ ← sys s_pause; skip.
Definition mon_utime : M unit :=
  dsp1 ← pop_ptr; dsp2 ← pop_ptr;
  bad ← memfault dsp2 (2 * INT4SIZE);
  if bad : bool then push_err
  else
    actime ← mem_ldu dsp2 INT4SIZE; modtime ← mem_ldu (dsp2 +p INT4SIZE) INT4SIZE;
    o ← with_str 0 dsp1 (fun p => checked (s_utime p actime modtime)); done_ o.
Definition mon_access : M unit :=
  dsp1 ← pop_ptr; mode ← pop_int;
  o ← with_str 0 dsp1 (fun p => checked (s_access p mode)); done_ o.
Definition mon_nice : M unit := incr ← pop_int; _ ← sys (s_nice incr); skip.
Definition mon_ftime : M unit :=
  dsp2 ← pop_ptr;
  r ← os_call s_time;
  b ← timeb2mem dsp2 [s64 (r_val r); 0; sext 16 (Z.quot timezone 60); sext 16 daylight];
  done_ (stored b).
Definition mon_sync : M unit := _ ← sys s_sync; skip.
Definition mon_kill : M unit :=
  pid ← pop_int2; sig ← pop_int; o ← checked (s_kill pid sig); done_ o.

Definition DUPMASK := 0x40.
(** [dup2] on System V. *)
Definition sim_dup2 (fd1 fdnew : Z) : M Z :=
  dupped ← sys (s_dup fd1);
  e ← get_errno;
  if (dupped <? 0) && negb (e =? EMFILE) then ret dupped
  else _ ← sys (s_close dupped); _ ← sys (s_close fdnew); sys (s_fcntl_dupfd fd1 fdnew).
Definition mon_dup : M unit :=
  fd ← pop_int; fdnew ← pop_int;
  fdnew ←
    (if negb (Z.land fd DUPMASK =? 0) then
       let fd1 := Z.ldiff fd DUPMASK in
       b ← good_fd fd1; if b : bool then sim_dup2 fd1 fdnew else ret (-1)
     else b ← good_fd fd; if b : bool then sys (s_dup fd) else ret (-1));
  if fdnew =? -1 then push_err else push_int fdnew ;; push_int 0.
Definition mon_pipe : M unit :=
  r ← os_call s_pipe;
  if s32 (r_val r) =? -1 then push_err
  else push_int (s32 (nth 0 (r_out r) 0)) ;; push_int (s32 (nth 1 (r_out r) 0)) ;; push_int 0.
Definition mon_times : M unit :=
  dsp2 ← pop_ptr; r ← os_call s_times; b ← tms2mem dsp2 r; when (negb b) push_err.
Definition mon_profil : M unit :=
  dsp1 ← pop_ptr; nbytes ← pop_intp; off ← pop_intp; n ← pop_intp; einval WPROFILIMP ;; push_err.
Definition mon_setgid : M unit := groupid ← pop_int2; o ← checked (s_setgid groupid); done_ o.
Definition mon_getgid : M unit :=
  groupid ← sys s_getgid; push_i2 groupid ;; groupid ← sys s_getegid; push_i2 groupid.
Definition mon_sigtrp : M unit :=
  trap_no ← pop_int; sig_no ← pop_int;
  old_trap_no ← do_sigtrp trap_no sig_no;
  if old_trap_no =? -1 then push_err else push_int old_trap_no ;; push_int 0.
Definition mon_acct : M unit :=
  dsp1 ← pop_ptr; o ← with_str 0 dsp1 (fun p => checked (s_acct p)); done_ o.
Definition mon_ioctl : M unit :=
  fd ← pop_int; request ← pop_int; dsp2 ← pop_ptr;
  o ← with_fd fd (v ← do_ioctl fd request dsp2; ret (if v =? 0 then Some 0 else None)); done_ o.
Definition mon_mpxcall : M unit :=
  request ← pop_int; dsp1 ← pop_ptr; einval WMPXIMP ;; push_err.
(** [execve] returns if it fails. *)
Definition mon_exec : M unit :=
  dsp1 ← pop_ptr; dsp2 ← pop_ptr; dsp3 ← pop_ptr;
  o ← with_str 0 dsp1 (fun p =>
        a ← vec 1 2 dsp2;
        match a with
        | None => ret None
        | Some argvec =>
            e ← vec 3 4 dsp3;
            match e with
            | None => ret None
            | Some envvec => checked (s_execve p argvec envvec)
            end
        end);
  match o with Some _ => fatal FExec | None => push_err end.
Definition mon_umask : M unit :=
  mode ← pop_int2; r ← os_call (s_umask (mode mod 2 ^ 32)); push_int (r_val r mod 2 ^ 32).
Definition mon_chroot : M unit :=
  dsp1 ← pop_ptr; o ← with_str 0 dsp1 (fun p => checked (s_chroot p)); done_ o.

(** [switch (pop_int())]. *)
Definition mon_call (n : Z) : M unit :=
  match n with
  | 1 => mon_exit | 2 => mon_fork | 3 => mon_read | 4 => mon_write | 5 => mon_open
  | 6 => mon_close | 7 => mon_wait | 8 => mon_creat | 9 => mon_link | 10 => mon_unlink
  | 12 => mon_chdir | 14 => mon_mknod | 15 => mon_chmod | 16 => mon_chown | 18 => mon_stat
  | 19 => mon_lseek | 20 => mon_getpid | 23 => mon_setuid | 24 => mon_getuid | 26 => mon_ptrace
  | 27 => mon_alarm | 28 => mon_fstat | 29 => mon_pause | 30 => mon_utime | 33 => mon_access
  | 34 => mon_nice | 35 => mon_ftime | 36 => mon_sync | 37 => mon_kill | 41 => mon_dup
  | 42 => mon_pipe | 43 => mon_times | 44 => mon_profil | 46 => mon_setgid | 47 => mon_getgid
  | 48 => mon_sigtrp | 51 => mon_acct | 54 => mon_ioctl | 56 => mon_mpxcall | 59 => mon_exec
  | 60 => mon_umask | 61 => mon_chroot
  | _ => trap EBADMON
  end.
Definition moncall : M unit := n ← pop_int; mon_call n.
End Mon.

Create HintDb mon discriminated.

(** ** Monitor calls preserve the machine invariant *)
Section Keeps.
Context {cfg : Config} {ok : ConfigOk} {os : Os}.

Lemma keeps_pop_int : keeps pop_int any.
Proof. unfold pop_int. keeps_tac. Qed.
Lemma keeps_pop_ptr : keeps pop_ptr any.
Proof. unfold pop_ptr. keeps_tac. Qed.
Lemma keeps_push_int a : keeps (push_int a) any.
Proof. unfold push_int. keeps_tac. Qed.
Lemma INT2SIZE_obj : obj_size INT2SIZE.
Proof. unfold INT2SIZE, obj_size. destruct ok_wsize as [-> | ->]; (split; [lia | by right]). Qed.
Lemma INT4SIZE_obj : obj_size INT4SIZE.
Proof. unfold INT4SIZE, obj_size. destruct ok_wsize as [-> | ->]; (split; [lia | by right]). Qed.
#[local] Hint Resolve keeps_pop_int keeps_pop_ptr keeps_push_int INT2SIZE_obj INT4SIZE_obj : keeps.
Lemma keeps_pop_int2 : keeps pop_int2 any.
Proof. unfold pop_int2. keeps_tac. Qed.
Lemma keeps_pop_int4 : keeps pop_int4 any.
Proof. unfold pop_int4. keeps_tac. Qed.
Lemma keeps_pop_intp : keeps pop_intp any.
Proof. unfold pop_intp. keeps_tac. Qed.
Lemma keeps_pop_uns2 : keeps pop_uns2 any.
Proof. unfold pop_uns2. keeps_tac. Qed.
Lemma keeps_push_i2 a : keeps (push_i2 a) any.
Proof. unfold push_i2. keeps_tac. Qed.
Lemma keeps_push_i4 a : keeps (push_i4 a) any.
Proof. unfold push_i4. keeps_tac. Qed.
Lemma keeps_push_unsp a : keeps (push_unsp a) any.
Proof. unfold push_unsp. keeps_tac. Qed.
Lemma keeps_push_err : keeps push_err any.
Proof. unfold push_err, get_errno. keeps_tac. Qed.
Lemma keeps_good_fd fd : keeps (good_fd fd) any.
Proof. unfold good_fd. keeps_tac. Qed.
Lemma keeps_mem_loc a : keeps (mem_loc a) is_byte.
Proof. unfold mem_loc. keeps_tac. Qed.
Lemma keeps_mem_sh a : keeps (mem_sh a) any.
Proof. unfold mem_sh. keeps_tac. Qed.
Lemma keeps_mem_stn a l n : keeps (mem_stn a l n) any.
Proof. unfold mem_stn. keeps_tac. Qed.
Lemma keeps_memfault a n : keeps (memfault a n) any.
Proof. unfold memfault. keeps_tac. Qed.
Lemma keeps_check_buf n sz : keeps (check_buf n sz) any.
Proof. unfold check_buf, get_buf_cnt, put_buf_cnt. keeps_tac. Qed.
Lemma keeps_in_buf n i : keeps (in_buf n i) any.
Proof. unfold in_buf, get_buf_cnt. keeps_tac. Qed.
#[local] Hint Resolve keeps_pop_int2 keeps_pop_int4 keeps_pop_intp keeps_pop_uns2 keeps_push_i2 keeps_push_i4
  keeps_push_unsp keeps_push_err keeps_good_fd keeps_mem_loc keeps_mem_sh keeps_mem_stn keeps_memfault
  keeps_check_buf keeps_in_buf : keeps.

Lemma keeps_strlen_loop k : forall a n, keeps (strlen_loop k a n) any.
Proof. induction k as [|k IH]; intros; cbn [strlen_loop]; keeps_tac. Qed.
Lemma keeps_strcpy_loop k : forall n i a, keeps (strcpy_loop k n i a) any.
Proof. induction k as [|k IH]; intros; cbn [strcpy_loop]; keeps_tac. Qed.
#[local] Hint Resolve keeps_strlen_loop keeps_strcpy_loop : keeps.
Lemma keeps_savestr n a : keeps (savestr n a) any.
Proof. unfold savestr. keeps_tac. Qed.
#[local] Hint Resolve keeps_savestr : keeps.
Lemma keeps_vec_count k : forall n2 a p e l, keeps (vec_count k n2 a p e l) any.
Proof. induction k as [|k IH]; intros; cbn [vec_count]; keeps_tac. Qed.
Lemma keeps_vec_copy k : forall n1 n2 p e c i, keeps (vec_copy k n1 n2 p e c i) any.
Proof. induction k as [|k IH]; intros; cbn [vec_copy]; keeps_tac. Qed.
#[local] Hint Resolve keeps_vec_count keeps_vec_copy : keeps.
Lemma keeps_vec n1 n2 a : keeps (vec n1 n2 a) any.
Proof. unfold vec. keeps_tac. Qed.
Lemma keeps_mem_stflds a flds : forall vals, keeps (mem_stflds a flds vals) any.
Proof.
  induction flds as [|[o l] flds IH]; intros vals; cbn [mem_stflds]; [keeps_tac|].
  destruct vals; unfold mem_stfld; keeps_tac.
Qed.
#[local] Hint Resolve keeps_vec keeps_mem_stflds : keeps.
Lemma keeps_struct2mem flds sz a vals : keeps (struct2mem flds sz a vals) any.
Proof. unfold struct2mem. keeps_tac. Qed.
#[local] Hint Resolve keeps_struct2mem : keeps.
Lemma keeps_checked c : keeps (checked c) any.
Proof. unfold checked. keeps_tac. Qed.
#[local] Hint Resolve keeps_checked : keeps.
Lemma keeps_with_str {A} n a (k : cstr -> M (option A)) :
  (forall p, keeps (k p) any) -> keeps (with_str n a k) any.
Proof. intros H. unfold with_str. keeps_tac. Qed.
Lemma keeps_with_fd {A} fd (m : M (option A)) : keeps m any -> keeps (with_fd fd m) any.
Proof. intros H. unfold with_fd. keeps_tac. Qed.
Lemma keeps_stat_call c a : keeps (stat_call c a) any.
Proof. unfold stat_call, stat2mem. keeps_tac. Qed.
Lemma keeps_done o : keeps (done_ o) any.
Proof. unfold done_. keeps_tac. Qed.
Lemma keeps_done_int o : keeps (done_int o) any.
Proof. unfold done_int. keeps_tac. Qed.
Lemma keeps_store_read bs : forall a, keeps (store_read bs a) any.
Proof. induction bs as [|b bs IH]; intros a; cbn [store_read]; keeps_tac. Qed.
Lemma keeps_warn_write k : forall a, keeps (warn_write k a) any.
Proof. induction k as [|k IH]; intros a; cbn [warn_write]; keeps_tac. Qed.
Lemma keeps_load_write k : forall a i, keeps (load_write k a i) any.
Proof. induction k as [|k IH]; intros a i; cbn [load_write]; keeps_tac. Qed.
Lemma keeps_sim_dup2 a b : keeps (sim_dup2 a b) any.
Proof. unfold sim_dup2, get_errno. keeps_tac. Qed.
#[local] Hint Resolve keeps_stat_call keeps_done keeps_done_int keeps_store_read keeps_warn_write
  keeps_load_write keeps_sim_dup2 : keeps.
#[local] Hint Extern 2 (keeps (with_str _ _ _) any) => apply keeps_with_str; intros ?; solve [keeps_tac] : keeps.
#[local] Hint Extern 2 (keeps (with_fd _ _) any) => apply keeps_with_fd; solve [keeps_tac] : keeps.

#[local] Hint Unfold mon_exit mon_fork mon_read mon_write mon_open mon_close mon_wait mon_creat mon_link mon_unlink mon_chdir mon_mknod mon_chmod mon_chown mon_stat mon_lseek mon_getpid mon_setuid mon_getuid mon_ptrace mon_alarm mon_fstat mon_pause mon_utime mon_access mon_nice mon_ftime mon_sync mon_kill mon_dup mon_pipe mon_times mon_profil mon_setgid mon_getgid mon_sigtrp mon_acct mon_ioctl mon_mpxcall mon_exec mon_umask mon_chroot : mon.
Lemma keeps_mon_call n : keeps (mon_call n) any.
Proof.
  unfold mon_call; repeat case_match; try apply keeps_trap; autounfold with mon;
    unfold incr_mess_id, get_errno, do_ioctl, timeb2mem, tms2mem, read_bytes; keeps_tac.
Qed.
#[local] Hint Resolve keeps_mon_call : keeps.
Lemma keeps_moncall : keeps moncall any.
Proof. unfold moncall. keeps_tac. Qed.
End Keeps.
#[export] Hint Resolve keeps_moncall : keeps.
