(* ===== verification/MonStr.v ===== *)
(** * The string and vector parameters of monitor calls

    What [savestr] and [vec] of [moncalls.c] do: their loops end, they do not leave
    their buffers, and they return the string or vector in memory. *)
From Stdlib Require Import ZArith Lia Bool.
From stdpp Require Import base gmap list.
From S2P Require Import Prelude Os Machine Warn Mem Wp Sigtrp Data Stack StackSpec DataSpec Mon.

Section MonStr.
Context {cfg : Config} {ok : ConfigOk} {os : Os}.

(** ** Bytes in memory *)
Definition mem_byte (s : state) (a : Z) : Z :=
  if in_stack a s then mget (bytes (stack s)) a else mget (bytes (data s)) a.
(** The addresses of memory: the data area and heap, and the stack. *)
Definition in_mem (s : state) (a : Z) : bool := (a <? HP s) || in_stack a s.

Lemma is_in_mem_1 a s : Inv s -> 0 <= a < 2 ^ 63 -> is_in_mem a 1 s = in_mem s a.
Proof.
  intros Hs Ha. pose proof (inv_HP s Hs). pose proof (inv_data_alloc s Hs). pose proof ML_range.
  unfold is_in_mem, is_in_data, is_in_stack, in_mem, in_stack. rewrite padd_assoc.
  rewrite !padd_small by lia. f_equal; [|f_equal]; lia.
Qed.
Lemma mem_loc_run a s : Inv s -> 0 <= a -> in_mem s a = true -> mem_loc a s = Ret (mem_byte s a) s.
Proof.
  intros Hs Ha Hm. pose proof (inv_HP s Hs). pose proof (inv_stack s Hs).
  unfold mem_loc, mem_byte, in_mem in *. run. unfold in_stack in *.
  destruct ((SP s <=? a) && (a <=? ML)) eqn:E.
  - unfold stack_loc. by replace (stack_valid a s) with true by (unfold stack_valid; lia).
  - unfold data_loc. by replace (data_valid a s) with true by (unfold data_valid; lia).
Qed.
Lemma mem_byte_range s a : Inv s -> 0 <= mem_byte s a < 256.
Proof. intros Hs. unfold mem_byte. destruct (in_stack a s); apply mget_range, Hs. Qed.

(** The bytes of memory from [a] on. *)
Definition left_over (s : state) (a : Z) : Z :=
  Z.max 0 (HP s - a) + Z.max 0 (ML + 1 - Z.max a (SP s)).
Lemma left_over_next s a : in_mem s a = true -> 0 <= left_over s (a + 1) < left_over s a.
Proof. unfold in_mem, in_stack, left_over. lia. Qed.
Lemma left_over_turns s a : Inv s -> 0 <= a -> left_over s a < Z.of_nat (mem_turns s).
Proof.
  intros Hs Ha. pose proof (inv_HP s Hs). pose proof (inv_SP s Hs). pose proof (inv_LB s Hs).
  pose proof ok_HB. unfold left_over, mem_turns. lia.
Qed.

(** ** Only the monitor state, but for the map of signals, and the warnings change *)
Definition eqmw (s s' : state) : Prop :=
  exists m w, s' = set_mon m (set_warn w s) /\ sig_map m = sig_map (mon s).
#[export] Instance eqmw_equivalence : Equivalence eqmw.
Proof.
  split.
  - intros s. exists (mon s), (warn s). by destruct s.
  - intros s s' (m & w & -> & E). exists (mon s), (warn s). by destruct s.
  - intros s s' s'' (m & w & -> & E) (m' & w' & -> & E'). exists m', w'. cbn in *. by rewrite E', E.
Qed.
Lemma eqmw_mon m s : sig_map m = sig_map (mon s) -> eqmw s (set_mon m s).
Proof. intros E. exists m, (warn s). by destruct s. Qed.
Lemma eqmw_warn w s : eqmw s (set_warn w s).
Proof. exists (mon s), w. by destruct s. Qed.
Lemma Inv_eqmw s s' : Inv s -> eqmw s s' -> Inv s'.
Proof. intros Hs (m & w & -> & _). by apply Inv_set_mon, Inv_set_warn. Qed.

(** The state after [efault]. *)
Definition faulted (w : Z) (s : state) : state := set_mon (set_errno EFAULT (mon s)) (warned w s).
Lemma efault_run w s : 0 <= w -> efault w s = Ret tt (faulted w s).
Proof. intros Hw. unfold efault, mod_mon. run. by rewrite warning_ret. Qed.
Lemma eqmw_faulted w s : eqmw s (faulted w s).
Proof. by exists (set_errno EFAULT (mon s)), (do_warn w (FIL s) (LIN s) (warn s)). Qed.
Lemma memfault_run a n s :
  memfault a n s = if is_in_mem a n s then Ret false s else Ret true (faulted WMONFLT s).
Proof. unfold memfault. run. destruct (is_in_mem a n s); run; [done|]. by rewrite efault_run. Qed.

(** ** Strings *)

(** The string [str] and a zero byte are in memory at [a]. *)
Definition string_at (s : state) (a : Z) (str : cstr) : Prop :=
  (forall i, 0 <= i <= Z.of_nat (length str) -> in_mem s (a + i) = true) /\
  (forall i c, str !! i = Some c -> c <> 0 /\ mem_byte s (a + Z.of_nat i) = c) /\
  mem_byte s (a + Z.of_nat (length str)) = 0.

Lemma string_at_eqmw s s' a str : eqmw s s' -> string_at s' a str <-> string_at s a str.
Proof. by intros (m & w & -> & _). Qed.
Lemma string_at_nil s a : in_mem s a = true -> mem_byte s a = 0 -> string_at s a [].
Proof.
  intros Hm Hb. split_and!; [|done|by rewrite Z.add_0_r].
  intros i Hi. cbn [length] in Hi. by replace (a + i) with a by lia.
Qed.
Lemma string_at_cons s a c str :
  in_mem s a = true -> mem_byte s a = c -> c <> 0 -> string_at s (a + 1) str -> string_at s a (c :: str).
Proof.
  intros Hm Hb Hc (H1 & H2 & H3). unfold string_at. cbn [length]. split_and!.
  - intros i Hi. destruct (Z.eq_dec i 0) as [->|]; [by rewrite Z.add_0_r|].
    replace (a + i) with (a + 1 + (i - 1)) by lia. apply H1. lia.
  - intros [|i] d; cbn; [intros [= <-]; by rewrite Z.add_0_r|].
    intros Hi. destruct (H2 i d Hi). split; [done|]. by replace (a + Z.of_nat (S i)) with (a + 1 + Z.of_nat i) by lia.
  - by replace (a + Z.of_nat (S (length str))) with (a + 1 + Z.of_nat (length str)) by lia.
Qed.
Lemma string_at_tail s a str :
  string_at s a str -> in_mem s a = true /\
  match str with
  | [] => mem_byte s a = 0
  | c :: str' => mem_byte s a = c /\ c <> 0 /\ string_at s (a + 1) str'
  end.
Proof.
  intros (H1 & H2 & H3). split.
  { rewrite <- (Z.add_0_r a). apply H1. lia. }
  destruct str as [|c str]; [by rewrite Z.add_0_r in H3|]. cbn [length] in *.
  destruct (H2 0%nat c eq_refl) as [Hc Hb]. rewrite Z.add_0_r in Hb.
  split_and!; [done|done|split_and!].
  - intros i Hi. replace (a + 1 + i) with (a + (i + 1)) by lia. apply H1. lia.
  - intros i d Hi. destruct (H2 (S i) d Hi). split; [done|].
    by replace (a + 1 + Z.of_nat i) with (a + Z.of_nat (S i)) by lia.
  - by replace (a + 1 + Z.of_nat (length str)) with (a + Z.of_nat (S (length str))) by lia.
Qed.
Lemma string_at_fun s a str : forall str', string_at s a str -> string_at s a str' -> str = str'.
Proof.
  revert a. induction str as [|c str IH]; intros a [|c' str'] [_ H]%string_at_tail [_ H']%string_at_tail;
    [done| | |].
  - destruct H' as (? & ? & _). congruence.
  - destruct H as (? & ? & _). congruence.
  - destruct H as (? & _ & H), H' as (? & _ & H'). f_equal; [congruence | by eapply IH].
Qed.

Definition no_string (s : state) (a : Z) : Prop := forall str, ~ string_at s a str.

(** The first loop. *)
Lemma strlen_loop_run k : forall a len s,
  Inv s -> 0 <= a -> 0 <= len -> a + len <= 2 ^ 62 -> left_over s (a + len) < Z.of_nat k ->
  (exists str, string_at s (a + len) str /\
     strlen_loop k a len s = Ret (Some (len + strsize str)) s) \/
  (no_string s (a + len) /\ strlen_loop k a len s = Ret None (faulted WMONFLT s)).
Proof.
  induction k as [|k IH]; intros a len s Hs Ha Hl Hb Hk.
  { exfalso. unfold left_over in Hk. lia. }
  cbn [strlen_loop]. run. rewrite padd_small by lia. rewrite memfault_run, is_in_mem_1 by (done || lia).
  destruct (in_mem s (a + len)) eqn:Hm; run.
  - rewrite mem_loc_run by (done || lia). run.
    destruct (Z.eqb_spec (mem_byte s (a + len)) 0) as [E|E]; run.
    + left. exists []. split; [by apply string_at_nil | done].
    + assert (a + (len + 1) <= 2 ^ 62).
      { pose proof (inv_HP s Hs). pose proof (inv_data_alloc s Hs). pose proof ML_range.
        unfold in_mem, in_stack in Hm. lia. }
      pose proof (left_over_next s (a + len) Hm).
      destruct (IH a (len + 1) s) as [(str & Hstr & Er)|[Hno Er]]; [done|lia|lia|lia| | |].
      * rewrite Z.add_assoc. lia.
      * left. exists (mem_byte s (a + len) :: str). rewrite Z.add_assoc in Hstr.
        split; [by apply string_at_cons|]. rewrite Er. do 2 f_equal. unfold strsize. cbn [length]. lia.
      * right. split; [|done]. intros str [_ H']%string_at_tail. destruct str as [|c str]; [done|].
        destruct H' as (_ & _ & H'). apply (Hno str). by rewrite Z.add_assoc.
  - right. split; [|done]. intros str [H' _]%string_at_tail. congruence.
Qed.

(** The second loop. *)
Lemma in_buf_run n i s : 0 <= i < mget (buf_cnt (mon s)) n -> in_buf n i s = Ret tt s.
Proof. intros Hi. unfold in_buf, get_buf_cnt. run. by replace (_ && _) with true by lia. Qed.
Lemma strcpy_loop_run n str : forall a i s,
  Inv s -> 0 <= a -> a + strsize str <= 2 ^ 63 -> string_at s a str ->
  0 <= i -> i + strsize str <= mget (buf_cnt (mon s)) n ->
  strcpy_loop (Z.to_nat (strsize str)) n i a s = Ret str s.
Proof.
  induction str as [|c str IH]; intros a i s Hs Ha Hlen [Hm Hstr]%string_at_tail Hi Hbuf;
    unfold strsize in *; cbn [length] in *.
  - change (Z.to_nat (Z.of_nat 0 + 1)) with 1%nat. cbn [strcpy_loop]. run.
    rewrite mem_loc_run by (done || lia). run. rewrite in_buf_run by lia. run. by rewrite Hstr.
  - destruct Hstr as (Hc & Hc0 & Hstr).
    replace (Z.to_nat _) with (S (Z.to_nat (Z.of_nat (length str) + 1))) by lia. cbn [strcpy_loop]. run.
    rewrite mem_loc_run by (done || lia). run. rewrite in_buf_run by lia. run. rewrite Hc.
    replace (c =? 0) with false by lia. run. rewrite padd_small by lia. by rewrite IH by (done || lia).
Qed.

(** ** Buffers *)
(** The monitor state after [check_buf(n, sz)]. *)
Definition grown (n sz : Z) (m : monst) : monst :=
  if mget (buf_cnt m) n =? 0 then set_buf_cnt (<[n := Z.max 128 sz]> (buf_cnt m)) m
  else if mget (buf_cnt m) n <? sz then set_buf_cnt (<[n := allocfrac sz]> (buf_cnt m)) m
  else m.
Lemma check_buf_run n sz s : check_buf n sz s = Ret tt (set_mon (grown n sz (mon s)) s).
Proof.
  unfold check_buf, get_buf_cnt, put_buf_cnt, mod_mon, grown. run.
  destruct (_ =? 0); run; [done|]. destruct (_ <? _); run; [done|]. by destruct s.
Qed.
Lemma grown_size n sz m : 0 <= sz -> sz <= mget (buf_cnt (grown n sz m)) n.
Proof.
  intros Hsz. unfold grown. destruct (_ =? 0); [cbn; rewrite mget_insert_eq; lia|].
  destruct (Z.ltb_spec (mget (buf_cnt m) n) sz); [|done]. cbn. rewrite mget_insert_eq.
  unfold allocfrac. rewrite Z.quot_div_nonneg by lia. apply Z.div_le_lower_bound; lia.
Qed.
Lemma grown_other n sz k m : k <> n -> mget (buf_cnt (grown n sz m)) k = mget (buf_cnt m) k.
Proof. intros Hk. unfold grown. repeat destruct (_ : bool); cbn; rewrite ?mget_insert_ne; done. Qed.
Lemma grown_sig_map n sz m : sig_map (grown n sz m) = sig_map m.
Proof. unfold grown. by repeat destruct (_ : bool). Qed.
Lemma grown_calls n sz m : calls (grown n sz m) = calls m.
Proof. unfold grown. by repeat destruct (_ : bool). Qed.
Lemma eqmw_grown n sz s : eqmw s (set_mon (grown n sz (mon s)) s).
Proof. apply eqmw_mon, grown_sig_map. Qed.

Lemma savestr_run n a s :
  Inv s -> 0 <= a < 2 ^ 32 ->
  (exists str, string_at s a str /\
     savestr n a s = Ret (Some str) (set_mon (grown n (strsize str) (mon s)) s)) \/
  ((forall str, ~ string_at s a str) /\ savestr n a s = Ret None (faulted WMONFLT s)).
Proof.
  intros Hs Ha. unfold savestr. run.
  destruct (strlen_loop_run (mem_turns s) a 0 s) as [(str & Hstr & E)|[Hno E]]; rewrite ?Z.add_0_r in *;
    [done|lia|lia|lia|by apply left_over_turns; [|lia]| |].
  - left. exists str. split; [done|]. rewrite E. run. rewrite check_buf_run. run.
    assert (a + strsize str <= 2 ^ 63).
    { pose proof (inv_HP s Hs). pose proof (inv_data_alloc s Hs). pose proof ML_range.
      destruct Hstr as (Hm & _ & _). pose proof (Hm (Z.of_nat (length str)) ltac:(lia)) as Hl.
      unfold in_mem, in_stack in Hl. unfold strsize. lia. }
    rewrite Z.add_0_l, (strcpy_loop_run n str); [done|by apply Inv_set_mon|lia|done| |lia|].
    + by eapply string_at_eqmw; [apply eqmw_grown|].
    + cbn [mon set_mon]. rewrite Z.add_0_l. apply grown_size. unfold strsize. lia.
  - right. split; [done|]. by rewrite E.
Qed.

(** C8: a parameter that points to a string is read whole: [savestr] always ends,
    without leaving memory or its buffer, and returns the string up to its zero byte
    if there is one in memory at the address; otherwise it returns 0 and the error
    is EFAULT.  Only the size of the buffer, the error and the warnings change. *)
Theorem string_parameter n a s :
  Inv s -> 0 <= a < 2 ^ 32 ->
  (exists str, string_at s a str /\ (forall str', string_at s a str' -> str' = str) /\
     savestr n a s = Ret (Some str) (set_mon (grown n (strsize str) (mon s)) s)) \/
  (no_string s a /\ savestr n a s = Ret None (faulted WMONFLT s)).
Proof.
  intros Hs Ha. destruct (savestr_run n a s Hs Ha) as [(str & Hstr & E)|H]; [left|by right].
  exists str. split_and!; [done| |done]. intros str' H. by eapply string_at_fun.
Qed.

(** ** Vectors *)

(** The pointer at [p], and what [mem_lddp] demands of [p]. *)
Definition ptr_at (s : state) (p : Z) : Z := if in_stack p s then stk s p psize else dat s p psize.
Definition ptr_ok (s : state) (p : Z) : Prop :=
  (if in_stack p s then on_stack p psize s else on_data p psize s) /\ p mod wsize = 0.

Definition access_trap (nr : Z) : Prop := nr = EMEMFLT \/ nr = EBADPTR.

(** The checks of a pointer: they pass, or trap. *)
Lemma ch_wordaligned_trap a s : a mod wsize <> 0 -> ch_wordaligned a s = Trap EBADPTR s.
Proof. intros H. unfold ch_wordaligned. rewrite wordaligned_mod. by replace (_ =? 0) with false by lia. Qed.
Lemma ch_in_stack_cases a n s : Inv s -> 0 <= a < 2 ^ 63 -> 0 < n < 2 ^ 32 ->
  on_stack a n s \/ (~ on_stack a n s /\ ch_in_stack a n s = Trap EMEMFLT s).
Proof.
  intros Hs Ha Hn. pose proof ML_range. unfold ch_in_stack, is_in_stack, on_stack.
  rewrite padd_assoc, padd_small by lia.
  destruct ((SP s <=? a) && (a + (n + -1) <=? ML)) eqn:E; [left; lia|]. right. split; [lia | done].
Qed.
Lemma ch_in_data_cases a n s : Inv s -> 0 <= a < 2 ^ 63 -> 0 < n < 2 ^ 32 ->
  on_data a n s \/ (~ on_data a n s /\ ch_in_data a n s = Trap EMEMFLT s).
Proof.
  intros Hs Ha Hn. unfold ch_in_data, is_in_data, on_data. rewrite padd_small by lia.
  destruct (a + n <=? HP s) eqn:E; [left; lia|]. right. split; [lia | done].
Qed.
Lemma quiet_eq {A} (m : M A) s (a : A) :
  (forall P : A -> state -> Prop, (forall w, P a (set_warn w s)) -> wp False m P (fun _ _ => False) s) ->
  exists w, m s = Ret a (set_warn w s).
Proof.
  intros H. destruct (wp_run m s a (fun s' => exists w, s' = set_warn w s)) as (s' & E & w & ->); [|by exists w].
  apply H. intros w. by split; [|eexists].
Qed.
Lemma mem_lddp_run p s : Inv s -> 0 <= p < 2 ^ 63 ->
  (ptr_ok s p /\ exists w, mem_lddp p s = Ret (ptr_at s p) (set_warn w s)) \/
  (~ ptr_ok s p /\ exists nr, access_trap nr /\ mem_lddp p s = Trap nr s).
Proof.
  intros Hs Hp. assert (Hn : 0 < psize < 2 ^ 32) by (sizes; lia).
  unfold mem_lddp, ptr_ok, ptr_at. run. destruct (in_stack p s).
  - destruct (ch_in_stack_cases p psize s Hs Hp Hn) as [Hon|[Hon E]].
    + destruct (Z.eq_dec (p mod wsize) 0) as [Hal|Hal].
      * left. split; [done|]. apply quiet_eq. intros P HP. by apply wp_st_lddp.
      * right. split; [by intros [_ ?]|]. exists EBADPTR. split; [by right|].
        unfold st_lddp. run. rewrite ch_in_stack_run by (done || lia). run. by rewrite ch_wordaligned_trap.
    + right. split; [by intros [? _]|]. exists EMEMFLT. split; [by left|]. unfold st_lddp. run. by rewrite E.
  - destruct (ch_in_data_cases p psize s Hs Hp Hn) as [Hon|[Hon E]].
    + destruct (Z.eq_dec (p mod wsize) 0) as [Hal|Hal].
      * left. split; [done|]. apply quiet_eq. intros P HP. by apply wp_dt_lddp.
      * right. split; [by intros [_ ?]|]. exists EBADPTR. split; [by right|].
        unfold dt_lddp. run. rewrite ch_in_data_run by (done || lia). run. by rewrite ch_wordaligned_trap.
    + right. split; [by intros [? _]|]. exists EMEMFLT. split; [by left|]. unfold dt_lddp. run. by rewrite E.
Qed.
Lemma ptr_at_range s p : Inv s -> 0 <= ptr_at s p < 2 ^ 32.
Proof.
  intros Hs. unfold ptr_at, stk, dat. pose proof ok_psize as Hps.
  assert (H : forall m, bytes_ok m -> 0 <= ldn m p (Z.to_nat psize) < 2 ^ 32).
  { intros m Hm. pose proof (ldn_range (Z.to_nat psize) m p Hm).
    assert (2 ^ (8 * Z.of_nat (Z.to_nat psize)) <= 2 ^ 32) by (apply Z.pow_le_mono_r; lia). lia. }
  destruct (in_stack p s); apply H, Hs.
Qed.
Lemma ptr_ok_next s p : Inv s -> 0 <= p -> ptr_ok s p ->
  p + psize <= 2 ^ 62 /\ 0 <= left_over s (p + psize) < left_over s p.
Proof.
  intros Hs Hp [H _]. assert (Hn : 0 < psize <= 4) by (sizes; lia). pose proof (inv_HP s Hs).
  pose proof (inv_data_alloc s Hs). pose proof ML_range. unfold left_over.
  destruct (in_stack p s) eqn:E; destruct H; unfold in_stack in E; lia.
Qed.

(** The vector [l] of strings is in memory at [p], up to a zero pointer. *)
Inductive vector_at (s : state) : Z -> list cstr -> Prop :=
| vector_nil p : ptr_ok s p -> ptr_at s p = 0 -> vector_at s p []
| vector_cons p str l :
    ptr_ok s p -> ptr_at s p <> 0 -> string_at s (ptr_at s p) str -> vector_at s (p + psize) l ->
    vector_at s p (str :: l).
Lemma vector_at_eqmw s s' p l : eqmw s s' -> vector_at s p l -> vector_at s' p l.
Proof. intros (m & w & -> & _). induction 1; by econstructor. Qed.

(** The room for the strings. *)
Definition strings (l : list cstr) : Z := foldr (fun str n => strsize str + n) 0 l.
Lemma strings_nonneg l : 0 <= strings l.
Proof. induction l as [|str l IH]; unfold strings in *; cbn [foldr]; unfold strsize in *; lia. Qed.

(** The first loop of [vec]: the strings and their total size, counting the string at
    the zero pointer too; or EFAULT; or the trap of a pointer outside memory. *)
Lemma vec_count_run k n2 addr : forall p n_ent str s,
  Inv s -> 0 <= p <= 2 ^ 62 -> left_over s p < Z.of_nat k ->
  wp False (vec_count k n2 addr p n_ent str)
    (fun o s' => eqmw s s' /\
       match o with
       | Some (n, sz) => exists l, vector_at s p l /\ n = n_ent + Z.of_nat (length l) + 1 /\ str + strings l <= sz
       | None => errno (mon s') = EFAULT
       end)
    (fun nr s' => access_trap nr /\ eqmw s s') s.
Proof.
  assert (Hps : 0 < psize < 2 ^ 32) by (sizes; lia).
  induction k as [|k IH]; intros p n_ent str s Hs Hp Hk; [unfold left_over in Hk; lia|].
  cbn [vec_count]. apply wp_bind. unfold wp at 1. rewrite memfault_run.
  destruct (is_in_mem addr psize s); [|split; [apply eqmw_faulted | done]].
  apply wp_bind. unfold wp at 1.
  destruct (mem_lddp_run p s Hs ltac:(lia)) as [[Hok [w ->]]|[_ (nr & Hnr & ->)]]; [|done].
  pose proof (ptr_at_range s p Hs) as Hr. pose proof (ptr_ok_next s p Hs (proj1 Hp) Hok) as [Hn1 Hn2].
  set (s1 := set_warn w s).
  assert (H1 : eqmw s s1) by apply eqmw_warn.
  assert (Hs1 : Inv s1) by by apply Inv_set_warn.
  apply wp_bind. unfold wp at 1.
  destruct (savestr_run n2 (ptr_at s p) s1 Hs1 Hr) as [(st & Hst & ->)|[_ ->]];
    [|split; [etrans; [exact H1|apply eqmw_faulted] | done]].
  apply (proj1 (string_at_eqmw s s1 _ _ H1)) in Hst.
  set (s2 := set_mon _ s1). assert (H2 : eqmw s s2) by (etrans; [exact H1|apply eqmw_grown]).
  destruct (Z.eqb_spec (ptr_at s p) 0) as [E|E].
  - split; [done|]. exists []. split_and!; [by constructor|cbn; lia|].
    unfold strings, strsize; cbn; lia.
  - rewrite padd_small by lia.
    assert (Hs2 : Inv s2) by by eapply Inv_eqmw.
    eapply wp_conseq; [apply IH; [done|lia|change (left_over s2) with (left_over s); lia]|done| |].
    + intros [[n sz]|] s' [He H]; (split; [by etrans|]); [|done].
      destruct H as (l & Hl & -> & Hsz). exists (st :: l). split_and!.
      * constructor; [done..|]. eapply vector_at_eqmw; [|exact Hl].
        by symmetry.
      * cbn [length]. lia.
      * change (strings (st :: l)) with (strsize st + strings l). lia.
    + intros nr s' [Hnr He]. split; [done | by etrans].
Qed.

(** The second loop stays within the buffer and the vector of pointers. *)
Lemma vec_copy_run n1 n2 l :
  n1 <> n2 -> forall k p n_ent cnt i s,
  vector_at s p l -> Inv s -> 0 <= p <= 2 ^ 62 -> left_over s p < Z.of_nat k ->
  n_ent + Z.of_nat (length l) < cnt -> 0 <= i -> i + strings l <= mget (buf_cnt (mon s)) n1 ->
  wp False (vec_copy k n1 n2 p n_ent cnt i) (fun o s' => eqmw s s' /\ o = Some l) (fun _ _ => False) s.
Proof.
  intros Hn. assert (Hps : 0 < psize < 2 ^ 32) by (sizes; lia).
  induction l as [|str l IH]; intros [|k] p n_ent cnt i s Hv Hs Hp Hk Hc Hi Hb;
    try (unfold left_over in Hk; lia); cbn [vec_copy]; apply wp_bind; unfold wp at 1; cbn [length] in Hc;
    destruct (mem_lddp_run p s Hs ltac:(lia)) as [[Hok [w ->]]|[Hno _]]; try (by inversion Hv);
    set (s1 := set_warn w s); assert (H1 : eqmw s s1) by apply eqmw_warn;
    replace (n_ent <? cnt) with true by lia.
  - inversion Hv as [? _ E|]; subst. apply wp_bind, wp_ret. by rewrite E.
  - inversion Hv as [|? ? ? _ E Hst Hv']; subst. apply wp_bind, wp_ret.
    replace (ptr_at s p =? 0) with false by lia.
    pose proof (ptr_at_range s p Hs) as Hr. pose proof (ptr_ok_next s p Hs (proj1 Hp) Hok) as [Hn1 Hn2].
    change (strings (str :: l)) with (strsize str + strings l) in Hb. pose proof (strings_nonneg l).
    assert (0 < strsize str) by (unfold strsize; lia).
    apply wp_bind. unfold wp at 1.
    destruct (savestr_run n2 (ptr_at s p) s1 (Inv_set_warn w s Hs) Hr) as [(st & Hst' & ->)|[Hno _]];
      [|by destruct (Hno str)].
    apply (proj1 (string_at_eqmw s s1 _ _ H1)) in Hst'.
    assert (st = str) as -> by (eapply string_at_fun; [exact Hst' | exact Hst]).
    set (s2 := set_mon _ s1). assert (H2 : eqmw s s2) by (etrans; [exact H1|apply eqmw_grown]).
    assert (Hb2 : mget (buf_cnt (mon s2)) n1 = mget (buf_cnt (mon s)) n1) by exact (grown_other n2 _ n1 (mon s1) Hn).
    apply wp_bind. unfold wp at 1. rewrite in_buf_run by lia.
    rewrite padd_small by lia. apply wp_bind.
    eapply wp_conseq; [apply IH; [|by eapply Inv_eqmw|lia|change (left_over s2) with (left_over s); lia|lia|lia|lia]|done| |done].
    + by eapply vector_at_eqmw.
    + intros o s' [He ->]. split; [by etrans | done].
Qed.

(** [vec]: it always ends, within its buffer and its vector of pointers; it returns
    the vector in memory, or fails with EFAULT, or traps for a pointer that cannot be
    loaded. *)
Lemma wp_vec n1 n2 a s :
  n1 <> n2 -> Inv s -> 0 <= a < 2 ^ 32 ->
  wp False (vec n1 n2 a)
    (fun o s' => eqmw s s' /\ match o with Some l => vector_at s a l | None => errno (mon s') = EFAULT end)
    (fun nr s' => access_trap nr /\ eqmw s s') s.
Proof.
  intros Hn Hs Ha. unfold vec. wregs. apply wp_bind.
  eapply wp_conseq; [apply vec_count_run; [done|lia|by apply left_over_turns; [|lia]]|done| |done].
  intros [[n sz]|] s1 [He H]; [|done]. destruct H as (l & Hl & -> & Hsz).
  apply wp_bind. unfold wp at 1. rewrite check_buf_run. set (s2 := set_mon _ s1).
  assert (H2 : eqmw s s2) by (etrans; [exact He|apply eqmw_grown]). pose proof (strings_nonneg l).
  eapply wp_conseq; [apply (vec_copy_run n1 n2 l)|done| |done]; try done.
  - by eapply vector_at_eqmw.
  - by eapply Inv_eqmw.
  - lia.
  - destruct H2 as (m & w & E & _). rewrite E. exact (left_over_turns s a Hs (proj1 Ha)).
  - lia.
  - cbn [mon set_mon s2]. etrans; [|apply grown_size]; lia.
  - intros o s3 [He3 ->]. split; [by etrans | done].
Qed.
End MonStr.
