(* ===== verification/MonLogic.v ===== *)
(** * The contract of a monitor call: rules

    [triple U P m Q]: run from a state that satisfies [P], [m] returns in one that
    satisfies [Q], or traps for an access outside memory; it stops otherwise only if
    [U].  [OsOk]: what is documented of the system calls. *)
From Stdlib Require Import ZArith Lia Bool.
From stdpp Require Import base gmap list.
From S2P Require Import Prelude Os Machine Warn Mem Wp Sigtrp Data Stack StackSpec DataSpec Mon MonStr.

(** ** The system calls *)
Definition can_fail (c : syscall) : bool :=
  match c with
  | s_nice _ | s_alarm _ | s_time | s_umask _ | s_getpid | s_getuid | s_geteuid | s_getgid | s_getegid
  | s_times | s_sync | s_fdopen _ | s_signals => false
  | _ => true
  end.
Definition failed (c : syscall) (r : reply) : bool :=
  match c with s_lseek _ _ _ => s64 (r_val r) =? -1 | _ => s32 (r_val r) =? -1 end.
(** A call that fails sets [errno]; [read] returns at most as many bytes as are asked
    for; [dup] and [fork] return -1 or more. *)
Class OsOk {os : Os} : Prop := {
  os_errno c h :
    can_fail c = true -> failed c (os_reply (c :: h)) = true -> 0 < r_errno (os_reply (c :: h)) < 2 ^ 15;
  os_read_ok fd n h :
    0 <= n -> let r := os_reply (s_read fd n :: h) in
    s32 (r_val r) = -1 \/ 0 <= s32 (r_val r) <= n /\ Z.of_nat (length (r_out r)) = s32 (r_val r);
  os_dup_ok fd h : -1 <= s32 (r_val (os_reply (s_dup fd :: h)));
  os_fork_ok h : -1 <= s32 (r_val (os_reply (s_fork :: h)))
}.

Section MonLogic.
Context {cfg : Config} {ok : ConfigOk} {os : Os} {ook : OsOk}.

(** No signal is mapped onto -1, which stands for an error. *)
Definition sig_map_ok (s : state) : Prop := forall sn, mget (sig_map (mon s)) sn <> -1.
(** [errno] is an error code. *)
Definition eok (s : state) : Prop := 0 < errno (mon s) < 2 ^ 15.

Section Triples.
Variables (U : Prop) (lb hp : Z).

(** The stack pointer is [p]. *)
Definition at_ (p : Z) (s : state) : Prop := Inv s /\ SP s = p /\ LB s = lb /\ HP s = hp /\ sig_map_ok s.
(** So it is after an attempt, and [errno] is set if that failed. *)
Definition att {A} (p : Z) (o : option A) (s : state) : Prop := at_ p s /\ (o = None -> eok s).

Definition triple {A} (P : state -> Prop) (m : M A) (Q : A -> state -> Prop) : Prop :=
  forall s, P s -> wp U m Q (fun nr _ => access_trap nr) s.

Lemma triple_bind {A B} P (m : M A) (k : A -> M B) R Q :
  triple P m R -> (forall a, triple (R a) (k a) Q) -> triple P (bind m k) Q.
Proof.
  intros Hm Hk s Hs. apply wp_bind. eapply wp_conseq; [by apply Hm|done| |done]. intros a s' H. by apply Hk.
Qed.
Lemma triple_conseq {A} (P P' : state -> Prop) (m : M A) (Q Q' : A -> state -> Prop) :
  triple P' m Q' -> (forall s, P s -> P' s) -> (forall a s, Q' a s -> Q a s) -> triple P m Q.
Proof. intros H HP HQ s Hs. eapply wp_conseq; [by apply H, HP|done|done|done]. Qed.
Lemma triple_pre {A} (P P' : state -> Prop) (m : M A) Q :
  triple P' m Q -> (forall s, P s -> P' s) -> triple P m Q.
Proof. intros H HP. by eapply triple_conseq. Qed.
Lemma triple_post {A} P (m : M A) (Q Q' : A -> state -> Prop) :
  triple P m Q' -> (forall a s, Q' a s -> Q a s) -> triple P m Q.
Proof. intros H HQ. by eapply triple_conseq. Qed.
Lemma triple_ret {A} P (a : A) Q : (forall s, P s -> Q a s) -> triple P (ret a) Q.
Proof. intros H s. apply H. Qed.
Lemma triple_gets {A} P (f : state -> A) : triple P (gets f) (fun a s => P s /\ a = f s).
Proof. by intros s Hs. Qed.
Lemma triple_modify P f Q : (forall s, P s -> Q tt (f s)) -> triple P (modify f) Q.
Proof. intros H s. apply H. Qed.
(** A fact that does not depend on the state. *)
Lemma triple_pure {A} (F : Prop) P (m : M A) Q : (F -> triple P m Q) -> triple (fun s => F /\ P s) m Q.
Proof. intros H s [HF Hs]. by apply H. Qed.
Lemma triple_stop {A} P (m : M A) Q : (forall s, P s -> U) -> (forall s, m s = Undef \/ exists f, m s = Fatal f s) -> triple P m Q.
Proof. intros HU Hm s Hs. unfold wp. destruct (Hm s) as [->|[f ->]]; by apply (HU s). Qed.

Lemma at_eqmw p s s' : at_ p s -> eqmw s s' -> at_ p s'.
Proof.
  intros (Hs & E1 & E2 & E3 & Hm) He. split_and!; [by eapply Inv_eqmw|..];
    destruct He as (m & w & -> & E); [done..|]. unfold sig_map_ok. cbn. by rewrite E.
Qed.
Lemma at_mon p m s : at_ p s -> sig_map m = sig_map (mon s) -> at_ p (set_mon m s).
Proof. intros H E. eapply at_eqmw; [exact H|by apply eqmw_mon]. Qed.
Lemma at_warn p w s : at_ p s -> at_ p (set_warn w s).
Proof. intros H. eapply at_eqmw; [exact H|apply eqmw_warn]. Qed.
Lemma at_stack_bounds p s : at_ p s -> 0 < p <= lb /\ lb <= ML + 1.
Proof. intros (Hs & <- & <- & _). split; apply Hs. Qed.

(** ** Pops *)
Lemma at_popped p k w s :
  at_ p s -> 0 <= k -> k mod wsize = 0 -> p + k <= lb -> at_ (p + k) (popped k w s).
Proof.
  intros (Hs & E1 & E2 & E3 & Hm) Hk Hal Hle. unfold popped. pose proof (inv_SP s Hs). split_and!; [|cbn; lia|done..].
  apply Inv_set_SP; [by apply Inv_set_warn|cbn; lia|]. rewrite Zplus_mod, (inv_SP_aligned s Hs), Hal.
  apply Z.mod_0_l. pose proof ok_wsize. lia.
Qed.
Lemma INT2SIZE_wsize : INT2SIZE = wsize.
Proof. unfold INT2SIZE. sizes; lia. Qed.
Lemma INT4SIZE_4 : INT4SIZE = 4.
Proof. unfold INT4SIZE. sizes; lia. Qed.
Lemma pop_size_obj n : n = wsize \/ n = psize \/ n = 4 -> pop_size n /\ width n = n /\ 0 < n <= 4 /\ n mod wsize = 0.
Proof.
  intros Hn. pose proof wsize_mod. pose proof psize_aligned.
  assert (wsize <= n <= 4 /\ n mod wsize = 0) as [H1 H2]
    by (pose proof ok_wsize as [Hw|Hw]; destruct Hn as [-> | [-> | ->]]; rewrite ?Hw; sizes; split; (lia || done)).
  unfold pop_size, int_size, width. split_and!; try lia; sizes; lia.
Qed.
Lemma triple_spop p n :
  n = wsize \/ n = psize \/ n = 4 -> p + n <= lb ->
  triple (at_ p) (spop n) (fun _ => at_ (p + n)).
Proof.
  intros Hn Hle s Hs. destruct (pop_size_obj n Hn) as (Hp & Ew & Hr & Hal).
  pose proof Hs as (Hi & E1 & E2 & _).
  apply wp_spop; [done|done|rewrite Ew; lia|]. intros w. rewrite Ew. by apply at_popped; [|lia|..].
Qed.
Lemma triple_upop p n :
  n = wsize \/ n = psize \/ n = 4 -> p + n <= lb ->
  triple (at_ p) (upop n) (fun _ => at_ (p + n)).
Proof.
  intros Hn Hle s Hs. destruct (pop_size_obj n Hn) as (Hp & Ew & Hr & Hal).
  pose proof Hs as (Hi & E1 & E2 & _).
  apply wp_upop; [done|done|rewrite Ew; lia|]. intros w. rewrite Ew. by apply at_popped; [|lia|..].
Qed.
Lemma triple_pop_int p : p + wsize <= lb -> triple (at_ p) pop_int (fun _ => at_ (p + wsize)).
Proof.
  intros Hle s Hs. pose proof Hs as (Hi & E1 & E2 & _). pose proof wsize_range. unfold pop_int.
  apply wp_bind, wp_swpop; [done|lia|]. intros w. by apply at_popped; [|lia|apply wsize_mod|].
Qed.
Lemma triple_pop_int2 p : p + wsize <= lb -> triple (at_ p) pop_int2 (fun _ => at_ (p + wsize)).
Proof.
  intros Hle. unfold pop_int2. eapply triple_bind; [apply triple_spop; rewrite INT2SIZE_wsize; auto|].
  intros v. apply triple_ret. intros s. by rewrite INT2SIZE_wsize.
Qed.
Lemma triple_pop_uns2 p : p + wsize <= lb -> triple (at_ p) pop_uns2 (fun _ => at_ (p + wsize)).
Proof.
  intros Hle. unfold pop_uns2. eapply triple_bind; [apply triple_upop; rewrite INT2SIZE_wsize; auto|].
  intros v. apply triple_ret. intros s. by rewrite INT2SIZE_wsize.
Qed.
Lemma triple_pop_int4 p : p + 4 <= lb -> triple (at_ p) pop_int4 (fun _ => at_ (p + 4)).
Proof. intros Hle. unfold pop_int4. rewrite INT4SIZE_4. apply triple_spop; auto. Qed.
Lemma triple_pop_intp p :
  p + psize <= lb -> triple (at_ p) pop_intp (fun v s => -2 ^ 31 <= v < 2 ^ 31 /\ at_ (p + psize) s).
Proof.
  intros Hle. unfold pop_intp. eapply triple_bind; [apply triple_spop; auto|].
  intros v. apply triple_ret. intros s Hs. split; [exact (sext_range 32 v ltac:(lia))|done].
Qed.
Lemma stk_SP_range s n : Inv s -> n = wsize \/ n = psize \/ n = 4 -> 0 <= stk s (SP s) n < 2 ^ 32.
Proof.
  intros Hs Hn. destruct (pop_size_obj n Hn) as (_ & _ & Hr & _). unfold stk.
  pose proof (ldn_range (Z.to_nat n) (bytes (stack s)) (SP s) (inv_stack_bytes s Hs)).
  assert (2 ^ (8 * Z.of_nat (Z.to_nat n)) <= 2 ^ 32) by (apply Z.pow_le_mono_r; lia). lia.
Qed.
Lemma triple_pop_ptr p :
  p + psize <= lb -> triple (at_ p) pop_ptr (fun v s => 0 <= v < 2 ^ 32 /\ at_ (p + psize) s).
Proof.
  intros Hle s Hs. pose proof Hs as (Hi & E1 & E2 & _). pose proof psize_range. unfold pop_ptr.
  apply wp_dppop; [done|lia|]. intros w. split; [by apply stk_SP_range; auto|].
  by apply at_popped; [|lia|apply psize_aligned|].
Qed.
(** ** Pushes *)

(** The stack may go down to [lo]. *)
Variable lo : Z.
Definition roomy : Prop := forall s, HP s = hp -> has_room lo s = true.
Lemma room_at p n s : roomy -> at_ p s -> 0 <= lo <= p - n -> 0 < n -> room n s.
Proof.
  intros Hr Hs Hlo Hn. pose proof (at_stack_bounds p s Hs). destruct Hs as (_ & <- & _ & Hh & _).
  unfold room. eapply has_room_mono; [apply Hlo|lia|by apply Hr].
Qed.
Lemma at_pushed p l sh n w s :
  at_ p s -> 0 < n -> n mod wsize = 0 -> room n s -> at_ (p - n) (set_warn w (pushed l sh n s)).
Proof.
  intros (Hs & <- & E2 & E3 & Hm) Hn Hal Hr. pose proof (rest_pushed l sh n s) as Er.
  split_and!; [by apply Inv_set_warn, Inv_pushed|done| | |].
  - rewrite <- E2. by apply (f_equal LB Er).
  - rewrite <- E3. by apply (f_equal HP Er).
  - unfold sig_map_ok. intros sn. change (mon (set_warn w (pushed l sh n s))) with (mon (rest (pushed l sh n s))).
    rewrite Er. apply Hm.
Qed.
Hypothesis Hroom : roomy.
Hypothesis Hlo : 0 <= lo.
(** The word on top. *)
Definition top (s : state) (k : Z) : Z := stk s (SP s + k) wsize.
Lemma mon_pushed w l sh k s : mon (set_warn w (pushed l sh k s)) = mon s.
Proof. exact (f_equal mon (rest_pushed l sh k s)). Qed.
Lemma wp_push_int p v s :
  lo <= p - wsize -> at_ p s ->
  wp U (push_int v)
    (fun _ s' => at_ (p - wsize) s' /\ top s' 0 = v mod 2 ^ (8 * wsize) /\ top s' wsize = top s 0 /\ mon s' = mon s)
    (fun _ _ => False) s.
Proof.
  intros Hp Hs. pose proof wsize_range. pose proof ok_wsize.
  assert (Hb : 0 <= lo <= p - wsize) by lia. pose proof (room_at p wsize s Hroom Hs Hb ltac:(lia)) as Hr.
  pose proof wsize_mod. pose proof Hs as (Hi & E1 & _).
  unfold push_int. apply wp_wpush; [done..|]. intros w. unfold top.
  rewrite !stk_set_warn, SP_set_warn, SP_pushed, !Z.add_0_r. split_and!.
  - by apply at_pushed; [|lia|..].
  - apply stk_pushed_top; lia.
  - replace (SP s - wsize + wsize) with (SP s) by lia. apply stk_pushed_above; lia.
  - apply mon_pushed.
Qed.
Lemma triple_push_int p v :
  lo <= p - wsize ->
  triple (at_ p) (push_int v) (fun _ s => at_ (p - wsize) s /\ top s 0 = v mod 2 ^ (8 * wsize)).
Proof.
  intros Hp s Hs. eapply wp_conseq; [by apply (wp_push_int p)|done| |done]. by intros u s' (? & ? & _).
Qed.
Lemma triple_push_word p v : lo <= p - wsize -> triple (at_ p) (push_int v) (fun _ => at_ (p - wsize)).
Proof. intros Hp. eapply triple_post; [by apply triple_push_int|]. by intros u s [Hs _]. Qed.
Lemma triple_npush p v n :
  n = wsize \/ n = psize \/ n = 4 -> lo <= p - n ->
  triple (at_ p) (npush v n) (fun _ => at_ (p - n)).
Proof.
  intros Hn Hp s Hs. destruct (pop_size_obj n Hn) as (Hps & Ew & Hr & Hal).
  pose proof (room_at p n s Hroom Hs ltac:(lia) ltac:(lia)) as Hrm. pose proof Hs as (Hi & _).
  apply wp_npush; [done|done|by rewrite Ew|]. intros w. rewrite Ew. by apply at_pushed; [|lia|..].
Qed.
Lemma triple_push_i2 p v : lo <= p - wsize -> triple (at_ p) (push_i2 v) (fun _ => at_ (p - wsize)).
Proof. intros. unfold push_i2. rewrite INT2SIZE_wsize. apply triple_npush; auto. Qed.
Lemma triple_push_i4 p v : lo <= p - 4 -> triple (at_ p) (push_i4 v) (fun _ => at_ (p - 4)).
Proof. intros. unfold push_i4. rewrite INT4SIZE_4. apply triple_npush; auto. Qed.
Lemma triple_push_unsp p v : lo <= p - psize -> triple (at_ p) (push_unsp v) (fun _ => at_ (p - psize)).
Proof. intros. unfold push_unsp. apply triple_npush; auto. Qed.

(** The outcome of a call whose parameters end at [p]: its [k] bytes of results and
    the code zero, or a nonzero code, twice. *)
Definition succeeded (p k : Z) (s : state) : Prop := at_ (p - k - wsize) s /\ top s 0 = 0.
Definition aborted (p : Z) (s : state) : Prop :=
  at_ (p - 2 * wsize) s /\ exists e, e <> 0 /\ top s 0 = e /\ top s wsize = e.
Definition outcome (p k : Z) (s : state) : Prop := succeeded p k s \/ aborted p s.

Lemma wp_push_err p s :
  lo <= p - 2 * wsize -> at_ p s -> eok s ->
  wp U push_err (fun _ s' => aborted p s' /\ mon s' = mon s) (fun _ _ => False) s.
Proof.
  intros Hp Hs He. pose proof ok_wsize. unfold push_err, get_errno, eok in *.
  assert (He' : errno (mon s) mod 2 ^ (8 * wsize) = errno (mon s)) by (apply Z.mod_small; sizes; lia).
  wregs. apply wp_bind. eapply wp_conseq; [apply (wp_push_int p); [lia|done]|done| |done].
  intros _ s1 (H1 & Ht1 & _ & Em). wregs. rewrite Em.
  eapply wp_conseq; [apply (wp_push_int (p - wsize)); [lia|done]|done| |done].
  intros _ s2 (H2 & Ht2 & Ht & Em2). rewrite He' in *. split; [|congruence].
  split; [by replace (p - 2 * wsize) with (p - wsize - wsize) by lia|].
  exists (errno (mon s)). split_and!; [lia|done|congruence].
Qed.
Lemma triple_push_err p k :
  lo <= p - 2 * wsize -> triple (fun s => at_ p s /\ eok s) push_err (fun _ => outcome p k).
Proof.
  intros Hp s [Hs He]. eapply wp_conseq; [by apply (wp_push_err p)|done| |done].
  intros u s' [Ha _]. by right.
Qed.
Lemma triple_push_0 p k :
  lo <= p - k - wsize -> triple (at_ (p - k)) (push_int 0) (fun _ => outcome p k).
Proof.
  intros Hp. eapply triple_conseq; [apply (triple_push_int (p - k)); lia|done|].
  intros _ s [Hs Ht]. left. split; [done|]. rewrite Ht. apply Z.mod_0_l. pose proof ok_wsize.
  apply Z.pow_nonzero; lia.
Qed.
Lemma triple_end p q k :
  q = p - k -> lo <= q - wsize -> triple (at_ q) (push_int 0) (fun _ => outcome p k).
Proof. intros ->. apply triple_push_0. Qed.
Lemma triple_fail (P : state -> Prop) p q k :
  (forall s, P s -> at_ p s /\ eok s) -> q = p -> lo <= p - 2 * wsize -> triple P push_err (fun _ => outcome q k).
Proof. intros HP -> Hp. eapply triple_pre; [by apply (triple_push_err p k)|done]. Qed.
Lemma triple_done p (o : option Z) : lo <= p - 2 * wsize -> triple (att p o) (done_ o) (fun _ => outcome p 0).
Proof.
  intros Hp. pose proof wsize_range. destruct o as [v|]; cbn [done_].
  - eapply triple_conseq; [apply (triple_push_0 p 0); lia| |done]. intros s [Hs _]. by rewrite Z.sub_0_r.
  - eapply triple_conseq; [by apply (triple_push_err p 0)| |done]. intros s [Hs He]. auto.
Qed.
Lemma triple_done_int p o : lo <= p - 2 * wsize -> triple (att p o) (done_int o) (fun _ => outcome p wsize).
Proof.
  intros Hp. pose proof wsize_range. destruct o as [v|]; cbn [done_int].
  - apply (triple_bind _ _ _ (fun _ => at_ (p - wsize))).
    { eapply triple_conseq; [apply (triple_push_int p v); lia|by intros s [Hs _]|by intros ? s [Hs _]]. }
    intros _. apply triple_push_0. lia.
  - eapply triple_conseq; [by apply (triple_push_err p wsize)| |done]. intros s [Hs He]. auto.
Qed.
(** ** System calls *)
Lemma triple_os_call p c :
  triple (at_ p) (os_call c)
    (fun r s => at_ p s /\ (exists h, r = os_reply (c :: h)) /\ errno (mon s) = s32 (r_errno r)).
Proof. intros s Hs. split_and!; [|by eexists|done]. by repeat apply at_mon. Qed.
Lemma errno_set c h s :
  can_fail c = true -> failed c (os_reply (c :: h)) = true ->
  errno (mon s) = s32 (r_errno (os_reply (c :: h))) -> eok s.
Proof.
  intros Hc Hf He. pose proof (os_errno c h Hc Hf). unfold eok. rewrite He. unfold s32, sext.
  rewrite Z.mod_small by lia. by replace (_ <? _) with true by lia.
Qed.
(** A call that returns an [int]. *)
Definition int_call (c : syscall) : bool := match c with s_lseek _ _ _ => false | _ => can_fail c end.
Lemma triple_sys p c :
  triple (at_ p) (sys c) (fun v s => at_ p s /\ (int_call c = true -> v = -1 -> eok s) /\
                                    exists h, v = s32 (r_val (os_reply (c :: h)))).
Proof.
  unfold sys. eapply triple_bind; [apply triple_os_call|]. intros r. apply triple_ret.
  intros s (Hs & (h & ->) & He). split_and!; [done| |by exists h].
  intros Hc Hv. apply (errno_set c h); [by destruct c|destruct c; (done || by apply Z.eqb_eq)|done].
Qed.
Lemma triple_os_try p c :
  int_call c = true -> triple (at_ p) (os_call c) (fun r s => at_ p s /\ (s32 (r_val r) = -1 -> eok s)).
Proof.
  intros Hc. eapply triple_post; [apply triple_os_call|]. intros r s (Hs & (h & ->) & He).
  split; [done|]. intros Hv. apply (errno_set c h); [by destruct c|destruct c; (done || by apply Z.eqb_eq)|done].
Qed.
Lemma triple_sys_at p c : triple (at_ p) (sys c) (fun _ => at_ p).
Proof. eapply triple_conseq; [apply triple_sys|done|]. by intros v s (Hs & _). Qed.
Lemma triple_checked p c : int_call c = true -> triple (at_ p) (checked c) (att p).
Proof.
  intros Hc. unfold checked. eapply triple_bind; [apply triple_sys|]. intros v. apply triple_ret.
  intros s (Hs & He & _). split; [done|]. destruct (Z.eqb_spec v (-1)); [|done]. intros _. by apply He.
Qed.
Lemma triple_lseek p fd off whence :
  triple (at_ p) (r ← os_call (s_lseek fd off whence);
                  ret (if s64 (r_val r) =? -1 then None else Some (s64 (r_val r)))) (att p).
Proof.
  eapply triple_bind; [apply triple_os_call|]. intros r. apply triple_ret. intros s (Hs & (h & ->) & He).
  split; [done|]. destruct (_ =? -1) eqn:E; [|done]. intros _. by apply (errno_set (s_lseek fd off whence) h).
Qed.

(** ** Errors that the interpreter finds *)
Lemma triple_einval p w : 0 <= w -> triple (at_ p) (einval w) (fun _ s => at_ p s /\ eok s).
Proof.
  intros Hw s Hs. unfold einval, wp, mod_mon. run. rewrite warning_ret by done. run.
  split; [by apply at_mon; [apply at_warn|]|done].
Qed.
Lemma triple_efault p w : 0 <= w -> triple (at_ p) (efault w) (fun _ s => at_ p s /\ eok s).
Proof.
  intros Hw s Hs. unfold wp. rewrite efault_run by done.
  split; [by eapply at_eqmw; [|apply eqmw_faulted]|done].
Qed.
Lemma triple_set_errno p e :
  0 < e < 2 ^ 15 -> triple (at_ p) (mod_mon (set_errno e)) (fun _ s => at_ p s /\ eok s).
Proof. intros He s Hs. split; [by apply at_mon|done]. Qed.
Lemma triple_good_fd p fd :
  triple (at_ p) (good_fd fd) (fun b s => at_ p s /\ (b = false -> eok s)).
Proof.
  unfold good_fd. eapply triple_bind; [apply triple_gets|]. intros lim. destruct (fd <? lim).
  - apply triple_ret. by intros s [Hs _].
  - eapply triple_bind; [eapply triple_pre; [by apply (triple_set_errno p EBADF)|by intros s [Hs _]]|].
    intros u. apply triple_ret. by intros s [Hs He].
Qed.
Lemma triple_with_fd {A} p fd (m : M (option A)) : triple (at_ p) m (att p) -> triple (at_ p) (with_fd fd m) (att p).
Proof.
  intros Hm. unfold with_fd. eapply triple_bind; [apply triple_good_fd|]. intros [|].
  - by eapply triple_pre; [apply Hm|intros s [Hs _]].
  - apply triple_ret. intros s [Hs He]. split; auto.
Qed.

(** ** Strings and vectors *)
Lemma triple_savestr p n a : 0 <= a < 2 ^ 32 -> triple (at_ p) (savestr n a) (att p).
Proof.
  intros Ha s Hs. unfold wp. destruct (savestr_run n a s (proj1 Hs) Ha) as [(str & _ & ->)|[_ ->]].
  - split; [by eapply at_eqmw; [|apply eqmw_grown]|done].
  - split; [by eapply at_eqmw; [|apply eqmw_faulted]|done].
Qed.
Lemma triple_option {A B} p (m : M (option A)) (k : A -> M (option B)) Q :
  triple (at_ p) m (att p) -> (forall a, triple (at_ p) (k a) Q) ->
  (forall s, at_ p s -> eok s -> Q None s) ->
  triple (at_ p) (o ← m; match o with Some a => k a | None => ret None end) Q.
Proof.
  intros Hm Hk HQ. eapply triple_bind; [exact Hm|]. intros [a|].
  - by eapply triple_pre; [apply Hk|intros s [Hs _]].
  - apply triple_ret. intros s [Hs He]. auto.
Qed.
Lemma triple_with_str {A} p n a (k : cstr -> M (option A)) :
  0 <= a < 2 ^ 32 -> (forall str, triple (at_ p) (k str) (att p)) -> triple (at_ p) (with_str n a k) (att p).
Proof. intros Ha Hk. apply triple_option; [by apply triple_savestr | done | by split]. Qed.
Lemma triple_vec p n1 n2 a : n1 <> n2 -> 0 <= a < 2 ^ 32 -> triple (at_ p) (vec n1 n2 a) (att p).
Proof.
  intros Hn Ha s Hs. eapply wp_conseq; [apply (wp_vec n1 n2 a s Hn (proj1 Hs) Ha)|done| |by intros nr s' [H _]].
  intros o s' [He Ho]. split; [by eapply at_eqmw|]. intros ->. unfold eok. by rewrite Ho.
Qed.
(** ** Memory *)

(** A store in memory. *)
Definition stored_in (s s' : state) : Prop :=
  Inv s' /\ SP s' = SP s /\ LB s' = LB s /\ HP s' = HP s /\ mon s' = mon s.
Lemma stored_in_refl s : Inv s -> stored_in s s.
Proof. done. Qed.
Lemma stored_in_trans s s1 s2 : stored_in s s1 -> stored_in s1 s2 -> stored_in s s2.
Proof. intros (_ & ? & ? & ? & ?) (? & ? & ? & ? & ?). split_and!; [done|congruence..]. Qed.
Lemma at_stored p s s' : at_ p s -> stored_in s s' -> at_ p s'.
Proof.
  intros (_ & F1 & F2 & F3 & Hm) (Hi & E1 & E2 & E3 & E4). split_and!; [done|congruence..|].
  unfold sig_map_ok. by rewrite E4.
Qed.
Lemma in_mem_stored s s' a : stored_in s s' -> in_mem s' a = in_mem s a.
Proof. intros (_ & E1 & _ & E3 & _). unfold in_mem, in_stack. by rewrite E1, E3. Qed.

Lemma ch_aligned_cases a n s :
  0 < n -> ch_aligned a n s = Ret tt s \/ ch_aligned a n s = Trap EBADPTR s.
Proof.
  intros Hn. unfold ch_aligned, is_aligned. pose proof ok_wsize. replace (Z.min n wsize =? 0) with false by lia.
  run. destruct (_ =? 0); run; auto.
Qed.
Lemma wp_mem_stn a l n s :
  Inv s -> 0 <= a < 2 ^ 62 -> 0 < n <= 8 ->
  wp False (mem_stn a l n) (fun _ s' => stored_in s s') (fun nr _ => access_trap nr) s.
Proof.
  intros Hs Ha Hn. unfold mem_stn. wregs. destruct (in_stack a s).
  - unfold st_stn. destruct (ch_in_stack_cases a n s Hs ltac:(lia) ltac:(lia)) as [Hon|[_ E]];
      [|unfold wp; run; rewrite E; by left].
    unfold wp. run. rewrite ch_in_stack_run by (done || lia). run.
    destruct (ch_aligned_cases a n s ltac:(lia)) as [-> | ->]; run; [|by right].
    pose proof (inv_stack s Hs). pose proof (inv_SP s Hs). destruct Hon.
    destruct (st_st_loop_run (Z.to_nat n) a l (sh_flags l n) s) as [w ->]; [lia..|].
    split_and!; [by apply Inv_set_warn, Inv_put_stk|done..].
  - unfold dt_stn. destruct (ch_in_data_cases a n s Hs ltac:(lia) ltac:(lia)) as [Hon|[_ E]];
      [|unfold wp; run; rewrite E; by left].
    unfold wp. run. rewrite ch_in_data_run by (done || lia). run.
    destruct (ch_aligned_cases a n s ltac:(lia)) as [-> | ->]; run; [|by right].
    pose proof (inv_HP s Hs). pose proof (inv_data_alloc s Hs). destruct Hon.
    destruct (dt_st_loop_run (Z.to_nat n) a l (sh_flags l n) s) as [w ->]; [lia..|].
    split_and!; [by apply Inv_set_warn, Inv_put_dat|done..].
Qed.
Lemma wp_mem_ldu a n s :
  Inv s -> 0 <= a < 2 ^ 62 -> 0 < n <= 8 ->
  wp False (mem_ldu a n) (fun _ s' => exists w, s' = set_warn w s) (fun nr _ => access_trap nr) s.
Proof.
  intros Hs Ha Hn. unfold mem_ldu. wregs. destruct (in_stack a s).
  - unfold st_ldu. destruct (ch_in_stack_cases a n s Hs ltac:(lia) ltac:(lia)) as [Hon|[_ E]];
      [|unfold wp; run; rewrite E; by left].
    unfold wp. run. rewrite ch_in_stack_run by (done || lia). run.
    destruct (ch_aligned_cases a n s ltac:(lia)) as [-> | ->]; run; [|by right].
    destruct (sh_check_run a n SH_INT (if n =? 1 then WLCEXP else WLIEXP) s) as (v & w & Hv & Hw);
      [lia|by destruct (n =? 1)|done|done|]. rewrite Hv. run. rewrite Hw. run.
    apply (wp_st_ldu_body False); [done|by apply Inv_set_warn|done|by exists w].
  - unfold dt_ldu. destruct (ch_in_data_cases a n s Hs ltac:(lia) ltac:(lia)) as [Hon|[_ E]];
      [|unfold wp; run; rewrite E; by left].
    unfold wp. run. rewrite ch_in_data_run by (done || lia). run.
    destruct (ch_aligned_cases a n s ltac:(lia)) as [-> | ->]; run; [|by right].
    destruct (dsh_check_run a n SH_INT (if n =? 1 then WGCEXP else WGIEXP) s) as (v & w & Hv & Hw);
      [lia|by destruct (n =? 1)|done|done|]. rewrite Hv. run. rewrite Hw. run.
    apply (wp_dt_ldu_body False); [done|by apply Inv_set_warn|done|by exists w].
Qed.
Lemma triple_mem_ldu p a n :
  0 <= a < 2 ^ 62 -> 0 < n <= 8 -> triple (at_ p) (mem_ldu a n) (fun _ => at_ p).
Proof.
  intros Ha Hn s Hs. eapply wp_conseq; [apply (wp_mem_ldu a n s (proj1 Hs) Ha Hn)|done| |done].
  intros v s' [w ->]. by apply at_warn.
Qed.
Lemma triple_memfault p a n : triple (at_ p) (memfault a n) (fun b s => at_ p s /\ (b = true -> eok s)).
Proof.
  intros s Hs. unfold wp. rewrite memfault_run. destruct (is_in_mem a n s); [done|].
  split; [by eapply at_eqmw; [|apply eqmw_faulted]|done].
Qed.

(** The fields of a structure of the monitor calls. *)
Definition fields_ok (flds : list (Z * Z)) : Prop := Forall (fun f => 0 <= f.1 < 64 /\ 0 < f.2 <= 4) flds.
Lemma triple_mem_stflds p a flds :
  0 <= a < 2 ^ 32 -> fields_ok flds -> forall vals, triple (at_ p) (mem_stflds a flds vals) (fun _ => at_ p).
Proof.
  intros Ha. induction 1 as [|[o n] flds [Ho Hn] _ IH]; intros [|v vals]; cbn [mem_stflds fst snd] in *;
    try by apply triple_ret.
  apply (triple_bind _ _ _ (fun _ => at_ p)); [|intros _; apply IH]. intros s Hs. unfold mem_stfld. rewrite padd_small by lia.
  eapply wp_conseq; [apply (wp_mem_stn (a + o) v n s (proj1 Hs)); lia|done| |done].
  intros u s' H. by eapply at_stored.
Qed.
Lemma triple_struct2mem p flds sz a vals :
  0 <= a < 2 ^ 32 -> fields_ok flds ->
  triple (at_ p) (struct2mem flds sz a vals) (fun b => att p (stored b)).
Proof.
  intros Ha Hf. unfold struct2mem. eapply triple_bind; [apply triple_memfault|]. intros [|].
  - apply triple_ret. intros s [Hs He]. split; auto.
  - eapply triple_bind; [eapply triple_pre; [by apply triple_mem_stflds|by intros s [Hs _]]|].
    intros u. apply triple_ret. by intros s Hs.
Qed.
Lemma fields_ok_st : fields_ok V7st.
Proof.
  assert (14 <= V7st_align1 <= 16).
  { unfold V7st_align1. destruct ok_wsize as [E|E]; rewrite E; split; vm_compute; congruence. }
  unfold V7st. repeat constructor; cbn [fst snd]; lia.
Qed.
Lemma fields_ok_tb : fields_ok V7tb.
Proof. repeat constructor; cbn [fst snd]; lia. Qed.
Lemma fields_ok_tms : fields_ok V7tms.
Proof. repeat constructor; cbn [fst snd]; lia. Qed.
Lemma triple_check_buf p n sz :
  0 <= sz -> triple (at_ p) (check_buf n sz) (fun _ s => at_ p s /\ sz <= mget (buf_cnt (mon s)) n).
Proof.
  intros Hsz s Hs. unfold wp. rewrite check_buf_run. split; [by eapply at_eqmw; [|apply eqmw_grown]|].
  by apply grown_size.
Qed.
End Triples.
End MonLogic.
