(* ===== verification/MonSpec.v ===== *)
(** * The contracts of the monitor calls

    READ and WRITE pass the bytes of memory; the calls of the EM manual take the
    parameters and give the results and the error code it lists. *)
From Stdlib Require Import ZArith Lia Bool.
From stdpp Require Import base gmap list.
From S2P Require Import Prelude Os Machine Warn Mem Wp Sigtrp Data Stack StackSpec DataSpec Mon MonStr MonLogic.

Section Bytes.
Context {cfg : Config} {ok : ConfigOk} {os : Os}.

(** The [n] bytes of memory at [a]. *)
Definition mem_bytes (s : state) (a n : Z) : list Z :=
  map (fun i => mem_byte s (a + Z.of_nat i)) (seq 0 (Z.to_nat n)).
Definition all_in_mem (s : state) (a n : Z) : Prop := forall i, 0 <= i < n -> in_mem s (a + i) = true.

Lemma is_in_mem_all s a n :
  Inv s -> 0 <= a < 2 ^ 32 -> 0 <= n < 2 ^ 32 -> is_in_mem a n s = true -> all_in_mem s a n.
Proof.
  intros Hs Ha Hn H i Hi. pose proof ML_range. pose proof (inv_HP s Hs).
  unfold is_in_mem, is_in_data, is_in_stack, in_mem, in_stack in *. rewrite padd_assoc in H.
  rewrite !padd_small in H by lia. lia.
Qed.

(** One byte more. *)
Lemma all_in_mem_next s a n :
  Inv s -> 0 <= a -> 0 < n -> all_in_mem s a n ->
  in_mem s a = true /\ all_in_mem s (a + 1) (n - 1) /\ a + 1 < 2 ^ 63 /\
  (if in_stack a s then stack_valid a s else data_valid a s) = true.
Proof.
  intros Hs Ha Hn H. pose proof ML_range. pose proof (inv_HP s Hs). pose proof (inv_data_alloc s Hs).
  pose proof (inv_stack s Hs).
  assert (Hm : in_mem s a = true) by (rewrite <- (Z.add_0_r a); apply H; lia).
  split_and!; [done| | |].
  - intros i Hi. replace (a + 1 + i) with (a + (i + 1)) by lia. apply H. lia.
  - unfold in_mem, in_stack in Hm. lia.
  - unfold in_mem in Hm. destruct (in_stack a s) eqn:E; unfold in_stack in E;
      [unfold stack_valid | unfold data_valid]; lia.
Qed.
Lemma warn_write_run k : forall a s,
  Inv s -> 0 <= a -> all_in_mem s a (Z.of_nat k) -> exists w, warn_write k a s = Ret tt (set_warn w s).
Proof.
  induction k as [|k IH]; intros a s Hs Ha Hall; cbn [warn_write].
  { exists (warn s). by destruct s. }
  destruct (all_in_mem_next s a (Z.of_nat (S k)) Hs Ha ltac:(lia) Hall) as (Hm & Hall' & Hb & Hv).
  unfold mem_sh. run. rewrite padd_small by lia.
  assert (E : (if in_stack a s then st_sh a else dt_sh a) s =
              Ret (if in_stack a s then mget (shad (stack s)) a else mget (shad (data s)) a) s).
  { destruct (in_stack a s); [unfold st_sh | unfold dt_sh]; by rewrite Hv. }
  rewrite E. set (x := if in_stack a s then _ else _). run.
  replace (Z.of_nat (S k) - 1) with (Z.of_nat k) in Hall' by lia.
  destruct (x =? UNDEFINED); run.
  - rewrite warning_ret by (by destruct (in_stack a s)).
    destruct (IH (a + 1) (warned (if in_stack a s then WWLUNDEF else WWGUNDEF) s)) as [w ->];
      [by apply Inv_warned|lia|done|]. by exists w.
  - apply IH; [done|lia|done].
Qed.
Lemma load_write_run k : forall a i s,
  Inv s -> 0 <= a -> 0 <= i -> all_in_mem s a (Z.of_nat k) -> i + Z.of_nat k <= mget (buf_cnt (mon s)) 0 ->
  load_write k a i s = Ret (mem_bytes s a (Z.of_nat k)) s.
Proof.
  unfold mem_bytes. induction k as [|k IH]; intros a i s Hs Ha Hi Hall Hb; cbn [load_write]; [done|].
  destruct (all_in_mem_next s a (Z.of_nat (S k)) Hs Ha ltac:(lia) Hall) as (Hm & Hall' & Hb' & Hv).
  replace (Z.of_nat (S k) - 1) with (Z.of_nat k) in Hall' by lia.
  run. rewrite mem_loc_run by done. run. rewrite in_buf_run by lia. run. rewrite padd_small by lia.
  rewrite IH by (done || lia). run. rewrite !Nat2Z.id. cbn [seq map]. rewrite Z.add_0_r.
  f_equal. f_equal. rewrite <- seq_shift, map_map. apply map_ext. intros j. f_equal. lia.
Qed.
(** [store_read] stores the bytes, and nothing else. *)
Lemma store_byte_run a b s :
  Inv s -> 0 <= a -> all_in_mem s a 1 ->
  exists s', (i ← gets (in_stack a);
              if i : bool then ch_st_prot a ;; set_stack_loc a (char b) ;; set_st_sh a SH_INT
              else ch_dt_prot a ;; set_data_loc a (char b) ;; set_dt_sh a SH_INT) s = Ret tt s' /\
             stored_in s s' /\
             forall c, mem_byte s' c = if c =? a then char b else mem_byte s c.
Proof.
  intros Hs Ha Hall. destruct (all_in_mem_next s a 1 Hs Ha ltac:(lia) Hall) as (Hm & _ & _ & Hv).
  run. unfold mem_byte. destruct (in_stack a s) eqn:Ei.
  - run. destruct (ch_st_prot_run a s Hv) as [w ->]. unfold set_stack_loc, set_st_sh. run.
    change (stack_valid a (set_warn w s)) with (stack_valid a s). rewrite Hv.
    match goal with |- context [stack_valid a ?x] => change (stack_valid a x) with (stack_valid a s) end.
    rewrite Hv. eexists. split; [reflexivity|]. split.
    { split_and!; [|done..]. destruct Hs. constructor; cbn; auto. by apply bytes_ok_insert, char_range. }
    intros c. unfold in_stack in *. cbn. destruct (Z.eqb_spec c a) as [->|]; [|].
    + rewrite Ei. apply mget_insert_eq.
    + by rewrite mget_insert_ne by done.
  - run. destruct (ch_dt_prot_run a s Hv) as [w ->]. unfold set_data_loc, set_dt_sh. run.
    change (data_valid a (set_warn w s)) with (data_valid a s). rewrite Hv.
    match goal with |- context [data_valid a ?x] => change (data_valid a x) with (data_valid a s) end.
    rewrite Hv. eexists. split; [reflexivity|]. split.
    { split_and!; [|done..]. destruct Hs. constructor; cbn; auto. by apply bytes_ok_insert, char_range. }
    intros c. unfold in_stack in *. cbn. destruct (Z.eqb_spec c a) as [->|]; [|].
    + rewrite Ei. apply mget_insert_eq.
    + by rewrite mget_insert_ne by done.
Qed.
Lemma store_read_run bs : forall a s,
  Inv s -> 0 <= a -> all_in_mem s a (Z.of_nat (length bs)) ->
  exists s', store_read bs a s = Ret tt s' /\ stored_in s s' /\
    forall c, mem_byte s' c =
      if (a <=? c) && (c <? a + Z.of_nat (length bs)) then char (nth (Z.to_nat (c - a)) bs 0) else mem_byte s c.
Proof.
  induction bs as [|b bs IH]; intros a s Hs Ha Hall; cbn [store_read length] in *.
  { exists s. split_and!; [done..|]. intros c. by replace (_ && _) with false by lia. }
  destruct (all_in_mem_next s a (Z.of_nat (S (length bs))) Hs Ha ltac:(lia) Hall) as (Hm & Hall' & Hb & _).
  replace (Z.of_nat (S (length bs)) - 1) with (Z.of_nat (length bs)) in Hall' by lia.
  destruct (store_byte_run a b s Hs Ha) as (s1 & E1 & Hst & Hmem).
  { intros i Hi. apply Hall. lia. }
  destruct (IH (a + 1) s1) as (s2 & E2 & Hst2 & Hmem2); [apply Hst|lia| |].
  { intros i Hi. rewrite (in_mem_stored s) by done. by apply Hall'. }
  exists s2. rewrite padd_small by lia. split_and!.
  - transitivity (bind (i ← gets (in_stack a);
       if i : bool then ch_st_prot a ;; set_stack_loc a (char b) ;; set_st_sh a SH_INT
       else ch_dt_prot a ;; set_data_loc a (char b) ;; set_dt_sh a SH_INT)
       (fun _ => store_read bs (a + 1)) s); [by destruct (in_stack a s) eqn:E; cbn; rewrite E|].
    unfold bind at 1. by rewrite E1.
  - by eapply stored_in_trans.
  - intros c. rewrite Hmem2, Hmem. destruct (Z.eqb_spec c a) as [->|Hc].
    + rewrite Z.sub_diag. replace (_ && _) with false by lia. by replace (_ && _) with true by lia.
    + destruct ((a + 1 <=? c) && _) eqn:E.
      * replace (_ && _) with true by lia. replace (Z.to_nat (c - a)) with (S (Z.to_nat (c - (a + 1)))) by lia. done.
      * by replace (_ && _) with false by lia.
Qed.
End Bytes.

(** ** The calls of the EM manual *)
Inductive em_type := em_int | em_int2 | em_int4 | em_intp | em_uns2 | em_unsp | em_ptr.
(** The parameters and the results, in the order in which they are on the stack; the
    results of a coded call are below its error code. *)
Inductive em_call := Coded (params results : list em_type) | Plain (params results : list em_type).
Definition em_params (c : em_call) : list em_type := match c with Coded ps _ | Plain ps _ => ps end.

(** The list of monitor calls of the EM manual, without the calls that this build
    leaves out, and Times and Profil. *)
Definition em_report (n : Z) : option em_call :=
  match n with
  | 1 => Some (Plain [em_int] []) | 2 => Some (Coded [] [em_int; em_int])
  | 3 | 4 => Some (Coded [em_int; em_ptr; em_unsp] [em_unsp])
  | 5 | 8 => Some (Coded [em_ptr; em_int] [em_int])
  | 6 => Some (Coded [em_int] []) | 7 => Some (Coded [] [em_int2; em_int2])
  | 9 => Some (Coded [em_ptr; em_ptr] []) | 10 | 12 => Some (Coded [em_ptr] [])
  | 14 => Some (Coded [em_ptr; em_int2; em_int2] []) | 15 => Some (Coded [em_ptr; em_int2] [])
  | 16 => Some (Coded [em_ptr; em_int2; em_int2] []) | 18 => Some (Coded [em_ptr; em_ptr] [])
  | 19 => Some (Coded [em_int; em_int4; em_int] [em_int4]) | 20 => Some (Plain [] [em_int2])
  | 23 => Some (Coded [em_int2] []) | 24 => Some (Plain [] [em_int2; em_int2])
  | 26 => Some (Coded [em_int; em_int2; em_ptr; em_int] [em_int])
  | 27 => Some (Plain [em_uns2] [em_uns2]) | 28 => Some (Coded [em_int; em_ptr] [])
  | 29 => Some (Plain [] []) | 30 => Some (Coded [em_ptr; em_ptr] [])
  | 33 => Some (Coded [em_ptr; em_int] []) | 34 => Some (Plain [em_int] [])
  | 35 => Some (Coded [em_ptr] []) | 36 => Some (Plain [] []) | 37 => Some (Coded [em_int2; em_int] [])
  | 41 => Some (Coded [em_int; em_int] [em_int]) | 42 => Some (Coded [] [em_int; em_int])
  | 46 => Some (Coded [em_int] []) | 47 => Some (Plain [] [em_int; em_int])
  | 48 => Some (Coded [em_int; em_int] [em_int]) | 51 => Some (Coded [em_ptr] [])
  | 54 => Some (Coded [em_int; em_int; em_ptr] []) | 56 => Some (Coded [em_int; em_ptr] [])
  | 59 => Some (Coded [em_ptr; em_ptr; em_ptr] []) | 60 => Some (Plain [em_int2] [em_int2])
  | 61 => Some (Coded [em_ptr] [])
  | _ => None
  end.

Section Calls.
Context {cfg : Config} {ok : ConfigOk} {os : Os} {ook : OsOk}.

Definition type_size (t : em_type) : Z :=
  match t with
  | em_int => wsize
  | em_int2 | em_uns2 => Z.max wsize 2
  | em_int4 => Z.max wsize 4
  | em_intp | em_unsp | em_ptr => psize
  end.
Definition sizes_of (l : list em_type) : Z := foldr (fun t n => type_size t + n) 0 l.

Lemma sizes_of_nonneg l : 0 <= sizes_of l.
Proof.
  unfold sizes_of. induction l as [|t l IH]; cbn [foldr]; [done|].
  assert (0 <= type_size t) by (destruct t; cbn; sizes; lia). lia.
Qed.

(** The calls after which another program runs: [fork] in the child, and [execve]. *)
Definition elsewhere (n : Z) : Prop :=
  (n = 2 /\ exists h, s32 (r_val (os_reply (s_fork :: h))) = 0) \/
  (n = 59 /\ exists p a e h, s32 (r_val (os_reply (s_execve p a e :: h))) <> -1).

Section Contracts.
Variables (n lb hp lo : Z).
Abbreviation U := (elsewhere n).
Abbreviation at_ := (at_ lb hp).
Abbreviation att := (att lb hp).
Abbreviation triple := (triple U).
Abbreviation outcome := (outcome lb hp).
Hypothesis Hroom : roomy hp lo.
Hypothesis Hlo : 0 <= lo.

(** The contract of a call, when the parameters are at [p]. *)
Definition contract (p : Z) (c : em_call) (m : M unit) : Prop :=
  p + sizes_of (em_params c) <= lb -> lo <= p - 3 * wsize ->
  triple (at_ p) m (fun _ =>
    match c with
    | Coded ps rs => outcome (p + sizes_of ps) (sizes_of rs)
    | Plain ps rs => at_ (p + sizes_of ps - sizes_of rs)
    end).

Lemma triple_try {B} p (m : M (option Z)) (k : option Z -> M B) Q :
  triple (at_ p) m (att p) -> (forall o, triple (att p o) (k o) Q) -> triple (at_ p) (bind m k) Q.
Proof. apply triple_bind. Qed.

Ltac begin_contract :=
  intros Hps Hlop; pose proof ok_wsize as Hw; pose proof ok_psize as Hpsz; pose proof ok_sizes as Hsz;
  unfold sizes_of, type_size in *; cbn [em_params foldr] in *.
Ltac pop :=
  eapply triple_bind;
  [ lazymatch goal with
    | |- MonLogic.triple _ _ pop_int _ => apply triple_pop_int
    | |- MonLogic.triple _ _ pop_int2 _ => apply triple_pop_int2
    | |- MonLogic.triple _ _ pop_int4 _ => apply triple_pop_int4
    | |- MonLogic.triple _ _ pop_intp _ => apply triple_pop_intp
    | |- MonLogic.triple _ _ pop_uns2 _ => apply triple_pop_uns2
    | |- MonLogic.triple _ _ pop_ptr _ => apply triple_pop_ptr
    end; lia
  | intros ?; cbv beta; try (apply triple_pure; intros ?) ].
(** The error code. *)
Ltac finish :=
  cbv beta;
  match goal with
  | |- MonLogic.triple _ (MonLogic.att _ _ ?p _) _ (fun _ => MonLogic.outcome _ _ ?q ?k) =>
      replace q with p by lia; try replace k with 0 by lia; try replace k with wsize by lia
  end;
  first [apply (triple_done _ _ _ lo Hroom Hlo) | apply (triple_done_int _ _ _ lo Hroom Hlo)]; lia.
Ltac attempt :=
  repeat first
    [ apply triple_with_str; [assumption|intros ?] | apply triple_with_fd
    | apply triple_checked; reflexivity ].
Ltac simple_contract f := begin_contract; unfold f; repeat pop; eapply triple_bind; [attempt | intros ?; finish].

Lemma open_contract p : contract p (Coded [em_ptr; em_int] [em_int]) mon_open.
Proof. simple_contract @mon_open. Qed.
Lemma creat_contract p : contract p (Coded [em_ptr; em_int] [em_int]) mon_creat.
Proof. simple_contract @mon_creat. Qed.
Lemma close_contract p : contract p (Coded [em_int] []) mon_close.
Proof. simple_contract @mon_close. Qed.
Lemma link_contract p : contract p (Coded [em_ptr; em_ptr] []) mon_link.
Proof. simple_contract @mon_link. Qed.
Lemma unlink_contract p : contract p (Coded [em_ptr] []) mon_unlink.
Proof. simple_contract @mon_unlink. Qed.
Lemma chdir_contract p : contract p (Coded [em_ptr] []) mon_chdir.
Proof. simple_contract @mon_chdir. Qed.
Lemma mknod_contract p : contract p (Coded [em_ptr; em_int2; em_int2] []) mon_mknod.
Proof. simple_contract @mon_mknod. Qed.
Lemma chmod_contract p : contract p (Coded [em_ptr; em_int2] []) mon_chmod.
Proof. simple_contract @mon_chmod. Qed.
Lemma chown_contract p : contract p (Coded [em_ptr; em_int2; em_int2] []) mon_chown.
Proof. simple_contract @mon_chown. Qed.
Lemma setuid_contract p : contract p (Coded [em_int2] []) mon_setuid.
Proof. simple_contract @mon_setuid. Qed.
Lemma access_contract p : contract p (Coded [em_ptr; em_int] []) mon_access.
Proof. simple_contract @mon_access. Qed.
Lemma kill_contract p : contract p (Coded [em_int2; em_int] []) mon_kill.
Proof. simple_contract @mon_kill. Qed.
Lemma setgid_contract p : contract p (Coded [em_int] []) mon_setgid.
Proof. simple_contract @mon_setgid. Qed.
Lemma acct_contract p : contract p (Coded [em_ptr] []) mon_acct.
Proof. simple_contract @mon_acct. Qed.
Lemma chroot_contract p : contract p (Coded [em_ptr] []) mon_chroot.
Proof. simple_contract @mon_chroot. Qed.

Lemma triple_stat_call p c a :
  int_call c = true -> 0 <= a < 2 ^ 32 -> triple (at_ p) (stat_call c a) (att p).
Proof.
  intros Hc Ha. unfold stat_call. eapply triple_bind; [apply triple_os_call|]. intros r.
  destruct (_ =? -1) eqn:E.
  - apply triple_ret. intros s (Hs & (h & ->) & He). split; [done|]. intros _.
    apply (errno_set c h); [by destruct c|by destruct c|done].
  - eapply triple_bind; [eapply triple_pre; [by apply triple_struct2mem, fields_ok_st|by intros s (Hs & _)]|].
    intros b. by apply triple_ret.
Qed.
Lemma stat_contract p : contract p (Coded [em_ptr; em_ptr] []) mon_stat.
Proof.
  begin_contract. unfold mon_stat. repeat pop. apply triple_try; [|intros ?; finish].
  apply triple_with_str; [done|intros ?]. by apply triple_stat_call.
Qed.
Lemma fstat_contract p : contract p (Coded [em_int; em_ptr] []) mon_fstat.
Proof.
  begin_contract. unfold mon_fstat. repeat pop. apply triple_try; [|intros ?; finish].
  apply triple_with_fd. by apply triple_stat_call.
Qed.
Lemma triple_do_ioctl p fd req a : triple (at_ p) (do_ioctl fd req a) (fun v s => at_ p s /\ v <> 0 /\ eok s).
Proof.
  unfold do_ioctl. eapply triple_bind; [by apply triple_einval|]. intros u. apply triple_ret.
  by intros s [Hs He].
Qed.
Lemma ioctl_contract p : contract p (Coded [em_int; em_int; em_ptr] []) mon_ioctl.
Proof.
  begin_contract. unfold mon_ioctl. repeat pop. apply triple_try; [|intros ?; finish].
  apply triple_with_fd. eapply triple_bind; [apply triple_do_ioctl|intros v].
  apply triple_ret. by intros s (Hs & _ & He).
Qed.
Lemma ftime_contract p : contract p (Coded [em_ptr] []) mon_ftime.
Proof.
  begin_contract. unfold mon_ftime. pop. eapply triple_bind; [apply triple_os_call|]. intros r.
  eapply triple_bind; [eapply triple_pre; [by apply triple_struct2mem, fields_ok_tb|by intros s (Hs & _)]|].
  intros b. finish.
Qed.

(** Results. *)
Ltac push :=
  eapply triple_bind;
  [ lazymatch goal with
    | |- MonLogic.triple _ _ (push_int _) _ => eapply triple_push_word
    | |- MonLogic.triple _ _ (push_i2 _) _ => eapply triple_push_i2
    | |- MonLogic.triple _ _ (push_i4 _) _ => eapply triple_push_i4
    | |- MonLogic.triple _ _ (push_unsp _) _ => eapply triple_push_unsp
    end; [exact Hroom | exact Hlo | lia]
  | intros ?; cbv beta ].
Ltac ending := repeat push; eapply triple_end; [exact Hroom | exact Hlo | lia | lia].
Ltac results :=
  cbv beta;
  lazymatch goal with
  | |- MonLogic.triple _ (fun s => MonLogic.at_ ?l ?h ?q s /\ @?F s) _ _ =>
      apply (triple_pre _ _ (MonLogic.at_ l h q)); [ending | by intros s [Hs _]]
  | |- MonLogic.triple _ (MonLogic.att ?l ?h ?q _) _ _ =>
      apply (triple_pre _ _ (MonLogic.at_ l h q)); [ending | by intros s [Hs _]]
  end.
Ltac fails :=
  cbv beta;
  lazymatch goal with
  | |- MonLogic.triple _ (fun s => MonLogic.at_ _ _ ?p s /\ @?F s) _ _ => apply (triple_fail _ _ _ _ Hroom Hlo _ p)
  | |- MonLogic.triple _ (MonLogic.att _ _ ?p _) _ _ => apply (triple_fail _ _ _ _ Hroom Hlo _ p)
  end; [ | lia | lia]; try (intros s [Hs He]; auto; done).
Lemma lseek_contract p : contract p (Coded [em_int; em_int4; em_int] [em_int4]) mon_lseek.
Proof.
  begin_contract. unfold mon_lseek. repeat pop. apply triple_try; [apply triple_with_fd, triple_lseek|].
  intros [off|].
  - results.
  - fails.
Qed.
Lemma wait_contract p : contract p (Coded [] [em_int2; em_int2]) mon_wait.
Proof.
  begin_contract. unfold mon_wait. eapply triple_bind; [by apply triple_os_try|]. intros r.
  destruct (Z.eqb_spec (s32 (r_val r)) (-1)).
  - fails.
  - results.
Qed.
Lemma pipe_contract p : contract p (Coded [] [em_int; em_int]) mon_pipe.
Proof.
  begin_contract. unfold mon_pipe. eapply triple_bind; [by apply triple_os_try|]. intros r.
  destruct (Z.eqb_spec (s32 (r_val r)) (-1)).
  - fails.
  - results.
Qed.

(** The calls without an error code. *)
Lemma triple_at_eq {A} P (m : M A) q q' : triple P m (fun _ => at_ q) -> q' = q -> triple P m (fun _ => at_ q').
Proof. by intros ? ->. Qed.
Ltac push_last :=
  lazymatch goal with
  | |- MonLogic.triple _ _ (push_int _) _ => eapply triple_push_word
  | |- MonLogic.triple _ _ (push_i2 _) _ => eapply triple_push_i2
  end; [exact Hroom | exact Hlo | lia].
Ltac sys_at := eapply triple_bind; [apply triple_sys_at | intros ?; cbv beta].
Lemma getpid_contract p : contract p (Plain [] [em_int2]) mon_getpid.
Proof. begin_contract. unfold mon_getpid. sys_at. eapply triple_at_eq; [push_last | lia]. Qed.
Lemma getuid_contract p : contract p (Plain [] [em_int2; em_int2]) mon_getuid.
Proof. begin_contract. unfold mon_getuid. sys_at. push. sys_at. eapply triple_at_eq; [push_last | lia]. Qed.
Lemma getgid_contract p : contract p (Plain [] [em_int; em_int]) mon_getgid.
Proof. begin_contract. unfold mon_getgid. sys_at. push. sys_at. eapply triple_at_eq; [push_last | lia]. Qed.
Lemma triple_sys_skip p c : triple (at_ p) (_ ← sys c; skip) (fun _ => at_ p).
Proof. eapply triple_bind; [apply triple_sys_at|]. intros v. by apply triple_ret. Qed.
Lemma pause_contract p : contract p (Plain [] []) mon_pause.
Proof. begin_contract. unfold mon_pause. eapply triple_at_eq; [apply triple_sys_skip | lia]. Qed.
Lemma sync_contract p : contract p (Plain [] []) mon_sync.
Proof. begin_contract. unfold mon_sync. eapply triple_at_eq; [apply triple_sys_skip | lia]. Qed.
Lemma nice_contract p : contract p (Plain [em_int] []) mon_nice.
Proof. begin_contract. unfold mon_nice. pop. eapply triple_at_eq; [apply triple_sys_skip | lia]. Qed.
Lemma triple_os_at p c : triple (at_ p) (os_call c) (fun _ => at_ p).
Proof. eapply triple_post; [apply triple_os_call|]. by intros r s (Hs & _). Qed.
Lemma alarm_contract p : contract p (Plain [em_uns2] [em_uns2]) mon_alarm.
Proof.
  begin_contract. unfold mon_alarm. pop. eapply triple_bind; [apply triple_os_at|intros r].
  eapply triple_at_eq; [push_last | lia].
Qed.
Lemma umask_contract p : contract p (Plain [em_int2] [em_int2]) mon_umask.
Proof.
  begin_contract. unfold mon_umask. pop. eapply triple_bind; [apply triple_os_at|intros r].
  eapply triple_at_eq; [push_last | lia].
Qed.

(** The calls that are not implemented fail. *)
Lemma ptrace_contract p : contract p (Coded [em_int; em_int2; em_ptr; em_int] [em_int]) mon_ptrace.
Proof.
  begin_contract. unfold mon_ptrace. repeat pop. eapply triple_bind; [by apply triple_einval|intros u].
  fails.
Qed.
Lemma mpxcall_contract p : contract p (Coded [em_int; em_ptr] []) mon_mpxcall.
Proof.
  begin_contract. unfold mon_mpxcall. repeat pop. eapply triple_bind; [by apply triple_einval|intros u].
  fails.
Qed.

(** The other calls. *)
Lemma utime_contract p : contract p (Coded [em_ptr; em_ptr] []) mon_utime.
Proof.
  begin_contract. unfold mon_utime. repeat pop. eapply triple_bind; [apply triple_memfault|]. intros [|]; [fails|].
  rewrite INT4SIZE_4, padd_small by lia. apply (triple_pre _ _ (at_ (p + psize + psize))); [|by intros s [Hs _]].
  eapply triple_bind; [by apply triple_mem_ldu; [lia|]|intros actime; cbv beta].
  eapply triple_bind; [by apply triple_mem_ldu; [lia|]|intros modtime; cbv beta].
  apply triple_try; [attempt|intros o; finish].
Qed.
Lemma triple_sim_dup2 p fd1 fdnew :
  triple (at_ p) (sim_dup2 fd1 fdnew) (fun v s => at_ p s /\ (v = -1 -> eok s)).
Proof.
  unfold sim_dup2, get_errno. eapply triple_bind; [apply triple_sys|]. intros v.
  eapply triple_bind; [apply triple_gets|]. intros e. destruct ((v <? 0) && _) eqn:E.
  - apply triple_ret. intros s [(Hs & He & _) _]. split; [done|]. by apply He.
  - apply (triple_pre _ _ (at_ p)); [|by intros s [(Hs & _) _]].
    do 2 (eapply triple_bind; [apply triple_sys_at|intros ?; cbv beta]).
    eapply triple_post; [apply triple_sys|]. intros w s (Hs & He & _). split; [done|]. by apply He.
Qed.
Lemma triple_dup_fd p fd (m : M Z) :
  triple (at_ p) m (fun v s => at_ p s /\ (v = -1 -> eok s)) ->
  triple (at_ p) (b ← good_fd fd; if b : bool then m else ret (-1)) (fun v s => at_ p s /\ (v = -1 -> eok s)).
Proof.
  intros Hm. eapply triple_bind; [apply triple_good_fd|]. intros [|].
  - eapply triple_pre; [exact Hm|]. by intros s [Hs _].
  - apply triple_ret. intros s [Hs He]. auto.
Qed.
Lemma dup_contract p : contract p (Coded [em_int; em_int] [em_int]) mon_dup.
Proof.
  begin_contract. unfold mon_dup. repeat pop.
  apply (triple_bind _ _ _ _ (fun v s => at_ (p + wsize + wsize) s /\ (v = -1 -> eok s))).
  - destruct (negb _); apply triple_dup_fd; [apply triple_sim_dup2|].
    eapply triple_post; [apply triple_sys|]. intros w s (Hs & He & _). split; [done|]. by apply He.
  - intros v. destruct (Z.eqb_spec v (-1)); [fails|results].
Qed.
Lemma exec_contract p : n = 59 -> contract p (Coded [em_ptr; em_ptr; em_ptr] []) mon_exec.
Proof.
  intros Hn. begin_contract. unfold mon_exec. repeat pop. set (q := p + psize + psize + psize).
  apply (triple_bind _ _ _ _ (fun o s => att q o s /\ (o <> None -> U))).
  - apply triple_option; [by apply triple_savestr|intros path|by intros s Hs He; split; [split|]].
    apply triple_option; [by apply triple_vec|intros argv|by intros s Hs He; split; [split|]].
    apply triple_option; [by apply triple_vec|intros envp|by intros s Hs He; split; [split|]].
    unfold checked. eapply triple_bind; [apply triple_sys|]. intros v. apply triple_ret.
    intros s (Hs & He & h & Hv). destruct (Z.eqb_spec v (-1)) as [E|E].
    + split; [split; [done|intros _; by apply (He eq_refl E)]|done].
    + split; [by split|]. intros _. right. split; [done|]. exists path, argv, envp, h. congruence.
  - intros [v|].
    + apply triple_stop; [intros s [_ HU]; by apply HU|]. intros s. right. by eexists.
    + apply (triple_fail _ _ _ _ Hroom Hlo _ q); [|subst q; lia|subst q; lia]. intros s [[Hs He] _]. auto.
Qed.
Lemma fork_contract p : n = 2 -> contract p (Coded [] [em_int; em_int]) mon_fork.
Proof.
  intros Hn. begin_contract. unfold mon_fork. eapply triple_bind; [apply triple_sys_at|intros ppid; cbv beta].
  eapply triple_bind; [apply triple_sys|]. intros pid. destruct (Z.eqb_spec pid 0) as [E|E].
  - apply triple_stop; [|by left]. intros s (_ & _ & h & Hv). left. split; [done|]. exists h. congruence.
  - destruct (Z.ltb_spec 0 pid).
    + apply (triple_bind _ _ _ _ (fun _ => at_ p)); [|intros u; ending].
      apply triple_modify. intros s (Hs & _). by apply at_mon.
    + apply (triple_fail _ _ _ _ Hroom Hlo _ p); [|lia|lia]. intros s (Hs & He & h & Hv). split; [done|].
      apply He; [done|]. pose proof (os_fork_ok h). lia.
Qed.
Lemma triple_do_sigtrp p tn sn :
  triple (at_ p) (do_sigtrp tn sn) (fun v s => at_ p s /\ (v = -1 -> eok s)).
Proof.
  intros s Hs. unfold wp. destruct (do_sigtrp_run tn sn s) as (v & s' & -> & (m & w & ->) & Hd).
  destruct Hs as (Hi & E1 & E2 & E3 & Hm).
  assert (Hat : sig_map_ok (set_mon m (set_warn w s)) -> at_ p (set_mon m (set_warn w s)))
    by (intros Hk; split_and!; [by apply Inv_set_mon, Inv_set_warn|done..]).
  unfold sig_map_ok in *. inversion Hd as [d Hmap Hh _ Hsm _|_ _ Hr Hsm _ He|_ Hsm _ He]; subst v; cbn in *.
  - split; [|by intros ?%Hm]. apply Hat. intros k. rewrite Hsm.
    destruct (Z.eq_dec k sn) as [->|Hk]; [|by rewrite mget_insert_ne]. rewrite mget_insert_eq. intros ->. done.
  - split; [apply Hat; intros k; by rewrite Hsm|]. intros _.
    eapply (errno_set (s_signal sn HndlEmSig)); [done|by apply Z.eqb_eq|exact He].
  - split; [apply Hat; intros k; by rewrite Hsm|]. intros _. unfold eok. cbn. by rewrite He.
Qed.
Lemma sigtrp_contract p : contract p (Coded [em_int; em_int] [em_int]) mon_sigtrp.
Proof.
  begin_contract. unfold mon_sigtrp. repeat pop. eapply triple_bind; [apply triple_do_sigtrp|].
  intros v. destruct (Z.eqb_spec v (-1)); [fails|results].
Qed.

(** An error that is found before the call. *)
Lemma triple_efault_err p q k w :
  0 <= w -> q = p -> lo <= p - 2 * wsize -> triple (at_ p) (efault w ;; push_err) (fun _ => outcome q k).
Proof.
  intros Hw Hq Hp. eapply triple_bind; [by apply triple_efault|]. intros u.
  by apply (triple_fail _ _ _ _ Hroom Hlo _ p).
Qed.
Lemma triple_einval_err p q k :
  q = p -> lo <= p - 2 * wsize ->
  triple (at_ p) (mod_mon (set_errno EINVAL) ;; push_err) (fun _ => outcome q k).
Proof.
  intros Hq Hp. eapply triple_bind; [by apply (triple_set_errno _ _ _ p EINVAL)|]. intros u.
  by apply (triple_fail _ _ _ _ Hroom Hlo _ p).
Qed.
Lemma read_contract p : contract p (Coded [em_int; em_ptr; em_unsp] [em_unsp]) mon_read.
Proof.
  begin_contract. unfold mon_read. do 2 pop. pop. set (q := p + wsize + psize + psize).
  rename a into fd, a0 into buf, a1 into nbytes. eapply triple_bind; [apply triple_good_fd|].
  intros [|]; cbn [negb]; [|fails; subst q; lia].
  apply (triple_pre _ _ (at_ q)); [|by intros s [Hs _]].
  destruct (Z.ltb_spec nbytes 0) as [Hneg|Hneg]; [by apply triple_einval_err; subst q; lia|].
  apply (triple_bind _ _ _ _ (fun _ => at_ q)); [eapply triple_post; [by apply triple_check_buf|by intros u s [Hs _]]|].
  intros _. eapply triple_bind; [apply triple_os_call|]. intros r. cbv zeta.
  destruct (Z.eqb_spec (s32 (r_val r)) (-1)) as [E|E].
  { apply (triple_fail _ _ _ _ Hroom Hlo _ q); [|subst q; lia|subst q; lia].
    intros s (Hs & (h & ->) & He). split; [done|]. apply (errno_set (s_read fd nbytes) h); [done|by apply Z.eqb_eq|done]. }
  apply (triple_pre _ _ (fun s => (0 <= s32 (r_val r) <= nbytes /\ Z.of_nat (length (r_out r)) = s32 (r_val r)) /\ at_ q s)).
  2: { intros s (Hs & (h & ->) & _). destruct (os_read_ok fd nbytes h Hneg) as [?|?]; done. }
  apply triple_pure. intros [Hn Hl].
  destruct (_ && _); [by apply triple_efault_err; [done|subst q; lia..]|].
  eapply triple_bind; [apply triple_gets|]. intros [|] ; cbn [negb].
  - unfold read_bytes. replace (_ && _) with true by lia.
    eapply triple_bind; [apply (triple_ret _ _ _ (fun bs s => bs = r_out r /\ at_ q s /\ is_in_mem buf (s32 (r_val r)) s = true)); by intros s [Hs <-]|].
    intros bs. apply triple_pure. intros ->.
    apply (triple_bind _ _ _ _ (fun _ => at_ q)); [|intros u; ending].
    intros s [Hs Hm]. pose proof Hs as (Hi & _).
    destruct (store_read_run (r_out r) buf s Hi ltac:(lia)) as (s' & E' & Hst & _).
    { rewrite Hl. apply is_in_mem_all; [done|lia|lia|done]. }
    unfold wp. rewrite E'. by eapply at_stored.
  - apply (triple_pre _ _ (at_ q)); [|by intros s [Hs _]]. by apply triple_efault_err; [done|subst q; lia..].
Qed.
Lemma write_contract p : contract p (Coded [em_int; em_ptr; em_unsp] [em_unsp]) mon_write.
Proof.
  begin_contract. unfold mon_write. do 2 pop. pop. set (q := p + wsize + psize + psize).
  rename a into fd, a0 into buf, a1 into nbytes. eapply triple_bind; [apply triple_good_fd|].
  intros [|]; cbn [negb]; [|fails; subst q; lia].
  apply (triple_pre _ _ (at_ q)); [|by intros s [Hs _]].
  destruct (Z.ltb_spec nbytes 0) as [Hneg|Hneg]; [by apply triple_einval_err; subst q; lia|].
  destruct (_ && _); [by apply triple_efault_err; [done|subst q; lia..]|].
  eapply triple_bind; [apply triple_gets|]. intros [|]; cbn [negb].
  2: { apply (triple_pre _ _ (at_ q)); [|by intros s [Hs _]]. by apply triple_efault_err; [done|subst q; lia..]. }
  apply (triple_bind _ _ _ _ (fun _ s => at_ q s /\ all_in_mem s buf nbytes)).
  { intros s [Hs Hm]. pose proof Hs as (Hi & _). assert (Ha : all_in_mem s buf nbytes) by (apply is_in_mem_all; (done || lia)).
    destruct (warn_write_run (Z.to_nat nbytes) buf s Hi ltac:(lia)) as [w E]; [by rewrite Z2Nat.id|].
    unfold wp. rewrite E. split; [by apply at_warn|done]. }
  intros _. apply (triple_bind _ _ _ _ (fun _ s => at_ q s /\ all_in_mem s buf nbytes /\ nbytes <= mget (buf_cnt (mon s)) 0)).
  { intros s [Hs Hm]. unfold wp. rewrite check_buf_run. split_and!; [by eapply at_eqmw; [|apply eqmw_grown]|done|by apply grown_size]. }
  intros _. apply (triple_bind _ _ _ _ (fun _ => at_ q)).
  { intros s (Hs & Hm & Hb). pose proof Hs as (Hi & _). unfold wp.
    rewrite load_write_run; [done|done|lia|lia|by rewrite Z2Nat.id|by rewrite Z2Nat.id]. }
  intros bs. eapply triple_bind; [apply triple_sys|]. intros v. destruct (Z.eqb_spec v (-1)) as [E|E].
  - apply (triple_fail _ _ _ _ Hroom Hlo _ q); [|subst q; lia|subst q; lia]. intros s (Hs & He & _). auto.
  - apply (triple_pre _ _ (at_ q)); [|by intros s [Hs _]]. ending.
Qed.
Lemma triple_st_sh p b : p <= b < lb -> triple (at_ p) (st_sh b) (fun _ => at_ p).
Proof.
  intros Hb s Hs. pose proof Hs as (Hi & E1 & E2 & _). pose proof (inv_LB s Hi). pose proof (inv_stack s Hi).
  unfold wp, st_sh. by replace (stack_valid b s) with true by (unfold stack_valid; lia).
Qed.
Lemma exit_contract p : contract p (Plain [em_int] []) mon_exit.
Proof.
  begin_contract. unfold mon_exit.
  apply (triple_bind _ _ _ _ (fun sp s => sp = p /\ at_ p s)); [by intros s Hs; pose proof Hs as (_ & ? & _)|].
  intros sp. apply triple_pure. intros ->. eapply triple_bind; [apply triple_st_sh; lia|intros x; cbv beta].
  apply (triple_bind _ _ _ _ (fun _ => at_ p)).
  { destruct (_ =? _); [by apply triple_ret|]. intros s Hs. pose proof (at_stack_bounds _ _ p s Hs). pose proof ML_range.
    revert s Hs. rewrite !padd_assoc, padd_small by lia.
    eapply triple_bind; [apply triple_st_sh; lia|intros y; by apply triple_ret]. }
  intros u. apply (triple_bind _ _ _ _ (fun _ => at_ p)).
  { apply triple_modify. intros s (Hs & ? & ? & ? & ?). split_and!; [by inv_set|done..]. }
  intros _. pop. apply (triple_at_eq _ _ (p + wsize)); [|lia].
  apply (triple_bind _ _ _ _ (fun _ => at_ (p + wsize)));
    [|intros _]; apply triple_modify; intros s (Hs & ? & ? & ? & ?); (split_and!; [by inv_set|done..]).
Qed.

#[local] Hint Resolve exit_contract read_contract write_contract open_contract close_contract wait_contract
  creat_contract link_contract unlink_contract chdir_contract mknod_contract chmod_contract chown_contract
  stat_contract lseek_contract getpid_contract setuid_contract getuid_contract ptrace_contract alarm_contract
  fstat_contract pause_contract utime_contract access_contract nice_contract ftime_contract sync_contract
  kill_contract dup_contract pipe_contract setgid_contract getgid_contract sigtrp_contract acct_contract
  ioctl_contract mpxcall_contract umask_contract chroot_contract : mon.
#[local] Hint Extern 1 (contract _ _ mon_fork) => apply fork_contract; assumption : mon.
#[local] Hint Extern 1 (contract _ _ mon_exec) => apply exec_contract; assumption : mon.
Lemma mon_call_contract p c : em_report n = Some c -> contract p c (mon_call n).
Proof.
  assert (H : forall k, n = k -> em_report k = Some c -> contract p c (mon_call k)); [|by apply H].
  intros k Hn. destruct k as [|k|k]; [done| |done].
  repeat match goal with k : positive |- _ => destruct k as [k|k|]; try discriminate end;
    cbn [em_report mon_call]; intros [= <-]; solve [eauto 1 with mon].
Qed.
End Contracts.

(** The other numbers trap, but for Times and Profil. *)
Lemma unknown_call n : em_report n = None -> n <> 43 -> n <> 44 -> mon_call n = trap EBADMON.
Proof.
  intros H H43 H44. unfold mon_call. destruct n as [|n|n]; [done| |done].
  repeat match goal with n : positive |- _ => destruct n as [n|n|]; try discriminate; try reflexivity end; done.
Qed.

End Calls.

(** ** Read and Write *)
Section ReadWrite.
Context {cfg : Config} {ok : ConfigOk} {os : Os} {ook : OsOk}.

Lemma HP_pushed w l sh k s : HP (set_warn w (pushed l sh k s)) = HP s.
Proof. exact (f_equal HP (rest_pushed l sh k s)). Qed.
Lemma mem_byte_pushed l sh k w s c :
  Inv s -> 0 < k -> room k s -> in_mem s c = true -> mem_byte (set_warn w (pushed l sh k s)) c = mem_byte s c.
Proof.
  intros Hs Hk Hr Hm. pose proof (room_HP k s Hr). pose proof (rest_pushed l sh k s) as Er.
  unfold mem_byte, in_mem, in_stack in *. rewrite SP_set_warn, SP_pushed.
  change (stack (set_warn w (pushed l sh k s))) with (stack (pushed l sh k s)).
  change (data (set_warn w (pushed l sh k s))) with (data (rest (pushed l sh k s))). rewrite Er.
  destruct ((SP s <=? c) && (c <=? ML)) eqn:E.
  - replace (_ && _) with true by lia. apply mget_pushed; lia.
  - by replace (_ && _) with false by lia.
Qed.
Lemma wp_push_count U lb hp lo p v s :
  roomy hp lo -> 0 <= lo <= p - psize - wsize -> at_ lb hp p s ->
  wp U (push_unsp v ;; push_int 0)
    (fun _ s' => succeeded lb hp p psize s' /\ stk s' (SP s' + wsize) psize = v mod 2 ^ (8 * psize) /\
                 mon s' = mon s /\ forall c, in_mem s c = true -> mem_byte s' c = mem_byte s c)
    (fun _ _ => False) s.
Proof.
  intros Hroom Hlo Hs. pose proof ok_wsize. pose proof (pop_size_obj psize ltac:(auto)) as (Hps & Ew & Hr & Hal).
  pose proof Hs as (Hi & E1 & _).
  assert (Hrm : room psize s) by (apply (room_at lb hp lo p); (done || lia)).
  unfold push_unsp. apply wp_bind, wp_npush; [done|done|by rewrite Ew|]. intros w. rewrite Ew.
  set (s1 := set_warn w _).
  assert (Hs1 : at_ lb hp (p - psize) s1) by (by apply at_pushed; [|lia|..]).
  assert (Hi1 : Inv s1) by apply Hs1. assert (ESP : SP s1 = SP s - psize) by done.
  assert (Hrm1 : room wsize s1) by (apply (room_at lb hp lo (p - psize)); (done || lia)).
  pose proof wsize_mod. apply wp_wpush; [done..|]. intros w'. split_and!.
  - split; [apply at_pushed; (done || lia)|]. unfold top. rewrite stk_set_warn, SP_set_warn, SP_pushed, Z.add_0_r.
    rewrite stk_pushed_top by lia. apply Z.mod_0_l. apply Z.pow_nonzero; lia.
  - rewrite stk_set_warn, SP_set_warn, SP_pushed, stk_pushed_above by lia.
    replace (SP s1 - wsize + wsize) with (SP s - psize) by lia. unfold s1. rewrite stk_set_warn.
    pose proof (stk_pushed_narrowed v (sh_flags (narrowed v psize) psize) psize s Hps Hi) as E. by rewrite Ew in E.
  - rewrite mon_pushed. unfold s1. apply mon_pushed.
  - intros c Hc. rewrite mem_byte_pushed; [apply mem_byte_pushed; (done || lia)|done|lia|done|].
    assert (EH : HP s1 = HP s) by apply HP_pushed. unfold in_mem, in_stack in *. rewrite ESP, EH. lia.
Qed.

(** The parameters of Read and Write. *)
Lemma wp_rw_params U (k : Z -> Z -> Z -> M unit) Q T s :
  Inv s -> SP s + wsize + psize + psize <= LB s ->
  (forall w, wp U (k (s32 (stks s (SP s) wsize)) (stk s (SP s + wsize) psize)
                     (s32 (stks s (SP s + wsize + psize) psize))) Q T
               (set_SP (SP s + wsize + psize + psize) (set_warn w s))) ->
  wp U (fd ← pop_int; dsp1 ← pop_ptr; nbytes ← pop_intp; k fd dsp1 nbytes) Q T s.
Proof.
  intros Hs Hle Hk. pose proof wsize_range. pose proof wsize_mod. pose proof psize_aligned.
  pose proof (pop_size_obj psize ltac:(auto)) as (Hps & Ew & Hr & Hal).
  unfold pop_int, pop_ptr, pop_intp. apply wp_bind, wp_bind, wp_swpop; [done|lia|]. intros w. apply wp_ret.
  assert (Hi1 : Inv (popped wsize w s)).
  { apply Inv_set_SP; [by apply Inv_set_warn|pose proof (inv_SP s Hs); cbn; lia|].
    rewrite Zplus_mod, (inv_SP_aligned s Hs), H0. apply Z.mod_0_l. pose proof ok_wsize. lia. }
  apply wp_bind, wp_dppop; [done|cbn; lia|]. intros w1.
  assert (Hi2 : Inv (popped psize w1 (popped wsize w s))).
  { apply Inv_set_SP; [by apply Inv_set_warn|pose proof (inv_SP s Hs); cbn; lia|].
    rewrite Zplus_mod, (inv_SP_aligned _ Hi1), H1. apply Z.mod_0_l. pose proof ok_wsize. lia. }
  apply wp_bind, wp_bind, wp_spop; [done|done|rewrite Ew; cbn; lia|]. intros w2. apply wp_ret. rewrite Ew.
  exact (Hk w2).
Qed.

(** The state after the parameters have been popped. *)
Lemma at_params p w s :
  Inv s -> sig_map_ok s -> SP s <= p <= LB s -> p mod wsize = 0 ->
  at_ (LB s) (HP s) p (set_SP p (set_warn w s)).
Proof.
  intros Hs Hm Hp Hal. pose proof (inv_SP s Hs). split_and!; [|done..].
  apply Inv_set_SP; [by apply Inv_set_warn|cbn; lia|done].
Qed.
Lemma roomy_below s : room (2 * wsize) s -> roomy (HP s) (SP s - 2 * wsize).
Proof. intros Hr s' E. unfold room, has_room in *. by rewrite E. Qed.
Lemma rw_params_aligned s : Inv s -> (SP s + wsize + psize + psize) mod wsize = 0.
Proof.
  intros Hs. pose proof wsize_mod as H0. pose proof psize_aligned as H1. pose proof ok_wsize.
  rewrite !(Z.add_mod _ psize), (Z.add_mod _ wsize), (inv_SP_aligned s Hs), H0, H1 by lia.
  by rewrite !Z.add_0_r, !Z.mod_0_l by lia.
Qed.
Lemma rw_facts w s :
  let p := SP s + wsize + psize + psize in
  Inv s -> sig_map_ok s -> p <= LB s -> room (2 * wsize) s ->
  at_ (LB s) (HP s) p (set_SP p (set_warn w s)) /\ 0 <= stk s (SP s + wsize) psize < 2 ^ 32 /\
  SP s + psize + wsize <= p /\ 0 <= SP s - 2 * wsize /\ roomy (HP s) (SP s - 2 * wsize).
Proof.
  intros p Hs Hm Hp Hr. pose proof (rw_params_aligned s Hs) as Hal. fold p in Hal. unfold p in *.
  pose proof (room_HP _ _ Hr). pose proof (inv_HP s Hs). pose proof ok_HB. split_and!.
  - apply at_params; [done|done|sizes; lia|done].
  - apply ldn_range, Hs.
  - unfold stk. pose proof (ldn_range (Z.to_nat psize) (bytes (stack s)) (SP s + wsize) (inv_stack_bytes s Hs)).
    assert (2 ^ (8 * Z.of_nat (Z.to_nat psize)) <= 2 ^ 32) by (apply Z.pow_le_mono_r; sizes; lia). lia.
  - sizes; lia.
  - lia.
  - by apply roomy_below.
Qed.
Lemma good_fd_run fd s : fd < fd_limit (mon s) -> good_fd fd s = Ret true s.
Proof. intros H. unfold good_fd. run. by replace (fd <? _) with true by lia. Qed.

(** C6: Write passes exactly the bytes of memory that its parameters designate to the
    host, in one call; it returns the host's count under the code zero, or the error
    code twice. *)
Theorem write_passes_memory s :
  let fd := s32 (stks s (SP s) wsize) in
  let buf := stk s (SP s + wsize) psize in
  let n := s32 (stks s (SP s + wsize + psize) psize) in
  let p := SP s + wsize + psize + psize in
  Inv s -> sig_map_ok s -> p <= LB s -> room (2 * wsize) s ->
  fd < fd_limit (mon s) -> 0 <= n -> (in_gda buf = true -> in_gda (buf +p (n - 1)) = true) ->
  is_in_mem buf n (set_SP p s) = true ->
  wp False mon_write
    (fun _ s' =>
       calls (mon s') = s_write fd (mem_bytes (set_SP p s) buf n) :: calls (mon s) /\
       let v := s32 (r_val (os_reply (calls (mon s')))) in
       if v =? -1 then aborted (LB s) (HP s) p s'
       else succeeded (LB s) (HP s) p psize s' /\ stk s' (SP s' + wsize) psize = v mod 2 ^ (8 * psize))
    (fun _ _ => False) s.
Proof.
  intros fd buf n p Hs Hm Hp Hrm Hfd Hn Hg Hin. unfold mon_write. apply wp_rw_params; [done..|]. intros w.
  destruct (rw_facts w s Hs Hm Hp Hrm) as (Hat & Hbuf & HSP & Hlo & Hro). fold fd buf n p in Hat, Hbuf, HSP |- *.
  pose proof ok_wsize. pose proof ok_psize. assert (Hn' : n < 2 ^ 31) by (apply (sext_range 32); lia).
  clearbody fd buf n p. set (s1 := set_SP p (set_warn w s)) in *.
  apply wp_bind. unfold wp at 1. rewrite good_fd_run by exact Hfd. cbn [negb].
  replace (n <? 0) with false by lia.
  replace (in_gda buf && negb (in_gda (buf +p (n - 1)))) with false
    by (destruct (in_gda buf); [by rewrite Hg|done]).
  cbv iota.
  wregs. change (is_in_mem buf n s1) with (is_in_mem buf n (set_SP p s)). rewrite Hin. cbn [negb].
  assert (Hall : all_in_mem s1 buf n) by (apply is_in_mem_all; [apply Hat|lia|lia|done]).
  apply wp_bind. destruct (warn_write_run (Z.to_nat n) buf s1 (proj1 Hat) ltac:(lia)) as [w2 E];
    [by rewrite Z2Nat.id|]. unfold wp at 1. rewrite E. clear E.
  apply wp_bind. unfold wp at 1. rewrite check_buf_run. apply wp_bind. unfold wp at 1.
  set (s2 := set_mon _ _). assert (Hat2 : at_ (LB s) (HP s) p s2) by
    (eapply at_eqmw; [|apply eqmw_grown]; by apply at_warn).
  rewrite load_write_run; [|apply Hat2|lia|lia|by rewrite Z2Nat.id|rewrite Z2Nat.id by lia; by apply grown_size].
  rewrite Z2Nat.id by lia. change (mem_bytes s2 buf n) with (mem_bytes (set_SP p s) buf n).
  apply wp_bind. unfold wp at 1, sys, os_call, os_ask, mod_mon. run.
  set (bs := mem_bytes _ _ _). set (h := s_write fd bs :: _). set (s3 := set_mon _ _).
  assert (Hat3 : at_ (LB s) (HP s) p s3) by (apply at_mon; [by apply at_mon|done]).
  assert (Eh : h = s_write fd bs :: calls (mon s)) by (unfold h; f_equal; unfold s2; cbn; by rewrite grown_calls).
  assert (Ec : calls (mon s3) = h) by done.
  destruct (Z.eqb_spec (s32 (r_val (os_reply h))) (-1)) as [Ev|Ev].
  - eapply wp_conseq; [apply (wp_push_err False (LB s) (HP s) (SP s - 2 * wsize) Hro Hlo p); [lia|exact Hat3|]|done| |done].
    + apply (errno_set (s_write fd bs) (calls (mon s))); [done|rewrite <- Eh; by apply Z.eqb_eq|by rewrite <- Eh].
    + intros u s' [Ha Em]. rewrite Em, Ec. split; [exact Eh|]. by rewrite (proj2 (Z.eqb_eq _ _) Ev).
  - eapply wp_conseq; [apply (wp_push_count False (LB s) (HP s) (SP s - 2 * wsize) p _ _ Hro); [lia|exact Hat3]|done| |done].
    intros u s' (Hsu & Hst & Em & _). rewrite Em, Ec. split; [exact Eh|]. by rewrite (proj2 (Z.eqb_neq _ _) Ev).
Qed.

(** C7: Read asks the host for as many bytes as its parameter says, and stores exactly
    the bytes it gets at the buffer; the rest of memory is as before, and the number of
    bytes is returned under the code zero. *)
Theorem read_fills_memory s :
  let fd := s32 (stks s (SP s) wsize) in
  let buf := stk s (SP s + wsize) psize in
  let n := s32 (stks s (SP s + wsize + psize) psize) in
  let p := SP s + wsize + psize + psize in
  let r := os_reply (s_read fd n :: calls (mon s)) in
  let v := s32 (r_val r) in
  Inv s -> sig_map_ok s -> p <= LB s -> room (2 * wsize) s ->
  fd < fd_limit (mon s) -> 0 <= n -> v <> -1 -> (in_gda buf = true -> in_gda (buf +p (v - 1)) = true) ->
  is_in_mem buf v (set_SP p s) = true ->
  wp False mon_read
    (fun _ s' =>
       calls (mon s') = s_read fd n :: calls (mon s) /\
       (forall c, in_mem (set_SP p s) c = true ->
          mem_byte s' c = if (buf <=? c) && (c <? buf + v) then char (nth (Z.to_nat (c - buf)) (r_out r) 0)
                          else mem_byte (set_SP p s) c) /\
       succeeded (LB s) (HP s) p psize s' /\ stk s' (SP s' + wsize) psize = v mod 2 ^ (8 * psize))
    (fun _ _ => False) s.
Proof.
  intros fd buf n p r v Hs Hm Hp Hrm Hfd Hn Hv Hg Hin. unfold mon_read. apply wp_rw_params; [done..|]. intros w.
  destruct (rw_facts w s Hs Hm Hp Hrm) as (Hat & Hbuf & HSP & Hlo & Hro). fold fd buf n p in Hat, Hbuf, HSP |- *.
  pose proof ok_wsize. pose proof ok_psize. assert (Hn' : n < 2 ^ 31) by (apply (sext_range 32); lia).
  destruct (os_read_ok fd n (calls (mon s)) Hn) as [?|[Hvn Hl]]; [done|]. fold r v in Hvn, Hl.
  clearbody fd buf n p. set (s1 := set_SP p (set_warn w s)) in *.
  apply wp_bind. unfold wp at 1. rewrite good_fd_run by exact Hfd. cbn [negb].
  replace (n <? 0) with false by lia.
  apply wp_bind. unfold wp at 1. rewrite check_buf_run. set (s2 := set_mon _ _).
  assert (Ec : calls (mon s2) = calls (mon s)) by apply grown_calls.
  assert (Hat2 : at_ (LB s) (HP s) p s2) by (eapply at_eqmw; [exact Hat|apply eqmw_grown]).
  apply wp_bind. unfold wp at 1, os_call, os_ask, mod_mon. run. rewrite Ec. fold r. cbv zeta. fold v.
  set (s3 := set_mon _ _). replace (v =? -1) with false by lia.
  assert (Hat3 : at_ (LB s) (HP s) p s3) by (apply at_mon; [by apply at_mon|done]).
  replace (in_gda buf && negb (in_gda (buf +p (v - 1)))) with false
    by (destruct (in_gda buf); [by rewrite Hg|done]).
  cbv iota. wregs. change (is_in_mem buf v s3) with (is_in_mem buf v (set_SP p s)). rewrite Hin. cbn [negb].
  unfold read_bytes. replace (_ && _) with true by lia. wregs.
  destruct (store_read_run (r_out r) buf s3 (proj1 Hat3) ltac:(lia)) as (s4 & E4 & Hst & Hmem).
  { rewrite Hl. apply is_in_mem_all; [apply Hat3|lia|lia|done]. }
  apply wp_bind. unfold wp at 1. rewrite E4.
  eapply wp_conseq; [apply (wp_push_count False (LB s) (HP s) (SP s - 2 * wsize) p v s4 Hro); [lia|by eapply at_stored]|done| |done].
  intros u s' (Hsu & Hstk & Em & Hb). split_and!; [|intros c Hc|done|done].
  - rewrite Em. destruct Hst as (_ & _ & _ & _ & ->). done.
  - rewrite Hb by (rewrite (in_mem_stored s3) by done; exact Hc). rewrite Hmem, Hl. done.
Qed.
End ReadWrite.
