(* ===== verification/Move.v ===== *)
(** * Blocks of bytes on the stack

    [st_mvs] copies a block upwards, byte by byte; DUP and EXG are built from it,
    and so are the loads and stores of local words. *)
From Stdlib Require Import ZArith Lia Bool.
From stdpp Require Import base gmap list.
From S2P Require Import Prelude Machine Warn Mem Wp Data Stack StackSpec Text Frame Instr Load Misc.

(** [copy_up f m d s n]: [f] of the [n] entries from [s] upwards, one after the
    other, at [d] upwards. *)
Fixpoint copy_up (f : Z -> Z) (m : gmap Z Z) (d s : Z) (n : nat) : gmap Z Z :=
  match n with
  | O => m
  | S n' => copy_up f (<[d := f (mget m s)]> m) (d + 1) (s + 1) n'
  end.

(** A block may be copied down, or to a place it does not overlap. *)
Definition no_clobber (d s n : Z) : Prop := d <= s \/ s + n <= d.

Lemma copy_up_lookup f n : forall m d s a,
  no_clobber d s (Z.of_nat n) ->
  mget (copy_up f m d s n) a =
  if (d <=? a) && (a <? d + Z.of_nat n) then f (mget m (s + (a - d))) else mget m a.
Proof.
  induction n as [|n IH]; intros m d s a Hn; cbn [copy_up].
  - by replace ((d <=? a) && (a <? d + Z.of_nat 0)) with false by lia.
  - unfold no_clobber in *. rewrite IH by lia.
    destruct (Z.eq_dec a d) as [->|Ha].
    + replace ((d + 1 <=? d) && _) with false by lia.
      replace ((d <=? d) && (d <? d + Z.of_nat (S n))) with true by lia.
      rewrite mget_insert_eq. by replace (s + (d - d)) with s by lia.
    + replace ((d + 1 <=? a) && (a <? d + 1 + Z.of_nat n)) with ((d <=? a) && (a <? d + Z.of_nat (S n))) by lia.
      destruct (_ && _) eqn:E; rewrite mget_insert_ne by lia; [|done].
      by replace (s + 1 + (a - (d + 1))) with (s + (a - d)) by lia.
Qed.
Lemma bytes_ok_copy_up n : forall m d s, bytes_ok m -> bytes_ok (copy_up (fun x => x) m d s n).
Proof.
  induction n as [|n IH]; intros m d s Hm; cbn [copy_up]; [done|].
  apply IH, bytes_ok_insert; [done | by apply mget_range].
Qed.

Section Move.
Context {cfg : Config} {ok : ConfigOk}.

(** The stack with [n] bytes moved from [b] to [a]; the copies are not protected. *)
Definition moved_stack (a b n : Z) (s : state) : state :=
  set_stack (mkArea (copy_up (fun x => x) (bytes (stack s)) a b (Z.to_nat n))
               (copy_up (fun x => Z.ldiff x SH_PROT) (shad (stack s)) a b (Z.to_nat n)) (alloc (stack s))) s.

Lemma st_mvs_loop_run n : forall a b s,
  ML + 1 - alloc (stack s) <= a -> ML + 1 - alloc (stack s) <= b -> 0 <= a -> 0 <= b ->
  a + Z.of_nat n <= ML + 1 -> b + Z.of_nat n <= ML + 1 ->
  exists w, st_mvs_loop n a b s = Ret tt (set_warn w (moved_stack a b (Z.of_nat n) s)).
Proof.
  pose proof ML_range as HML.
  induction n as [|n IH]; intros a b s Ha Hb Ha0 Hb0 Ha1 Hb1; cbn [st_mvs_loop].
  - exists (warn s). destruct s as [???????????????? [???] ??????????]; reflexivity.
  - assert (Hv : forall c s', alloc (stack s') = alloc (stack s) -> c = a \/ c = b -> stack_valid c s' = true).
    { intros c s' E Hc. unfold stack_valid. rewrite E. destruct Hc as [->| ->]; lia. }
    destruct (ch_st_prot_run a s) as [w1 E1]; [by apply Hv; [|left]|]. run. rewrite E1. run.
    destruct (ch_st_prot_run b (set_warn w1 s)) as [w2 E2]; [by apply Hv; [|right]|]. rewrite E2. run.
    unfold stack_loc at 1. rewrite Hv by auto. run. unfold set_stack_loc at 1. rewrite Hv by auto. run.
    unfold st_sh at 1. rewrite Hv by auto. run. unfold set_st_sh at 1. rewrite Hv by auto. run.
    rewrite !padd_small by lia.
    match goal with |- context [st_mvs_loop n _ _ ?x] => destruct (IH (a + 1) (b + 1) x) as [w E]; [cbn; lia..|] end.
    exists w. rewrite E. unfold moved_stack. rewrite !Nat2Z.id. reflexivity.
Qed.

Lemma Inv_moved_stack a b n s : Inv s -> Inv (moved_stack a b n s).
Proof. intros []. constructor; auto. by apply bytes_ok_copy_up. Qed.
Lemma wp_st_mvs U a b n (Q : unit -> state -> Prop) T s :
  Inv s -> 0 < n < 2 ^ 32 -> on_stack a n s -> on_stack b n s -> a mod wsize = 0 -> b mod wsize = 0 ->
  (forall w, Q tt (set_warn w (moved_stack a b n s))) -> wp U (st_mvs a b n) Q T s.
Proof.
  intros Hs Hn Ha Hb Hal Hbl HQ. pose proof (inv_SP s Hs). pose proof (inv_stack s Hs).
  unfold st_mvs, wp. run. rewrite ch_in_stack_run by done. run. rewrite ch_wordaligned_run by done. run.
  rewrite ch_in_stack_run by done. run. rewrite ch_wordaligned_run by done. run.
  destruct Ha, Hb. destruct (st_mvs_loop_run (Z.to_nat n) a b s) as [w Hw]; [lia..|].
  rewrite Hw, Z2Nat.id by lia. apply HQ.
Qed.

(** What a move leaves in the stack. *)
Lemma mget_moved a b n s c :
  0 <= n -> no_clobber a b n ->
  mget (bytes (stack (moved_stack a b n s))) c =
  if (a <=? c) && (c <? a + n) then mget (bytes (stack s)) (b + (c - a)) else mget (bytes (stack s)) c.
Proof.
  intros Hn Hc. unfold moved_stack. cbn [stack set_stack bytes].
  rewrite copy_up_lookup; rewrite Z2Nat.id by lia; done.
Qed.
Lemma stk_moved_in a b n s c k :
  no_clobber a b n -> 0 <= k -> a <= c -> c + k <= a + n -> stk (moved_stack a b n s) c k = stk s (b + (c - a)) k.
Proof.
  intros Hc Hk H1 H2. apply ldn_ext. intros i Hi. rewrite mget_moved by (done || lia).
  replace (_ && _) with true by lia. f_equal. lia.
Qed.
Lemma stk_moved_out a b n s c k :
  no_clobber a b n -> 0 <= n -> 0 <= k -> c + k <= a \/ a + n <= c -> stk (moved_stack a b n s) c k = stk s c k.
Proof.
  intros Hc Hn Hk H. apply ldn_ext. intros i Hi. rewrite mget_moved by (done || lia).
  by replace (_ && _) with false by lia.
Qed.

Lemma grow_set_warn p w s : grow p (set_warn w s) = set_warn w (grow p s).
Proof. unfold grow, extend. cbn [SL set_warn]. by destruct (p <? SL s). Qed.
Lemma rest_grow p s : rest (grow p s) = rest s.
Proof. unfold grow, extend. by destruct (p <? SL s). Qed.

(** ** DUP and EXG *)
(** A block size that the instructions accept. *)
Definition block_size (n : Z) : Prop := 0 < n <= max_off /\ n mod wsize = 0.
Lemma wp_arg_s U n (Q : Z -> state -> Prop) T s : block_size n -> Q n s -> wp U (arg_s n) Q T s.
Proof.
  intros [Hn Hal] HQ. unfold arg_s, check. rewrite land_wsizem1, Hal. by replace (_ || _) with false by lia.
Qed.

(** DUP pushes a copy of the block on top of the stack; what was there is
    unchanged. *)
Theorem duplication n s :
  Inv s -> block_size n -> SP s + n <= ML + 1 -> room n s ->
  exists s', DoDUP n s = Ret tt s' /\ SP s' = SP s - n /\ stk s' (SP s') n = stk s (SP s) n /\
    (forall a, SP s <= a -> mget (bytes (stack s')) a = mget (bytes (stack s)) a) /\
    rest s' = rest (spoiled s) /\ Inv s'.
Proof.
  intros Hs Hn Htop Hr. pose proof Hn as [Hn0 Hal]. pose proof max_off_range as Hmax.
  pose proof (sub_aligned s n Hs Hal) as Hpal. pose proof (inv_SP s Hs) as Hsp.
  assert (H : wp False (DoDUP n) (fun _ s' => SP s' = SP s - n /\ stk s' (SP s') n = stk s (SP s) n /\
    (forall a, SP s <= a -> mget (bytes (stack s')) a = mget (bytes (stack s)) a) /\
    rest s' = rest (spoiled s) /\ Inv s') (fun _ _ => False) s).
  { unfold DoDUP. wregs. apply wp_bind, wp_modify. apply wp_bind, wp_arg_s; [done|].
    set (s0 := spoiled s). assert (Hs0 : Inv s0) by by apply Inv_spoiled.
    change (set_FRA_def UNDEFINED s) with s0. change (SP s) with (SP s0) in *.
    apply wp_bind, wp_st_inc; [done|lia|done|done|]. wregs. set (s1 := grow (SP s0 - n) s0).
    assert (Hs1 : Inv s1) by (apply Inv_grow_room; [done|lia|done|done]).
    change (SP s1) with (SP s0 - n).
    assert (Hc : no_clobber (SP s0 - n) (SP s0) n) by (left; lia).
    apply wp_st_mvs; [done|lia|split; unfold s1; cbn [SP grow set_SP]; lia|split; unfold s1; cbn [SP grow set_SP]; lia
      |done|apply Hs0|].
    intros w. split_and!; [done| | | |by apply Inv_set_warn, Inv_moved_stack].
    - change (stk (moved_stack (SP s0 - n) (SP s0) n s1) (SP s0 - n) n = stk s0 (SP s0) n).
      rewrite stk_moved_in by (done || lia). replace (SP s0 + _) with (SP s0) by lia.
      unfold stk, s1. by rewrite bytes_grow.
    - intros a Ha. change (mget (bytes (stack (moved_stack (SP s0 - n) (SP s0) n s1))) a = mget (bytes (stack s0)) a).
      rewrite mget_moved by (done || lia). replace (_ && _) with false by lia. unfold s1. by rewrite bytes_grow.
    - change (rest s1 = rest s0). apply (rest_grow _ s0). }
  destruct (wp_ret_inv _ _ _ H) as ([] & s' & E & H'). by exists s'.
Qed.

(** The three moves of EXG: [p] is the work space below the two blocks. *)
Lemma stk_exchanged p n s :
  0 < n ->
  let s3 := moved_stack (p + n + n) p n (moved_stack (p + n) (p + n + n) n (moved_stack p (p + n) n s)) in
  stk s3 (p + n) n = stk s (p + n + n) n /\ stk s3 (p + n + n) n = stk s (p + n) n /\
  forall a, p + n + n + n <= a -> mget (bytes (stack s3)) a = mget (bytes (stack s)) a.
Proof.
  intros Hn s3. subst s3.
  assert (C1 : no_clobber p (p + n) n) by (left; lia).
  assert (C2 : no_clobber (p + n) (p + n + n) n) by (left; lia).
  assert (C3 : no_clobber (p + n + n) p n) by (right; lia).
  split_and!.
  - rewrite stk_moved_out by (done || lia). rewrite stk_moved_in by (done || lia).
    replace (p + n + n + (p + n - (p + n))) with (p + n + n) by lia. by rewrite stk_moved_out by (done || lia).
  - rewrite stk_moved_in by (done || lia). replace (p + (p + n + n - (p + n + n))) with p by lia.
    rewrite stk_moved_out by (done || lia). rewrite stk_moved_in by (done || lia). f_equal. lia.
  - intros a Ha. rewrite !mget_moved by (done || lia).
    replace (_ && (a <? p + n + n + n)) with false by lia. replace (_ && (a <? p + n + n)) with false by lia.
    by replace (_ && (a <? p + n)) with false by lia.
Qed.

(** EXG exchanges the two blocks on top of the stack; what is above them is
    unchanged. *)
Theorem exchange n s :
  Inv s -> block_size n -> SP s + 2 * n <= LB s -> room n s ->
  exists s', DoEXG n s = Ret tt s' /\ SP s' = SP s /\
    stk s' (SP s) n = stk s (SP s + n) n /\ stk s' (SP s + n) n = stk s (SP s) n /\
    (forall a, SP s + 2 * n <= a -> mget (bytes (stack s')) a = mget (bytes (stack s)) a) /\
    rest s' = rest (spoiled s) /\ Inv s'.
Proof.
  intros Hs Hn Htop Hr. pose proof Hn as [Hn0 Hal]. pose proof max_off_range as Hmax.
  pose proof (inv_SP s Hs) as Hsp. pose proof (inv_LB s Hs) as Hlb. pose proof ML_range as HML.
  pose proof (room_HP n s Hr) as Hhp. pose proof (inv_HP s Hs) as Hhp2. pose proof ok_HB as Hhb.
  set (p := SP s - n). assert (Ep : SP s = p + n) by (unfold p; lia).
  pose proof (sub_aligned s n Hs Hal : p mod wsize = 0) as Hpal.
  assert (Hadd : forall a, a mod wsize = 0 -> (a + n) mod wsize = 0).
  { intros a Ha. rewrite Zplus_mod, Ha, Hal. apply Z.mod_0_l. pose proof ok_wsize. lia. }
  pose (s1 := grow p (spoiled s)).
  assert (Hs1 : Inv s1) by (apply (Inv_grow_room n (spoiled s)); [by apply Inv_spoiled|lia|done|exact Hr]).
  assert (Hw : forall w x, Inv x -> Inv (set_warn w x)) by (intros; by apply Inv_set_warn).
  pose (s4 := moved_stack (p + n + n) p n (moved_stack (p + n) (p + n + n) n (moved_stack p (p + n) n s1))).
  assert (Hs4 : Inv s4) by (by do 3 apply Inv_moved_stack).
  assert (Hon : forall a w x, SP x = p -> a = p \/ a = p + n \/ a = p + n + n -> on_stack a n (set_warn w x)).
  { intros a w x Ex Ha. split; cbn [SP set_warn]; lia. }
  assert (H : wp False (DoEXG n) (fun _ s' => exists w, s' = set_SP (SP s) (set_warn w s4)) (fun _ _ => False) s).
  { unfold DoEXG. wregs. apply wp_bind, wp_modify. apply wp_bind, wp_arg_w; [done|done|].
    apply wp_bind, wp_st_inc; [by apply Inv_spoiled|lia|done|done|].
    change (grow (SP (set_FRA_def UNDEFINED s) - n) (set_FRA_def UNDEFINED s)) with s1. wregs.
    change (SP s1) with p. rewrite (padd_small (SP s)) by lia. rewrite Ep.
    rewrite <- (set_warn_id s1). generalize (warn s1) as w0. intros w0.
    apply wp_bind, wp_st_mvs; [by apply Hw|lia|by apply Hon; auto|by apply Hon; auto|done|by apply Hadd|]. intros w1.
    apply wp_bind, wp_st_mvs; [by apply Hw, Inv_moved_stack, Hw|lia|by apply Hon; auto|by apply Hon; auto
      |by apply Hadd|by do 2 apply Hadd|].
    intros w2. wregs. change (SP (set_warn _ _)) with p.
    apply wp_bind, wp_st_mvs; [by apply Hw, Inv_moved_stack, Hw, Inv_moved_stack, Hw|lia|by apply Hon; auto|by apply Hon; auto
      |by do 2 apply Hadd|done|].
    intros w3. apply wp_st_dec; [by apply Hw, Inv_moved_stack, Hw, Inv_moved_stack, Hw, Inv_moved_stack, Hw|lia|done| |].
    - change (p + n <= LB s1). assert (LB s1 = LB s) as -> by apply (f_equal LB (rest_grow p (spoiled s))). lia.
    - exists w3. by change (SP (set_warn _ _)) with p. }
  destruct (wp_ret_inv _ _ _ H) as ([] & s' & E & w & ->).
  destruct (stk_exchanged p n s1 ltac:(lia)) as (X1 & X2 & X3).
  assert (Eb : forall a k, stk s1 a k = stk s a k) by (intros; unfold stk, s1; by rewrite bytes_grow).
  eexists. split; [exact E|]. rewrite Ep. split_and!; [done| | | | |].
  - rewrite <- Eb. exact X1.
  - rewrite <- (Eb (p + n)). exact X2.
  - intros a Ha. transitivity (mget (bytes (stack s1)) a); [apply X3; lia|]. unfold s1. by rewrite bytes_grow.
  - change (rest s1 = rest (spoiled s)). apply (rest_grow p (spoiled s)).
  - apply Inv_set_SP; [by apply Hw|change (p <= p + n <= LB s1)|by apply Hadd].
    assert (LB s1 = LB s) as -> by apply (f_equal LB (rest_grow p (spoiled s))). lia.
Qed.

(** ** Local words *)
Lemma wp_popw_st U d (Q : unit -> state -> Prop) T s :
  Inv s -> SP s + wsize <= LB s -> on_stack d wsize s -> d mod wsize = 0 ->
  (forall w, let s1 := moved_stack d (SP s) wsize s in Q tt (set_SP (SP s + wsize) (set_warn w s1))) ->
  wp U (popw_st d) Q T s.
Proof.
  intros Hs Hle Hd Hal HQ. pose proof wsize_range. pose proof (inv_LB s Hs). pose proof ok_wsize.
  unfold popw_st. wregs. apply wp_bind.
  apply wp_st_mvs; [done|lia|done|split; lia|done|apply Hs|]. intros w.
  apply wp_decSP; [by apply Inv_set_warn, Inv_moved_stack|lia|apply wsize_mod|exact Hle|]. apply HQ.
Qed.
Lemma wp_pushw_st U d (Q : unit -> state -> Prop) T s :
  Inv s -> room wsize s -> on_stack d wsize s -> d mod wsize = 0 ->
  (forall w, Q tt (set_warn w (moved_stack (SP s - wsize) d wsize (grow (SP s - wsize) s)))) ->
  wp U (pushw_st d) Q T s.
Proof.
  intros Hs Hr [H1 H2] Hal HQ. pose proof wsize_range. pose proof ok_wsize. pose proof wsize_mod.
  pose proof (inv_SP s Hs). pose proof (inv_LB s Hs).
  unfold pushw_st. apply wp_bind, wp_incSP; [done|lia|done|done|]. wregs.
  apply wp_st_mvs; [by apply Inv_grow_room; [|lia|..]|lia|split; cbn; lia|split; cbn; lia|by apply sub_aligned|done|].
  exact HQ.
Qed.

(** The address of a local or parameter that lies below the operand on top. *)
Definition local_ok (l : Z) (s : state) : Prop :=
  min_off <= l <= max_off /\ SP s + wsize <= loc_addr l s /\ loc_addr l s + wsize <= ML + 1 /\
  loc_addr l s mod wsize = 0.

(** A local or parameter holds what was stored in it: STL pops a word into it, a
    following LOL pushes the same word again; the rest of the stack is unchanged. *)
Theorem local_roundtrip l s :
  let a := loc_addr l s in
  Inv s -> local_ok l s -> SP s + wsize <= LB s -> has_room (SP s) s = true ->
  exists s', (DoSTL l ;; DoLOL l) s = Ret tt s' /\ SP s' = SP s /\
    stk s' (SP s) wsize = stk s (SP s) wsize /\ stk s' a wsize = stk s (SP s) wsize /\
    (forall b, SP s + wsize <= b -> b < a \/ a + wsize <= b ->
       mget (bytes (stack s')) b = mget (bytes (stack s)) b) /\
    rest s' = rest (spoiled s) /\ Inv s'.
Proof.
  intros a Hs (Hl & Ha1 & Ha2 & Hal) Hlb Hr. pose proof ok_wsize as Hw. pose proof (inv_SP s Hs) as Hsp.
  pose proof wsize_mod as Hwm.
  set (s1 := set_SP (SP s + wsize) (moved_stack a (SP s) wsize (spoiled s))).
  assert (Hs1 : Inv s1).
  { apply (Inv_set_SP _ (moved_stack a (SP s) wsize (spoiled s))); [by apply Inv_moved_stack, Inv_spoiled|cbn; lia|].
    rewrite Zplus_mod, (inv_SP_aligned s Hs), Hwm. apply Z.mod_0_l. lia. }
  assert (Ep : SP s1 - wsize = SP s) by (cbn; lia).
  set (s2 := moved_stack (SP s) a wsize (grow (SP s) s1)).
  assert (H : wp False (DoSTL l ;; DoLOL l) (fun _ s' => exists w, s' = set_warn w s2) (fun _ _ => False) s).
  { apply wp_bind. unfold DoSTL. apply wp_bind, wp_modify. apply wp_bind, wp_arg_l; [done|]. wregs.
    change (loc_addr l (set_FRA_def UNDEFINED s)) with a.
    apply wp_popw_st; [by apply Inv_spoiled|exact Hlb|by split; cbn; lia|done|]. intros w1 s1'.
    change (set_SP _ _) with (set_warn w1 s1). unfold DoLOL. apply wp_bind, wp_modify.
    apply wp_bind, wp_arg_l; [done|]. wregs. change (loc_addr l _) with a.
    change (set_FRA_def UNDEFINED (set_warn w1 s1)) with (set_warn w1 s1).
    apply wp_pushw_st; [by apply Inv_set_warn|unfold room; change (SP (set_warn w1 s1)) with (SP s1); by rewrite Ep
      |by split; cbn; lia|done|].
    intros w2. exists w2. change (SP (set_warn w1 s1)) with (SP s1). rewrite Ep, grow_set_warn. reflexivity. }
  destruct (wp_ret_inv _ _ _ H) as ([] & s' & E & w & ->). eexists. split; [exact E|].
  assert (C1 : no_clobber a (SP s) wsize) by (right; lia).
  assert (C2 : no_clobber (SP s) a wsize) by (left; lia).
  assert (Eb : forall c k, stk (grow (SP s) s1) c k = stk s1 c k) by (intros; unfold stk; by rewrite bytes_grow).
  assert (Ea : stk s1 a wsize = stk s (SP s) wsize).
  { change (stk (moved_stack a (SP s) wsize (spoiled s)) a wsize = stk (spoiled s) (SP s) wsize).
    rewrite stk_moved_in by (done || lia). f_equal. lia. }
  rewrite SP_set_warn, !stk_set_warn. split_and!; [done| | | | |].
  - unfold s2. rewrite stk_moved_in by (done || lia). rewrite Eb, <- Ea. f_equal. lia.
  - unfold s2. rewrite stk_moved_out by (done || lia). by rewrite Eb.
  - intros b Hb1 Hb2. rewrite stack_set_warn. unfold s2. rewrite mget_moved by (done || lia).
    replace (_ && _) with false by lia. rewrite bytes_grow.
    change (mget (bytes (stack (moved_stack a (SP s) wsize (spoiled s)))) b = mget (bytes (stack s)) b).
    rewrite mget_moved by (done || lia). by replace (_ && _) with false by lia.
  - rewrite rest_set_warn. change (rest (grow (SP s) s1) = rest s1). apply rest_grow.
  - apply Inv_set_warn, Inv_moved_stack. rewrite <- Ep. apply Inv_grow_room; [done|lia|done|].
    unfold room. by rewrite Ep.
Qed.
End Move.
