(* ===== verification/Descr.v ===== *)
(** * Descriptors in the data space: array access, range checks, case jumps

    What AAR, RCK, CSA and CSB do when their descriptor lies in the data space or
    the heap. *)
From Stdlib Require Import ZArith Lia Bool.
From stdpp Require Import base gmap list.
From S2P Require Import Prelude Machine Warn Mem Wp Data Stack StackSpec DataSpec Text Proctab Frame Instr Arith Branch.
From S2P Require Import Pointer Misc.

Section Descr.
Context {cfg : Config} {ok : ConfigOk}.

(** [n] bytes at the aligned address [a] of the data space, below the stack. *)
Definition in_data (a n : Z) (s : state) : Prop := on_data a n s /\ a + n <= SP s /\ a mod wsize = 0.

Lemma in_data_part a n b k s :
  in_data a n s -> a <= b -> b + k <= a + n -> b mod wsize = 0 -> in_data b k s.
Proof. intros ((H1 & H2) & H3 & _) Hb Hk Hal. split_and!; [split; lia|lia|done]. Qed.
Lemma aligned_add a n : a mod wsize = 0 -> n mod wsize = 0 -> (a + n) mod wsize = 0.
Proof.
  intros Ha Hn. rewrite Zplus_mod, Ha, Hn. apply Z.mod_0_l. pose proof ok_wsize. lia.
Qed.
Lemma below_stack a n s : Inv s -> 0 < n -> in_data a n s -> in_stack a s = false.
Proof. intros Hs Hn ((H1 & H2) & H3 & _). unfold in_stack. lia. Qed.

Lemma wp_mem_lds U a n (Q : Z -> state -> Prop) T s :
  int_size n -> Inv s -> in_data a n s -> (forall w, Q (dats s a n) (set_warn w s)) -> wp U (mem_lds a n) Q T s.
Proof.
  intros Hn Hs Ha HQ. pose proof Hn as [Hn0 _]. unfold mem_lds. wregs.
  rewrite (below_stack a n) by (done || lia). apply wp_dt_lds; [done|done|apply Ha|apply Ha|done].
Qed.
Lemma wp_mem_ldip U a (Q : Z -> state -> Prop) T s :
  Inv s -> in_data a psize s -> (forall w, Q (dat s a psize) (set_warn w s)) -> wp U (mem_ldip a) Q T s.
Proof.
  intros Hs Ha HQ. pose proof int_size_psize as [Hn0 _]. unfold mem_ldip. wregs.
  rewrite (below_stack a psize) by (done || lia). destruct Ha as (Ha & _ & Hal).
  unfold dt_ldip, wp. run. rewrite ch_in_data_run by (done || lia). run.
  rewrite ch_wordaligned_run by done. run.
  destruct (dsh_check_run a psize SH_INSP WGIPEXP s) as (v & w & Hv & Hw); [lia|done|done|done|].
  rewrite Hv. run. rewrite Hw. run. by apply (wp_p_in_data U); [apply Inv_set_warn| |].
Qed.

(** The same from a state that has popped operands. *)
Lemma after_in_data s k s1 a n : 0 <= k -> after s k s1 -> in_data a n s -> in_data a n s1.
Proof.
  intros Hk [H1 _ H3 _] ((H5 & H6) & H7 & H8). pose proof (f_equal HP H3) as E. cbn in E.
  split_and!; [split; lia|lia|done].
Qed.
Lemma after_dat s k s1 a n : after s k s1 -> dat s1 a n = dat s a n.
Proof. intros H. unfold dat. pose proof (f_equal data (af_rest _ _ _ H)) as E. cbn in E. by rewrite E. Qed.
Lemma wp_after_mem_lds U a n (Q : Z -> state -> Prop) T s k s1 :
  after s k s1 -> 0 <= k -> int_size n -> in_data a n s ->
  (forall s2, after s k s2 -> Q (dats s a n) s2) -> wp U (mem_lds a n) Q T s1.
Proof.
  intros H Hk Hn Ha HQ. apply wp_mem_lds; [done|apply H|by eapply after_in_data|]. intros w.
  unfold dats. rewrite (after_dat s k) by done. apply HQ. by eapply after_eqw; [|eexists].
Qed.
Lemma wp_after_mem_ldip U a (Q : Z -> state -> Prop) T s k s1 :
  after s k s1 -> 0 <= k -> in_data a psize s ->
  (forall s2, after s k s2 -> Q (dat s a psize) s2) -> wp U (mem_ldip a) Q T s1.
Proof.
  intros H Hk Ha HQ. apply wp_mem_ldip; [apply H|by eapply after_in_data|]. intros w.
  rewrite (after_dat s k) by done. apply HQ. by eapply after_eqw; [|eexists].
Qed.
Lemma after_tested s k s1 tr : after s k s1 -> tested tr s1 = tested tr s.
Proof. intros H. unfold tested. by rewrite (after_IgnMask _ _ _ H). Qed.
Lemma wp_after_dppush U p (Q : unit -> state -> Prop) T s k s1 :
  after s k s1 -> has_room (SP s + k - psize) s = true ->
  (forall s', converted s k psize p s' -> Q tt s') -> wp U (dppush p) Q T s1.
Proof.
  intros H Hr HQ. rewrite <- (after_room s k s1) in Hr by done. pose proof int_size_psize as [Hp _].
  apply wp_dppush; [apply H|done|]. intros w. apply HQ. destruct H as [H1 H2 H3 H4].
  constructor; rewrite ?SP_set_warn, ?stack_set_warn, ?stk_set_warn, ?rest_set_warn, ?SP_pushed.
  - lia.
  - apply stk_pushed_top. lia.
  - intros a Ha. rewrite mget_pushed by lia. by rewrite H2.
  - by rewrite rest_pushed.
  - apply Inv_set_warn, Inv_pushed; [done|lia|apply psize_aligned|done].
Qed.
Lemma after_spoil s k s1 : after s k s1 -> after (spoiled s) k (set_FRA_def UNDEFINED s1).
Proof.
  intros [H1 H2 H3 H4]. constructor; [done|done| |by apply Inv_spoiled].
  apply (f_equal (set_FRA_def UNDEFINED)) in H3. exact H3.
Qed.

Lemma wi_size_int n : wi_size n -> int_size n.
Proof. intros H. by destruct (wi_size_pop n H) as [[? _] _]. Qed.
(** [desc +p k] does not wrap: it lies in the data area. *)
Lemma in_data_padd a n s k : Inv s -> in_data a n s -> 0 <= k <= n -> a +p k = a + k.
Proof.
  intros Hs ((H1 & H2) & _ & _) Hk. pose proof (inv_HP s Hs). pose proof (inv_data_alloc s Hs).
  apply padd_small. lia.
Qed.

(** ** AAR *)
Record array_access := mkAccess { aa_desc : Z; aa_index : Z; aa_base : Z }.
(** The operands of an array instruction with indices of [n] bytes. *)
Definition access (n : Z) (s : state) : array_access :=
  mkAccess (stk s (SP s) psize) (stks s (SP s + psize) n) (stk s (SP s + (psize + n)) psize).
(** The routine takes the second word of the descriptor for the upper bound. *)
Definition array_ref (n : Z) (s : state) : Z + Z :=
  let '(mkAccess desc index base) := access n s in
  let lower := dats s desc n in
  let upper := dats s (desc + n) n in
  let elm := dats s (desc + 2 * n) n in
  if tested EARRAY s && ((index <? lower) || (upper <? index)) then inl EARRAY
  else inr (base + (index - lower) * elm).
(** A legal element size. *)
Definition elm_ok (e : Z) : Prop := 0 < e <= max_off /\ (e mod wsize = 0 \/ Z.rem wsize e = 0).
Lemma wp_arg_o U e (Q : Z -> state -> Prop) T s : elm_ok e -> Q e s -> wp U (arg_o e) Q T s.
Proof.
  intros [He Hd] HQ. unfold arg_o, check. rewrite land_wsizem1.
  assert ((e <? 0) || (max_off <? e) || negb (e mod wsize =? 0) && negb (Z.rem wsize e =? 0) = false) as ->; [|done].
  apply orb_false_iff. split; [lia|]. destruct Hd as [-> | ->]; cbn; [done|apply andb_false_r].
Qed.

(** AAR, with the bounds as the routine reads them. *)
Lemma array_access_run n s :
  wi_size n -> Inv s -> SP s + (2 * psize + n) <= LB s -> has_room (SP s + (2 * psize + n) - psize) s = true ->
  in_data (aa_desc (access n s)) (3 * n) s -> elm_ok (dats s (aa_desc (access n s) + 2 * n) n) ->
  match array_ref n s with
  | inl nr => exists s', DoAAR n s = Trap nr s' /\ after s (2 * psize + n) s'
  | inr a => exists s', DoAAR n s = Ret tt s' /\ converted (spoiled s) (2 * psize + n) psize a s'
  end.
Proof.
  intros Hn Hs Hle Hroom Hd He. pose proof (wi_size_int n Hn) as Hint. destruct (wi_size_pop n Hn) as [Hpop Hw].
  pose proof (after_refl s Hs) as H0. pose proof psize_range as Hp. pose proof Hint as [Hn0 _]. pose proof Hn as [_ Hnal].
  unfold array_ref. destruct (access n s) as [desc index base] eqn:Ea. cbn [aa_desc] in *. injection Ea as Ed Ei Eb.
  set (r := if _ : bool then inl EARRAY else inr _).
  assert (Hp0 : in_data desc n s) by (eapply in_data_part; [exact Hd|lia|lia|apply Hd]).
  assert (Hp1 : in_data (desc + n) n s) by (eapply in_data_part; [exact Hd|lia|lia|apply aligned_add; [apply Hd|done]]).
  assert (Hp2 : in_data (desc + 2 * n) n s).
  { eapply in_data_part; [exact Hd|lia|lia|]. replace (desc + 2 * n) with (desc + n + n) by lia.
    apply aligned_add; [apply aligned_add; [apply Hd|done]|done]. }
  assert (H : wp False (DoAAR n) (fun _ s' => exists a, r = inr a /\ converted (spoiled s) (2 * psize + n) psize a s')
    (fun nr s' => r = inl nr /\ after s (2 * psize + n) s') s).
  { unfold DoAAR. apply wp_bind, wp_arg_wi; [done|]. unfold arr.
    apply wp_bind. eapply wp_after_dppop; [exact H0|lia|]. rewrite Z.add_0_r, Z.add_0_l, Ed. intros s1 H1.
    apply wp_bind. eapply wp_after_spop; [exact H1|done|lia|]. rewrite Ei, Hw. intros s2 H2.
    apply wp_bind. eapply wp_after_mem_lds; [exact H2|lia|done|exact Hp0|]. intros s3 H3. cbv zeta.
    apply wp_bind. eapply wp_after_dppop; [exact H3|lia|]. rewrite Eb. intros s4 H4. wregs.
    replace (psize + n + psize) with (2 * psize + n) in H4 by lia.
    rewrite (after_tested _ _ _ _ H4). rewrite (in_data_padd _ _ _ _ Hs Hd) by lia.
    assert (Hcheck : wp False (when (tested EARRAY s) (if index - dats s desc n <? 0 then trap EARRAY
        else upper ← mem_lds (desc + n) n; when (upper <? index) (trap EARRAY)))
      (fun _ s5 => r = inr (base + (index - dats s desc n) * dats s (desc + 2 * n) n) /\ after s (2 * psize + n) s5)
      (fun nr s5 => r = inl nr /\ after s (2 * psize + n) s5) s4).
    { unfold r. destruct (tested EARRAY s); cbn [when andb]; [|by split].
      destruct (Z.ltb_spec (index - dats s desc n) 0).
      - replace (index <? dats s desc n) with true by lia. by split.
      - replace (index <? dats s desc n) with false by lia. cbn [orb].
        apply wp_bind. eapply wp_after_mem_lds; [exact H4|lia|done|exact Hp1|]. intros s5 H5.
        by destruct (dats s (desc + n) n <? index). }
    apply wp_bind. eapply wp_call; [exact Hcheck|done|]. cbv beta. intros _ s5 [Er H5].
    rewrite (in_data_padd _ _ _ _ Hs Hd) by lia.
    apply wp_bind. eapply wp_after_mem_lds; [exact H5|lia|done|exact Hp2|]. intros s6 H6.
    apply wp_bind, wp_arg_o; [done|]. apply wp_bind, wp_modify.
    eapply wp_after_dppush; [by apply after_spoil|exact Hroom|]. intros s7 []. eexists. split; [exact Er|].
    constructor; try done. rewrite cv_val. unfold padd, u64. apply Z.mod_mod_divide.
    exists (2 ^ (64 - 8 * psize)). rewrite <- Z.pow_add_r by (sizes; lia). f_equal. lia. }
  apply wp_result in H as [([] & s' & E & a & -> & H')|(nr & s' & E & -> & H')]; by exists s'.
Qed.

(** The descriptor as it is specified: the lower bound, the upper bound less the lower
    bound as an unsigned integer, and the size of an element. *)
Definition array_result (n : Z) (s : state) : Z + Z :=
  let '(mkAccess desc index base) := access n s in
  let lower := dats s desc n in
  let range := dat s (desc + n) n in
  if tested EARRAY s && negb ((lower <=? index) && (index <=? lower + range)) then inl EARRAY
  else inr (base + (index - lower) * dats s (desc + 2 * n) n).
(** The index is on the same side of both upper bounds: the one that is specified, and
    the second word itself. *)
Definition bounds_agree (n : Z) (s : state) : Prop :=
  let '(mkAccess desc index _) := access n s in
  index <= dats s desc n + dat s (desc + n) n <-> index <= dats s (desc + n) n.

Lemma dat_dats s a n : Inv s -> int_size n -> 0 <= dats s a n -> dat s a n = dats s a n.
Proof.
  intros Hs [Hn _]. unfold dats, dat. pose proof (ldn_range (Z.to_nat n) (bytes (data s)) a (inv_data_bytes s Hs)) as Hr.
  rewrite Z2Nat.id in Hr by lia. unfold sext. rewrite Z.mod_small by lia. destruct (_ <? _); lia.
Qed.
(** Both are the same for an array that starts at 0. *)
Lemma bounds_agree_from_zero n s :
  Inv s -> wi_size n -> dats s (aa_desc (access n s)) n = 0 -> 0 <= dats s (aa_desc (access n s) + n) n -> bounds_agree n s.
Proof.
  intros Hs Hn%wi_size_int H0 Hr. unfold bounds_agree. destruct (access n s) as [desc index base]. cbn [aa_desc] in *.
  rewrite H0, dat_dats by done. lia.
Qed.

(** C36: AAR pops the address of the descriptor, the index and the address of the
    array, and pushes the address of the element; with tests on, an index below the lower
    bound, or further above it than the second word, an unsigned integer, traps with
    EARRAY unless the trap is ignored; if the index is on the same side of this bound
    and of the second word itself, such as in an array that starts at 0. *)
Theorem array_address n s :
  wi_size n -> Inv s -> SP s + (2 * psize + n) <= LB s -> has_room (SP s + (2 * psize + n) - psize) s = true ->
  in_data (aa_desc (access n s)) (3 * n) s -> elm_ok (dats s (aa_desc (access n s) + 2 * n) n) ->
  tested EARRAY s = false \/ bounds_agree n s ->
  match array_result n s with
  | inl nr => exists s', DoAAR n s = Trap nr s' /\ after s (2 * psize + n) s'
  | inr a => exists s', DoAAR n s = Ret tt s' /\ converted (spoiled s) (2 * psize + n) psize a s'
  end.
Proof.
  intros Hn Hs Hle Hroom Hd He Hb. replace (array_result n s) with (array_ref n s); [by apply array_access_run|].
  unfold array_ref, array_result, bounds_agree in *. destruct (access n s) as [desc index base].
  destruct Hb as [-> |Hb]; [done|]. destruct (tested EARRAY s); cbn [andb]; [|done].
  replace ((index <? dats s desc n) || (dats s (desc + n) n <? index))
    with (negb ((dats s desc n <=? index) && (index <=? dats s desc n + dat s (desc + n) n))); [done|].
  apply eq_true_iff_eq. rewrite negb_true_iff, andb_false_iff, orb_true_iff, !Z.leb_gt, !Z.ltb_lt. lia.
Qed.

(** ** RCK *)

(** RCK pops the address of a range descriptor; with tests on, a value on top of
    the stack outside the range traps with ERANGE unless the trap is ignored; the
    value stays on the stack. *)
Theorem range_checked n s :
  let desc := stk s (SP s) psize in
  let v := stks s (SP s + psize) n in
  wi_size n -> Inv s -> SP s + (psize + n) <= LB s -> in_data desc (2 * n) s ->
  exists s', after (spoiled s) psize s' /\
    DoRCK n s = if tested ERANGE s && ((v <? dats s desc n) || (dats s (desc + n) n <? v))
                then Trap ERANGE s' else Ret tt s'.
Proof.
  intros desc v Hn Hs Hle Hd. pose proof (wi_size_int n Hn) as Hint. destruct (wi_size_pop n Hn) as [Hpop Hw].
  pose proof psize_range as Hp. pose proof Hint as [Hn0 _]. pose proof Hn as [_ Hnal].
  pose proof (after_refl (spoiled s) (Inv_spoiled s Hs)) as H0. pose proof (inv_LB s Hs) as Hlb.
  assert (Hd0 : in_data desc n (spoiled s)) by (eapply (in_data_part desc (2 * n)); [exact Hd|lia|lia|apply Hd]).
  assert (Hd1 : in_data (desc + n) n (spoiled s)).
  { eapply (in_data_part desc (2 * n)); [exact Hd|lia|lia|apply aligned_add; [apply Hd|done]]. }
  set (bad := tested ERANGE s && _).
  assert (H : wp False (DoRCK n) (fun _ s' => bad = false /\ after (spoiled s) psize s')
    (fun nr s' => bad = true /\ nr = ERANGE /\ after (spoiled s) psize s') s).
  { unfold DoRCK. apply wp_bind, wp_modify. apply wp_bind, wp_arg_wi; [done|]. unfold range_check.
    apply wp_bind. eapply wp_after_dppop; [exact H0|cbn; lia|]. rewrite Z.add_0_r, Z.add_0_l.
    change (stk (spoiled s) (SP (spoiled s)) psize) with desc. intros s1 H1. wregs.
    pose proof (af_SP _ _ _ H1) as Esp. cbn [SP spoiled set_FRA_def] in Esp.
    apply wp_bind, wp_st_lds; [done|apply H1|split; [lia|rewrite Esp; lia]|apply H1|]. intros w.
    rewrite (after_stks (spoiled s) psize) by done. rewrite Esp. change (stks (spoiled s) _ n) with v.
    assert (H2 : after (spoiled s) psize (set_warn w s1)) by (eapply after_eqw; [exact H1|by eexists]).
    wregs. rewrite (after_tested _ _ _ _ H2). change (tested ERANGE (spoiled s)) with (tested ERANGE s).
    unfold bad. destruct (tested ERANGE s); cbn [when andb]; [|by split].
    apply wp_bind. eapply wp_after_mem_lds; [exact H2|lia|done|exact Hd0|]. intros s3 H3.
    change (dats (spoiled s)) with (dats s). destruct (v <? dats s desc n); [by split_and!|]. cbn [orb].
    rewrite (in_data_padd _ _ _ _ Hs Hd) by lia.
    apply wp_bind. eapply wp_after_mem_lds; [exact H3|lia|done|exact Hd1|]. intros s4 H4.
    change (dats (spoiled s)) with (dats s). by destruct (dats s (desc + n) n <? v). }
  apply wp_result in H as [([] & s' & E & -> & H')|(nr & s' & E & -> & -> & H')]; by exists s'.
Qed.

(** ** Case jumps *)
(** A computation that returns, and what follows it. *)
Lemma wp_then {A B} (R : result B -> Prop) (m : M A) (k : A -> M B) s :
  wp False m (fun a s1 => R (k a s1)) (fun _ _ => False) s -> R (bind m k s).
Proof. unfold wp, bind. by destruct (m s). Qed.

(** A jump to the target, which is the default when it is zero. *)
Definition case_jump (target default_ : Z) : M unit :=
  let nPC := if target =? 0 then default_ else target in
  if nPC =? 0 then trap ECASE else newPC nPC.

(** The descriptor of CSA: default, lower bound, count, and the table. *)
Definition csa_target (n : Z) (s : state) (desc v : Z) : Z :=
  let i := v - dats s (desc + psize) n in
  if (0 <=? i) && (i <=? dats s (desc + (n + psize)) n)
  then dat s (desc + 2 * n + (i + 1) * psize) psize else 0.
Definition csa_descr (n : Z) (s : state) (desc : Z) : Prop :=
  in_data desc (2 * psize + 2 * n + Z.max 0 (dats s (desc + (n + psize)) n) * psize) s.

(** A whole descriptor: its parts are in the data space and addresses do not wrap. *)
Lemma descr_part desc size s : in_data desc size s -> forall b k,
  desc <= b -> b + k <= desc + size -> b mod wsize = 0 -> in_data b k (spoiled s).
Proof. intros Hd b k Hb Hk Hal. by apply (in_data_part desc size). Qed.
Lemma aligned_mul a n : n mod wsize = 0 -> (a * n) mod wsize = 0.
Proof. intros Hn. rewrite <- Zmult_mod_idemp_r, Hn, Z.mul_0_r. apply Z.mod_0_l. pose proof ok_wsize. lia. Qed.

(** The entry of the table of CSA, or zero. *)
Lemma wp_csa_target n s desc v s3 :
  wi_size n -> Inv s -> csa_descr n s desc -> after (spoiled s) (psize + n) s3 ->
  wp False (if 0 <=? v - dats s (desc + psize) n
      then cnt ← mem_lds (desc +p (n + psize)) n;
           if v - dats s (desc + psize) n <=? cnt
           then mem_ldip (desc +p (2 * n) +p ((v - dats s (desc + psize) n + 1) * psize)) else ret 0
      else ret 0) (fun t s4 => t = csa_target n s desc v /\ after (spoiled s) (psize + n) s4) (fun _ _ => False) s3.
Proof.
  intros Hn Hs Hd H3. pose proof (wi_size_int n Hn) as Hint. pose proof psize_range as Hp. pose proof Hint as [Hn0 _].
  pose proof Hn as [_ Hnal]. pose proof psize_aligned as Hpal. unfold csa_descr in Hd.
  set (cnt := dats s (desc + (n + psize)) n) in *. set (size := 2 * psize + 2 * n + Z.max 0 cnt * psize) in *.
  assert (Hsize : 2 * psize + 2 * n <= size) by (unfold size; nia).
  pose proof (descr_part desc size s Hd) as Hpart.
  rewrite (in_data_padd desc size s) by (done || lia).
  unfold csa_target. fold cnt. set (i := v - dats s (desc + psize) n) in *.
  destruct (Z.leb_spec 0 i); [|by split]. cbn [andb].
  apply wp_bind. eapply wp_after_mem_lds; [exact H3|lia|done|apply Hpart; [lia|lia|]|].
  { apply aligned_add; [apply Hd|by apply aligned_add]. }
  change (dats (spoiled s)) with (dats s). fold cnt. intros s4 H4.
  destruct (Z.leb_spec i cnt); [|by split].
  assert (Hi : 2 * n + (i + 1) * psize + psize <= size) by (unfold size; nia).
  rewrite padd_assoc, (in_data_padd desc size s) by (done || nia). rewrite Z.add_assoc.
  eapply wp_after_mem_ldip; [exact H4|lia|apply Hpart; [nia|lia|]|by split].
  apply aligned_add; [apply aligned_add; [apply Hd|]|]; by apply aligned_mul.
Qed.

(** CSA, with an entry that is zero as the default. *)
Lemma csa_run n s :
  let desc := stk s (SP s) psize in
  wi_size n -> Inv s -> SP s + (psize + n) <= LB s -> csa_descr n s desc ->
  exists s1, after (spoiled s) (psize + n) s1 /\
    DoCSA n s = case_jump (csa_target n s desc (stks s (SP s + psize) n)) (dat s desc psize) s1.
Proof.
  intros desc Hn Hs Hle Hd. pose proof (wi_size_int n Hn) as Hint. destruct (wi_size_pop n Hn) as [Hpop Hw].
  pose proof psize_range as Hp. pose proof Hint as [Hn0 _]. pose proof (inv_LB s Hs) as Hlb.
  pose proof (after_refl (spoiled s) (Inv_spoiled s Hs)) as H0. pose proof Hd as Hall. unfold csa_descr in Hall.
  set (size := 2 * psize + 2 * n + _) in Hall. assert (Hsize : 2 * psize + 2 * n <= size) by (unfold size; nia).
  pose proof (descr_part desc size s Hall) as Hpart.
  set (v := stks s (SP s + psize) n).
  pose (R := fun r : result unit => exists s1, after (spoiled s) (psize + n) s1 /\
    r = case_jump (csa_target n s desc v) (dat s desc psize) s1).
  change (R (DoCSA n s)). unfold DoCSA. apply wp_then, wp_modify. apply wp_then, wp_arg_wi; [done|].
  unfold index_jump. apply wp_then. eapply wp_after_dppop; [exact H0|cbn; lia|]. rewrite Z.add_0_r, Z.add_0_l.
  change (stk (spoiled s) (SP (spoiled s)) psize) with desc. intros s1 H1.
  apply wp_then. eapply wp_after_spop; [exact H1|done|cbn; lia|]. change (stks (spoiled s) _ n) with v. rewrite Hw.
  intros s2 H2. rewrite (in_data_padd desc size s psize Hs Hall) by lia.
  apply wp_then. eapply wp_after_mem_lds; [exact H2|lia|done|apply Hpart; [lia|lia|apply aligned_add; [apply Hall|apply psize_aligned]]|].
  change (dats (spoiled s)) with (dats s). intros s3 H3. cbv zeta.
  apply wp_then. eapply wp_call; [by apply wp_csa_target|done|]. cbv beta. intros t s4 [-> H4].
  apply wp_then. unfold R, case_jump. destruct (Z.eqb_spec (csa_target n s desc v) 0) as [E|E].
  - eapply wp_after_mem_ldip; [exact H4|lia|apply Hpart; [lia|lia|apply Hall]|].
    change (dat (spoiled s)) with (dat s). intros s5 H5. by exists s5.
  - apply wp_ret. exists s4. split; [exact H4|]. by replace (csa_target n s desc v =? 0) with false by lia.
Qed.

(** The jump as it is specified: the count is unsigned, and a zero entry traps. *)
Definition csa_entry (s : state) (n desc i : Z) : Z := dat s (desc + 2 * n + (i + 1) * psize) psize.
Definition csa_in_table (s : state) (n desc i : Z) : bool := (0 <=? i) && (i <=? dat s (desc + (n + psize)) n).
Definition csa_pc (n : Z) (s : state) (desc v : Z) : Z :=
  let i := v - dats s (desc + psize) n in
  if csa_in_table s n desc i then csa_entry s n desc i else dat s desc psize.

(** C37: CSA pops the address of the descriptor and the index, and jumps to the entry of
    the table for it, or to the default if the index is not in the table; a zero default
    traps with ECASE; if the table has less than half as many entries as there are
    integers, and the entry is not zero. *)
Theorem indexed_case_jump n s :
  let desc := stk s (SP s) psize in let v := stks s (SP s + psize) n in
  wi_size n -> Inv s -> SP s + (psize + n) <= LB s -> csa_descr n s desc ->
  0 <= dats s (desc + (n + psize)) n ->
  (csa_in_table s n desc (v - dats s (desc + psize) n) = true -> csa_entry s n desc (v - dats s (desc + psize) n) <> 0) ->
  exists s1, after (spoiled s) (psize + n) s1 /\
    DoCSA n s = if csa_pc n s desc v =? 0 then Trap ECASE s1 else newPC (csa_pc n s desc v) s1.
Proof.
  intros desc v Hn Hs Hle Hd Hcnt Hent. destruct (csa_run n s Hn Hs Hle Hd) as (s1 & H1 & E). exists s1. split; [done|].
  rewrite E. fold desc v. unfold csa_target, csa_pc, csa_in_table, csa_entry, case_jump in *. cbv zeta.
  rewrite (dat_dats s (desc + (n + psize)) n Hs (wi_size_int n Hn) Hcnt) in *. set (i := v - _) in *.
  destruct ((0 <=? i) && (i <=? dats s (desc + (n + psize)) n)).
  - specialize (Hent eq_refl). destruct (Z.eqb_spec (dat s (desc + 2 * n + (i + 1) * psize) psize) 0); [done|].
    by replace (dat s (desc + 2 * n + (i + 1) * psize) psize =? 0) with false by lia.
  - cbn [Z.eqb]. by destruct (dat s desc psize =? 0).
Qed.

(** The descriptor of CSB: default, count, and pairs of a value and a target. *)
Definition csb_at (n desc i : Z) : Z := desc + (i + 1) * (n + psize).
Definition csb_hits (n : Z) (s : state) (desc v : Z) (cnt : nat) : list Z :=
  filter (fun i => v = dats s (csb_at n desc i) n) (seqZ 0 (Z.of_nat cnt)).
Definition csb_target (n : Z) (s : state) (desc v : Z) (cnt : nat) : Z :=
  match last (csb_hits n s desc v cnt) with
  | Some i => dat s (csb_at n desc i + n) psize
  | None => dat s desc psize
  end.
Definition csb_count (n : Z) (s : state) (desc : Z) : nat := Z.to_nat (dats s (desc + psize) n).
Definition csb_size (n : Z) (cnt : nat) : Z := psize + n + Z.of_nat cnt * (n + psize).
Definition csb_descr (n : Z) (s : state) (desc : Z) : Prop := in_data desc (csb_size n (csb_count n s desc)) s.

Lemma csb_hits_S n s desc v cnt :
  csb_hits n s desc v (S cnt) = csb_hits n s desc v cnt ++
    (if decide (v = dats s (csb_at n desc (Z.of_nat cnt)) n) then [Z.of_nat cnt] else []).
Proof.
  unfold csb_hits. by rewrite seqZ_S, filter_app.
Qed.

Lemma wp_search_loop n s desc v cnt s2 :
  wi_size n -> Inv s -> in_data desc (csb_size n cnt) s -> after (spoiled s) (psize + n) s2 ->
  wp False (search_loop cnt desc v n)
    (fun r s3 => match r with Some p => p | None => dat s desc psize end = csb_target n s desc v cnt
                 /\ after (spoiled s) (psize + n) s3)
    (fun _ _ => False) s2.
Proof.
  intros Hn Hs. pose proof (wi_size_int n Hn) as Hint. pose proof psize_range as Hp. pose proof Hint as [Hn0 _].
  pose proof Hn as [_ Hnal]. pose proof psize_aligned as Hpal. revert s2.
  induction cnt as [|cnt IH]; intros s2 Hd H2; cbn [search_loop]; [by split|].
  pose proof (descr_part _ _ _ Hd) as Hpart.
  assert (Hal : csb_at n desc (Z.of_nat cnt) mod wsize = 0).
  { unfold csb_at. apply aligned_add; [apply Hd|]. by apply aligned_mul, aligned_add. }
  assert (Hat : desc <= csb_at n desc (Z.of_nat cnt) /\
    csb_at n desc (Z.of_nat cnt) + (n + psize) = desc + csb_size n (S cnt)) by (unfold csb_at, csb_size; nia).
  rewrite padd_assoc, !(in_data_padd desc (csb_size n (S cnt)) s) by (done || unfold csb_size; nia).
  replace (desc + (n + (Z.of_nat cnt + 1) * (n + psize))) with (csb_at n desc (Z.of_nat cnt) + n) by (unfold csb_at; lia).
  fold (csb_at n desc (Z.of_nat cnt)).
  apply wp_bind. eapply wp_after_mem_lds; [exact H2|lia|done|apply Hpart; [lia|lia|done]|].
  change (dats (spoiled s)) with (dats s). intros s3 H3.
  unfold csb_target. rewrite csb_hits_S. destruct (Z.eqb_spec v (dats s (csb_at n desc (Z.of_nat cnt)) n)) as [E|E].
  - rewrite decide_True by done. rewrite last_snoc.
    apply wp_bind. eapply wp_after_mem_ldip; [exact H3|lia|apply Hpart; [lia|lia|by apply aligned_add]|].
    by intros s4 H4.
  - rewrite decide_False, app_nil_r by done. apply IH; [|done].
    eapply in_data_part; [exact Hd|lia|unfold csb_size; nia|apply Hd].
Qed.

(** CSB pops the address of the descriptor and a value, searches the table for
    the value from the end, and jumps to the target of the entry found, or to the
    default if there is none; a zero target traps with ECASE. *)
Theorem searched_case_jump n s :
  let desc := stk s (SP s) psize in
  wi_size n -> Inv s -> SP s + (psize + n) <= LB s -> csb_descr n s desc ->
  exists s1, after (spoiled s) (psize + n) s1 /\
    DoCSB n s = let target := csb_target n s desc (stks s (SP s + psize) n) (csb_count n s desc) in
                if target =? 0 then Trap ECASE s1 else newPC target s1.
Proof.
  intros desc Hn Hs Hle Hd. pose proof (wi_size_int n Hn) as Hint. destruct (wi_size_pop n Hn) as [Hpop Hw].
  pose proof psize_range as Hp. pose proof Hint as [Hn0 _]. pose proof (inv_LB s Hs) as Hlb.
  pose proof (after_refl (spoiled s) (Inv_spoiled s Hs)) as H0. pose proof Hd as Hall. unfold csb_descr in Hall.
  assert (Hsize : psize + n <= csb_size n (csb_count n s desc)) by (unfold csb_size; nia).
  pose proof (descr_part _ _ _ Hall) as Hpart. set (v := stks s (SP s + psize) n).
  pose (R := fun r : result unit => exists s1, after (spoiled s) (psize + n) s1 /\
    r = let target := csb_target n s desc v (csb_count n s desc) in
        if target =? 0 then Trap ECASE s1 else newPC target s1).
  change (R (DoCSB n s)). unfold DoCSB. apply wp_then, wp_modify. apply wp_then, wp_arg_wi; [done|].
  unfold search_jump. apply wp_then. eapply wp_after_dppop; [exact H0|cbn; lia|]. rewrite Z.add_0_r, Z.add_0_l.
  change (stk (spoiled s) (SP (spoiled s)) psize) with desc. intros s1 H1.
  apply wp_then. eapply wp_after_spop; [exact H1|done|cbn; lia|]. change (stks (spoiled s) _ n) with v. rewrite Hw.
  intros s2 H2. rewrite (in_data_padd _ _ s psize Hs Hall) by lia.
  apply wp_then. eapply wp_after_mem_lds; [exact H2|lia|done|apply Hpart; [lia|lia|apply aligned_add; [apply Hall|apply psize_aligned]]|].
  change (dats (spoiled s)) with (dats s). intros s3 H3. fold (csb_count n s desc).
  apply wp_then. eapply wp_call; [by apply wp_search_loop|done|]. cbv beta. intros r s4 (E & H4). unfold R. cbv zeta.
  rewrite <- E. destruct r as [p|].
  - apply wp_then, wp_ret. exists s4. split; [exact H4|]. by destruct (p =? 0).
  - apply wp_then. eapply wp_after_mem_ldip; [exact H4|lia|apply Hpart; [lia|lia|apply Hall]|].
    change (dat (spoiled s)) with (dat s). intros s5 H5. exists s5. split; [exact H5|].
    by destruct (dat s desc psize =? 0).
Qed.
End Descr.
