(* ===== verification/Switch.v ===== *)
(** * The opcode switch ([switch.c], [switch/mkiswitch.c])

    [mkiswitch] turns the opcode table [etc/ip_spec.t] into the cases of the
    switch of [do_instr].  The table is [ip_spec]; [mkiswitch] is the generator;
    [do_instr] looks the opcode up in the generated cases. *)
From Stdlib Require Import ZArith Lia Bool.
From Stdlib Require Import String Ascii.
From stdpp Require Import base gmap list.
From S2P Require Import Prelude Machine Warn Mem Wp Data Stack Text Frame.
From S2P Require Import Os Load Arith Logic Branch Real Float Pointer Misc Mon.
Local Open Scope string_scope.
Local Open Scope Z_scope.

(** ** The instructions ([h/em_table]) *)
Inductive mnem :=
  | i_aar | i_adf | i_adi | i_adp | i_ads | i_adu | i_and | i_asp | i_ass | i_beq
  | i_bge | i_bgt | i_ble | i_blm | i_bls | i_blt | i_bne | i_bra | i_cai | i_cal
  | i_cff | i_cfi | i_cfu | i_cif | i_cii | i_ciu | i_cmf | i_cmi | i_cmp | i_cms
  | i_cmu | i_com | i_csa | i_csb | i_cuf | i_cui | i_cuu | i_dch | i_dec | i_dee
  | i_del | i_dup | i_dus | i_dvf | i_dvi | i_dvu | i_exg | i_fef | i_fif | i_fil
  | i_gto | i_inc | i_ine | i_inl | i_inn | i_ior | i_lae | i_lal | i_lar | i_ldc
  | i_lde | i_ldf | i_ldl | i_lfr | i_lil | i_lim | i_lin | i_lni | i_loc | i_loe
  | i_lof | i_loi | i_lol | i_lor | i_los | i_lpb | i_lpi | i_lxa | i_lxl | i_mlf
  | i_mli | i_mlu | i_mon | i_ngf | i_ngi | i_nop | i_rck | i_ret | i_rmi | i_rmu
  | i_rol | i_ror | i_rtt | i_sar | i_sbf | i_sbi | i_sbs | i_sbu | i_sde | i_sdf
  | i_sdl | i_set | i_sig | i_sil | i_sim | i_sli | i_slu | i_sri | i_sru | i_ste
  | i_stf | i_sti | i_stl | i_str | i_sts | i_teq | i_tge | i_tgt | i_tle | i_tlt
  | i_tne | i_trp | i_xor | i_zeq | i_zer | i_zge | i_zgt | i_zle | i_zlt | i_zne
  | i_zre | i_zrf | i_zrl.

(** [(em_flag\[mnemcode\] & EM_PAR) == PAR_W]: the instructions whose argument
    has class w in [h/em_table]. *)
Definition par_w (m : mnem) : bool :=
  match m with
  | i_aar | i_adf | i_adi | i_ads | i_adu | i_and | i_ass | i_bls | i_cmf | i_cmi | i_cms |
  i_cmu | i_com | i_csa | i_csb | i_dus | i_dvf | i_dvi | i_dvu | i_exg | i_fef | i_fif |
  i_inn | i_ior | i_lar | i_los | i_mlf | i_mli | i_mlu | i_ngf | i_ngi | i_rck | i_rmi |
  i_rmu | i_rol | i_ror | i_sar | i_sbf | i_sbi | i_sbs | i_sbu | i_set | i_sli | i_slu |
  i_sri | i_sru | i_sts | i_xor | i_zer | i_zrf => true
  | _ => false
  end.

(** A line of [ip_spec.t]: mnemonic, flags, and one or two numbers. *)
Record spec_line := mkSpec { sp_mnem : mnem; sp_flgs : string; sp_nums : list Z }.

Definition ip_spec : list spec_line :=
  [mkSpec i_aar "mwPo" [1; 34];
   mkSpec i_adf "sP" [1; 35];
   mkSpec i_adi "mwPo" [2; 36];
   mkSpec i_adp "2" [38];
   mkSpec i_adp "mPo" [2; 39];
   mkSpec i_adp "sP" [1; 41];
   mkSpec i_adp "sN" [1; 42];
   mkSpec i_ads "mwPo" [1; 43];
   mkSpec i_and "mwPo" [1; 44];
   mkSpec i_asp "mwPo" [5; 45];
   mkSpec i_asp "swP" [1; 50];
   mkSpec i_beq "2" [51];
   mkSpec i_beq "sP" [1; 52];
   mkSpec i_bge "sP" [1; 53];
   mkSpec i_bgt "sP" [1; 54];
   mkSpec i_ble "sP" [1; 55];
   mkSpec i_blm "sP" [1; 56];
   mkSpec i_blt "sP" [1; 57];
   mkSpec i_bne "sP" [1; 58];
   mkSpec i_bra "2" [59];
   mkSpec i_bra "sN" [2; 60];
   mkSpec i_bra "sP" [2; 62];
   mkSpec i_cal "mPo" [28; 64];
   mkSpec i_cal "sP" [1; 92];
   mkSpec i_cff "-" [93];
   mkSpec i_cif "-" [94];
   mkSpec i_cii "-" [95];
   mkSpec i_cmf "sP" [1; 96];
   mkSpec i_cmi "mwPo" [2; 97];
   mkSpec i_cmp "-" [99];
   mkSpec i_cms "sP" [1; 100];
   mkSpec i_csa "mwPo" [1; 101];
   mkSpec i_csb "mwPo" [1; 102];
   mkSpec i_dec "-" [103];
   mkSpec i_dee "sw" [1; 104];
   mkSpec i_del "swN" [1; 105];
   mkSpec i_dup "mwPo" [1; 106];
   mkSpec i_dvf "sP" [1; 107];
   mkSpec i_dvi "mwPo" [1; 108];
   mkSpec i_fil "u" [109];
   mkSpec i_inc "-" [110];
   mkSpec i_ine "w2" [111];
   mkSpec i_ine "sw" [1; 112];
   mkSpec i_inl "mwN" [3; 113];
   mkSpec i_inl "swN" [1; 116];
   mkSpec i_inn "sP" [1; 117];
   mkSpec i_ior "mwPo" [1; 118];
   mkSpec i_ior "sP" [1; 119];
   mkSpec i_lae "u" [120];
   mkSpec i_lae "sw" [7; 121];
   mkSpec i_lal "P2" [128];
   mkSpec i_lal "N2" [129];
   mkSpec i_lal "mP" [1; 130];
   mkSpec i_lal "mN" [1; 131];
   mkSpec i_lal "swP" [1; 132];
   mkSpec i_lal "swN" [2; 133];
   mkSpec i_lar "mwPo" [1; 135];
   mkSpec i_ldc "mP" [1; 136];
   mkSpec i_lde "w2" [137];
   mkSpec i_lde "sw" [1; 138];
   mkSpec i_ldl "mP" [1; 139];
   mkSpec i_ldl "swN" [1; 140];
   mkSpec i_lfr "mwPo" [2; 141];
   mkSpec i_lfr "sP" [1; 143];
   mkSpec i_lil "swN" [1; 144];
   mkSpec i_lil "swP" [1; 145];
   mkSpec i_lil "mwP" [2; 146];
   mkSpec i_lin "2" [148];
   mkSpec i_lin "sP" [1; 149];
   mkSpec i_lni "-" [150];
   mkSpec i_loc "2" [151];
   mkSpec i_loc "mP" [34; 0];
   mkSpec i_loc "mN" [1; 152];
   mkSpec i_loc "sP" [1; 153];
   mkSpec i_loc "sN" [1; 154];
   mkSpec i_loe "w2" [155];
   mkSpec i_loe "sw" [5; 156];
   mkSpec i_lof "2" [161];
   mkSpec i_lof "mwPo" [4; 162];
   mkSpec i_lof "sP" [1; 166];
   mkSpec i_loi "2" [167];
   mkSpec i_loi "mPo" [1; 168];
   mkSpec i_loi "mwPo" [4; 169];
   mkSpec i_loi "sP" [1; 173];
   mkSpec i_lol "wP2" [174];
   mkSpec i_lol "wN2" [175];
   mkSpec i_lol "mwP" [4; 176];
   mkSpec i_lol "mwN" [8; 180];
   mkSpec i_lol "swP" [1; 188];
   mkSpec i_lol "swN" [1; 189];
   mkSpec i_lxa "mPo" [1; 190];
   mkSpec i_lxl "mPo" [2; 191];
   mkSpec i_mlf "sP" [1; 193];
   mkSpec i_mli "mwPo" [2; 194];
   mkSpec i_rck "mwPo" [1; 196];
   mkSpec i_ret "mwP" [2; 197];
   mkSpec i_ret "sP" [1; 199];
   mkSpec i_rmi "mwPo" [1; 200];
   mkSpec i_sar "mwPo" [1; 201];
   mkSpec i_sbf "sP" [1; 202];
   mkSpec i_sbi "mwPo" [2; 203];
   mkSpec i_sdl "swN" [1; 205];
   mkSpec i_set "sP" [1; 206];
   mkSpec i_sil "swN" [1; 207];
   mkSpec i_sil "swP" [1; 208];
   mkSpec i_sli "mwPo" [1; 209];
   mkSpec i_ste "w2" [210];
   mkSpec i_ste "sw" [3; 211];
   mkSpec i_stf "2" [214];
   mkSpec i_stf "mwPo" [2; 215];
   mkSpec i_stf "sP" [1; 217];
   mkSpec i_sti "mPo" [1; 218];
   mkSpec i_sti "mwPo" [4; 219];
   mkSpec i_sti "sP" [1; 223];
   mkSpec i_stl "wP2" [224];
   mkSpec i_stl "wN2" [225];
   mkSpec i_stl "mwP" [2; 226];
   mkSpec i_stl "mwN" [5; 228];
   mkSpec i_stl "swN" [1; 233];
   mkSpec i_teq "-" [234];
   mkSpec i_tgt "-" [235];
   mkSpec i_tlt "-" [236];
   mkSpec i_tne "-" [237];
   mkSpec i_zeq "2" [238];
   mkSpec i_zeq "sP" [2; 239];
   mkSpec i_zer "sP" [1; 241];
   mkSpec i_zge "sP" [1; 242];
   mkSpec i_zgt "sP" [1; 243];
   mkSpec i_zle "sP" [1; 244];
   mkSpec i_zlt "sP" [1; 245];
   mkSpec i_zne "sP" [1; 246];
   mkSpec i_zne "sN" [1; 247];
   mkSpec i_zre "w2" [248];
   mkSpec i_zre "sw" [1; 249];
   mkSpec i_zrl "mwN" [2; 250];
   mkSpec i_zrl "swN" [1; 252];
   mkSpec i_zrl "wN2" [253];
   mkSpec i_aar "e2" [0];
   mkSpec i_aar "e-" [1];
   mkSpec i_adf "e2" [2];
   mkSpec i_adf "e-" [3];
   mkSpec i_adi "e2" [4];
   mkSpec i_adi "e-" [5];
   mkSpec i_ads "e2" [6];
   mkSpec i_ads "e-" [7];
   mkSpec i_adu "e2" [8];
   mkSpec i_adu "e-" [9];
   mkSpec i_and "e2" [10];
   mkSpec i_and "e-" [11];
   mkSpec i_asp "ew2" [12];
   mkSpec i_ass "e2" [13];
   mkSpec i_ass "e-" [14];
   mkSpec i_bge "e2" [15];
   mkSpec i_bgt "e2" [16];
   mkSpec i_ble "e2" [17];
   mkSpec i_blm "e2" [18];
   mkSpec i_bls "e2" [19];
   mkSpec i_bls "e-" [20];
   mkSpec i_blt "e2" [21];
   mkSpec i_bne "e2" [22];
   mkSpec i_cai "e-" [23];
   mkSpec i_cal "e2" [24];
   mkSpec i_cfi "e-" [25];
   mkSpec i_cfu "e-" [26];
   mkSpec i_ciu "e-" [27];
   mkSpec i_cmf "e2" [28];
   mkSpec i_cmf "e-" [29];
   mkSpec i_cmi "e2" [30];
   mkSpec i_cmi "e-" [31];
   mkSpec i_cms "e2" [32];
   mkSpec i_cms "e-" [33];
   mkSpec i_cmu "e2" [34];
   mkSpec i_cmu "e-" [35];
   mkSpec i_com "e2" [36];
   mkSpec i_com "e-" [37];
   mkSpec i_csa "e2" [38];
   mkSpec i_csa "e-" [39];
   mkSpec i_csb "e2" [40];
   mkSpec i_csb "e-" [41];
   mkSpec i_cuf "e-" [42];
   mkSpec i_cui "e-" [43];
   mkSpec i_cuu "e-" [44];
   mkSpec i_dee "ew2" [45];
   mkSpec i_del "ewP2" [46];
   mkSpec i_del "ewN2" [47];
   mkSpec i_dup "e2" [48];
   mkSpec i_dus "e2" [49];
   mkSpec i_dus "e-" [50];
   mkSpec i_dvf "e2" [51];
   mkSpec i_dvf "e-" [52];
   mkSpec i_dvi "e2" [53];
   mkSpec i_dvi "e-" [54];
   mkSpec i_dvu "e2" [55];
   mkSpec i_dvu "e-" [56];
   mkSpec i_fef "e2" [57];
   mkSpec i_fef "e-" [58];
   mkSpec i_fif "e2" [59];
   mkSpec i_fif "e-" [60];
   mkSpec i_inl "ewP2" [61];
   mkSpec i_inl "ewN2" [62];
   mkSpec i_inn "e2" [63];
   mkSpec i_inn "e-" [64];
   mkSpec i_ior "e2" [65];
   mkSpec i_ior "e-" [66];
   mkSpec i_lar "e2" [67];
   mkSpec i_lar "e-" [68];
   mkSpec i_ldc "e2" [69];
   mkSpec i_ldf "e2" [70];
   mkSpec i_ldl "ewP2" [71];
   mkSpec i_ldl "ewN2" [72];
   mkSpec i_lfr "e2" [73];
   mkSpec i_lil "ewP2" [74];
   mkSpec i_lil "ewN2" [75];
   mkSpec i_lim "e-" [76];
   mkSpec i_los "e2" [77];
   mkSpec i_los "e-" [78];
   mkSpec i_lor "esP" [1; 79];
   mkSpec i_lpi "e2" [80];
   mkSpec i_lxa "e2" [81];
   mkSpec i_lxl "e2" [82];
   mkSpec i_mlf "e2" [83];
   mkSpec i_mlf "e-" [84];
   mkSpec i_mli "e2" [85];
   mkSpec i_mli "e-" [86];
   mkSpec i_mlu "e2" [87];
   mkSpec i_mlu "e-" [88];
   mkSpec i_mon "e-" [89];
   mkSpec i_ngf "e2" [90];
   mkSpec i_ngf "e-" [91];
   mkSpec i_ngi "e2" [92];
   mkSpec i_ngi "e-" [93];
   mkSpec i_nop "e-" [94];
   mkSpec i_rck "e2" [95];
   mkSpec i_rck "e-" [96];
   mkSpec i_ret "e2" [97];
   mkSpec i_rmi "e2" [98];
   mkSpec i_rmi "e-" [99];
   mkSpec i_rmu "e2" [100];
   mkSpec i_rmu "e-" [101];
   mkSpec i_rol "e2" [102];
   mkSpec i_rol "e-" [103];
   mkSpec i_ror "e2" [104];
   mkSpec i_ror "e-" [105];
   mkSpec i_rtt "e-" [106];
   mkSpec i_sar "e2" [107];
   mkSpec i_sar "e-" [108];
   mkSpec i_sbf "e2" [109];
   mkSpec i_sbf "e-" [110];
   mkSpec i_sbi "e2" [111];
   mkSpec i_sbi "e-" [112];
   mkSpec i_sbs "e2" [113];
   mkSpec i_sbs "e-" [114];
   mkSpec i_sbu "e2" [115];
   mkSpec i_sbu "e-" [116];
   mkSpec i_sde "eu" [117];
   mkSpec i_sdf "e2" [118];
   mkSpec i_sdl "ewP2" [119];
   mkSpec i_sdl "ewN2" [120];
   mkSpec i_set "e2" [121];
   mkSpec i_set "e-" [122];
   mkSpec i_sig "e-" [123];
   mkSpec i_sil "ewP2" [124];
   mkSpec i_sil "ewN2" [125];
   mkSpec i_sim "e-" [126];
   mkSpec i_sli "e2" [127];
   mkSpec i_sli "e-" [128];
   mkSpec i_slu "e2" [129];
   mkSpec i_slu "e-" [130];
   mkSpec i_sri "e2" [131];
   mkSpec i_sri "e-" [132];
   mkSpec i_sru "e2" [133];
   mkSpec i_sru "e-" [134];
   mkSpec i_sti "e2" [135];
   mkSpec i_sts "e2" [136];
   mkSpec i_sts "e-" [137];
   mkSpec i_str "esP" [1; 138];
   mkSpec i_tge "e-" [139];
   mkSpec i_tle "e-" [140];
   mkSpec i_trp "e-" [141];
   mkSpec i_xor "e2" [142];
   mkSpec i_xor "e-" [143];
   mkSpec i_zer "e2" [144];
   mkSpec i_zer "e-" [145];
   mkSpec i_zge "e2" [146];
   mkSpec i_zgt "e2" [147];
   mkSpec i_zle "e2" [148];
   mkSpec i_zlt "e2" [149];
   mkSpec i_zne "e2" [150];
   mkSpec i_zrf "e2" [151];
   mkSpec i_zrf "e-" [152];
   mkSpec i_zrl "ewP2" [153];
   mkSpec i_dch "e-" [154];
   mkSpec i_exg "esP" [1; 155];
   mkSpec i_exg "e2" [156];
   mkSpec i_exg "e-" [157];
   mkSpec i_lpb "e-" [158];
   mkSpec i_gto "eu" [159];
   mkSpec i_ldc "4" [0];
   mkSpec i_lae "4" [1];
   mkSpec i_lal "P4" [2];
   mkSpec i_lal "N4" [3];
   mkSpec i_lde "w4" [4];
   mkSpec i_ldf "4" [5];
   mkSpec i_ldl "wP4" [6];
   mkSpec i_ldl "wN4" [7];
   mkSpec i_lil "wP4" [8];
   mkSpec i_lil "wN4" [9];
   mkSpec i_loc "4" [10];
   mkSpec i_loe "w4" [11];
   mkSpec i_lof "4" [12];
   mkSpec i_lol "wP4" [13];
   mkSpec i_lol "wN4" [14];
   mkSpec i_lpi "4" [15];
   mkSpec i_adp "4" [16];
   mkSpec i_asp "w4" [17];
   mkSpec i_beq "4" [18];
   mkSpec i_bge "4" [19];
   mkSpec i_bgt "4" [20];
   mkSpec i_ble "4" [21];
   mkSpec i_blm "4" [22];
   mkSpec i_blt "4" [23];
   mkSpec i_bne "4" [24];
   mkSpec i_bra "4" [25];
   mkSpec i_cal "4" [26];
   mkSpec i_dee "w4" [27];
   mkSpec i_del "wP4" [28];
   mkSpec i_del "wN4" [29];
   mkSpec i_fil "4" [30];
   mkSpec i_gto "4" [31];
   mkSpec i_ine "w4" [32];
   mkSpec i_inl "wP4" [33];
   mkSpec i_inl "wN4" [34];
   mkSpec i_lin "4" [35];
   mkSpec i_sde "4" [36];
   mkSpec i_sdf "4" [37];
   mkSpec i_sdl "wP4" [38];
   mkSpec i_sdl "wN4" [39];
   mkSpec i_sil "wP4" [40];
   mkSpec i_sil "wN4" [41];
   mkSpec i_ste "w4" [42];
   mkSpec i_stf "4" [43];
   mkSpec i_stl "wP4" [44];
   mkSpec i_stl "wN4" [45];
   mkSpec i_zeq "4" [46];
   mkSpec i_zge "4" [47];
   mkSpec i_zgt "4" [48];
   mkSpec i_zle "4" [49];
   mkSpec i_zlt "4" [50];
   mkSpec i_zne "4" [51];
   mkSpec i_zre "w4" [52];
   mkSpec i_zrl "wP4" [53];
   mkSpec i_zrl "wN4" [54];
   mkSpec i_loi "4" [55];
   mkSpec i_sti "4" [56]].

(** ** [mkiswitch] *)

(** [in(flgs, c)]. *)
Fixpoint flag_in (flgs : string) (c : ascii) : bool :=
  match flgs with
  | EmptyString => false
  | String d flgs' => Ascii.eqb c d || flag_in flgs' c
  end.

(** The argument string of a case, as the expression it denotes; the boolean
    says whether the factor is [wsize] or 1. *)
Inductive argexpr :=
| AImplicit                      (* uwpop() *)
| ANone
| AMini (newi : Z) (w : bool)
| AShortie (newi : Z) (w : bool) (* S_arg(newi) *)
| ATwoSgn (w : bool)             (* P_arg_2(), N_arg_2() or L_arg_2() *)
| ATwoUns (w : bool)             (* U_arg() *)
| AFourSgn (w : bool).

Definition newi (flgs : string) (i : Z) : Z :=
  if flag_in flgs "N" then - i - 1 else if flag_in flgs "o" then i + 1 else i.

Definition count_flags (flgs : string) (l : list ascii) : nat :=
  List.length (List.filter (flag_in flgs) l).

Definition SEC_BASE := 256.
Definition TERT_BASE := 512.
Definition base (flgs : string) : Z :=
  if flag_in flgs "e" then SEC_BASE else if flag_in flgs "4" then TERT_BASE else 0.

(** The checks on the flags that [mkiswitch] makes before it uses a line. *)
Fixpoint all_flags (flgs : string) : bool :=
  match flgs with
  | EmptyString => true
  | String d flgs' => flag_in "-ms2u4eNPwo" d && all_flags flgs'
  end.
Definition flags_ok (flgs : string) : bool :=
  all_flags flgs &&
  (count_flags flgs ["-"; "m"; "s"; "2"; "u"; "4"]%char =? 1)%nat &&
  (count_flags flgs ["N"; "P"]%char <=? 1)%nat.

(** The numbers [0 .. cnt-1]. *)
Definition upto (cnt : Z) : list Z := map Z.of_nat (seq 0 (Z.to_nat cnt)).

(** The cases that one line of the table gives rise to; [None] is [fatal]. *)
Definition line_cases (l : spec_line) : option (list (Z * (mnem * argexpr))) :=
  let flgs := sp_flgs l in
  let w := flag_in flgs "w" in
  let case_ first i a := (base flgs + (first + i), (sp_mnem l, a)) in
  if negb (flags_ok flgs) then None
  else
    match sp_nums l with
    | [first] =>
        if flag_in flgs "-" then
          Some [case_ first 0 (if par_w (sp_mnem l) then AImplicit else ANone)]
        else if flag_in flgs "2" then Some [case_ first 0 (ATwoSgn w)]
        else if flag_in flgs "u" then Some [case_ first 0 (ATwoUns w)]
        else if flag_in flgs "4" then Some [case_ first 0 (AFourSgn w)]
        else None
    | [cnt; first] =>
        if flag_in flgs "m" then
          Some (map (fun i => case_ first i (AMini (newi flgs i) w)) (upto cnt))
        else if flag_in flgs "s" then
          Some (map (fun i => case_ first i (AShortie (newi flgs i) w)) (upto cnt))
        else None
    | _ => None
    end.

Fixpoint mkiswitch (ls : list spec_line) : option (list (Z * (mnem * argexpr))) :=
  match ls with
  | [] => Some []
  | l :: ls' =>
      match line_cases l, mkiswitch ls' with
      | Some c, Some cs => Some (c ++ cs)%list
      | _, _ => None
      end
  end.

(** The generated file [DoCases]. *)
Definition DoCases : list (Z * (mnem * argexpr)) :=
  Eval vm_compute in default [] (mkiswitch ip_spec).

Fixpoint find_case (opcode : Z) (l : list (Z * (mnem * argexpr))) : option (mnem * argexpr) :=
  match l with
  | [] => None
  | (n, c) :: l' => if opcode =? n then Some c else find_case opcode l'
  end.

Section Switch.
Context {cfg : Config} {host : Host} {os : Os}.

(** The value of the argument expression of a case. *)
Definition factor (w : bool) : Z := if w then wsize else 1.
Definition eval_arg (a : argexpr) : M Z :=
  match a with
  | AImplicit => uwpop
  | ANone => ret 0
  | AMini i w => ret (i * factor w)
  | AShortie i w => v ← S_arg i; ret (v * factor w)
  | ATwoSgn w => v ← L_arg_2; ret (v * factor w)
  | ATwoUns w => v ← U_arg; ret (v * factor w)
  | AFourSgn w => v ← L_arg_4; ret (v * factor w)
  end.

Definition moncall_instr : M unit := spoilFRA ;; moncall.

(** The routine of an instruction. *)
Definition dispatch (m : mnem) (arg : Z) : M unit :=
  match m with
  | i_aar => DoAAR arg
  | i_adi => DoADI arg
  | i_adp => DoADP arg
  | i_ads => DoADS arg
  | i_adu => DoADU arg
  | i_and => DoAND arg
  | i_asp => DoASP arg
  | i_ass => DoASS arg
  | i_beq => DoBEQ arg
  | i_bge => DoBGE arg
  | i_bgt => DoBGT arg
  | i_ble => DoBLE arg
  | i_blm => DoBLM arg
  | i_bls => DoBLS arg
  | i_blt => DoBLT arg
  | i_bne => DoBNE arg
  | i_bra => DoBRA arg
  | i_cai => DoCAI
  | i_cal => DoCAL arg
  | i_cii => DoCII
  | i_ciu => DoCIU
  | i_cmi => DoCMI arg
  | i_cmp => DoCMP
  | i_cms => DoCMS arg
  | i_cmu => DoCMU arg
  | i_com => DoCOM arg
  | i_csa => DoCSA arg
  | i_csb => DoCSB arg
  | i_cui => DoCUI
  | i_cuu => DoCUU
  | i_dch => DoDCH
  | i_dec => DoDEC
  | i_dee => DoDEE arg
  | i_del => DoDEL arg
  | i_dup => DoDUP arg
  | i_dus => DoDUS arg
  | i_dvi => DoDVI arg
  | i_dvu => DoDVU arg
  | i_exg => DoEXG arg
  | i_fil => DoFIL arg
  | i_gto => DoGTO arg
  | i_inc => DoINC
  | i_ine => DoINE arg
  | i_inl => DoINL arg
  | i_inn => DoINN arg
  | i_ior => DoIOR arg
  | i_lae => DoLAE arg
  | i_lal => DoLAL arg
  | i_lar => DoLAR arg
  | i_ldc => DoLDC arg
  | i_lde => DoLDE arg
  | i_ldf => DoLDF arg
  | i_ldl => DoLDL arg
  | i_lfr => DoLFR arg
  | i_lil => DoLIL arg
  | i_lim => DoLIM
  | i_lin => DoLIN arg
  | i_lni => DoLNI
  | i_loc => DoLOC arg
  | i_loe => DoLOE arg
  | i_lof => DoLOF arg
  | i_loi => DoLOI arg
  | i_lol => DoLOL arg
  | i_lor => DoLOR arg
  | i_los => DoLOS arg
  | i_lpb => DoLPB
  | i_lpi => DoLPI arg
  | i_lxa => DoLXA arg
  | i_lxl => DoLXL arg
  | i_mli => DoMLI arg
  | i_mlu => DoMLU arg
  | i_mon => moncall_instr
  | i_ngi => DoNGI arg
  | i_nop => DoNOP
  | i_rck => DoRCK arg
  | i_ret => DoRET arg
  | i_rmi => DoRMI arg
  | i_rmu => DoRMU arg
  | i_rol => DoROL arg
  | i_ror => DoROR arg
  | i_rtt => DoRTT
  | i_sar => DoSAR arg
  | i_sbi => DoSBI arg
  | i_sbs => DoSBS arg
  | i_sbu => DoSBU arg
  | i_sde => DoSDE arg
  | i_sdf => DoSDF arg
  | i_sdl => DoSDL arg
  | i_set => DoSET arg
  | i_sig => DoSIG
  | i_sil => DoSIL arg
  | i_sim => DoSIM
  | i_sli => DoSLI arg
  | i_slu => DoSLU arg
  | i_sri => DoSRI arg
  | i_sru => DoSRU arg
  | i_ste => DoSTE arg
  | i_stf => DoSTF arg
  | i_sti => DoSTI arg
  | i_stl => DoSTL arg
  | i_str => DoSTR arg
  | i_sts => DoSTS arg
  | i_teq => DoTEQ
  | i_tge => DoTGE
  | i_tgt => DoTGT
  | i_tle => DoTLE
  | i_tlt => DoTLT
  | i_tne => DoTNE
  | i_trp => DoTRP
  | i_xor => DoXOR arg
  | i_zeq => DoZEQ arg
  | i_zer => DoZER arg
  | i_zge => DoZGE arg
  | i_zgt => DoZGT arg
  | i_zle => DoZLE arg
  | i_zlt => DoZLT arg
  | i_zne => DoZNE arg
  | i_zre => DoZRE arg
  | i_zrl => DoZRL arg
  | i_adf => DoADF arg
  | i_cff => DoCFF
  | i_cfi => DoCFI
  | i_cfu => DoCFU
  | i_cif => DoCIF
  | i_cmf => DoCMF arg
  | i_cuf => DoCUF
  | i_dvf => DoDVF arg
  | i_fef => DoFEF arg
  | i_fif => DoFIF arg
  | i_mlf => DoMLF arg
  | i_ngf => DoNGF arg
  | i_sbf => DoSBF arg
  | i_zrf => DoZRF arg
  end.

Definition SECONDARY := 254.
Definition TERTIARY := 255.

Definition do_case (opcode : Z) : M unit :=
  match find_case opcode DoCases with
  | Some (m, a) => arg ← eval_arg a; dispatch m arg
  | None => wtrap WBADOPC EILLINS
  end.

Definition do_instr (opcode : Z) : M unit :=
  if opcode =? SECONDARY then b ← nextPCbyte; do_case (SEC_BASE + b)
  else if opcode =? TERTIARY then b ← nextPCbyte; do_case (TERT_BASE + b)
  else do_case opcode.

End Switch.

(** ** Every instruction preserves the machine invariant *)

Section Keeps.
Context {cfg : Config} {ok : ConfigOk} {host : Host} {os : Os}.

Lemma keeps_eval_arg a : keeps (eval_arg a) any.
Proof. destruct a; cbn [eval_arg]; keeps_tac. Qed.
Lemma keeps_dispatch m arg : keeps (dispatch m arg) any.
Proof.
  destruct m; cbn [dispatch]; autounfold with instr; unfold moncall_instr; keeps_tac.
Qed.
#[local] Hint Resolve keeps_eval_arg keeps_dispatch : keeps.
Lemma keeps_do_case opc : keeps (do_case opc) any.
Proof.
  unfold do_case. destruct (find_case opc DoCases) as [[m a]|]; keeps_tac.
Qed.
#[local] Hint Resolve keeps_do_case : keeps.
Lemma keeps_do_instr opc : keeps (do_instr opc) any.
Proof. unfold do_instr. keeps_tac. Qed.
End Keeps.
#[export] Hint Resolve keeps_do_instr : keeps.
