(* ===== verification/Interp.v ===== *)
(** * The main loop ([main.c])

    One turn of the loop of [main]: check the program counter, fetch and execute
    an instruction, and act on a signal that has come in; a trap runs [do_trap],
    which ends in a [longjmp] to the point after the first instruction. *)
From Stdlib Require Import ZArith Lia Bool.
From stdpp Require Import base gmap list.
From S2P Require Import Prelude Os Machine Warn Mem Wp Sigtrp Data Stack Text Frame Real Float Switch.

Section Interp.
Context {cfg : Config} {host : Host} {os : Os}.

(** [newPC(PC); do_instr(nextPCbyte());] *)
Definition one_instr : M unit :=
  pc ← gets PC; newPC pc ;; opc ← nextPCbyte; do_instr opc.

(** The body of the loop.  Signals come in before the instruction (also while the
    previous turn ended) and after it. *)
Definition turn : M unit := signals ;; one_instr ;; signals ;; check_signal.

(** [trapbuf] is set up after the first instruction; [armed] says that it is. *)
Definition step (armed : bool) : M unit :=
  catch turn
    (fun nr => do_trap nr ;; if armed then skip else undef).

(** [running = 1; OnTrap = TR_HALT; call(ENTRY, RSB_STP);] *)
Definition start : M unit :=
  modify (set_running true) ;;
  modify (set_OnTrap TR_HALT) ;;
  catch (call ENTRY RSB_STP) (fun nr => do_trap nr ;; undef).

(** The loop, for at most [fuel] turns; [None] when they are used up. *)
Fixpoint run_loop (fuel : nat) (armed : bool) (s : state) : option (result unit) :=
  match fuel with
  | O => None
  | S f =>
      if running s then
        match step armed s with
        | Ret _ s' => run_loop f true s'
        | r => Some r
        end
      else Some (Ret tt s)
  end.

(** The exit status: one byte of [ES] when it is defined. *)
Definition exit_status (s : state) : option Z := if ES_def s then Some (ES s) else None.

End Interp.

(** ** The machine as a step relation *)
Section Reachable.
Context {cfg : Config} {host : Host} {os : Os}.

(** The states at the top of the loop, for a machine loaded as [s0]; the boolean
    says whether [setjmp] has been called. *)
Inductive reachable (s0 : state) : bool -> state -> Prop :=
| reach_start s : start s0 = Ret tt s -> reachable s0 false s
| reach_step armed s s' :
    reachable s0 armed s -> running s = true -> step armed s = Ret tt s' ->
    reachable s0 true s'.

Lemma run_loop_reachable fuel s0 : forall armed s s',
  reachable s0 armed s -> run_loop fuel armed s = Some (Ret tt s') ->
  (exists armed', reachable s0 armed' s') /\ running s' = false.
Proof.
  induction fuel as [|f IH]; intros armed s s' Hr; cbn [run_loop]; [done|].
  destruct (running s) eqn:Er.
  - destruct (step armed s) as [[] s1| | |] eqn:Es; try done.
    apply IH. by eapply reach_step.
  - intros [= <-]. split; [by eexists | done].
Qed.

Context {ok : ConfigOk}.

Lemma keeps_one_instr : keeps one_instr any.
Proof. unfold one_instr. keeps_tac. Qed.
Lemma keeps_turn : keeps turn any.
Proof. unfold turn. pose proof keeps_one_instr. keeps_tac. Qed.
Lemma keeps_step armed : keeps (step armed) any.
Proof.
  unfold step. apply keeps_catch; [apply keeps_turn | intros nr; keeps_tac].
Qed.
Lemma keeps_start : keeps start any.
Proof.
  unfold start. do 2 kstep. apply keeps_catch; [apply keeps_call | intros nr; keeps_tac].
Qed.

(** Every reachable state satisfies the invariant. *)
Lemma reachable_Inv s0 armed s : Inv s0 -> reachable s0 armed s -> Inv s.
Proof.
  intros H0. induction 1 as [s E|armed s s' _ IH _ E].
  - pose proof (keeps_start s0 H0) as H. unfold wp in H. rewrite E in H. apply H.
  - pose proof (keeps_step armed s IH) as H. unfold wp in H. rewrite E in H. apply H.
Qed.

(** C9: a signal that Sigtrp maps onto an EM trap raises this trap: when it comes in
    during a turn of the loop, as long as the program has mapped no signal since, the
    turn ends in the trap, once. *)
Theorem mapped_signal_traps tn sn v s s1 s2 s3 :
  0 <= tn <= 252 -> do_sigtrp tn sn s = Ret v s1 -> v <> -1 ->
  (signals ;; one_instr) s2 = Ret tt s3 ->
  sig_map (mon s3) = sig_map (mon s1) -> caught (mon s3) = caught (mon s1) ->
  r_out (os_reply (s_signals :: calls (mon s3))) = [sn] ->
  exists s4, turn s2 = Trap tn s4 /\ eqm s3 s4 /\ signalled (mon s4) = 0.
Proof.
  intros Htn E Hv E3 Hsm Hc Hr. destruct (do_sigtrp_run tn sn s) as (v' & s1' & E' & _ & Hd).
  rewrite E in E'. injection E' as <- <-. destruct Hd as [d Hm Hh Hnr Hmap Hcau| |]; [|done..].
  assert (Hd : d = HndlEmSig).
  { unfold handler in Hh. replace (tn =? -2) with false in Hh by lia. replace (tn =? -3) with false in Hh by lia.
    replace ((0 <=? tn) && (tn <=? 252)) with true in Hh by lia. by injection Hh. }
  subst d. assert (Hnr' : ~ refused sn HndlEmSig s) by (by destruct Hnr).
  destruct (caught_signal_traps sn s3) as (s4 & E4 & He & Hs).
  - unfold mappable in Hm. lia.
  - rewrite Hc, Hcau by done. apply lookup_insert_eq.
  - done.
  - exists s4. rewrite Hsm, Hmap, mget_insert_eq in E4. split; [|done]. rewrite <- E4.
    unfold turn, bind in *. destruct (signals s2); [|done..]. by rewrite E3.
Qed.

(** C33: the loop body never ends in a trap that is not handled: a trap runs the
    trap routine, which is fatal or enters the trap handler; and a trap in the
    first instruction, before [setjmp], is never survived. *)
Theorem step_traps armed s :
  match step armed s with
  | Trap _ _ => False
  | Ret _ s' =>
      turn s = Ret tt s' \/
      (armed = true /\ exists nr s1, turn s = Trap nr s1 /\ OnTrap s1 = TR_TRAP /\
         OnTrap s' = TR_HALT /\ PI s' = TrapPI s1)
  | _ => True
  end.
Proof.
  unfold step, catch. destruct (turn s) as [[] s1|nr s1| |] eqn:E; [by left| |done|done].
  run. pose proof (do_trap_catches nr s1) as H.
  destruct (do_trap nr s1) as [[] s2| | |]; [|done..].
  destruct armed; [|done]. right. split; [done|]. exists nr, s1.
  destruct H as (? & _ & ? & _ & _ & ? & _). by split_and!.
Qed.
End Reachable.
