(* ===== verification/Tally.v ===== *)
(** * Run-time statistics ([tally.c])

    The number of times each source line is entered, and of the instructions that are
    executed on it; and what [int.tally] lists. *)
From Stdlib Require Import ZArith Lia Bool.
From stdpp Require Import base gmap list.
From S2P Require Import Prelude Os Machine.

(** A file: its name, the size of its line array, and the array, in two halves. *)
Record file_tally := mkFile { ft_fil : Z; ft_limit : Z; lt_cnt : gmap Z Z; lt_instr : gmap Z Z }.
(** The chain of files, the present file, and the last line. *)
Record tallyst := mkTally { chain : list file_tally; file : option Z; lastLIN : Z }.
Definition tally0 : tallyst := mkTally [] None 0.

Definition on_file (f : Z) (ft : file_tally) : bool := ft_fil ft =? f.
Definition with_file (f : Z) (g : file_tally -> file_tally) (l : list file_tally) : list file_tally :=
  map (fun ft => if on_file f ft then g ft else ft) l.

(** [tally_newFIL(f)]: the file is looked up, or added at the end of the chain. *)
Definition tally_newFIL (f : Z) (l : list file_tally) : list file_tally :=
  if existsb (on_file f) l then l else l ++ [mkFile f 1 ∅ ∅].
(** [enlarge(ft, l)]. *)
Definition enlarge (l : Z) (ft : file_tally) : file_tally :=
  let limit := allocfrac (if l <? 100 then 100 else l) in
  if limit <=? ft_limit ft then ft else mkFile (ft_fil ft) limit (lt_cnt ft) (lt_instr ft).
Definition count_entry (n : Z) (ft : file_tally) : file_tally :=
  mkFile (ft_fil ft) (ft_limit ft) (<[n := mget (lt_cnt ft) n + 1]> (lt_cnt ft)) (lt_instr ft).
Definition count_instr_on (n : Z) (ft : file_tally) : file_tally :=
  mkFile (ft_fil ft) (ft_limit ft) (lt_cnt ft) (<[n := mget (lt_instr ft) n + 1]> (lt_instr ft)).

(** An access outside the line array is undefined. *)
Definition tally (fil lin : Z) (t : tallyst) : option tallyst :=
  if fil =? 0 then Some t
  else
    let t := if bool_decide (file t = Some fil) then t else mkTally (tally_newFIL fil (chain t)) (Some fil) (-1) in
    let t := if lin =? lastLIN t then t
             else
               let grow ft := if ft_limit ft <=? lin then enlarge lin ft else ft in
               mkTally (with_file fil (fun ft => count_entry lin (grow ft)) (chain t)) (file t) lin in
    if lin <? 0 then None
    else Some (mkTally (with_file fil (count_instr_on lin) (chain t)) (file t) (lastLIN t)).

(** The lines that were visited, with their counts, per file: [int.tally]. *)
Definition rows (ft : file_tally) : list (Z * Z * Z) :=
  flat_map (fun k => let i := Z.of_nat k in
                     if mget (lt_cnt ft) i =? 0 then [] else [(i, mget (lt_cnt ft) i, mget (lt_instr ft) i)])
           (seq 0 (Z.to_nat (ft_limit ft))).
Definition out_tally (t : tallyst) : list (Z * list (Z * Z * Z)) :=
  map (fun ft => (ft_fil ft, rows ft)) (chain t).

(** ** What is counted *)

(** The tally of a sequence of instructions, each with its file and line. *)
Fixpoint tally_all (l : list (Z * Z)) (t : tallyst) : option tallyst :=
  match l with [] => Some t | x :: l' => match tally x.1 x.2 t with Some t' => tally_all l' t' | None => None end end.

(** Instructions without a file are not counted. *)
Definition counted (l : list (Z * Z)) : list (Z * Z) := List.filter (fun x => negb (x.1 =? 0)) l.
Definition instructions (x : Z * Z) (l : list (Z * Z)) : Z :=
  Z.of_nat (length (List.filter (fun y => bool_decide (y = x)) (counted l))).
(** A line is entered by an instruction if the previous one was not on this line. *)
Fixpoint entered (x : Z * Z) (prev : option (Z * Z)) (l : list (Z * Z)) : Z :=
  match l with
  | [] => 0
  | y :: l' => (if bool_decide (y = x) && negb (bool_decide (prev = Some y)) then 1 else 0) + entered x (Some y) l'
  end.
Definition entries (x : Z * Z) (l : list (Z * Z)) : Z := entered x None (counted l).

Definition find_file (f : Z) (l : list file_tally) : option file_tally := List.find (on_file f) l.
Definition entries_of (l : list file_tally) (x : Z * Z) : Z :=
  match find_file x.1 l with Some ft => mget (lt_cnt ft) x.2 | None => 0 end.
Definition instrs_of (l : list file_tally) (x : Z * Z) : Z :=
  match find_file x.1 l with Some ft => mget (lt_instr ft) x.2 | None => 0 end.

(** A file that has been looked at: its lines are within the array, and a line with
    an instruction has been entered. *)
Definition file_ok_ (ft : file_tally) : Prop :=
  ft_fil ft <> 0 /\ 0 < ft_limit ft /\
  forall n, ~ 0 <= n < ft_limit ft -> mget (lt_cnt ft) n = 0.
Record tally_inv (t : tallyst) : Prop := {
  ti_nodup : NoDup (map ft_fil (chain t));
  ti_files : Forall file_ok_ (chain t);
  ti_file : forall f, file t = Some f -> f <> 0 /\ existsb (on_file f) (chain t) = true
}.

Lemma find_with_file f g l f' :
  (forall ft, ft_fil (g ft) = ft_fil ft) ->
  find_file f' (with_file f g l) =
    if f' =? f then option_map g (find_file f' l) else find_file f' l.
Proof.
  intros Hg. unfold find_file, with_file. induction l as [|ft l IH]; cbn [map List.find].
  { by destruct (f' =? f). }
  unfold on_file in *. destruct (Z.eqb_spec (ft_fil ft) f) as [E|E].
  - rewrite Hg. destruct (Z.eqb_spec (ft_fil ft) f') as [E'|E']; [|exact IH].
    by replace (f' =? f) with true by lia.
  - destruct (Z.eqb_spec (ft_fil ft) f') as [E'|E']; [|exact IH].
    by replace (f' =? f) with false by lia.
Qed.
Lemma exists_find f l : existsb (on_file f) l = true -> exists ft, find_file f l = Some ft.
Proof.
  unfold find_file. induction l as [|ft l IH]; cbn; [done|]. destruct (on_file f ft); [by eexists|exact IH].
Qed.
Lemma not_exists_find f l : existsb (on_file f) l = false -> find_file f l = None.
Proof.
  unfold find_file. induction l as [|ft l IH]; cbn; [done|]. by destruct (on_file f ft).
Qed.
Lemma find_newFIL f l f' :
  find_file f' (tally_newFIL f l) =
    match find_file f' l with Some ft => Some ft | None => if f' =? f then Some (mkFile f 1 ∅ ∅) else None end.
Proof.
  unfold tally_newFIL. destruct (existsb (on_file f) l) eqn:E.
  - destruct (find_file f' l) eqn:E'; [done|]. destruct (Z.eqb_spec f' f) as [->|]; [|done].
    destruct (exists_find f l E). congruence.
  - unfold find_file. induction l as [|ft l IH]; cbn [app List.find].
    + unfold on_file. cbn. rewrite Z.eqb_sym. by destruct (f' =? f).
    + cbn in E. apply orb_false_iff in E as [_ E]. destruct (on_file f' ft); [done|by apply IH].
Qed.

(** Changes of the present file. *)
Definition same_name (g : file_tally -> file_tally) : Prop := forall ft, ft_fil (g ft) = ft_fil ft.
Lemma names_with_file f g l : same_name g -> map ft_fil (with_file f g l) = map ft_fil l.
Proof.
  intros Hg. unfold with_file. rewrite map_map. apply map_ext. intros ft. by destruct (on_file f ft); rewrite ?Hg.
Qed.
Lemma exists_with_file f g l f' : same_name g -> existsb (on_file f') (with_file f g l) = existsb (on_file f') l.
Proof.
  intros Hg. unfold with_file. induction l as [|ft l IH]; cbn [map existsb]; [done|]. rewrite IH. f_equal.
  unfold on_file in *. by destruct (ft_fil ft =? f); rewrite ?Hg.
Qed.
Lemma files_with_file f g l :
  (forall ft, file_ok_ ft -> file_ok_ (g ft)) -> Forall file_ok_ l -> Forall file_ok_ (with_file f g l).
Proof.
  intros Hg H. unfold with_file. induction H; cbn [map]; constructor; [|done]. by destruct (on_file f x); auto.
Qed.
Lemma entries_with_file f g l x :
  same_name g ->
  entries_of (with_file f g l) x =
    match find_file x.1 l with
    | Some ft => mget (lt_cnt (if x.1 =? f then g ft else ft)) x.2
    | None => 0
    end.
Proof.
  intros Hg. unfold entries_of. rewrite find_with_file by done.
  destruct (x.1 =? f); [by destruct (find_file x.1 l)|done].
Qed.
Lemma instrs_with_file f g l x :
  same_name g ->
  instrs_of (with_file f g l) x =
    match find_file x.1 l with
    | Some ft => mget (lt_instr (if x.1 =? f then g ft else ft)) x.2
    | None => 0
    end.
Proof.
  intros Hg. unfold instrs_of. rewrite find_with_file by done.
  destruct (x.1 =? f); [by destruct (find_file x.1 l)|done].
Qed.

Lemma allocfrac_above l : 0 <= l -> l < allocfrac (if l <? 100 then 100 else l).
Proof.
  intros Hl. unfold allocfrac. destruct (Z.ltb_spec l 100).
  - change (Z.quot (100 * 3) 2) with 150. lia.
  - rewrite Z.quot_div_nonneg by lia. assert (l + 1 <= l * 3 / 2) by (apply Z.div_le_lower_bound; lia). lia.
Qed.
(** An entry, with the growth of the line array. *)
Definition enter (lin : Z) (ft : file_tally) : file_tally :=
  count_entry lin (if ft_limit ft <=? lin then enlarge lin ft else ft).
Lemma enter_counts lin ft :
  lt_cnt (enter lin ft) = <[lin := mget (lt_cnt ft) lin + 1]> (lt_cnt ft) /\ lt_instr (enter lin ft) = lt_instr ft /\
  ft_fil (enter lin ft) = ft_fil ft.
Proof. unfold enter, count_entry, enlarge. destruct (_ <=? lin); [|done]. by destruct (_ <=? _). Qed.
Lemma enter_ok lin ft : 0 <= lin -> file_ok_ ft -> file_ok_ (enter lin ft) /\ lin < ft_limit (enter lin ft).
Proof.
  intros Hlin (Hf & Hl & Hn). destruct (enter_counts lin ft) as (Ec & _ & Ef).
  assert (Hlim : lin < ft_limit (enter lin ft) /\ ft_limit ft <= ft_limit (enter lin ft)).
  { unfold enter, count_entry, enlarge. pose proof (allocfrac_above lin Hlin).
    destruct (Z.leb_spec (ft_limit ft) lin); [|cbn; lia]. destruct (Z.leb_spec (allocfrac (if lin <? 100 then 100 else lin)) (ft_limit ft)); cbn; lia. }
  split; [|apply Hlim]. split_and!; [by rewrite Ef|lia|]. intros n Hn'. rewrite Ec, mget_insert_ne by lia. apply Hn. lia.
Qed.
Lemma newFIL_inv f l :
  f <> 0 -> NoDup (map ft_fil l) -> Forall file_ok_ l ->
  NoDup (map ft_fil (tally_newFIL f l)) /\ Forall file_ok_ (tally_newFIL f l) /\
  existsb (on_file f) (tally_newFIL f l) = true /\
  (forall x, entries_of (tally_newFIL f l) x = entries_of l x) /\ (forall x, instrs_of (tally_newFIL f l) x = instrs_of l x).
Proof.
  intros Hf Hnd Hok.
  assert (Hfind : forall f' (F : file_tally -> Z), F (mkFile f 1 ∅ ∅) = 0 ->
            match find_file f' (tally_newFIL f l) with Some ft => F ft | None => 0 end =
            match find_file f' l with Some ft => F ft | None => 0 end).
  { intros f' F HF. rewrite find_newFIL. destruct (find_file f' l); [done|]. by destruct (f' =? f). }
  assert (H0 : forall n, mget (∅ : gmap Z Z) n = 0) by (intros n; unfold mget; by rewrite lookup_empty).
  split; [|split; [|split; [|split]]].
  - unfold tally_newFIL. destruct (existsb (on_file f) l) eqn:E; [done|]. rewrite map_app. cbn [map ft_fil].
    apply NoDup_app. split_and!; [done| |apply NoDup_singleton].
    intros g Hg ->%list_elem_of_singleton. apply list_elem_of_In, in_map_iff in Hg as (ft & Eft & Hin).
    assert (existsb (on_file f) l = true); [|congruence].
    apply existsb_exists. exists ft. split; [done|]. unfold on_file. lia.
  - unfold tally_newFIL. destruct (existsb (on_file f) l); [done|]. apply Forall_app. split; [done|].
    constructor; [|constructor]. split_and!; [done|cbn; lia|]. intros n _. apply H0.
  - unfold tally_newFIL. destruct (existsb (on_file f) l) eqn:E; [done|].
    rewrite existsb_app. cbn. unfold on_file. cbn. rewrite Z.eqb_refl. by rewrite orb_true_r.
  - intros x. apply (Hfind x.1 (fun ft => mget (lt_cnt ft) x.2)), H0.
  - intros x. apply (Hfind x.1 (fun ft => mget (lt_instr ft) x.2)), H0.
Qed.

(** One instruction. *)
Definition here (t : tallyst) (fil lin : Z) : bool := bool_decide (file t = Some fil) && (lin =? lastLIN t).
Definition one (b : bool) : Z := if b then 1 else 0.
Definition at_line (x : Z * Z) (fil lin : Z) : bool := (x.1 =? fil) && (x.2 =? lin).
Record tallied (fil lin : Z) (t t' : tallyst) : Prop := {
  td_inv : tally_inv t';
  td_file : file t' = Some fil;
  td_line : lastLIN t' = lin;
  td_entries (x : Z * Z) : entries_of (chain t') x = entries_of (chain t) x + one (at_line x fil lin && negb (here t fil lin));
  td_instrs (x : Z * Z) : instrs_of (chain t') x = instrs_of (chain t) x + one (at_line x fil lin)
}.

Lemma find_present fil l (x : Z * Z) :
  existsb (on_file fil) l = true -> x.1 = fil -> exists ft, find_file x.1 l = Some ft.
Proof. intros H ->. by apply exists_find. Qed.
Lemma count_enter fil lin l (x : Z * Z) :
  existsb (on_file fil) l = true ->
  entries_of (with_file fil (enter lin) l) x = entries_of l x + one (at_line x fil lin) /\
  instrs_of (with_file fil (enter lin) l) x = instrs_of l x.
Proof.
  intros He. rewrite entries_with_file, instrs_with_file by (intros ft; apply enter_counts).
  unfold entries_of, instrs_of, at_line. destruct (Z.eqb_spec x.1 fil) as [E|E]; cbn [andb one].
  - destruct (find_present fil l x He E) as [ft ->]. destruct (enter_counts lin ft) as (-> & -> & _).
    split; [|done]. destruct (Z.eqb_spec x.2 lin) as [->|E2]; cbn [one];
      [rewrite mget_insert_eq; lia | rewrite mget_insert_ne by done; lia].
  - destruct (find_file x.1 l); split; cbn; lia.
Qed.
Lemma count_instr_line fil lin l (x : Z * Z) :
  existsb (on_file fil) l = true ->
  entries_of (with_file fil (count_instr_on lin) l) x = entries_of l x /\
  instrs_of (with_file fil (count_instr_on lin) l) x = instrs_of l x + one (at_line x fil lin).
Proof.
  intros He. rewrite entries_with_file, instrs_with_file by done.
  unfold entries_of, instrs_of, at_line. destruct (Z.eqb_spec x.1 fil) as [E|E]; cbn [andb one].
  - destruct (find_present fil l x He E) as [ft ->]. cbn [count_instr_on lt_cnt lt_instr]. split; [done|].
    destruct (Z.eqb_spec x.2 lin) as [->|E2]; cbn [one];
      [rewrite mget_insert_eq; lia | rewrite mget_insert_ne by done; lia].
  - destruct (find_file x.1 l); split; cbn; lia.
Qed.
Lemma tally_run fil lin t :
  tally_inv t -> fil <> 0 -> 0 <= lin -> exists t', tally fil lin t = Some t' /\ tallied fil lin t t'.
Proof.
  intros [Hnd Hok Hfile] Hfil Hlin. unfold tally. replace (fil =? 0) with false by lia.
  set (t1 := if bool_decide (file t = Some fil) then t else _).
  assert (H1 : NoDup (map ft_fil (chain t1)) /\ Forall file_ok_ (chain t1) /\ existsb (on_file fil) (chain t1) = true /\
               (forall x, entries_of (chain t1) x = entries_of (chain t) x) /\
               (forall x, instrs_of (chain t1) x = instrs_of (chain t) x) /\
               file t1 = Some fil /\ (lin =? lastLIN t1) = here t fil lin).
  { unfold t1, here. case_bool_decide as E.
    - destruct (Hfile fil E). by split_and!.
    - destruct (newFIL_inv fil (chain t) Hfil Hnd Hok) as (? & ? & ? & ? & ?). split_and!; [done..|]. cbn. lia. }
  clearbody t1. destruct H1 as (Hnd1 & Hok1 & Hex1 & He1 & Hi1 & Hf1 & Hl1). rewrite Hl1.
  replace (lin <? 0) with false by lia. eexists. split; [reflexivity|]. destruct (here t fil lin) eqn:Eh.
  - split; cbn [chain file lastLIN].
    + split; cbn [chain file]; [by rewrite names_with_file|by apply files_with_file|].
      intros f [= <-]%(eq_trans (eq_sym Hf1)). by rewrite exists_with_file.
    + done.
    + lia.
    + intros x. rewrite Eh, andb_false_r, (proj1 (count_instr_line fil lin _ x Hex1)), He1. cbn. lia.
    + intros x. rewrite (proj2 (count_instr_line fil lin _ x Hex1)), Hi1. done.
  - assert (Hex2 : existsb (on_file fil) (with_file fil (enter lin) (chain t1)) = true)
      by (rewrite exists_with_file; [done|intros ft; apply enter_counts]).
    split; cbn [chain file lastLIN].
    + split; cbn [chain file].
      * rewrite names_with_file by done. rewrite names_with_file by (intros ft; apply enter_counts). done.
      * apply files_with_file; [done|]. apply files_with_file; [|done]. intros ft Hft. by apply enter_ok.
      * intros f [= <-]%(eq_trans (eq_sym Hf1)). split; [done|]. by rewrite exists_with_file.
    + done.
    + done.
    + intros x. change (fun ft => count_entry lin _) with (enter lin). rewrite Eh, andb_true_r, (proj1 (count_instr_line fil lin _ x Hex2)), (proj1 (count_enter fil lin _ x Hex1)), He1. done.
    + intros x. change (fun ft => count_entry lin _) with (enter lin). rewrite (proj2 (count_instr_line fil lin _ x Hex2)), (proj2 (count_enter fil lin _ x Hex1)), Hi1. done.
Qed.

(** A sequence of instructions. *)
Lemma tally_all_run l : forall t prev,
  tally_inv t -> Forall (fun x : Z * Z => x.1 <> 0 -> 0 <= x.2) l ->
  (forall fil lin, here t fil lin = bool_decide (prev = Some (fil, lin))) ->
  exists t', tally_all l t = Some t' /\ tally_inv t' /\
    forall x, entries_of (chain t') x = entries_of (chain t) x + entered x prev (counted l) /\
              instrs_of (chain t') x = instrs_of (chain t) x + instructions x l.
Proof.
  induction l as [|[fil lin] l IH]; intros t prev Hi Hl Hp; cbn [tally_all fst snd].
  { exists t. split_and!; [done..|]. intros x. unfold instructions. cbn. lia. }
  inversion_clear Hl as [|? ? Hlin Hl']. cbn [fst snd] in Hlin.
  unfold instructions, counted. cbn [List.filter fst]. destruct (Z.eqb_spec fil 0) as [->|Hfil]; cbn [negb].
  { unfold tally. cbn [Z.eqb]. by apply IH. }
  destruct (tally_run fil lin t Hi Hfil (Hlin Hfil)) as (t1 & -> & [Hi1 Hf1 Hn1 He1 Hc1]).
  destruct (IH t1 (Some (fil, lin)) Hi1 Hl') as (t2 & -> & Hi2 & H2).
  { intros f n. unfold here. rewrite Hf1, Hn1. repeat case_bool_decide; destruct (Z.eqb_spec n lin); cbn; congruence. }
  exists t2. split_and!; [done..|]. intros x. destruct (H2 x) as [-> ->]. rewrite He1, Hc1, Hp.
  fold (counted l). cbn [entered List.filter].
  assert (E : at_line x fil lin = bool_decide ((fil, lin) = x)).
  { unfold at_line. destruct x as [f n]. cbn [fst snd]. destruct (Z.eqb_spec f fil), (Z.eqb_spec n lin);
      case_bool_decide; cbn; congruence. }
  rewrite E. unfold instructions, one. split; [lia|].
  destruct (bool_decide _); cbn [length]; lia.
Qed.

Lemma entered_nonneg x l : forall prev, 0 <= entered x prev l.
Proof. induction l as [|y l IH]; intros prev; cbn [entered]; [done|]. specialize (IH (Some y)). destruct (_ && _); lia. Qed.
(** A line with an instruction has been entered. *)
Lemma entered_In x l : forall prev, prev <> Some x -> (0 < entered x prev l <-> In x l).
Proof.
  induction l as [|y l IH]; intros prev Hp; cbn [entered In]; [lia|].
  destruct (decide (y = x)) as [->|Hy].
  - rewrite (bool_decide_eq_true_2 _ (eq_refl x)), bool_decide_eq_false_2 by done. cbn.
    pose proof (entered_nonneg x l (Some x)). split; [by left|lia].
  - rewrite (bool_decide_eq_false_2 _ Hy). cbn [andb]. rewrite Z.add_0_l, IH by congruence. naive_solver.
Qed.
Lemma instructions_In x l : 0 < instructions x l <-> In x (counted l).
Proof.
  unfold instructions. induction (counted l) as [|y k IH]; cbn [List.filter In]; [cbn; lia|].
  case_bool_decide as E; cbn [length]; [split; [by left|lia]|]. rewrite IH. naive_solver.
Qed.
Lemma counted_file f n l : In (f, n) (counted l) -> f <> 0.
Proof. unfold counted. rewrite filter_In. cbn. lia. Qed.

(** What is listed. *)
Lemma in_rows ft i c n : file_ok_ ft -> (In (i, c, n) (rows ft) <-> c = mget (lt_cnt ft) i /\ n = mget (lt_instr ft) i /\ c <> 0).
Proof.
  intros (_ & Hl & Hz). unfold rows. rewrite in_flat_map. split.
  - intros (k & _ & Hk). destruct (Z.eqb_spec (mget (lt_cnt ft) (Z.of_nat k)) 0); [done|].
    destruct Hk as [[= <- <- <-]|[]]. done.
  - intros (-> & -> & Hc). assert (Hr : 0 <= i < ft_limit ft) by (destruct (decide (0 <= i < ft_limit ft)); [done|by rewrite Hz in Hc]).
    exists (Z.to_nat i). rewrite in_seq, Z2Nat.id by lia. split; [lia|].
    destruct (Z.eqb_spec (mget (lt_cnt ft) i) 0); [done|by left].
Qed.
Lemma find_In f l ft : NoDup (map ft_fil l) -> (find_file f l = Some ft <-> In ft l /\ ft_fil ft = f).
Proof.
  unfold find_file. induction l as [|a l IH]; cbn [map List.find In]; [naive_solver|]. intros [Ha Hnd]%NoDup_cons.
  unfold on_file at 1. destruct (Z.eqb_spec (ft_fil a) f) as [E|E].
  - split; [intros [= ->]; auto|]. intros [[->|Hin] Ef]; [done|]. destruct Ha. rewrite E, <- Ef.
    by apply list_elem_of_In, in_map.
  - rewrite IH by done. split; [naive_solver|]. intros [[->|Hin] Ef]; [done|naive_solver].
Qed.
Lemma in_out_tally t f i c n :
  tally_inv t ->
  (exists r, In (f, r) (out_tally t) /\ In (i, c, n) r) <->
  c = entries_of (chain t) (f, i) /\ n = instrs_of (chain t) (f, i) /\ c <> 0.
Proof.
  intros [Hnd Hok _]. unfold out_tally, entries_of, instrs_of. cbn [fst snd]. split.
  - intros (r & (ft & [= <- <-] & Hin)%in_map_iff & Hr).
    rewrite (proj2 (find_In _ _ ft Hnd)) by done. apply in_rows in Hr; [done|].
    rewrite List.Forall_forall in Hok. by apply Hok.
  - destruct (find_file f (chain t)) as [ft|] eqn:E; [|lia]. apply find_In in E as [Hin Ef]; [|done].
    intros H. exists (rows ft). split; [apply in_map_iff; exists ft; by rewrite Ef|].
    apply in_rows; [|done]. rewrite List.Forall_forall in Hok. by apply Hok.
Qed.

Lemma tally_all_lines l : forall t t', tally_all l t = Some t' -> Forall (fun x : Z * Z => x.1 <> 0 -> 0 <= x.2) l.
Proof.
  induction l as [|[f n] l IH]; intros t t' H; [constructor|]. cbn [tally_all fst snd] in H.
  destruct (tally f n t) as [t1|] eqn:E; [|done]. constructor; [|by eapply IH]. cbn [fst snd]. intros Hf.
  unfold tally in E. destruct (Z.eqb_spec f 0); [done|]. destruct (Z.ltb_spec n 0); [done|lia].
Qed.
(** What a tally of a sequence of instructions lists. *)
Lemma tally_listed l t :
  tally_all l tally0 = Some t ->
  forall f i c n, (exists r, In (f, r) (out_tally t) /\ In (i, c, n) r) <->
    f <> 0 /\ c = entries (f, i) l /\ n = instructions (f, i) l /\ 0 < n.
Proof.
  intros Ht f i c n. assert (H0 : tally_inv tally0) by (split; [constructor|constructor|done]).
  destruct (tally_all_run l tally0 None H0 (tally_all_lines _ _ _ Ht)) as (t' & E & Hi & H); [done|].
  rewrite Ht in E. injection E as <-. rewrite in_out_tally by done. destruct (H (f, i)) as [-> ->].
  change (entries_of (chain tally0) (f, i)) with 0. change (instrs_of (chain tally0) (f, i)) with 0. unfold entries.
  rewrite !Z.add_0_l. pose proof (entered_nonneg (f, i) (counted l) None).
  pose proof (entered_In (f, i) (counted l) None ltac:(done)). pose proof (instructions_In (f, i) l).
  pose proof (counted_file f i l). split.
  - intros (-> & -> & Hc). split_and!; try done; naive_solver lia.
  - intros (_ & -> & -> & Hn). split_and!; try done. assert (0 < entered (f, i) None (counted l)) by naive_solver. lia.
Qed.
