(* ===== verification/Decode.v ===== *)
(** * Instruction encoding

    The cases generated from [etc/ip_spec.t] are unambiguous, and the fetch of an
    instruction decodes its encoding: the opcode, with its escape byte, and the
    operand. *)
From Stdlib Require Import ZArith Lia Bool.
From stdpp Require Import base gmap list.
From S2P Require Import Prelude Os Machine Warn Mem Wp Data Stack Text Proctab Frame Real Float Switch Interp.

(** ** The generated cases *)

(** The legal opcodes: primary ones (but the two escapes), secondary, tertiary. *)
Definition legal_opcode (opc : Z) : bool :=
  (0 <=? opc) && (opc <? SECONDARY) || (SEC_BASE <=? opc) && (opc <? TERT_BASE + 256).

(** The instructions in the order of [h/em_table], and their numbers. *)
Definition all_mnems : list mnem :=
  [i_aar; i_adf; i_adi; i_adp; i_ads; i_adu; i_and; i_asp; i_ass; i_beq; i_bge; i_bgt; i_ble; i_blm; i_bls;
   i_blt; i_bne; i_bra; i_cai; i_cal; i_cff; i_cfi; i_cfu; i_cif; i_cii; i_ciu; i_cmf; i_cmi; i_cmp; i_cms;
   i_cmu; i_com; i_csa; i_csb; i_cuf; i_cui; i_cuu; i_dch; i_dec; i_dee; i_del; i_dup; i_dus; i_dvf; i_dvi;
   i_dvu; i_exg; i_fef; i_fif; i_fil; i_gto; i_inc; i_ine; i_inl; i_inn; i_ior; i_lae; i_lal; i_lar; i_ldc;
   i_lde; i_ldf; i_ldl; i_lfr; i_lil; i_lim; i_lin; i_lni; i_loc; i_loe; i_lof; i_loi; i_lol; i_lor; i_los;
   i_lpb; i_lpi; i_lxa; i_lxl; i_mlf; i_mli; i_mlu; i_mon; i_ngf; i_ngi; i_nop; i_rck; i_ret; i_rmi; i_rmu;
   i_rol; i_ror; i_rtt; i_sar; i_sbf; i_sbi; i_sbs; i_sbu; i_sde; i_sdf; i_sdl; i_set; i_sig; i_sil; i_sim;
   i_sli; i_slu; i_sri; i_sru; i_ste; i_stf; i_sti; i_stl; i_str; i_sts; i_teq; i_tge; i_tgt; i_tle; i_tlt;
   i_tne; i_trp; i_xor; i_zeq; i_zer; i_zge; i_zgt; i_zle; i_zlt; i_zne; i_zre; i_zrf; i_zrl].
Definition mnem_code (m : mnem) : nat :=
  match m with
  | i_aar => 0 | i_adf => 1 | i_adi => 2 | i_adp => 3 | i_ads => 4 | i_adu => 5 | i_and => 6 | i_asp => 7
  | i_ass => 8 | i_beq => 9 | i_bge => 10 | i_bgt => 11 | i_ble => 12 | i_blm => 13 | i_bls => 14
  | i_blt => 15 | i_bne => 16 | i_bra => 17 | i_cai => 18 | i_cal => 19 | i_cff => 20 | i_cfi => 21
  | i_cfu => 22 | i_cif => 23 | i_cii => 24 | i_ciu => 25 | i_cmf => 26 | i_cmi => 27 | i_cmp => 28
  | i_cms => 29 | i_cmu => 30 | i_com => 31 | i_csa => 32 | i_csb => 33 | i_cuf => 34 | i_cui => 35
  | i_cuu => 36 | i_dch => 37 | i_dec => 38 | i_dee => 39 | i_del => 40 | i_dup => 41 | i_dus => 42
  | i_dvf => 43 | i_dvi => 44 | i_dvu => 45 | i_exg => 46 | i_fef => 47 | i_fif => 48 | i_fil => 49
  | i_gto => 50 | i_inc => 51 | i_ine => 52 | i_inl => 53 | i_inn => 54 | i_ior => 55 | i_lae => 56
  | i_lal => 57 | i_lar => 58 | i_ldc => 59 | i_lde => 60 | i_ldf => 61 | i_ldl => 62 | i_lfr => 63
  | i_lil => 64 | i_lim => 65 | i_lin => 66 | i_lni => 67 | i_loc => 68 | i_loe => 69 | i_lof => 70
  | i_loi => 71 | i_lol => 72 | i_lor => 73 | i_los => 74 | i_lpb => 75 | i_lpi => 76 | i_lxa => 77
  | i_lxl => 78 | i_mlf => 79 | i_mli => 80 | i_mlu => 81 | i_mon => 82 | i_ngf => 83 | i_ngi => 84
  | i_nop => 85 | i_rck => 86 | i_ret => 87 | i_rmi => 88 | i_rmu => 89 | i_rol => 90 | i_ror => 91
  | i_rtt => 92 | i_sar => 93 | i_sbf => 94 | i_sbi => 95 | i_sbs => 96 | i_sbu => 97 | i_sde => 98
  | i_sdf => 99 | i_sdl => 100 | i_set => 101 | i_sig => 102 | i_sil => 103 | i_sim => 104 | i_sli => 105
  | i_slu => 106 | i_sri => 107 | i_sru => 108 | i_ste => 109 | i_stf => 110 | i_sti => 111 | i_stl => 112
  | i_str => 113 | i_sts => 114 | i_teq => 115 | i_tge => 116 | i_tgt => 117 | i_tle => 118 | i_tlt => 119
  | i_tne => 120 | i_trp => 121 | i_xor => 122 | i_zeq => 123 | i_zer => 124 | i_zge => 125 | i_zgt => 126
  | i_zle => 127 | i_zlt => 128 | i_zne => 129 | i_zre => 130 | i_zrf => 131 | i_zrl => 132
  end.
Lemma all_mnems_code m : all_mnems !! mnem_code m = Some m.
Proof. by destruct m. Qed.
#[export] Instance mnem_code_inj : Inj (=) (=) mnem_code.
Proof. intros m m' E. pose proof (all_mnems_code m) as H. rewrite E, all_mnems_code in H. congruence. Qed.
#[export] Instance mnem_eq_decision : EqDecision mnem.
Proof. intros m m'. destruct (decide (mnem_code m = mnem_code m')) as [H|H]; [left|right]; [by apply mnem_code_inj|congruence]. Defined.
#[export] Instance argexpr_eq_decision : EqDecision argexpr.
Proof. solve_decision. Defined.

Lemma DoCases_NoDup : NoDup (map fst DoCases).
Proof. apply (bool_decide_unpack _). by vm_compute. Qed.
Lemma DoCases_legal : Forall (fun c => legal_opcode c.1 = true) DoCases.
Proof. apply (bool_decide_unpack _). by vm_compute. Qed.

Lemma find_case_spec opc c l : NoDup (map fst l) -> find_case opc l = Some c <-> (opc, c) ∈ l.
Proof.
  induction l as [|[n d] l IH]; cbn [find_case map fst]; intros Hnd; [by rewrite elem_of_nil|].
  inversion Hnd as [|? ? Hn Hl]; subst. rewrite elem_of_cons. destruct (Z.eqb_spec opc n) as [->|Hne].
  - split; [intros [= ->]; by left|]. intros [[= ->]|Hin]; [done|].
    exfalso. apply Hn, list_elem_of_fmap. by exists (n, c).
  - rewrite IH by done. split; [by right|]. intros [[= -> _]|Hin]; done.
Qed.

(** ** Encoding *)
Definition opcode_bytes (opc : Z) : list Z :=
  if opc <? SEC_BASE then [opc]
  else if opc <? TERT_BASE then [SECONDARY; opc - SEC_BASE] else [TERTIARY; opc - TERT_BASE].
Definition operand_bytes (a : argexpr) (v : Z) : list Z :=
  match a with
  | AImplicit | ANone | AMini _ _ => []
  | AShortie _ _ => big_endian 1 v
  | ATwoSgn _ | ATwoUns _ => big_endian 2 v
  | AFourSgn _ => big_endian 4 v
  end.
(** The operands that an argument expression can express. *)
Definition encodes (a : argexpr) (v : Z) : Prop :=
  match a with
  | AImplicit => True
  | ANone => v = 0
  | AMini i _ => v = i
  | AShortie i _ => Z.shiftr v 8 = i
  | ATwoSgn _ => - 2 ^ 15 <= v < 2 ^ 15
  | ATwoUns _ => 0 <= v < 2 ^ 16
  | AFourSgn _ => - 2 ^ 31 <= v < 2 ^ 31
  end.

Section Decode.
Context {cfg : Config} {host : Host} {os : Os}.

(** The argument of the routine: the operand, counted in words for some opcodes, or
    the word on top of the stack. *)
Definition argument (a : argexpr) (v : Z) : M Z :=
  match a with
  | AImplicit => uwpop
  | ANone => ret 0
  | AMini _ w | AShortie _ w | ATwoSgn w | ATwoUns w | AFourSgn w => ret (v * factor w)
  end.

Lemma text_at_app a l1 l2 : text_at a (l1 ++ l2) -> text_at a l1 /\ text_at (a + Z.of_nat (length l1)) l2.
Proof.
  intros (H0 & Hdb & H). rewrite length_app in Hdb. split; (split; [lia|split; [lia|]]).
  - intros i b Hi. apply H. by apply lookup_app_l_Some.
  - intros i b Hi. rewrite <- Z.add_assoc, <- Nat2Z.inj_add. apply H.
    rewrite lookup_app_r by lia. by replace (length l1 + i - length l1)%nat with i by lia.
Qed.
Lemma nextPCbyte_at b s : text_at (PC s) [b] -> PC s + 1 < 2 ^ 64 -> nextPCbyte s = Ret b (set_PC (PC s + 1) s).
Proof.
  intros Ht Hpc. pose proof Ht as (H0 & _). unfold nextPCbyte, step_PC. run. cbn [PC set_PC].
  rewrite !padd_small by (rewrite ?padd_small; lia).
  replace (PC s + 1 + -1) with (PC s + Z.of_nat 0) by lia. by rewrite (text_loc_at _ [b] 0 b).
Qed.

(** The operand is fetched. *)
Lemma eval_arg_at a v s :
  encodes a v -> text_at (PC s) (operand_bytes a v) -> PC s < 2 ^ 63 ->
  eval_arg a s = argument a v (set_PC (PC s + Z.of_nat (length (operand_bytes a v))) s).
Proof.
  intros He Ht Hpc. pose proof (operand_roundtrip v s Hpc) as (H2 & Hu & H4 & H1).
  assert (E0 : set_PC (PC s + Z.of_nat 0) s = s) by (rewrite Z.add_0_r; by destruct s).
  destruct a; cbn [encodes operand_bytes eval_arg argument] in *; cbn [length] in *; rewrite ?E0; subst;
    try reflexivity.
  - unfold bind. by rewrite H1.
  - unfold bind. by rewrite H2.
  - unfold bind. by rewrite Hu.
  - unfold bind. by rewrite H4.
Qed.

(** The opcode is fetched and its case found. *)
Lemma do_instr_escaped e base b s :
  e = SECONDARY /\ base = SEC_BASE \/ e = TERTIARY /\ base = TERT_BASE ->
  text_at (PC s) [e; b] -> PC s + 2 < 2 ^ 64 ->
  (x ← nextPCbyte; do_instr x) s = do_case (base + b) (set_PC (PC s + 2) s).
Proof.
  intros He H Hpc. apply (text_at_app _ [e] [b]) in H as [Hte Htb]. cbn [length] in Htb.
  assert (Eb : nextPCbyte (set_PC (PC s + 1) s) = Ret b (set_PC (PC s + 2) s)).
  { rewrite (nextPCbyte_at b) by (done || (cbn [PC set_PC]; lia)). cbn [PC set_PC].
    by replace (PC s + 1 + 1) with (PC s + 2) by lia. }
  run. rewrite (nextPCbyte_at e) by (done || lia). run.
  unfold do_instr. destruct He as [[-> ->]|[-> ->]]; cbn [Z.eqb Pos.eqb SECONDARY TERTIARY]; run; by rewrite Eb.
Qed.
Lemma do_instr_at opc m a s :
  (opc, (m, a)) ∈ DoCases -> text_at (PC s) (opcode_bytes opc) -> PC s + 2 < 2 ^ 64 ->
  (b ← nextPCbyte; do_instr b) s =
  (x ← eval_arg a; dispatch m x) (set_PC (PC s + Z.of_nat (length (opcode_bytes opc))) s).
Proof.
  intros Hin Ht Hpc. pose proof Ht as (H0 & _).
  assert (Hc : do_case opc = (x ← eval_arg a; dispatch m x)).
  { unfold do_case. by rewrite (proj2 (find_case_spec _ _ _ DoCases_NoDup) Hin). }
  pose proof DoCases_legal as Hl. rewrite Forall_forall in Hl. specialize (Hl _ Hin).
  rewrite <- Hc. unfold opcode_bytes, legal_opcode in *. cbn [fst] in Hl.
  destruct (Z.ltb_spec opc SEC_BASE); [|destruct (Z.ltb_spec opc TERT_BASE)].
  - run. rewrite (nextPCbyte_at opc) by (done || lia). run. unfold do_instr.
    unfold SECONDARY, TERTIARY, SEC_BASE, TERT_BASE in *.
    replace (opc =? 254) with false by lia. by replace (opc =? 255) with false by lia.
  - rewrite (do_instr_escaped SECONDARY SEC_BASE (opc - SEC_BASE)) by (auto || lia). cbn [length].
    by replace (SEC_BASE + (opc - SEC_BASE)) with opc by lia.
  - rewrite (do_instr_escaped TERTIARY TERT_BASE (opc - TERT_BASE)) by (auto || lia). cbn [length].
    by replace (TERT_BASE + (opc - TERT_BASE)) with opc by lia.
Qed.

(** C2: executing an encoded instruction runs its routine: if the text at the
    program counter holds the opcode of a case of the generated switch, with its
    escape byte, and behind it the operand, most significant byte first, then one
    turn fetches exactly these bytes and calls the routine of the instruction with
    the operand, times the word size for the opcodes that count words. *)
Theorem instruction_roundtrip opc m a v s pr :
  (opc, (m, a)) ∈ DoCases -> encodes a v ->
  text_at (PC s) (opcode_bytes opc ++ operand_bytes a v) -> DB < 2 ^ 62 ->
  0 <= PI s -> proctab !! Z.to_nat (PI s) = Some pr -> pr_ep pr <= PC s < pr_ff pr ->
  let len := Z.of_nat (length (opcode_bytes opc ++ operand_bytes a v)) in
  one_instr s = (x ← argument a v; dispatch m x) (set_PC (PC s + len) s).
Proof.
  intros Hin He Ht Hdb Hpi Hpr Hpc len. pose proof Ht as (H0 & Hle & _).
  apply text_at_app in Ht as [Hto Hta]. pose proof Hto as (_ & Hle' & _).
  assert (Hlen : 0 < Z.of_nat (length (opcode_bytes opc))).
  { unfold opcode_bytes. repeat destruct (_ <? _); cbn; lia. }
  unfold one_instr. run. rewrite (newPC_run _ s pr) by done.
  replace (DB <=? PC s) with false by lia.
  replace ((PC s <? pr_ep pr) || (pr_ff pr <=? PC s)) with false by lia. run.
  assert (E : set_PC (PC s) s = s) by (by destruct s). rewrite E.
  pose proof (do_instr_at opc m a s Hin Hto ltac:(lia)) as Hi. run in Hi. rewrite Hi.
  rewrite (eval_arg_at a v) by (done || (cbn [PC set_PC]; lia)). cbn [PC set_PC].
  unfold len. rewrite length_app, Nat2Z.inj_add, Z.add_assoc. reflexivity.
Qed.

(** C35: the opcode table is unambiguous: mkiswitch accepts it, no opcode has two
    cases, no case uses an escape byte as its opcode, so every opcode selects at
    most one case; and every instruction of the machine has an opcode. *)
Theorem opcode_table_unambiguous :
  mkiswitch ip_spec = Some DoCases /\
  (forall opc m a m' a', (opc, (m, a)) ∈ DoCases -> (opc, (m', a')) ∈ DoCases -> m = m' /\ a = a') /\
  (forall opc c, find_case opc DoCases = Some c <-> (opc, c) ∈ DoCases) /\
  (forall opc c, (opc, c) ∈ DoCases -> legal_opcode opc = true) /\
  (forall m, exists opc a, (opc, (m, a)) ∈ DoCases).
Proof.
  pose proof (fun opc c => find_case_spec opc c _ DoCases_NoDup) as Hf. split_and!.
  - by vm_compute.
  - intros opc m a m' a' H H'. rewrite <- Hf in H, H'. split; congruence.
  - exact Hf.
  - intros opc c Hin. pose proof DoCases_legal as Hl. rewrite Forall_forall in Hl. by apply (Hl (opc, c)).
  - intros m. assert (H : existsb (fun c => mnem_code c.2.1 =? mnem_code m)%nat DoCases = true) by (destruct m; by vm_compute).
    apply existsb_exists in H as ([opc [m' a]] & Hin & E%Nat.eqb_eq). apply mnem_code_inj in E. cbn in E. subst m'.
    exists opc, a. by apply list_elem_of_In.
Qed.
End Decode.
