(* ===== verification/PrInstr.v ===== *)
(** * Printing instructions ([disassemble.c])

    The disassembler has a routine for each form of each instruction, which takes the
    operand from the text and prints the instruction. *)
From Stdlib Require Import ZArith Lia Bool String.
From stdpp Require Import base gmap list.
From S2P Require Import Prelude Machine Text Switch.
Local Open Scope string_scope.
Local Open Scope Z_scope.

(** What is printed: an address; the entry point of a procedure, with its number, the
    offset from the entry point and the number of locals; an instruction; an opcode
    that there is not. *)
Inductive dline :=
| LAddr (tc : Z) | LProc (idf off nloc : Z) | LInstr (mnem : string) (arg : option Z) | LBad (opcode tc : Z).

(** A routine reads at [TC] and moves it. *)
Definition D (A : Type) : Type := Z -> M (A * Z).
Definition dret {A} (a : A) : D A := fun tc => ret (a, tc).
Definition dbind {A B} (m : D A) (k : A -> D B) : D B := fun tc => p ← m tc; k p.1 p.2.
Notation "x ⟵ m ; k" := (dbind m (fun x => k))
  (at level 20, m at level 100, k at level 200, only parsing) : em_scope.
Local Open Scope em_scope.

Section Print.
Context {cfg : Config}.

(** ** Fetching operands *)
Definition nextTCbyte : D Z := fun tc => let tc := tc +p 1 in b ← text_loc (tc +p -1); ret (b, tc).
Definition St_arg (h : Z) : D Z := fun tc =>
  let tc := tc +p 1 in b ← text_loc (tc +p -1); ret (Z.shiftl h 8 + b, tc).
Definition Lt_arg_2 : D Z := fun tc =>
  let tc := tc +p 2 in
  b1 ← text_loc (tc +p -1); b2 ← text_loc (tc +p -2); ret (Z.lor b1 (Z.shiftl (s8 b2) 8), tc).
Definition Pt_arg_2 : D Z := Lt_arg_2.
Definition Nt_arg_2 : D Z := Lt_arg_2.
Definition Ut_arg : D Z := fun tc =>
  let tc := tc +p 2 in
  b1 ← text_loc (tc +p -1); b2 ← text_loc (tc +p -2); ret (Z.lor b1 (Z.shiftl b2 8), tc).
Definition Lt_arg_4 : D Z := fun tc =>
  let tc := tc +p 4 in
  b1 ← text_loc (tc +p -1); b2 ← text_loc (tc +p -2); b3 ← text_loc (tc +p -3); b4 ← text_loc (tc +p -4);
  ret (Z.lor b1 (Z.lor (Z.shiftl b2 8) (Z.lor (Z.shiftl b3 16) (Z.shiftl (s8 b4) 24))), tc).
Definition Pt_arg_4 : D Z := Lt_arg_4.
Definition Nt_arg_4 : D Z := Lt_arg_4.

(** ** Printing *)
Definition pr0 (name : string) : D dline := dret (LInstr name None).
Definition pr1 (name : string) (arg : Z) : D dline := dret (LInstr name (Some arg)).

Definition PrAARl2 (arg : Z) : D dline := v ⟵ Lt_arg_2; pr1 "AAR" (v * arg).
Definition PrAARm (arg : Z) : D dline := pr1 "AAR" arg.
Definition PrAARz : D dline := pr0 "AAR".
Definition PrADFl2 (arg : Z) : D dline := v ⟵ Lt_arg_2; pr1 "ADF" (v * arg).
Definition PrADFs (hob wfac : Z) : D dline := v ⟵ St_arg hob; pr1 "ADF" (v * wfac).
Definition PrADFz : D dline := pr0 "ADF".
Definition PrADIl2 (arg : Z) : D dline := v ⟵ Lt_arg_2; pr1 "ADI" (v * arg).
Definition PrADIm (arg : Z) : D dline := pr1 "ADI" arg.
Definition PrADIz : D dline := pr0 "ADI".
Definition PrADPl2 (arg : Z) : D dline := v ⟵ Lt_arg_2; pr1 "ADP" (v * arg).
Definition PrADPl4 (arg : Z) : D dline := v ⟵ Lt_arg_4; pr1 "ADP" (v * arg).
Definition PrADPm (arg : Z) : D dline := pr1 "ADP" arg.
Definition PrADPs (hob wfac : Z) : D dline := v ⟵ St_arg hob; pr1 "ADP" (v * wfac).
Definition PrADSl2 (arg : Z) : D dline := v ⟵ Lt_arg_2; pr1 "ADS" (v * arg).
Definition PrADSm (arg : Z) : D dline := pr1 "ADS" arg.
Definition PrADSz : D dline := pr0 "ADS".
Definition PrADUl2 (arg : Z) : D dline := v ⟵ Lt_arg_2; pr1 "ADU" (v * arg).
Definition PrADUz : D dline := pr0 "ADU".
Definition PrANDl2 (arg : Z) : D dline := v ⟵ Lt_arg_2; pr1 "AND" (v * arg).
Definition PrANDm (arg : Z) : D dline := pr1 "AND" arg.
Definition PrANDz : D dline := pr0 "AND".
Definition PrASPl2 (arg : Z) : D dline := v ⟵ Lt_arg_2; pr1 "ASP" (v * arg).
Definition PrASPl4 (arg : Z) : D dline := v ⟵ Lt_arg_4; pr1 "ASP" (v * arg).
Definition PrASPm (arg : Z) : D dline := pr1 "ASP" arg.
Definition PrASPs (hob wfac : Z) : D dline := v ⟵ St_arg hob; pr1 "ASP" (v * wfac).
Definition PrASSl2 (arg : Z) : D dline := v ⟵ Lt_arg_2; pr1 "ASS" (v * arg).
Definition PrASSz : D dline := pr0 "ASS".
Definition PrBEQl2 (arg : Z) : D dline := v ⟵ Lt_arg_2; pr1 "BEQ" (v * arg).
Definition PrBEQl4 (arg : Z) : D dline := v ⟵ Lt_arg_4; pr1 "BEQ" (v * arg).
Definition PrBEQs (hob wfac : Z) : D dline := v ⟵ St_arg hob; pr1 "BEQ" (v * wfac).
Definition PrBGEl2 (arg : Z) : D dline := v ⟵ Lt_arg_2; pr1 "BGE" (v * arg).
Definition PrBGEl4 (arg : Z) : D dline := v ⟵ Lt_arg_4; pr1 "BGE" (v * arg).
Definition PrBGEs (hob wfac : Z) : D dline := v ⟵ St_arg hob; pr1 "BGE" (v * wfac).
Definition PrBGTl2 (arg : Z) : D dline := v ⟵ Lt_arg_2; pr1 "BGT" (v * arg).
Definition PrBGTl4 (arg : Z) : D dline := v ⟵ Lt_arg_4; pr1 "BGT" (v * arg).
Definition PrBGTs (hob wfac : Z) : D dline := v ⟵ St_arg hob; pr1 "BGT" (v * wfac).
Definition PrBLEl2 (arg : Z) : D dline := v ⟵ Lt_arg_2; pr1 "BLE" (v * arg).
Definition PrBLEl4 (arg : Z) : D dline := v ⟵ Lt_arg_4; pr1 "BLE" (v * arg).
Definition PrBLEs (hob wfac : Z) : D dline := v ⟵ St_arg hob; pr1 "BLE" (v * wfac).
Definition PrBLMl2 (arg : Z) : D dline := v ⟵ Lt_arg_2; pr1 "BLM" (v * arg).
Definition PrBLMl4 (arg : Z) : D dline := v ⟵ Lt_arg_4; pr1 "BLM" (v * arg).
Definition PrBLMs (hob wfac : Z) : D dline := v ⟵ St_arg hob; pr1 "BLM" (v * wfac).
Definition PrBLSl2 (arg : Z) : D dline := v ⟵ Lt_arg_2; pr1 "BLS" (v * arg).
Definition PrBLSz : D dline := pr0 "BLS".
Definition PrBLTl2 (arg : Z) : D dline := v ⟵ Lt_arg_2; pr1 "BLT" (v * arg).
Definition PrBLTl4 (arg : Z) : D dline := v ⟵ Lt_arg_4; pr1 "BLT" (v * arg).
Definition PrBLTs (hob wfac : Z) : D dline := v ⟵ St_arg hob; pr1 "BLT" (v * wfac).
Definition PrBNEl2 (arg : Z) : D dline := v ⟵ Lt_arg_2; pr1 "BNE" (v * arg).
Definition PrBNEl4 (arg : Z) : D dline := v ⟵ Lt_arg_4; pr1 "BNE" (v * arg).
Definition PrBNEs (hob wfac : Z) : D dline := v ⟵ St_arg hob; pr1 "BNE" (v * wfac).
Definition PrBRAl2 (arg : Z) : D dline := v ⟵ Lt_arg_2; pr1 "BRA" (v * arg).
Definition PrBRAl4 (arg : Z) : D dline := v ⟵ Lt_arg_4; pr1 "BRA" (v * arg).
Definition PrBRAs (hob wfac : Z) : D dline := v ⟵ St_arg hob; pr1 "BRA" (v * wfac).
Definition PrCAIz : D dline := pr0 "CAI".
Definition PrCALl2 (arg : Z) : D dline := v ⟵ Lt_arg_2; pr1 "CAL" (v * arg).
Definition PrCALl4 (arg : Z) : D dline := v ⟵ Lt_arg_4; pr1 "CAL" (v * arg).
Definition PrCALm (arg : Z) : D dline := pr1 "CAL" arg.
Definition PrCALs (hob wfac : Z) : D dline := v ⟵ St_arg hob; pr1 "CAL" (v * wfac).
Definition PrCFFz : D dline := pr0 "CFF".
Definition PrCFIz : D dline := pr0 "CFI".
Definition PrCFUz : D dline := pr0 "CFU".
Definition PrCIFz : D dline := pr0 "CIF".
Definition PrCIIz : D dline := pr0 "CII".
Definition PrCIUz : D dline := pr0 "CIU".
Definition PrCMFl2 (arg : Z) : D dline := v ⟵ Lt_arg_2; pr1 "CMF" (v * arg).
Definition PrCMFs (hob wfac : Z) : D dline := v ⟵ St_arg hob; pr1 "CMF" (v * wfac).
Definition PrCMFz : D dline := pr0 "CMF".
Definition PrCMIl2 (arg : Z) : D dline := v ⟵ Lt_arg_2; pr1 "CMI" (v * arg).
Definition PrCMIm (arg : Z) : D dline := pr1 "CMI" arg.
Definition PrCMIz : D dline := pr0 "CMI".
Definition PrCMPz : D dline := pr0 "CMP".
Definition PrCMSl2 (arg : Z) : D dline := v ⟵ Lt_arg_2; pr1 "CMS" (v * arg).
Definition PrCMSs (hob wfac : Z) : D dline := v ⟵ St_arg hob; pr1 "CMS" (v * wfac).
Definition PrCMSz : D dline := pr0 "CMS".
Definition PrCMUl2 (arg : Z) : D dline := v ⟵ Lt_arg_2; pr1 "CMU" (v * arg).
Definition PrCMUz : D dline := pr0 "CMU".
Definition PrCOMl2 (arg : Z) : D dline := v ⟵ Lt_arg_2; pr1 "COM" (v * arg).
Definition PrCOMz : D dline := pr0 "COM".
Definition PrCSAl2 (arg : Z) : D dline := v ⟵ Lt_arg_2; pr1 "CSA" (v * arg).
Definition PrCSAm (arg : Z) : D dline := pr1 "CSA" arg.
Definition PrCSAz : D dline := pr0 "CSA".
Definition PrCSBl2 (arg : Z) : D dline := v ⟵ Lt_arg_2; pr1 "CSB" (v * arg).
Definition PrCSBm (arg : Z) : D dline := pr1 "CSB" arg.
Definition PrCSBz : D dline := pr0 "CSB".
Definition PrCUFz : D dline := pr0 "CUF".
Definition PrCUIz : D dline := pr0 "CUI".
Definition PrCUUz : D dline := pr0 "CUU".
Definition PrDCHz : D dline := pr0 "DCH".
Definition PrDECz : D dline := pr0 "DEC".
Definition PrDEEl2 (arg : Z) : D dline := v ⟵ Lt_arg_2; pr1 "DEE" (v * arg).
Definition PrDEEl4 (arg : Z) : D dline := v ⟵ Lt_arg_4; pr1 "DEE" (v * arg).
Definition PrDEEs (hob wfac : Z) : D dline := v ⟵ St_arg hob; pr1 "DEE" (v * wfac).
Definition PrDELn2 (arg : Z) : D dline := v ⟵ Nt_arg_2; pr1 "DEL" (v * arg).
Definition PrDELn4 (arg : Z) : D dline := v ⟵ Nt_arg_4; pr1 "DEL" (v * arg).
Definition PrDELp2 (arg : Z) : D dline := v ⟵ Pt_arg_2; pr1 "DEL" (v * arg).
Definition PrDELp4 (arg : Z) : D dline := v ⟵ Pt_arg_4; pr1 "DEL" (v * arg).
Definition PrDELs (hob wfac : Z) : D dline := v ⟵ St_arg hob; pr1 "DEL" (v * wfac).
Definition PrDUPl2 (arg : Z) : D dline := v ⟵ Lt_arg_2; pr1 "DUP" (v * arg).
Definition PrDUPm (arg : Z) : D dline := pr1 "DUP" arg.
Definition PrDUSl2 (arg : Z) : D dline := v ⟵ Lt_arg_2; pr1 "DUS" (v * arg).
Definition PrDUSz : D dline := pr0 "DUS".
Definition PrDVFl2 (arg : Z) : D dline := v ⟵ Lt_arg_2; pr1 "DVF" (v * arg).
Definition PrDVFs (hob wfac : Z) : D dline := v ⟵ St_arg hob; pr1 "DVF" (v * wfac).
Definition PrDVFz : D dline := pr0 "DVF".
Definition PrDVIl2 (arg : Z) : D dline := v ⟵ Lt_arg_2; pr1 "DVI" (v * arg).
Definition PrDVIm (arg : Z) : D dline := pr1 "DVI" arg.
Definition PrDVIz : D dline := pr0 "DVI".
Definition PrDVUl2 (arg : Z) : D dline := v ⟵ Lt_arg_2; pr1 "DVU" (v * arg).
Definition PrDVUz : D dline := pr0 "DVU".
Definition PrEXGl2 (arg : Z) : D dline := v ⟵ Lt_arg_2; pr1 "EXG" (v * arg).
Definition PrEXGs (hob wfac : Z) : D dline := v ⟵ St_arg hob; pr1 "EXG" (v * wfac).
Definition PrEXGz : D dline := pr0 "EXG".
Definition PrFEFl2 (arg : Z) : D dline := v ⟵ Lt_arg_2; pr1 "FEF" (v * arg).
Definition PrFEFz : D dline := pr0 "FEF".
Definition PrFIFl2 (arg : Z) : D dline := v ⟵ Lt_arg_2; pr1 "FIF" (v * arg).
Definition PrFIFz : D dline := pr0 "FIF".
Definition PrFILu (arg : Z) : D dline := v ⟵ Ut_arg; pr1 "FIL" (v * arg).
Definition PrFILl4 (arg : Z) : D dline := v ⟵ Lt_arg_4; pr1 "FIL" (v * arg).
Definition PrGTOu (arg : Z) : D dline := v ⟵ Ut_arg; pr1 "GTO" (v * arg).
Definition PrGTOl4 (arg : Z) : D dline := v ⟵ Lt_arg_4; pr1 "GTO" (v * arg).
Definition PrINCz : D dline := pr0 "INC".
Definition PrINEl2 (arg : Z) : D dline := v ⟵ Lt_arg_2; pr1 "INE" (v * arg).
Definition PrINEl4 (arg : Z) : D dline := v ⟵ Lt_arg_4; pr1 "INE" (v * arg).
Definition PrINEs (hob wfac : Z) : D dline := v ⟵ St_arg hob; pr1 "INE" (v * wfac).
Definition PrINLm (arg : Z) : D dline := pr1 "INL" arg.
Definition PrINLn2 (arg : Z) : D dline := v ⟵ Nt_arg_2; pr1 "INL" (v * arg).
Definition PrINLn4 (arg : Z) : D dline := v ⟵ Nt_arg_4; pr1 "INL" (v * arg).
Definition PrINLp2 (arg : Z) : D dline := v ⟵ Pt_arg_2; pr1 "INL" (v * arg).
Definition PrINLp4 (arg : Z) : D dline := v ⟵ Pt_arg_4; pr1 "INL" (v * arg).
Definition PrINLs (hob wfac : Z) : D dline := v ⟵ St_arg hob; pr1 "INL" (v * wfac).
Definition PrINNl2 (arg : Z) : D dline := v ⟵ Lt_arg_2; pr1 "INN" (v * arg).
Definition PrINNs (hob wfac : Z) : D dline := v ⟵ St_arg hob; pr1 "INN" (v * wfac).
Definition PrINNz : D dline := pr0 "INN".
Definition PrIORl2 (arg : Z) : D dline := v ⟵ Lt_arg_2; pr1 "IOR" (v * arg).
Definition PrIORm (arg : Z) : D dline := pr1 "IOR" arg.
Definition PrIORs (hob wfac : Z) : D dline := v ⟵ St_arg hob; pr1 "IOR" (v * wfac).
Definition PrIORz : D dline := pr0 "IOR".
Definition PrLAEu (arg : Z) : D dline := v ⟵ Ut_arg; pr1 "LAE" (v * arg).
Definition PrLAEl4 (arg : Z) : D dline := v ⟵ Lt_arg_4; pr1 "LAE" (v * arg).
Definition PrLAEs (hob wfac : Z) : D dline := v ⟵ St_arg hob; pr1 "LAE" (v * wfac).
Definition PrLALm (arg : Z) : D dline := pr1 "LAL" arg.
Definition PrLALn2 (arg : Z) : D dline := v ⟵ Nt_arg_2; pr1 "LAL" (v * arg).
Definition PrLALn4 (arg : Z) : D dline := v ⟵ Nt_arg_4; pr1 "LAL" (v * arg).
Definition PrLALp2 (arg : Z) : D dline := v ⟵ Pt_arg_2; pr1 "LAL" (v * arg).
Definition PrLALp4 (arg : Z) : D dline := v ⟵ Pt_arg_4; pr1 "LAL" (v * arg).
Definition PrLALs (hob wfac : Z) : D dline := v ⟵ St_arg hob; pr1 "LAL" (v * wfac).
Definition PrLARl2 (arg : Z) : D dline := v ⟵ Lt_arg_2; pr1 "LAR" (v * arg).
Definition PrLARm (arg : Z) : D dline := pr1 "LAR" arg.
Definition PrLARz : D dline := pr0 "LAR".
Definition PrLDCl2 (arg : Z) : D dline := v ⟵ Lt_arg_2; pr1 "LDC" (v * arg).
Definition PrLDCl4 (arg : Z) : D dline := v ⟵ Lt_arg_4; pr1 "LDC" (v * arg).
Definition PrLDCm (arg : Z) : D dline := pr1 "LDC" arg.
Definition PrLDEl2 (arg : Z) : D dline := v ⟵ Lt_arg_2; pr1 "LDE" (v * arg).
Definition PrLDEl4 (arg : Z) : D dline := v ⟵ Lt_arg_4; pr1 "LDE" (v * arg).
Definition PrLDEs (hob wfac : Z) : D dline := v ⟵ St_arg hob; pr1 "LDE" (v * wfac).
Definition PrLDFl2 (arg : Z) : D dline := v ⟵ Lt_arg_2; pr1 "LDF" (v * arg).
Definition PrLDFl4 (arg : Z) : D dline := v ⟵ Lt_arg_4; pr1 "LDF" (v * arg).
Definition PrLDLm (arg : Z) : D dline := pr1 "LDL" arg.
Definition PrLDLn2 (arg : Z) : D dline := v ⟵ Nt_arg_2; pr1 "LDL" (v * arg).
Definition PrLDLn4 (arg : Z) : D dline := v ⟵ Nt_arg_4; pr1 "LDL" (v * arg).
Definition PrLDLp2 (arg : Z) : D dline := v ⟵ Pt_arg_2; pr1 "LDL" (v * arg).
Definition PrLDLp4 (arg : Z) : D dline := v ⟵ Pt_arg_4; pr1 "LDL" (v * arg).
Definition PrLDLs (hob wfac : Z) : D dline := v ⟵ St_arg hob; pr1 "LDL" (v * wfac).
Definition PrLFRl2 (arg : Z) : D dline := v ⟵ Lt_arg_2; pr1 "LFR" (v * arg).
Definition PrLFRm (arg : Z) : D dline := pr1 "LFR" arg.
Definition PrLFRs (hob wfac : Z) : D dline := v ⟵ St_arg hob; pr1 "LFR" (v * wfac).
Definition PrLILm (arg : Z) : D dline := pr1 "LIL" arg.
Definition PrLILn2 (arg : Z) : D dline := v ⟵ Nt_arg_2; pr1 "LIL" (v * arg).
Definition PrLILn4 (arg : Z) : D dline := v ⟵ Nt_arg_4; pr1 "LIL" (v * arg).
Definition PrLILp2 (arg : Z) : D dline := v ⟵ Pt_arg_2; pr1 "LIL" (v * arg).
Definition PrLILp4 (arg : Z) : D dline := v ⟵ Pt_arg_4; pr1 "LIL" (v * arg).
Definition PrLILs (hob wfac : Z) : D dline := v ⟵ St_arg hob; pr1 "LIL" (v * wfac).
Definition PrLIMz : D dline := pr0 "LIM".
Definition PrLINl2 (arg : Z) : D dline := v ⟵ Lt_arg_2; pr1 "LIN" (v * arg).
Definition PrLINl4 (arg : Z) : D dline := v ⟵ Lt_arg_4; pr1 "LIN" (v * arg).
Definition PrLINs (hob wfac : Z) : D dline := v ⟵ St_arg hob; pr1 "LIN" (v * wfac).
Definition PrLNIz : D dline := pr0 "LNI".
Definition PrLOCl2 (arg : Z) : D dline := v ⟵ Lt_arg_2; pr1 "LOC" (v * arg).
Definition PrLOCl4 (arg : Z) : D dline := v ⟵ Lt_arg_4; pr1 "LOC" (v * arg).
Definition PrLOCm (arg : Z) : D dline := pr1 "LOC" arg.
Definition PrLOCs (hob wfac : Z) : D dline := v ⟵ St_arg hob; pr1 "LOC" (v * wfac).
Definition PrLOEl2 (arg : Z) : D dline := v ⟵ Lt_arg_2; pr1 "LOE" (v * arg).
Definition PrLOEl4 (arg : Z) : D dline := v ⟵ Lt_arg_4; pr1 "LOE" (v * arg).
Definition PrLOEs (hob wfac : Z) : D dline := v ⟵ St_arg hob; pr1 "LOE" (v * wfac).
Definition PrLOFl2 (arg : Z) : D dline := v ⟵ Lt_arg_2; pr1 "LOF" (v * arg).
Definition PrLOFl4 (arg : Z) : D dline := v ⟵ Lt_arg_4; pr1 "LOF" (v * arg).
Definition PrLOFm (arg : Z) : D dline := pr1 "LOF" arg.
Definition PrLOFs (hob wfac : Z) : D dline := v ⟵ St_arg hob; pr1 "LOF" (v * wfac).
Definition PrLOIl2 (arg : Z) : D dline := v ⟵ Lt_arg_2; pr1 "LOI" (v * arg).
Definition PrLOIl4 (arg : Z) : D dline := v ⟵ Lt_arg_4; pr1 "LOI" (v * arg).
Definition PrLOIm (arg : Z) : D dline := pr1 "LOI" arg.
Definition PrLOIs (hob wfac : Z) : D dline := v ⟵ St_arg hob; pr1 "LOI" (v * wfac).
Definition PrLOLm (arg : Z) : D dline := pr1 "LOL" arg.
Definition PrLOLn2 (arg : Z) : D dline := v ⟵ Nt_arg_2; pr1 "LOL" (v * arg).
Definition PrLOLn4 (arg : Z) : D dline := v ⟵ Nt_arg_4; pr1 "LOL" (v * arg).
Definition PrLOLp2 (arg : Z) : D dline := v ⟵ Pt_arg_2; pr1 "LOL" (v * arg).
Definition PrLOLp4 (arg : Z) : D dline := v ⟵ Pt_arg_4; pr1 "LOL" (v * arg).
Definition PrLOLs (hob wfac : Z) : D dline := v ⟵ St_arg hob; pr1 "LOL" (v * wfac).
Definition PrLORs (hob wfac : Z) : D dline := v ⟵ St_arg hob; pr1 "LOR" (v * wfac).
Definition PrLOSl2 (arg : Z) : D dline := v ⟵ Lt_arg_2; pr1 "LOS" (v * arg).
Definition PrLOSz : D dline := pr0 "LOS".
Definition PrLPBz : D dline := pr0 "LPB".
Definition PrLPIl2 (arg : Z) : D dline := v ⟵ Lt_arg_2; pr1 "LPI" (v * arg).
Definition PrLPIl4 (arg : Z) : D dline := v ⟵ Lt_arg_4; pr1 "LPI" (v * arg).
Definition PrLXAl2 (arg : Z) : D dline := v ⟵ Lt_arg_2; pr1 "LXA" (v * arg).
Definition PrLXAm (arg : Z) : D dline := pr1 "LXA" arg.
Definition PrLXLl2 (arg : Z) : D dline := v ⟵ Lt_arg_2; pr1 "LXL" (v * arg).
Definition PrLXLm (arg : Z) : D dline := pr1 "LXL" arg.
Definition PrMLFl2 (arg : Z) : D dline := v ⟵ Lt_arg_2; pr1 "MLF" (v * arg).
Definition PrMLFs (hob wfac : Z) : D dline := v ⟵ St_arg hob; pr1 "MLF" (v * wfac).
Definition PrMLFz : D dline := pr0 "MLF".
Definition PrMLIl2 (arg : Z) : D dline := v ⟵ Lt_arg_2; pr1 "MLI" (v * arg).
Definition PrMLIm (arg : Z) : D dline := pr1 "MLI" arg.
Definition PrMLIz : D dline := pr0 "MLI".
Definition PrMLUl2 (arg : Z) : D dline := v ⟵ Lt_arg_2; pr1 "MLU" (v * arg).
Definition PrMLUz : D dline := pr0 "MLU".
Definition PrMONz : D dline := pr0 "MON".
Definition PrNGFl2 (arg : Z) : D dline := v ⟵ Lt_arg_2; pr1 "NGF" (v * arg).
Definition PrNGFz : D dline := pr0 "NGF".
Definition PrNGIl2 (arg : Z) : D dline := v ⟵ Lt_arg_2; pr1 "NGI" (v * arg).
Definition PrNGIz : D dline := pr0 "NGI".
Definition PrNOPz : D dline := pr0 "NOP".
Definition PrRCKl2 (arg : Z) : D dline := v ⟵ Lt_arg_2; pr1 "RCK" (v * arg).
Definition PrRCKm (arg : Z) : D dline := pr1 "RCK" arg.
Definition PrRCKz : D dline := pr0 "RCK".
Definition PrRETl2 (arg : Z) : D dline := v ⟵ Lt_arg_2; pr1 "RET" (v * arg).
Definition PrRETm (arg : Z) : D dline := pr1 "RET" arg.
Definition PrRETs (hob wfac : Z) : D dline := v ⟵ St_arg hob; pr1 "RET" (v * wfac).
Definition PrRMIl2 (arg : Z) : D dline := v ⟵ Lt_arg_2; pr1 "RMI" (v * arg).
Definition PrRMIm (arg : Z) : D dline := pr1 "RMI" arg.
Definition PrRMIz : D dline := pr0 "RMI".
Definition PrRMUl2 (arg : Z) : D dline := v ⟵ Lt_arg_2; pr1 "RMU" (v * arg).
Definition PrRMUz : D dline := pr0 "RMU".
Definition PrROLl2 (arg : Z) : D dline := v ⟵ Lt_arg_2; pr1 "ROL" (v * arg).
Definition PrROLz : D dline := pr0 "ROL".
Definition PrRORl2 (arg : Z) : D dline := v ⟵ Lt_arg_2; pr1 "ROR" (v * arg).
Definition PrRORz : D dline := pr0 "ROR".
Definition PrRTTz : D dline := pr0 "RTT".
Definition PrSARl2 (arg : Z) : D dline := v ⟵ Lt_arg_2; pr1 "SAR" (v * arg).
Definition PrSARm (arg : Z) : D dline := pr1 "SAR" arg.
Definition PrSARz : D dline := pr0 "SAR".
Definition PrSBFl2 (arg : Z) : D dline := v ⟵ Lt_arg_2; pr1 "SBF" (v * arg).
Definition PrSBFs (hob wfac : Z) : D dline := v ⟵ St_arg hob; pr1 "SBF" (v * wfac).
Definition PrSBFz : D dline := pr0 "SBF".
Definition PrSBIl2 (arg : Z) : D dline := v ⟵ Lt_arg_2; pr1 "SBI" (v * arg).
Definition PrSBIm (arg : Z) : D dline := pr1 "SBI" arg.
Definition PrSBIz : D dline := pr0 "SBI".
Definition PrSBSl2 (arg : Z) : D dline := v ⟵ Lt_arg_2; pr1 "SBS" (v * arg).
Definition PrSBSz : D dline := pr0 "SBS".
Definition PrSBUl2 (arg : Z) : D dline := v ⟵ Lt_arg_2; pr1 "SBU" (v * arg).
Definition PrSBUz : D dline := pr0 "SBU".
Definition PrSDEu (arg : Z) : D dline := v ⟵ Ut_arg; pr1 "SDE" (v * arg).
Definition PrSDEl4 (arg : Z) : D dline := v ⟵ Lt_arg_4; pr1 "SDE" (v * arg).
Definition PrSDFl2 (arg : Z) : D dline := v ⟵ Lt_arg_2; pr1 "SDF" (v * arg).
Definition PrSDFl4 (arg : Z) : D dline := v ⟵ Lt_arg_4; pr1 "SDF" (v * arg).
Definition PrSDLn2 (arg : Z) : D dline := v ⟵ Nt_arg_2; pr1 "SDL" (v * arg).
Definition PrSDLn4 (arg : Z) : D dline := v ⟵ Nt_arg_4; pr1 "SDL" (v * arg).
Definition PrSDLp2 (arg : Z) : D dline := v ⟵ Pt_arg_2; pr1 "SDL" (v * arg).
Definition PrSDLp4 (arg : Z) : D dline := v ⟵ Pt_arg_4; pr1 "SDL" (v * arg).
Definition PrSDLs (hob wfac : Z) : D dline := v ⟵ St_arg hob; pr1 "SDL" (v * wfac).
Definition PrSETl2 (arg : Z) : D dline := v ⟵ Lt_arg_2; pr1 "SET" (v * arg).
Definition PrSETs (hob wfac : Z) : D dline := v ⟵ St_arg hob; pr1 "SET" (v * wfac).
Definition PrSETz : D dline := pr0 "SET".
Definition PrSIGz : D dline := pr0 "SIG".
Definition PrSILn2 (arg : Z) : D dline := v ⟵ Nt_arg_2; pr1 "SIL" (v * arg).
Definition PrSILn4 (arg : Z) : D dline := v ⟵ Nt_arg_4; pr1 "SIL" (v * arg).
Definition PrSILp2 (arg : Z) : D dline := v ⟵ Pt_arg_2; pr1 "SIL" (v * arg).
Definition PrSILp4 (arg : Z) : D dline := v ⟵ Pt_arg_4; pr1 "SIL" (v * arg).
Definition PrSILs (hob wfac : Z) : D dline := v ⟵ St_arg hob; pr1 "SIL" (v * wfac).
Definition PrSIMz : D dline := pr0 "SIM".
Definition PrSLIl2 (arg : Z) : D dline := v ⟵ Lt_arg_2; pr1 "SLI" (v * arg).
Definition PrSLIm (arg : Z) : D dline := pr1 "SLI" arg.
Definition PrSLIz : D dline := pr0 "SLI".
Definition PrSLUl2 (arg : Z) : D dline := v ⟵ Lt_arg_2; pr1 "SLU" (v * arg).
Definition PrSLUz : D dline := pr0 "SLU".
Definition PrSRIl2 (arg : Z) : D dline := v ⟵ Lt_arg_2; pr1 "SRI" (v * arg).
Definition PrSRIz : D dline := pr0 "SRI".
Definition PrSRUl2 (arg : Z) : D dline := v ⟵ Lt_arg_2; pr1 "SRU" (v * arg).
Definition PrSRUz : D dline := pr0 "SRU".
Definition PrSTEl2 (arg : Z) : D dline := v ⟵ Lt_arg_2; pr1 "STE" (v * arg).
Definition PrSTEl4 (arg : Z) : D dline := v ⟵ Lt_arg_4; pr1 "STE" (v * arg).
Definition PrSTEs (hob wfac : Z) : D dline := v ⟵ St_arg hob; pr1 "STE" (v * wfac).
Definition PrSTFl2 (arg : Z) : D dline := v ⟵ Lt_arg_2; pr1 "STF" (v * arg).
Definition PrSTFl4 (arg : Z) : D dline := v ⟵ Lt_arg_4; pr1 "STF" (v * arg).
Definition PrSTFm (arg : Z) : D dline := pr1 "STF" arg.
Definition PrSTFs (hob wfac : Z) : D dline := v ⟵ St_arg hob; pr1 "STF" (v * wfac).
Definition PrSTIl2 (arg : Z) : D dline := v ⟵ Lt_arg_2; pr1 "STI" (v * arg).
Definition PrSTIl4 (arg : Z) : D dline := v ⟵ Lt_arg_4; pr1 "STI" (v * arg).
Definition PrSTIm (arg : Z) : D dline := pr1 "STI" arg.
Definition PrSTIs (hob wfac : Z) : D dline := v ⟵ St_arg hob; pr1 "STI" (v * wfac).
Definition PrSTLm (arg : Z) : D dline := pr1 "STL" arg.
Definition PrSTLn2 (arg : Z) : D dline := v ⟵ Nt_arg_2; pr1 "STL" (v * arg).
Definition PrSTLn4 (arg : Z) : D dline := v ⟵ Nt_arg_4; pr1 "STL" (v * arg).
Definition PrSTLp2 (arg : Z) : D dline := v ⟵ Pt_arg_2; pr1 "STL" (v * arg).
Definition PrSTLp4 (arg : Z) : D dline := v ⟵ Pt_arg_4; pr1 "STL" (v * arg).
Definition PrSTLs (hob wfac : Z) : D dline := v ⟵ St_arg hob; pr1 "STL" (v * wfac).
Definition PrSTRs (hob wfac : Z) : D dline := v ⟵ St_arg hob; pr1 "STR" (v * wfac).
Definition PrSTSl2 (arg : Z) : D dline := v ⟵ Lt_arg_2; pr1 "STS" (v * arg).
Definition PrSTSz : D dline := pr0 "STS".
Definition PrTEQz : D dline := pr0 "TEQ".
Definition PrTGEz : D dline := pr0 "TGE".
Definition PrTGTz : D dline := pr0 "TGT".
Definition PrTLEz : D dline := pr0 "TLE".
Definition PrTLTz : D dline := pr0 "TLT".
Definition PrTNEz : D dline := pr0 "TNE".
Definition PrTRPz : D dline := pr0 "TRP".
Definition PrXORl2 (arg : Z) : D dline := v ⟵ Lt_arg_2; pr1 "XOR" (v * arg).
Definition PrXORz : D dline := pr0 "XOR".
Definition PrZEQl2 (arg : Z) : D dline := v ⟵ Lt_arg_2; pr1 "ZEQ" (v * arg).
Definition PrZEQl4 (arg : Z) : D dline := v ⟵ Lt_arg_4; pr1 "ZEQ" (v * arg).
Definition PrZEQs (hob wfac : Z) : D dline := v ⟵ St_arg hob; pr1 "ZEQ" (v * wfac).
Definition PrZERl2 (arg : Z) : D dline := v ⟵ Lt_arg_2; pr1 "ZER" (v * arg).
Definition PrZERs (hob wfac : Z) : D dline := v ⟵ St_arg hob; pr1 "ZER" (v * wfac).
Definition PrZERz : D dline := pr0 "ZER".
Definition PrZGEl2 (arg : Z) : D dline := v ⟵ Lt_arg_2; pr1 "ZGE" (v * arg).
Definition PrZGEl4 (arg : Z) : D dline := v ⟵ Lt_arg_4; pr1 "ZGE" (v * arg).
Definition PrZGEs (hob wfac : Z) : D dline := v ⟵ St_arg hob; pr1 "ZGE" (v * wfac).
Definition PrZGTl2 (arg : Z) : D dline := v ⟵ Lt_arg_2; pr1 "ZGT" (v * arg).
Definition PrZGTl4 (arg : Z) : D dline := v ⟵ Lt_arg_4; pr1 "ZGT" (v * arg).
Definition PrZGTs (hob wfac : Z) : D dline := v ⟵ St_arg hob; pr1 "ZGT" (v * wfac).
Definition PrZLEl2 (arg : Z) : D dline := v ⟵ Lt_arg_2; pr1 "ZLE" (v * arg).
Definition PrZLEl4 (arg : Z) : D dline := v ⟵ Lt_arg_4; pr1 "ZLE" (v * arg).
Definition PrZLEs (hob wfac : Z) : D dline := v ⟵ St_arg hob; pr1 "ZLE" (v * wfac).
Definition PrZLTl2 (arg : Z) : D dline := v ⟵ Lt_arg_2; pr1 "ZLT" (v * arg).
Definition PrZLTl4 (arg : Z) : D dline := v ⟵ Lt_arg_4; pr1 "ZLT" (v * arg).
Definition PrZLTs (hob wfac : Z) : D dline := v ⟵ St_arg hob; pr1 "ZLT" (v * wfac).
Definition PrZNEl2 (arg : Z) : D dline := v ⟵ Lt_arg_2; pr1 "ZNE" (v * arg).
Definition PrZNEl4 (arg : Z) : D dline := v ⟵ Lt_arg_4; pr1 "ZNE" (v * arg).
Definition PrZNEs (hob wfac : Z) : D dline := v ⟵ St_arg hob; pr1 "ZNE" (v * wfac).
Definition PrZREl2 (arg : Z) : D dline := v ⟵ Lt_arg_2; pr1 "ZRE" (v * arg).
Definition PrZREl4 (arg : Z) : D dline := v ⟵ Lt_arg_4; pr1 "ZRE" (v * arg).
Definition PrZREs (hob wfac : Z) : D dline := v ⟵ St_arg hob; pr1 "ZRE" (v * wfac).
Definition PrZRFl2 (arg : Z) : D dline := v ⟵ Lt_arg_2; pr1 "ZRF" (v * arg).
Definition PrZRFz : D dline := pr0 "ZRF".
Definition PrZRLm (arg : Z) : D dline := pr1 "ZRL" arg.
Definition PrZRLn2 (arg : Z) : D dline := v ⟵ Nt_arg_2; pr1 "ZRL" (v * arg).
Definition PrZRLn4 (arg : Z) : D dline := v ⟵ Nt_arg_4; pr1 "ZRL" (v * arg).
Definition PrZRLp2 (arg : Z) : D dline := v ⟵ Pt_arg_2; pr1 "ZRL" (v * arg).
Definition PrZRLp4 (arg : Z) : D dline := v ⟵ Pt_arg_4; pr1 "ZRL" (v * arg).
Definition PrZRLs (hob wfac : Z) : D dline := v ⟵ St_arg hob; pr1 "ZRL" (v * wfac).

(** ** The routines by name *)

(** The last letters of a name: no argument, mini, shortie, two bytes, four bytes. *)
End Print.
Inductive suffix := Sz | Sm | Ss | Sl2 | Sp2 | Sn2 | Su | Sl4 | Sp4 | Sn4.
#[export] Instance suffix_eq_decision : EqDecision suffix.
Proof. solve_decision. Defined.
Inductive routine := RNone (f : D dline) | RArg (f : Z -> D dline) | RShort (f : Z -> Z -> D dline).
Definition routines {cfg : Config} : list (mnem * suffix * routine) :=
  [(i_aar, Sl2, RArg PrAARl2); (i_aar, Sm, RArg PrAARm); (i_aar, Sz, RNone PrAARz);
   (i_adf, Sl2, RArg PrADFl2); (i_adf, Ss, RShort PrADFs); (i_adf, Sz, RNone PrADFz);
   (i_adi, Sl2, RArg PrADIl2); (i_adi, Sm, RArg PrADIm); (i_adi, Sz, RNone PrADIz);
   (i_adp, Sl2, RArg PrADPl2); (i_adp, Sl4, RArg PrADPl4); (i_adp, Sm, RArg PrADPm);
   (i_adp, Ss, RShort PrADPs); (i_ads, Sl2, RArg PrADSl2); (i_ads, Sm, RArg PrADSm);
   (i_ads, Sz, RNone PrADSz); (i_adu, Sl2, RArg PrADUl2); (i_adu, Sz, RNone PrADUz);
   (i_and, Sl2, RArg PrANDl2); (i_and, Sm, RArg PrANDm); (i_and, Sz, RNone PrANDz);
   (i_asp, Sl2, RArg PrASPl2); (i_asp, Sl4, RArg PrASPl4); (i_asp, Sm, RArg PrASPm);
   (i_asp, Ss, RShort PrASPs); (i_ass, Sl2, RArg PrASSl2); (i_ass, Sz, RNone PrASSz);
   (i_beq, Sl2, RArg PrBEQl2); (i_beq, Sl4, RArg PrBEQl4); (i_beq, Ss, RShort PrBEQs);
   (i_bge, Sl2, RArg PrBGEl2); (i_bge, Sl4, RArg PrBGEl4); (i_bge, Ss, RShort PrBGEs);
   (i_bgt, Sl2, RArg PrBGTl2); (i_bgt, Sl4, RArg PrBGTl4); (i_bgt, Ss, RShort PrBGTs);
   (i_ble, Sl2, RArg PrBLEl2); (i_ble, Sl4, RArg PrBLEl4); (i_ble, Ss, RShort PrBLEs);
   (i_blm, Sl2, RArg PrBLMl2); (i_blm, Sl4, RArg PrBLMl4); (i_blm, Ss, RShort PrBLMs);
   (i_bls, Sl2, RArg PrBLSl2); (i_bls, Sz, RNone PrBLSz); (i_blt, Sl2, RArg PrBLTl2);
   (i_blt, Sl4, RArg PrBLTl4); (i_blt, Ss, RShort PrBLTs); (i_bne, Sl2, RArg PrBNEl2);
   (i_bne, Sl4, RArg PrBNEl4); (i_bne, Ss, RShort PrBNEs); (i_bra, Sl2, RArg PrBRAl2);
   (i_bra, Sl4, RArg PrBRAl4); (i_bra, Ss, RShort PrBRAs); (i_cai, Sz, RNone PrCAIz);
   (i_cal, Sl2, RArg PrCALl2); (i_cal, Sl4, RArg PrCALl4); (i_cal, Sm, RArg PrCALm);
   (i_cal, Ss, RShort PrCALs); (i_cff, Sz, RNone PrCFFz); (i_cfi, Sz, RNone PrCFIz);
   (i_cfu, Sz, RNone PrCFUz); (i_cif, Sz, RNone PrCIFz); (i_cii, Sz, RNone PrCIIz);
   (i_ciu, Sz, RNone PrCIUz); (i_cmf, Sl2, RArg PrCMFl2); (i_cmf, Ss, RShort PrCMFs);
   (i_cmf, Sz, RNone PrCMFz); (i_cmi, Sl2, RArg PrCMIl2); (i_cmi, Sm, RArg PrCMIm);
   (i_cmi, Sz, RNone PrCMIz); (i_cmp, Sz, RNone PrCMPz); (i_cms, Sl2, RArg PrCMSl2);
   (i_cms, Ss, RShort PrCMSs); (i_cms, Sz, RNone PrCMSz); (i_cmu, Sl2, RArg PrCMUl2);
   (i_cmu, Sz, RNone PrCMUz); (i_com, Sl2, RArg PrCOMl2); (i_com, Sz, RNone PrCOMz);
   (i_csa, Sl2, RArg PrCSAl2); (i_csa, Sm, RArg PrCSAm); (i_csa, Sz, RNone PrCSAz);
   (i_csb, Sl2, RArg PrCSBl2); (i_csb, Sm, RArg PrCSBm); (i_csb, Sz, RNone PrCSBz);
   (i_cuf, Sz, RNone PrCUFz); (i_cui, Sz, RNone PrCUIz); (i_cuu, Sz, RNone PrCUUz);
   (i_dch, Sz, RNone PrDCHz); (i_dec, Sz, RNone PrDECz); (i_dee, Sl2, RArg PrDEEl2);
   (i_dee, Sl4, RArg PrDEEl4); (i_dee, Ss, RShort PrDEEs); (i_del, Sn2, RArg PrDELn2);
   (i_del, Sn4, RArg PrDELn4); (i_del, Sp2, RArg PrDELp2); (i_del, Sp4, RArg PrDELp4);
   (i_del, Ss, RShort PrDELs); (i_dup, Sl2, RArg PrDUPl2); (i_dup, Sm, RArg PrDUPm);
   (i_dus, Sl2, RArg PrDUSl2); (i_dus, Sz, RNone PrDUSz); (i_dvf, Sl2, RArg PrDVFl2);
   (i_dvf, Ss, RShort PrDVFs); (i_dvf, Sz, RNone PrDVFz); (i_dvi, Sl2, RArg PrDVIl2);
   (i_dvi, Sm, RArg PrDVIm); (i_dvi, Sz, RNone PrDVIz); (i_dvu, Sl2, RArg PrDVUl2);
   (i_dvu, Sz, RNone PrDVUz); (i_exg, Sl2, RArg PrEXGl2); (i_exg, Ss, RShort PrEXGs);
   (i_exg, Sz, RNone PrEXGz); (i_fef, Sl2, RArg PrFEFl2); (i_fef, Sz, RNone PrFEFz);
   (i_fif, Sl2, RArg PrFIFl2); (i_fif, Sz, RNone PrFIFz); (i_fil, Su, RArg PrFILu);
   (i_fil, Sl4, RArg PrFILl4); (i_gto, Su, RArg PrGTOu); (i_gto, Sl4, RArg PrGTOl4);
   (i_inc, Sz, RNone PrINCz); (i_ine, Sl2, RArg PrINEl2); (i_ine, Sl4, RArg PrINEl4);
   (i_ine, Ss, RShort PrINEs); (i_inl, Sm, RArg PrINLm); (i_inl, Sn2, RArg PrINLn2);
   (i_inl, Sn4, RArg PrINLn4); (i_inl, Sp2, RArg PrINLp2); (i_inl, Sp4, RArg PrINLp4);
   (i_inl, Ss, RShort PrINLs); (i_inn, Sl2, RArg PrINNl2); (i_inn, Ss, RShort PrINNs);
   (i_inn, Sz, RNone PrINNz); (i_ior, Sl2, RArg PrIORl2); (i_ior, Sm, RArg PrIORm);
   (i_ior, Ss, RShort PrIORs); (i_ior, Sz, RNone PrIORz); (i_lae, Su, RArg PrLAEu);
   (i_lae, Sl4, RArg PrLAEl4); (i_lae, Ss, RShort PrLAEs); (i_lal, Sm, RArg PrLALm);
   (i_lal, Sn2, RArg PrLALn2); (i_lal, Sn4, RArg PrLALn4); (i_lal, Sp2, RArg PrLALp2);
   (i_lal, Sp4, RArg PrLALp4); (i_lal, Ss, RShort PrLALs); (i_lar, Sl2, RArg PrLARl2);
   (i_lar, Sm, RArg PrLARm); (i_lar, Sz, RNone PrLARz); (i_ldc, Sl2, RArg PrLDCl2);
   (i_ldc, Sl4, RArg PrLDCl4); (i_ldc, Sm, RArg PrLDCm); (i_lde, Sl2, RArg PrLDEl2);
   (i_lde, Sl4, RArg PrLDEl4); (i_lde, Ss, RShort PrLDEs); (i_ldf, Sl2, RArg PrLDFl2);
   (i_ldf, Sl4, RArg PrLDFl4); (i_ldl, Sm, RArg PrLDLm); (i_ldl, Sn2, RArg PrLDLn2);
   (i_ldl, Sn4, RArg PrLDLn4); (i_ldl, Sp2, RArg PrLDLp2); (i_ldl, Sp4, RArg PrLDLp4);
   (i_ldl, Ss, RShort PrLDLs); (i_lfr, Sl2, RArg PrLFRl2); (i_lfr, Sm, RArg PrLFRm);
   (i_lfr, Ss, RShort PrLFRs); (i_lil, Sm, RArg PrLILm); (i_lil, Sn2, RArg PrLILn2);
   (i_lil, Sn4, RArg PrLILn4); (i_lil, Sp2, RArg PrLILp2); (i_lil, Sp4, RArg PrLILp4);
   (i_lil, Ss, RShort PrLILs); (i_lim, Sz, RNone PrLIMz); (i_lin, Sl2, RArg PrLINl2);
   (i_lin, Sl4, RArg PrLINl4); (i_lin, Ss, RShort PrLINs); (i_lni, Sz, RNone PrLNIz);
   (i_loc, Sl2, RArg PrLOCl2); (i_loc, Sl4, RArg PrLOCl4); (i_loc, Sm, RArg PrLOCm);
   (i_loc, Ss, RShort PrLOCs); (i_loe, Sl2, RArg PrLOEl2); (i_loe, Sl4, RArg PrLOEl4);
   (i_loe, Ss, RShort PrLOEs); (i_lof, Sl2, RArg PrLOFl2); (i_lof, Sl4, RArg PrLOFl4);
   (i_lof, Sm, RArg PrLOFm); (i_lof, Ss, RShort PrLOFs); (i_loi, Sl2, RArg PrLOIl2);
   (i_loi, Sl4, RArg PrLOIl4); (i_loi, Sm, RArg PrLOIm); (i_loi, Ss, RShort PrLOIs);
   (i_lol, Sm, RArg PrLOLm); (i_lol, Sn2, RArg PrLOLn2); (i_lol, Sn4, RArg PrLOLn4);
   (i_lol, Sp2, RArg PrLOLp2); (i_lol, Sp4, RArg PrLOLp4); (i_lol, Ss, RShort PrLOLs);
   (i_lor, Ss, RShort PrLORs); (i_los, Sl2, RArg PrLOSl2); (i_los, Sz, RNone PrLOSz);
   (i_lpb, Sz, RNone PrLPBz); (i_lpi, Sl2, RArg PrLPIl2); (i_lpi, Sl4, RArg PrLPIl4);
   (i_lxa, Sl2, RArg PrLXAl2); (i_lxa, Sm, RArg PrLXAm); (i_lxl, Sl2, RArg PrLXLl2);
   (i_lxl, Sm, RArg PrLXLm); (i_mlf, Sl2, RArg PrMLFl2); (i_mlf, Ss, RShort PrMLFs);
   (i_mlf, Sz, RNone PrMLFz); (i_mli, Sl2, RArg PrMLIl2); (i_mli, Sm, RArg PrMLIm);
   (i_mli, Sz, RNone PrMLIz); (i_mlu, Sl2, RArg PrMLUl2); (i_mlu, Sz, RNone PrMLUz);
   (i_mon, Sz, RNone PrMONz); (i_ngf, Sl2, RArg PrNGFl2); (i_ngf, Sz, RNone PrNGFz);
   (i_ngi, Sl2, RArg PrNGIl2); (i_ngi, Sz, RNone PrNGIz); (i_nop, Sz, RNone PrNOPz);
   (i_rck, Sl2, RArg PrRCKl2); (i_rck, Sm, RArg PrRCKm); (i_rck, Sz, RNone PrRCKz);
   (i_ret, Sl2, RArg PrRETl2); (i_ret, Sm, RArg PrRETm); (i_ret, Ss, RShort PrRETs);
   (i_rmi, Sl2, RArg PrRMIl2); (i_rmi, Sm, RArg PrRMIm); (i_rmi, Sz, RNone PrRMIz);
   (i_rmu, Sl2, RArg PrRMUl2); (i_rmu, Sz, RNone PrRMUz); (i_rol, Sl2, RArg PrROLl2);
   (i_rol, Sz, RNone PrROLz); (i_ror, Sl2, RArg PrRORl2); (i_ror, Sz, RNone PrRORz);
   (i_rtt, Sz, RNone PrRTTz); (i_sar, Sl2, RArg PrSARl2); (i_sar, Sm, RArg PrSARm);
   (i_sar, Sz, RNone PrSARz); (i_sbf, Sl2, RArg PrSBFl2); (i_sbf, Ss, RShort PrSBFs);
   (i_sbf, Sz, RNone PrSBFz); (i_sbi, Sl2, RArg PrSBIl2); (i_sbi, Sm, RArg PrSBIm);
   (i_sbi, Sz, RNone PrSBIz); (i_sbs, Sl2, RArg PrSBSl2); (i_sbs, Sz, RNone PrSBSz);
   (i_sbu, Sl2, RArg PrSBUl2); (i_sbu, Sz, RNone PrSBUz); (i_sde, Su, RArg PrSDEu);
   (i_sde, Sl4, RArg PrSDEl4); (i_sdf, Sl2, RArg PrSDFl2); (i_sdf, Sl4, RArg PrSDFl4);
   (i_sdl, Sn2, RArg PrSDLn2); (i_sdl, Sn4, RArg PrSDLn4); (i_sdl, Sp2, RArg PrSDLp2);
   (i_sdl, Sp4, RArg PrSDLp4); (i_sdl, Ss, RShort PrSDLs); (i_set, Sl2, RArg PrSETl2);
   (i_set, Ss, RShort PrSETs); (i_set, Sz, RNone PrSETz); (i_sig, Sz, RNone PrSIGz);
   (i_sil, Sn2, RArg PrSILn2); (i_sil, Sn4, RArg PrSILn4); (i_sil, Sp2, RArg PrSILp2);
   (i_sil, Sp4, RArg PrSILp4); (i_sil, Ss, RShort PrSILs); (i_sim, Sz, RNone PrSIMz);
   (i_sli, Sl2, RArg PrSLIl2); (i_sli, Sm, RArg PrSLIm); (i_sli, Sz, RNone PrSLIz);
   (i_slu, Sl2, RArg PrSLUl2); (i_slu, Sz, RNone PrSLUz); (i_sri, Sl2, RArg PrSRIl2);
   (i_sri, Sz, RNone PrSRIz); (i_sru, Sl2, RArg PrSRUl2); (i_sru, Sz, RNone PrSRUz);
   (i_ste, Sl2, RArg PrSTEl2); (i_ste, Sl4, RArg PrSTEl4); (i_ste, Ss, RShort PrSTEs);
   (i_stf, Sl2, RArg PrSTFl2); (i_stf, Sl4, RArg PrSTFl4); (i_stf, Sm, RArg PrSTFm);
   (i_stf, Ss, RShort PrSTFs); (i_sti, Sl2, RArg PrSTIl2); (i_sti, Sl4, RArg PrSTIl4);
   (i_sti, Sm, RArg PrSTIm); (i_sti, Ss, RShort PrSTIs); (i_stl, Sm, RArg PrSTLm);
   (i_stl, Sn2, RArg PrSTLn2); (i_stl, Sn4, RArg PrSTLn4); (i_stl, Sp2, RArg PrSTLp2);
   (i_stl, Sp4, RArg PrSTLp4); (i_stl, Ss, RShort PrSTLs); (i_str, Ss, RShort PrSTRs);
   (i_sts, Sl2, RArg PrSTSl2); (i_sts, Sz, RNone PrSTSz); (i_teq, Sz, RNone PrTEQz);
   (i_tge, Sz, RNone PrTGEz); (i_tgt, Sz, RNone PrTGTz); (i_tle, Sz, RNone PrTLEz);
   (i_tlt, Sz, RNone PrTLTz); (i_tne, Sz, RNone PrTNEz); (i_trp, Sz, RNone PrTRPz);
   (i_xor, Sl2, RArg PrXORl2); (i_xor, Sz, RNone PrXORz); (i_zeq, Sl2, RArg PrZEQl2);
   (i_zeq, Sl4, RArg PrZEQl4); (i_zeq, Ss, RShort PrZEQs); (i_zer, Sl2, RArg PrZERl2);
   (i_zer, Ss, RShort PrZERs); (i_zer, Sz, RNone PrZERz); (i_zge, Sl2, RArg PrZGEl2);
   (i_zge, Sl4, RArg PrZGEl4); (i_zge, Ss, RShort PrZGEs); (i_zgt, Sl2, RArg PrZGTl2);
   (i_zgt, Sl4, RArg PrZGTl4); (i_zgt, Ss, RShort PrZGTs); (i_zle, Sl2, RArg PrZLEl2);
   (i_zle, Sl4, RArg PrZLEl4); (i_zle, Ss, RShort PrZLEs); (i_zlt, Sl2, RArg PrZLTl2);
   (i_zlt, Sl4, RArg PrZLTl4); (i_zlt, Ss, RShort PrZLTs); (i_zne, Sl2, RArg PrZNEl2);
   (i_zne, Sl4, RArg PrZNEl4); (i_zne, Ss, RShort PrZNEs); (i_zre, Sl2, RArg PrZREl2);
   (i_zre, Sl4, RArg PrZREl4); (i_zre, Ss, RShort PrZREs); (i_zrf, Sl2, RArg PrZRFl2);
   (i_zrf, Sz, RNone PrZRFz); (i_zrl, Sm, RArg PrZRLm); (i_zrl, Sn2, RArg PrZRLn2);
   (i_zrl, Sn4, RArg PrZRLn4); (i_zrl, Sp2, RArg PrZRLp2); (i_zrl, Sp4, RArg PrZRLp4);
   (i_zrl, Ss, RShort PrZRLs)].
