(* ===== verification/Disasm.v ===== *)
(** * The disassembler ([disassemble.c], [switch/mkswitch.c])

    [mkswitch] turns the opcode table into the cases that call the printing routines;
    [disassemble] prints the text segment with the entry points of the procedures.
    It lists every program as it was encoded, and as the interpreter decodes it. *)
From Stdlib Require Import ZArith Lia Bool String Ascii Permutation Sorted.
From stdpp Require Import base gmap list.
From S2P Require Import Prelude Os Machine Text Switch Decode PrInstr.
Local Open Scope string_scope.
Local Open Scope Z_scope.
Local Open Scope list_scope.

(** ** [mkswitch]: the file [PrCases] *)

(** The arguments of the call in a case; the boolean says whether the factor is
    [wsize] or 1. *)
Inductive prargs := PNoArgs | PMini (newi : Z) (w : bool) | PShortie (newi : Z) (w : bool) | PFactor (w : bool).
Definition two_suffix (flgs : string) : suffix :=
  if flag_in flgs "P"%char then Sp2 else if flag_in flgs "N"%char then Sn2 else Sl2.
Definition four_suffix (flgs : string) : suffix :=
  if flag_in flgs "P"%char then Sp4 else if flag_in flgs "N"%char then Sn4 else Sl4.

Definition prcase : Type := mnem * suffix * prargs.
Definition pr_cases (l : spec_line) : option (list (Z * prcase)) :=
  let flgs := sp_flgs l in
  let w := flag_in flgs "w"%char in
  let case_ first i suf a := (base flgs + (first + i), (sp_mnem l, suf, a)) in
  if negb (flags_ok flgs) then None
  else
    match sp_nums l with
    | [first] =>
        if flag_in flgs "-"%char then Some [case_ first 0 Sz PNoArgs]
        else if flag_in flgs "2"%char then Some [case_ first 0 (two_suffix flgs) (PFactor w)]
        else if flag_in flgs "u"%char then Some [case_ first 0 Su (PFactor w)]
        else if flag_in flgs "4"%char then Some [case_ first 0 (four_suffix flgs) (PFactor w)]
        else None
    | [cnt; first] =>
        if flag_in flgs "m"%char then Some (map (fun i => case_ first i Sm (PMini (newi flgs i) w)) (upto cnt))
        else if flag_in flgs "s"%char then Some (map (fun i => case_ first i Ss (PShortie (newi flgs i) w)) (upto cnt))
        else None
    | _ => None
    end.
Fixpoint mkswitch (ls : list spec_line) : option (list (Z * prcase)) :=
  match ls with
  | [] => Some []
  | l :: ls' =>
      match pr_cases l, mkswitch ls' with
      | Some c, Some cs => Some (c ++ cs)
      | _, _ => None
      end
  end.
Definition PrCases : list (Z * prcase) := Eval vm_compute in default [] (mkswitch ip_spec).
Fixpoint find_pcase (opcode : Z) (l : list (Z * prcase)) : option prcase :=
  match l with [] => None | (n, c) :: l' => if opcode =? n then Some c else find_pcase opcode l' end.

(** The routine with a name. *)
Definition named (m : mnem) (suf : suffix) (e : mnem * suffix * routine) : bool :=
  (mnem_code e.1.1 =? mnem_code m)%nat && bool_decide (e.1.2 = suf).

Section Disassemble.
Context {cfg : Config}.

Definition find_routine (m : mnem) (suf : suffix) : option routine :=
  option_map snd (List.find (named m suf) routines).
(** The call of a case; a call of a routine that there is not, or with other
    arguments, would not compile. *)
Definition call_routine (r : routine) (a : prargs) : option (D dline) :=
  match r, a with
  | RNone f, PNoArgs => Some f
  | RArg f, PMini i w => Some (f (i * factor w))
  | RShort f, PShortie i w => Some (f i (factor w))
  | RArg f, PFactor w => Some (f (factor w))
  | _, _ => None
  end.
Definition compiled (c : prcase) : option (D dline) :=
  match find_routine c.1.1 c.1.2 with Some r => call_routine r c.2 | None => None end.

Definition pr_case (opcode : Z) : D dline :=
  match find_pcase opcode PrCases with
  | Some c => match compiled c with Some f => f | None => fun _ => undef end
  | None => fun tc => ret (LBad opcode tc, tc)
  end.
Definition do_pr_instr (opcode : Z) : D dline :=
  if opcode =? SECONDARY then b ⟵ nextTCbyte; pr_case (SEC_BASE + b)
  else if opcode =? TERTIARY then b ⟵ nextTCbyte; pr_case (TERT_BASE + b)
  else pr_case opcode.

(** ** [disassemble] *)
Record ep := mkEp { ep_idf : Z; ep_ep : Z; ep_nloc : Z }.

(** The entry points, in the order of the procedure table. *)
Definition collect (n : Z) : option (list ep) :=
  mapM (fun k => option_map (fun pr => mkEp (Z.of_nat k) (pr_ep pr) (pr_nloc pr)) (proctab !! k)) (seq 0 (Z.to_nat n)).

(** The very naive sorting algorithm. *)
Definition exchange_entries (i j : nat) (l : list ep) : list ep :=
  match l !! i, l !! j with
  | Some a, Some b => if negb (eqb (ep_ep a <? ep_ep b) (i <? j)%nat) then <[j := a]> (<[i := b]> l) else l
  | _, _ => l
  end.
Definition sort_turn (n i : nat) (l : list ep) : list ep := foldl (fun l j => exchange_entries i j l) l (seq 0 n).
Definition sort_entries (l : list ep) : list ep :=
  foldl (fun l i => sort_turn (length l) i l) l (seq 0 (length l)).

(** The loop prints the address at every tenth instruction, and an entry point when
    the text of its procedure is reached, one before every instruction. *)
Definition next_entry (tc : Z) (eps : list ep) : list dline * list ep :=
  match eps with
  | p :: eps' => if ep_ep p <=? tc then ([LProc (ep_idf p) (u64 (tc - ep_ep p)) (ep_nloc p)], eps') else ([], eps)
  | [] => ([], [])
  end.
Fixpoint disasm_loop (fuel : nat) (tc cnt : Z) (eps : list ep) : M (list dline) :=
  if tc <? DB then
    match fuel with
    | O => undef
    | S f =>
        let addr := if cnt =? 0 then [LAddr tc] else [] in
        let entry := next_entry tc eps in
        p ← (b ⟵ nextTCbyte; do_pr_instr b) tc;
        rest ← disasm_loop f p.2 (Z.rem (cnt + 1) 10) entry.2;
        ret (addr ++ entry.1 ++ [p.1] ++ rest)
    end
  else ret [].
(** Every turn takes a byte of the text. *)
Definition disassemble : M (list dline) :=
  match collect NProc with
  | Some eps => disasm_loop (Z.to_nat DB) 0 0 (sort_entries eps)
  | None => undef
  end.
End Disassemble.

(** ** The names of the instructions ([h/em_table]) *)
Definition mnem_name (m : mnem) : string :=
  match m with
  | i_aar => "AAR" | i_adf => "ADF" | i_adi => "ADI" | i_adp => "ADP" | i_ads => "ADS" | i_adu => "ADU" | i_and => "AND"
  | i_asp => "ASP" | i_ass => "ASS" | i_beq => "BEQ" | i_bge => "BGE" | i_bgt => "BGT" | i_ble => "BLE" | i_blm => "BLM"
  | i_bls => "BLS" | i_blt => "BLT" | i_bne => "BNE" | i_bra => "BRA" | i_cai => "CAI" | i_cal => "CAL" | i_cff => "CFF"
  | i_cfi => "CFI" | i_cfu => "CFU" | i_cif => "CIF" | i_cii => "CII" | i_ciu => "CIU" | i_cmf => "CMF" | i_cmi => "CMI"
  | i_cmp => "CMP" | i_cms => "CMS" | i_cmu => "CMU" | i_com => "COM" | i_csa => "CSA" | i_csb => "CSB" | i_cuf => "CUF"
  | i_cui => "CUI" | i_cuu => "CUU" | i_dch => "DCH" | i_dec => "DEC" | i_dee => "DEE" | i_del => "DEL" | i_dup => "DUP"
  | i_dus => "DUS" | i_dvf => "DVF" | i_dvi => "DVI" | i_dvu => "DVU" | i_exg => "EXG" | i_fef => "FEF" | i_fif => "FIF"
  | i_fil => "FIL" | i_gto => "GTO" | i_inc => "INC" | i_ine => "INE" | i_inl => "INL" | i_inn => "INN" | i_ior => "IOR"
  | i_lae => "LAE" | i_lal => "LAL" | i_lar => "LAR" | i_ldc => "LDC" | i_lde => "LDE" | i_ldf => "LDF" | i_ldl => "LDL"
  | i_lfr => "LFR" | i_lil => "LIL" | i_lim => "LIM" | i_lin => "LIN" | i_lni => "LNI" | i_loc => "LOC" | i_loe => "LOE"
  | i_lof => "LOF" | i_loi => "LOI" | i_lol => "LOL" | i_lor => "LOR" | i_los => "LOS" | i_lpb => "LPB" | i_lpi => "LPI"
  | i_lxa => "LXA" | i_lxl => "LXL" | i_mlf => "MLF" | i_mli => "MLI" | i_mlu => "MLU" | i_mon => "MON" | i_ngf => "NGF"
  | i_ngi => "NGI" | i_nop => "NOP" | i_rck => "RCK" | i_ret => "RET" | i_rmi => "RMI" | i_rmu => "RMU" | i_rol => "ROL"
  | i_ror => "ROR" | i_rtt => "RTT" | i_sar => "SAR" | i_sbf => "SBF" | i_sbi => "SBI" | i_sbs => "SBS" | i_sbu => "SBU"
  | i_sde => "SDE" | i_sdf => "SDF" | i_sdl => "SDL" | i_set => "SET" | i_sig => "SIG" | i_sil => "SIL" | i_sim => "SIM"
  | i_sli => "SLI" | i_slu => "SLU" | i_sri => "SRI" | i_sru => "SRU" | i_ste => "STE" | i_stf => "STF" | i_sti => "STI"
  | i_stl => "STL" | i_str => "STR" | i_sts => "STS" | i_teq => "TEQ" | i_tge => "TGE" | i_tgt => "TGT" | i_tle => "TLE"
  | i_tlt => "TLT" | i_tne => "TNE" | i_trp => "TRP" | i_xor => "XOR" | i_zeq => "ZEQ" | i_zer => "ZER" | i_zge => "ZGE"
  | i_zgt => "ZGT" | i_zle => "ZLE" | i_zlt => "ZLT" | i_zne => "ZNE" | i_zre => "ZRE" | i_zrf => "ZRF" | i_zrl => "ZRL"
  end.

(** ** The routines print what their names say *)
Section Names.
Context {cfg : Config}.

(** What the routine for [m] with this ending does. *)
Definition says (m : mnem) (suf : suffix) : routine :=
  let name := mnem_name m in
  match suf with
  | Sz => RNone (pr0 name)
  | Sm => RArg (fun arg => pr1 name arg)
  | Ss => RShort (fun hob wfac => v ⟵ St_arg hob; pr1 name (v * wfac))
  | Sl2 | Sp2 | Sn2 => RArg (fun arg => v ⟵ Lt_arg_2; pr1 name (v * arg))
  | Su => RArg (fun arg => v ⟵ Ut_arg; pr1 name (v * arg))
  | Sl4 | Sp4 | Sn4 => RArg (fun arg => v ⟵ Lt_arg_4; pr1 name (v * arg))
  end.
Lemma routines_say : Forall (fun e => e.2 = says e.1.1 e.1.2) routines.
Proof. unfold routines. repeat (apply Forall_cons; split; [reflexivity|]). apply Forall_nil_2. Qed.
Lemma find_routine_says m suf r : find_routine m suf = Some r -> r = says m suf.
Proof.
  unfold find_routine. destruct (List.find (named m suf) routines) as [e|] eqn:E; [|done]. intros [= <-].
  apply find_some in E as [Hin Hn]. pose proof routines_say as H. rewrite List.Forall_forall in H.
  rewrite (H _ Hin). apply andb_true_iff in Hn as [Hm%Nat.eqb_eq Hs%bool_decide_eq_true_1].
  apply mnem_code_inj in Hm. by rewrite Hm, Hs.
Qed.

(** The argument expression of the interpreter and the call of the disassembler. *)
Definition same_form (a : argexpr) (suf : suffix) (args : prargs) : bool :=
  match a, args with
  | (AImplicit | ANone), PNoArgs => bool_decide (suf = Sz)
  | AMini i w, PMini i' w' => bool_decide (suf = Sm) && (i =? i') && eqb w w'
  | AShortie i w, PShortie i' w' => bool_decide (suf = Ss) && (i =? i') && eqb w w'
  | ATwoSgn w, PFactor w' => (bool_decide (suf = Sl2) || bool_decide (suf = Sp2) || bool_decide (suf = Sn2)) && eqb w w'
  | ATwoUns w, PFactor w' => bool_decide (suf = Su) && eqb w w'
  | AFourSgn w, PFactor w' => (bool_decide (suf = Sl4) || bool_decide (suf = Sp4) || bool_decide (suf = Sn4)) && eqb w w'
  | _, _ => false
  end.
Definition has_routine (m : mnem) (suf : suffix) : bool := existsb (named m suf) routines.
Definition agrees (c : Z * (mnem * argexpr)) : bool :=
  match find_pcase c.1 PrCases with
  | Some (m, suf, args) => (mnem_code m =? mnem_code c.2.1)%nat && same_form c.2.2 suf args && has_routine m suf
  | None => false
  end.
End Names.
Lemma cases_agree_all (cfg : Config) : forallb agrees DoCases = true.
Proof. by vm_compute. Qed.

(** ** Every encoded instruction is printed *)
Section Listing.
Context {cfg : Config}.

Lemma cases_agree opc m a :
  (opc, (m, a)) ∈ DoCases ->
  exists suf args, find_pcase opc PrCases = Some (m, suf, args) /\ same_form a suf args = true /\
    find_routine m suf = Some (says m suf).
Proof.
  intros Hin. pose proof (cases_agree_all cfg) as H. rewrite forallb_forall in H.
  apply list_elem_of_In in Hin. specialize (H _ Hin). unfold agrees in H. cbn [fst snd] in H.
  destruct (find_pcase opc PrCases) as [[[m' suf] args]|] eqn:E; [|done].
  apply andb_true_iff in H as [[Hm%Nat.eqb_eq Hf]%andb_true_iff Hr]. apply mnem_code_inj in Hm as ->.
  exists suf, args. split_and!; [done..|]. destruct (find_routine m suf) as [r|] eqn:Er.
  - by rewrite (find_routine_says _ _ _ Er).
  - exfalso. unfold find_routine in Er. destruct (List.find (named m suf) routines) as [e|] eqn:Ee; [done|].
    apply existsb_exists in Hr as (e & Hin' & He). by rewrite (find_none _ _ Ee e Hin') in He.
Qed.

(** Fetching at [TC] is fetching at [PC]. *)
Lemma text_loc_cases a : (exists b, forall s, text_loc a s = Ret b s) \/ forall s, text_loc a s = Undef.
Proof.
  unfold text_loc. destruct ((0 <=? a) && (a <? DB)); [|by right].
  destruct (text !! Z.to_nat a) as [b|]; [left; by exists b|by right].
Qed.
Ltac fetch_tac := unfold step_PC; run; cbn [PC set_PC];
  repeat match goal with |- context [text_loc ?a] =>
    destruct (text_loc_cases a) as [[? E]|E]; rewrite !E; clear E; run end; try done;
  let H := fresh in intros H; injection H as <- <-; done.
Definition fetches (d : D Z) (m : M Z) : Prop :=
  forall tc s v s', m (set_PC tc s) = Ret v s' -> d tc s = Ret (v, PC s') s.
Lemma fetches_2 : fetches Lt_arg_2 L_arg_2.
Proof. intros tc s v s'. unfold Lt_arg_2, L_arg_2. fetch_tac. Qed.
Lemma fetches_u : fetches Ut_arg U_arg.
Proof. intros tc s v s'. unfold Ut_arg, U_arg. fetch_tac. Qed.
Lemma fetches_4 : fetches Lt_arg_4 L_arg_4.
Proof. intros tc s v s'. unfold Lt_arg_4, L_arg_4. fetch_tac. Qed.
Lemma fetches_s h : fetches (St_arg h) (S_arg h).
Proof. intros tc s v s'. unfold St_arg, S_arg. fetch_tac. Qed.
Lemma fetches_b : fetches nextTCbyte nextPCbyte.
Proof. intros tc s v s'. unfold nextTCbyte, nextPCbyte. fetch_tac. Qed.

(** The operand as it is printed: counted in bytes; none is printed if it is on the
    stack. *)
Definition shown (a : argexpr) (v : Z) : option Z :=
  match a with
  | AImplicit | ANone => None
  | AMini _ w | AShortie _ w | ATwoSgn w | ATwoUns w | AFourSgn w => Some (v * factor w)
  end.
Definition width_of (a : argexpr) (v : Z) : Z := Z.of_nat (length (operand_bytes a v)).

Lemma pr_case_at opc m a v tc s :
  (opc, (m, a)) ∈ DoCases -> encodes a v -> text_at tc (operand_bytes a v) -> tc < 2 ^ 63 ->
  pr_case opc tc s = Ret (LInstr (mnem_name m) (shown a v), tc + width_of a v) s.
Proof.
  intros Hin He Ht Htc. destruct (cases_agree opc m a Hin) as (suf & args & Ef & Hsame & Er).
  unfold pr_case. rewrite Ef. unfold compiled. cbn [fst snd]. rewrite Er.
  destruct (operand_roundtrip v (set_PC tc s) Htc) as (H2 & Hu & H4 & H1).
  destruct a as [| |i w|i w|w|w|w], args as [|i' w'|i' w'|w']; try discriminate; cbn [same_form] in Hsame;
    repeat match goal with
    | H : _ && _ = true |- _ => apply andb_true_iff in H as [? ?]
    | H : _ || _ = true |- _ => apply orb_true_iff in H as [?|?]
    | H : bool_decide _ = true |- _ => apply bool_decide_eq_true_1 in H
    | H : (_ =? _) = true |- _ => apply Z.eqb_eq in H
    | H : eqb _ _ = true |- _ => apply eqb_prop in H
    end; subst; unfold width_of; cbn [says call_routine encodes operand_bytes shown length] in *.
  1-3: unfold pr0, pr1, dret; run; rewrite ?Z.add_0_r; subst; reflexivity.
  all: unfold dbind, bind;
    first [rewrite <- He, (fetches_s _ tc s _ _ (H1 Ht)) | rewrite (fetches_2 tc s _ _ (H2 He Ht))
          | rewrite (fetches_u tc s _ _ (Hu He Ht)) | rewrite (fetches_4 tc s _ _ (H4 He Ht))]; reflexivity.
Qed.

Lemma next_at b tc s : text_at tc [b] -> tc + 1 < 2 ^ 64 -> nextTCbyte tc s = Ret (b, tc + 1) s.
Proof. intros Ht Htc. by rewrite (fetches_b tc s _ _ (nextPCbyte_at b (set_PC tc s) Ht Htc)). Qed.

(** An instruction in the text is printed, and the next one is looked at. *)
Lemma print_instr opc m a v tc s :
  (opc, (m, a)) ∈ DoCases -> encodes a v -> text_at tc (opcode_bytes opc ++ operand_bytes a v) ->
  tc + 2 < 2 ^ 63 ->
  (b ⟵ nextTCbyte; do_pr_instr b) tc s =
    Ret (LInstr (mnem_name m) (shown a v), tc + Z.of_nat (length (opcode_bytes opc ++ operand_bytes a v))) s.
Proof.
  intros Hin He [Ho Ha]%text_at_app Htc. rewrite length_app, Nat2Z.inj_add, Z.add_assoc.
  pose proof DoCases_legal as Hl. rewrite Forall_forall in Hl. specialize (Hl _ Hin).
  unfold opcode_bytes, legal_opcode in *. cbn [fst] in Hl. unfold dbind, bind, do_pr_instr.
  destruct (Z.ltb_spec opc SEC_BASE); [|destruct (Z.ltb_spec opc TERT_BASE)]; cbn [length] in *.
  - rewrite (next_at opc) by (done || lia). cbn [fst snd]. unfold SECONDARY, TERTIARY, SEC_BASE, TERT_BASE in *.
    replace (opc =? 254) with false by lia. replace (opc =? 255) with false by lia.
    apply (pr_case_at opc m a v); [done..|lia].
  - apply (text_at_app _ [_] [_]) in Ho as [Ho1 Ho2]. cbn [length] in Ho2.
    rewrite (next_at SECONDARY) by (done || lia). cbn [fst snd]. change (SECONDARY =? SECONDARY) with true. cbv iota.
    unfold dbind, bind. rewrite (next_at (opc - SEC_BASE)) by (done || lia). cbn [fst snd].
    replace (SEC_BASE + (opc - SEC_BASE)) with opc by lia. replace (tc + 1 + 1) with (tc + Z.of_nat 2) by lia.
    apply (pr_case_at opc m a v); [done..|lia].
  - apply (text_at_app _ [_] [_]) in Ho as [Ho1 Ho2]. cbn [length] in Ho2.
    rewrite (next_at TERTIARY) by (done || lia). cbn [fst snd]. change (TERTIARY =? SECONDARY) with false.
    change (TERTIARY =? TERTIARY) with true. cbv iota.
    unfold dbind, bind. rewrite (next_at (opc - TERT_BASE)) by (done || lia). cbn [fst snd].
    replace (TERT_BASE + (opc - TERT_BASE)) with opc by lia. replace (tc + 1 + 1) with (tc + Z.of_nat 2) by lia.
    apply (pr_case_at opc m a v); [done..|lia].
Qed.
End Listing.

(** ** The entry points are sorted *)
Section Sorting.
Implicit Types l : list ep.

(** The first [i] entries are in order, and not above what follows them. *)
Definition sorted_to (i : nat) l : Prop :=
  forall a b x y, (a < i)%nat -> (a < b)%nat -> l !! a = Some x -> l !! b = Some y -> ep_ep x <= ep_ep y.
(** Entry [i] is the least of those from there to [j]. *)
Definition least_to (i j : nat) l : Prop :=
  forall b x y, (i < b < j)%nat -> l !! i = Some x -> l !! b = Some y -> ep_ep x <= ep_ep y.

Lemma exchange_entries_perm i j l : exchange_entries i j l ≡ₚ l.
Proof.
  unfold exchange_entries. destruct (l !! i) as [a|] eqn:Ei; [|done]. destruct (l !! j) as [b|] eqn:Ej; [|done].
  destruct (negb _); [|done]. by apply Permutation_insert_swap.
Qed.
Lemma exchange_below i j l : sorted_to i l -> (j <= i)%nat -> exchange_entries i j l = l.
Proof.
  intros Hs Hj. unfold exchange_entries. destruct (l !! i) as [a|] eqn:Ei; [|done]. destruct (l !! j) as [b|] eqn:Ej; [|done].
  replace (i <? j)%nat with false by (symmetry; apply Nat.ltb_ge; lia).
  replace (ep_ep a <? ep_ep b) with false; [done|]. symmetry. apply Z.ltb_ge.
  destruct (Nat.eq_dec j i) as [->|]; [by simplify_eq|]. apply (Hs j i b a); [lia..|done|done].
Qed.
Lemma exchange_above i j l :
  (i < j < length l)%nat -> sorted_to i l -> least_to i j l ->
  sorted_to i (exchange_entries i j l) /\ least_to i (S j) (exchange_entries i j l).
Proof.
  intros Hij Hs Hl. unfold exchange_entries.
  destruct (lookup_lt_is_Some_2 l i) as [a Ei]; [lia|]. destruct (lookup_lt_is_Some_2 l j) as [b Ej]; [lia|].
  rewrite Ei, Ej. replace (i <? j)%nat with true by (symmetry; apply Nat.ltb_lt; lia).
  destruct (Z.ltb_spec (ep_ep a) (ep_ep b)) as [Hlt|Hge]; cbn [eqb negb].
  { split; [done|]. intros c x y Hc Hx Hy. simplify_eq. destruct (Nat.eq_dec c j) as [->|]; [simplify_eq; lia|].
    apply (Hl c); [lia|done..]. }
  assert (G : forall c y, <[j:=a]> (<[i:=b]> l) !! c = Some y ->
    (c = i /\ y = b) \/ (c = j /\ y = a) \/ (c <> i /\ c <> j /\ l !! c = Some y)).
  { intros c y. destruct (Nat.eq_dec c j) as [->|]; [rewrite list_lookup_insert_eq by (rewrite length_insert; lia); intros [= <-]; auto|].
    rewrite list_lookup_insert_ne by done. destruct (Nat.eq_dec c i) as [->|]; [rewrite list_lookup_insert_eq by lia; intros [= <-]; auto|].
    rewrite list_lookup_insert_ne by done. auto. }
  split.
  - intros c d x y Hc Hcd Hx%G Hy%G. destruct Hx as [[-> _]|[[-> _]|(_ & _ & Hx)]]; [lia..|].
    destruct Hy as [[-> ->]|[[-> ->]|(_ & _ & Hy)]].
    + apply (Hs c j x b); [lia..|done|done].
    + apply (Hs c i x a); [lia..|done|done].
    + by apply (Hs c d).
  - intros c x y Hc Hx%G Hy%G. destruct Hx as [[_ ->]|[[-> _]|(? & _ & _)]]; [|lia..].
    destruct Hy as [[-> _]|[[-> ->]|(Hi & Hj & Hy)]]; [lia|done|].
    transitivity (ep_ep a); [done|]. apply (Hl c a y); [lia|done|done].
Qed.
(** A turn of the outer loop puts the least of the rest in its place. *)
Lemma sort_turn_sorted n i l :
  length l = n -> (i < n)%nat -> sorted_to i l ->
  sort_turn n i l ≡ₚ l /\ sorted_to (S i) (sort_turn n i l).
Proof.
  intros Hn Hi Hs. unfold sort_turn.
  assert (H : forall k, (k <= n)%nat -> let l' := foldl (fun l j => exchange_entries i j l) l (seq 0 k) in
    l' ≡ₚ l /\ sorted_to i l' /\ least_to i k l').
  { induction k as [|k IH]; intros Hk; cbv zeta.
    - split_and!; [done..|]. intros c x y Hc. lia.
    - rewrite seq_S, foldl_app. cbn [foldl Nat.add]. destruct IH as (Hp & Hs' & Hl'); [lia|]. set (l' := foldl _ _ _) in *.
      split; [by rewrite exchange_entries_perm|]. destruct (le_lt_dec k i) as [Hki|Hki].
      + rewrite exchange_below by done. split; [done|]. intros c x y Hc. lia.
      + apply exchange_above; [|done|done]. split; [done|]. rewrite Hp. lia. }
  destruct (H n ltac:(lia)) as (Hp & Hs' & Hl'). split; [done|]. intros a b x y Ha Hab Hx Hy.
  destruct (Nat.eq_dec a i) as [->|]; [|apply (Hs' a b); [lia|done..]].
  apply (Hl' b); [|done|done]. split; [done|]. apply lookup_lt_Some in Hy. by rewrite Hp, Hn in Hy.
Qed.
Lemma sort_entries_sorted l :
  sort_entries l ≡ₚ l /\ forall a b x y, (a < b)%nat -> sort_entries l !! a = Some x -> sort_entries l !! b = Some y -> ep_ep x <= ep_ep y.
Proof.
  unfold sort_entries. set (n := length l).
  assert (H : forall k, (k <= n)%nat -> let l' := foldl (fun l i => sort_turn (length l) i l) l (seq 0 k) in l' ≡ₚ l /\ sorted_to k l').
  { induction k as [|k IH]; intros Hk; cbv zeta.
    - split; [done|]. intros a b x y Ha. lia.
    - rewrite seq_S, foldl_app. cbn [foldl Nat.add]. destruct IH as (Hp & Hs); [lia|]. set (l' := foldl _ _ _) in *.
      assert (El : length l' = n) by (by rewrite Hp).
      destruct (sort_turn_sorted (length l') k l') as [Hp' Hs']; [done|lia|done|]. split; [by rewrite Hp'|done]. }
  destruct (H n ltac:(lia)) as [Hp Hs]. split; [done|]. intros a b x y Hab Hx Hy.
  apply (Hs a b); [|done..]. apply lookup_lt_Some in Hx. by rewrite Hp in Hx.
Qed.

Lemma sort_entries_strong l : StronglySorted (fun p q => ep_ep p <= ep_ep q) (sort_entries l).
Proof.
  destruct (sort_entries_sorted l) as [_ Hs]. induction (sort_entries l) as [|p k IH]; constructor.
  - apply IH. intros a b x y Hab Hx Hy. apply (Hs (S a) (S b)); [lia|done|done].
  - apply List.Forall_forall. intros q Hq. apply list_elem_of_In, list_elem_of_lookup in Hq as [b Hb].
    by apply (Hs O (S b)); [lia|..].
Qed.

(** C12: the very naive sorting algorithm sorts: the entry points come out in order of
    their addresses, and are the same ones. *)
Theorem entry_points_sorted l :
  Permutation (sort_entries l) l /\ StronglySorted (fun p q => ep_ep p <= ep_ep q) (sort_entries l).
Proof. split; [apply sort_entries_sorted | apply sort_entries_strong]. Qed.
End Sorting.

(** ** Disassembly of a program *)
Section Program.
Context {cfg : Config}.

(** An encoded instruction: the opcode, the instruction with the form of its
    argument, the operand. *)
Record einstr := mkInstr { e_opc : Z; e_mnem : mnem; e_arg : argexpr; e_val : Z }.
Definition einstr_ok (e : einstr) : Prop := (e_opc e, (e_mnem e, e_arg e)) ∈ DoCases /\ encodes (e_arg e) (e_val e).
Definition instr_bytes (e : einstr) : list Z := opcode_bytes (e_opc e) ++ operand_bytes (e_arg e) (e_val e).
Definition instr_len (e : einstr) : Z := Z.of_nat (length (instr_bytes e)).
Definition instr_line (e : einstr) : dline := LInstr (mnem_name (e_mnem e)) (shown (e_arg e) (e_val e)).
(** The addresses of the instructions. *)
Fixpoint starts (tc : Z) (il : list einstr) : list Z :=
  match il with [] => [] | e :: il' => tc :: starts (tc + instr_len e) il' end.

(** The listing that il meant: every instruction, at every tenth its address, and
    before the first instruction of a procedure its number and locals. *)
Definition entry_at (tc : Z) (eps : list ep) : list dline :=
  map (fun p => LProc (ep_idf p) 0 (ep_nloc p)) (List.filter (fun p => ep_ep p =? tc) eps).
Fixpoint listing (n : nat) (tc : Z) (eps : list ep) (il : list einstr) : list dline :=
  match il with
  | [] => []
  | e :: il' =>
      (if Z.of_nat n mod 10 =? 0 then [LAddr tc] else []) ++ entry_at tc eps ++
      [instr_line e] ++ listing (S n) (tc + instr_len e) eps il'
  end.

Lemma instr_len_pos e : 0 < instr_len e.
Proof.
  unfold instr_len, instr_bytes, opcode_bytes. rewrite length_app.
  repeat destruct (_ <? _); cbn [length]; lia.
Qed.
Lemma starts_ge il : forall tc a, In a (starts tc il) -> tc <= a.
Proof.
  induction il as [|e il IH]; intros tc a; cbn [starts In]; [done|]. intros [->|H]; [lia|].
  apply IH in H. pose proof (instr_len_pos e). lia.
Qed.
Lemma listing_ext il : forall n tc eps eps',
  (forall a, tc <= a -> entry_at a eps = entry_at a eps') -> listing n tc eps il = listing n tc eps' il.
Proof.
  induction il as [|e il IH]; intros n tc eps eps' H; [done|]. cbn [listing]. rewrite (H tc) by lia.
  do 3 f_equal. apply IH. intros a Ha. apply H. pose proof (instr_len_pos e). lia.
Qed.
Lemma entry_at_above a eps : Forall (fun p => a < ep_ep p) eps -> entry_at a eps = [].
Proof.
  intros H. unfold entry_at. induction H as [|p eps Hp _ IH]; [done|]. cbn [List.filter].
  by replace (ep_ep p =? a) with false by lia.
Qed.

Lemma disasm_loop_lists il : forall n tc eps fuel s,
  Forall einstr_ok il -> text_at tc (flat_map instr_bytes il) ->
  tc + Z.of_nat (length (flat_map instr_bytes il)) = DB -> DB < 2 ^ 62 ->
  (length (flat_map instr_bytes il) <= fuel)%nat ->
  StronglySorted (fun p q => ep_ep p < ep_ep q) eps ->
  Forall (fun p => tc <= ep_ep p /\ (In (ep_ep p) (starts tc il) \/ DB <= ep_ep p)) eps ->
  disasm_loop fuel tc (Z.of_nat n mod 10) eps s = Ret (listing n tc eps il) s.
Proof.
  induction il as [|e il IH]; intros n tc eps fuel s Hok Ht Hdb Hlt Hf Hs Hp; cbn [flat_map listing] in *.
  { cbn [length] in Hdb. unfold disasm_loop. destruct fuel; by replace (tc <? DB) with false by lia. }
  inversion Hok as [|? ? [Hin He] Hok']; subst. pose proof (instr_len_pos e) as Hpos. unfold instr_len in Hpos.
  rewrite length_app in Hdb, Hf. apply text_at_app in Ht as [Ht Ht'].
  destruct fuel as [|fuel]; [lia|]. cbn [disasm_loop]. replace (tc <? DB) with true by lia.
  unfold bind. rewrite (print_instr (e_opc e) (e_mnem e) (e_arg e) (e_val e)) by (done || lia). cbn [fst snd].
  fold (instr_bytes e). fold (instr_len e) in *.
  replace (Z.rem (Z.of_nat n mod 10 + 1) 10) with (Z.of_nat (S n) mod 10).
  2:{ pose proof (Z.mod_pos_bound (Z.of_nat n) 10 ltac:(lia)). rewrite Z.rem_mod_nonneg by lia.
      rewrite Nat2Z.inj_succ, <- Z.add_1_r. by rewrite Zplus_mod_idemp_l. }
  set (eps' := (next_entry tc eps).2).
  assert (H : (next_entry tc eps).1 = entry_at tc eps /\ StronglySorted (fun p q => ep_ep p < ep_ep q) eps' /\
     Forall (fun p => tc < ep_ep p) eps' /\ (forall q, In q eps' -> In q eps) /\
     (forall a, tc < a -> entry_at a eps = entry_at a eps')).
  { subst eps'. unfold next_entry. destruct eps as [|p eps]; [done|]. inversion Hs as [|? ? Hs' Hlt']; subst. inversion Hp as [|? ? [Hp1 _] _]; subst.
    destruct (Z.leb_spec (ep_ep p) tc) as [Hle|Hgt]; cbn [fst snd].
    - assert (ep_ep p = tc) by lia. assert (Ha : Forall (fun q => tc < ep_ep q) eps) by (eapply Forall_impl; [exact Hlt'|cbn; lia]).
      split_and!; [|done|done|by right|].
      + unfold entry_at. cbn [List.filter]. replace (ep_ep p =? tc) with true by lia. cbn [map].
        fold (entry_at tc eps). rewrite (entry_at_above tc eps Ha). by replace (tc - ep_ep p) with 0 by lia.
      + intros a Hta. unfold entry_at. cbn [List.filter]. by replace (ep_ep p =? a) with false by lia.
    - assert (Ha : Forall (fun q => tc < ep_ep q) (p :: eps)).
      { constructor; [done|]. eapply Forall_impl; [exact Hlt'|cbn; lia]. }
      split_and!; [by rewrite entry_at_above|done|done|done|done]. }
  destruct H as (E1 & Hs' & Ha & Hsub & Hext). rewrite E1.
  rewrite (IH (S n) (tc + instr_len e) eps' fuel s); [|done|done| unfold instr_len in *; lia|done|unfold instr_len in *; lia|done|].
  - run. rewrite (listing_ext il (S n) (tc + instr_len e) eps eps'); [done|]. intros a Hta. apply Hext. lia.
  - rewrite List.Forall_forall in Ha, Hp |- *. intros q Hq. pose proof (Ha q Hq). destruct (Hp q (Hsub q Hq)) as [_ [Hst|Hst]]; cbn [starts In] in Hst.
    + destruct Hst as [Hst|Hst]; [lia|]. split; [by apply (starts_ge il)|by left].
    + split; [|by right]. unfold instr_len. lia.
Qed.

(** A table without equal entry points. *)
Lemma entry_at_perm a l l' : NoDup (map ep_ep l) -> l ≡ₚ l' -> entry_at a l = entry_at a l'.
Proof.
  intros Hnd Hp. unfold entry_at. f_equal.
  assert (Hf : List.filter (fun p => ep_ep p =? a) l ≡ₚ List.filter (fun p => ep_ep p =? a) l').
  { clear Hnd. induction Hp as [|x l l' _ IH|x y l|l l' l'' _ IH1 _ IH2]; cbn [List.filter]; [done| | |by transitivity (List.filter (fun p => ep_ep p =? a) l')].
    - destruct (_ =? a); [by constructor|done].
    - destruct (ep_ep x =? a), (ep_ep y =? a); try done. apply perm_swap. }
  assert (Hl : (length (List.filter (fun p => (ep_ep p =? a)%Z) l) <= 1)%nat).
  { clear Hp Hf. induction l as [|p l IH]; cbn [List.filter map] in *; [cbn; lia|]. apply NoDup_cons in Hnd as [Hin Hnd].
    destruct (Z.eqb_spec (ep_ep p) a) as [E|]; [|by apply IH]. replace (List.filter _ l) with (@nil ep); [cbn; lia|].
    symmetry. destruct (List.filter (fun p => ep_ep p =? a) l) as [|q k] eqn:Ef; [done|]. exfalso. apply Hin.
    assert (Hq : In q (List.filter (fun p => ep_ep p =? a) l)) by (rewrite Ef; by left).
    apply filter_In in Hq as [Hq Hqa]. rewrite E. apply list_elem_of_In, in_map_iff. exists q. split; [lia|done]. }
  destruct (List.filter _ l) as [|p [|q k]]; [by apply Permutation_nil in Hf|by apply Permutation_length_1_inv in Hf|cbn in Hl; lia].
Qed.
Lemma sorted_strict l :
  StronglySorted (fun p q => ep_ep p <= ep_ep q) l -> NoDup (map ep_ep l) -> StronglySorted (fun p q => ep_ep p < ep_ep q) l.
Proof.
  induction 1 as [|p l _ IH Hp]; intros Hnd; constructor; cbn [map] in Hnd; apply NoDup_cons in Hnd as [Hin Hnd]; [by apply IH|].
  rewrite List.Forall_forall in Hp |- *. intros q Hq. specialize (Hp q Hq). cbn beta in Hp.
  assert (ep_ep p <> ep_ep q); [|lia]. intros E. apply Hin. rewrite E. by apply list_elem_of_In, in_map.
Qed.

(** C11: the disassembler lists a program as it was encoded: if the text segment holds
    a sequence of encoded instructions, and the procedures begin at different ones of
    them, every instruction is printed once, in order, with its name and operand, at
    every tenth the address, and before the first instruction of each procedure its
    number and locals; the machine is left as it was. *)
Theorem disassembly_lists_program il eps s :
  Forall einstr_ok il -> text_at 0 (flat_map instr_bytes il) ->
  Z.of_nat (length (flat_map instr_bytes il)) = DB -> DB < 2 ^ 62 ->
  collect NProc = Some eps -> NoDup (map ep_ep eps) ->
  Forall (fun p => In (ep_ep p) (starts 0 il) \/ DB <= ep_ep p) eps ->
  disassemble s = Ret (listing 0 0 eps il) s.
Proof.
  intros Hok Ht Hdb Hlt Hc Hnd Hp. unfold disassemble. rewrite Hc.
  destruct (sort_entries_sorted eps) as [Hperm _].
  assert (Hnd' : NoDup (map ep_ep (sort_entries eps))) by (by rewrite Hperm).
  change 0 with (Z.of_nat 0 mod 10) at 2.
  rewrite (disasm_loop_lists il 0 0); [|done|done|lia|done|lia| |].
  - f_equal. apply listing_ext. intros a _. by apply entry_at_perm.
  - by apply sorted_strict; [apply sort_entries_strong|].
  - rewrite Hperm. eapply Forall_impl; [exact Hp|]. cbn beta. intros p [H|H]; [|split; [lia|by right]].
    split; [by eapply starts_ge|by left].
Qed.
End Program.
