(* ===== verification/Silent.v ===== *)
(** * Warnings have no effect on the machine

    A computation is [blind] when it does the same from two states that differ only
    in the warning administration.  Every instruction is, so the counting and
    printing of warnings ([warn.c]) cannot change what a program does. *)
From Stdlib Require Import ZArith Lia Bool.
From stdpp Require Import base gmap list.
From S2P Require Import Prelude Os Machine Warn Mem Wp Data Stack Text Frame Instr Load Arith Logic Branch Pointer Misc Real Float.
From S2P Require Import Sigtrp Mon Switch Interp.

Section Blind.
Context {cfg : Config}.

(** The same outcome, up to the warning administration. *)
Definition same_outcome {A} (r1 r2 : result A) : Prop :=
  match r1, r2 with
  | Ret a s, Ret b s' => a = b /\ eqw s s'
  | Trap n s, Trap n' s' => n = n' /\ eqw s s'
  | Fatal f s, Fatal f' s' => f = f' /\ eqw s s'
  | Undef, Undef => True
  | _, _ => False
  end.
Definition blind {A} (m : M A) : Prop := forall s1 s2, eqw s1 s2 -> same_outcome (m s1) (m s2).

Lemma same_outcome_refl {A} (r : result A) : same_outcome r r.
Proof. by destruct r; cbn. Qed.
#[export] Instance blind_proper {A} (m : M A) : blind m -> Proper (eqw ==> same_outcome) m.
Proof. intros H s1 s2. apply H. Qed.

Lemma blind_bind {A B} (m : M A) (k : A -> M B) : blind m -> (forall a, blind (k a)) -> blind (bind m k).
Proof.
  intros Hm Hk s1 s2 Hs. specialize (Hm s1 s2 Hs). unfold bind.
  destruct (m s1), (m s2); try done. destruct Hm as [-> Hs']. by apply Hk.
Qed.
Lemma blind_ret {A} (a : A) : blind (ret a).
Proof. by intros s1 s2 Hs. Qed.
Lemma blind_trap {A} nr : blind (trap (A := A) nr).
Proof. by intros s1 s2 Hs. Qed.
Lemma blind_undef {A} : blind (undef (A := A)).
Proof. by intros s1 s2 Hs. Qed.
Lemma blind_fatal {A} f : blind (fatal (A := A) f).
Proof. by intros s1 s2 Hs. Qed.
Lemma blind_gets {A} (f : state -> A) : (forall w s, f (set_warn w s) = f s) -> blind (gets f).
Proof. intros H s1 s2 [w ->]. split; [by rewrite H | by eexists]. Qed.
Lemma blind_modify f : (forall w s, eqw (f s) (f (set_warn w s))) -> blind (modify f).
Proof. intros H s1 s2 [w ->]. split; [done | apply H]. Qed.
Lemma blind_when b m : blind m -> blind (when b m).
Proof. destruct b; [done | intros _; apply blind_ret]. Qed.
Lemma blind_if {A} (b : bool) (m m' : M A) : blind m -> blind m' -> blind (if b then m else m').
Proof. by destruct b. Qed.
(** An access to memory: a condition on the state, then an effect. *)
Lemma blind_guarded {A} (c : state -> bool) (f : state -> A) (g : state -> state) :
  (forall w s, c (set_warn w s) = c s) -> (forall w s, f (set_warn w s) = f s) ->
  (forall w s, eqw (g s) (g (set_warn w s))) ->
  blind (fun s => if c s then Ret (f s) (g s) else Undef).
Proof.
  intros Hc Hf Hg s1 s2 [w ->]. cbv beta. rewrite Hc. destruct (c s1); [|done]. by rewrite Hf.
Qed.
Lemma blind_check (c : state -> bool) (m : M unit) :
  (forall w s, c (set_warn w s) = c s) -> blind m -> blind (fun s => when (c s) m s).
Proof. intros Hc Hm s1 s2 [w ->]. cbv beta. rewrite Hc. apply blind_when; [done | by eexists]. Qed.
Lemma blind_catch {A} (m : M A) h : blind m -> (forall nr, blind (h nr)) -> blind (catch m h).
Proof.
  intros Hm Hh s1 s2 Hs. specialize (Hm s1 s2 Hs). unfold catch.
  destruct (m s1), (m s2); try done. destruct Hm as [-> Hs']. by apply Hh.
Qed.
Lemma blind_warning nr : blind (warning nr).
Proof.
  intros s1 s2 [w ->]. unfold warning. destruct (nr <? 0); [done|]. split; [done|]. by eexists.
Qed.
Lemma blind_warningcont nr : blind (warningcont nr).
Proof. intros s1 s2 [w ->]. split; [done|]. by eexists. Qed.
End Blind.

(** ** Automation

    The hint database holds the lemmas on primitives and loops; everything else is
    decomposed after its definition is unfolded. *)
Create HintDb blind discriminated.
#[export] Hint Resolve blind_ret blind_trap blind_undef blind_fatal blind_warning blind_warningcont : blind.
#[export] Hint Constants Opaque : blind.

Ltac head_of t := lazymatch t with ?f _ => head_of f | _ => t end.
Ltac blind_eqw := intros; eexists; reflexivity.
Ltac blind_step :=
  lazymatch goal with
  | |- blind (bind _ _) => apply blind_bind; [|intros ?]
  | |- blind (gets _) => apply blind_gets; intros; reflexivity
  | |- blind (modify _) => apply blind_modify; blind_eqw
  | |- blind (when _ _) => apply blind_when
  | |- blind (if ?b then _ else _) => first [apply blind_if | destruct b]
  | |- blind (match ?x with _ => _ end) => destruct x
  | |- blind (let _ := _ in _) => cbv zeta
  | |- blind ?m =>
      first [ solve [eauto 2 with blind]
            | let h := head_of m in is_const h; unfold h ]
  end.
Ltac blind_tac := repeat (cbv beta zeta; blind_step).

Section Primitives.
Context {cfg : Config}.

Ltac guarded := apply blind_guarded; [intros; reflexivity | intros; reflexivity | blind_eqw].
Lemma blind_data_loc a : blind (data_loc a).
Proof. guarded. Qed.
Lemma blind_stack_loc a : blind (stack_loc a).
Proof. guarded. Qed.
Lemma blind_dt_sh a : blind (dt_sh a).
Proof. guarded. Qed.
Lemma blind_st_sh a : blind (st_sh a).
Proof. guarded. Qed.
Lemma blind_set_data_loc a v : blind (set_data_loc a v).
Proof. guarded. Qed.
Lemma blind_set_stack_loc a v : blind (set_stack_loc a v).
Proof. guarded. Qed.
Lemma blind_set_dt_sh a v : blind (set_dt_sh a v).
Proof. guarded. Qed.
Lemma blind_set_st_sh a v : blind (set_st_sh a v).
Proof. guarded. Qed.
Lemma blind_AB_at i : blind (AB_at i).
Proof. guarded. Qed.
Lemma blind_set_AB_at i v : blind (set_AB_at i v).
Proof. guarded. Qed.
Lemma blind_FRA_at i : blind (FRA_at i).
Proof. guarded. Qed.
Lemma blind_FRA_sh_at i : blind (FRA_sh_at i).
Proof. guarded. Qed.
Lemma blind_set_FRA_at i v : blind (set_FRA_at i v).
Proof. guarded. Qed.
Lemma blind_set_FRA_sh_at i v : blind (set_FRA_sh_at i v).
Proof. guarded. Qed.
Lemma blind_ch_in_data a n : blind (ch_in_data a n).
Proof. apply (blind_check (fun s => negb (is_in_data a n s))); [done | apply blind_trap]. Qed.
Lemma blind_ch_in_stack a n : blind (ch_in_stack a n).
Proof. apply (blind_check (fun s => negb (is_in_stack a n s))); [done | apply blind_trap]. Qed.
Lemma blind_ch_w_in_stack a : blind (ch_w_in_stack a).
Proof. apply (blind_check (fun s => negb (w_is_in_stack a s))); [done | apply blind_trap]. Qed.
End Primitives.
#[export] Hint Resolve blind_data_loc blind_stack_loc blind_dt_sh blind_st_sh blind_set_data_loc blind_set_stack_loc
  blind_set_dt_sh blind_set_st_sh blind_AB_at blind_set_AB_at blind_FRA_at blind_FRA_sh_at blind_set_FRA_at
  blind_set_FRA_sh_at blind_ch_in_data blind_ch_in_stack blind_ch_w_in_stack : blind.

(** ** Loops *)
Section Loops.
Context {cfg : Config}.

Ltac loop k f := induction k as [|k IH]; intros; cbn [f]; blind_tac.
Lemma blind_bytes_in loc n : (forall a, blind (loc a)) -> forall a, blind (bytes_in loc a n).
Proof. intros H. loop n @bytes_in. Qed.
Lemma blind_dt_clear_loop k : forall a, blind (dt_clear_loop k a).
Proof. loop k @dt_clear_loop. Qed.
Lemma blind_dt_st_loop k : forall a l sh, blind (dt_st_loop k a l sh).
Proof. loop k @dt_st_loop. Qed.
Lemma blind_dt_bits_loop k : forall a x y, blind (dt_bits_loop k a x y).
Proof. loop k @dt_bits_loop. Qed.
Lemma blind_dt_ldu_loop k : forall a u, blind (dt_ldu_loop k a u).
Proof. loop k @dt_ldu_loop. Qed.
Lemma blind_dt_lds_loop k : forall a u, blind (dt_lds_loop k a u).
Proof. loop k @dt_lds_loop. Qed.
Lemma blind_dt_mvd_loop k : forall a b, blind (dt_mvd_loop k a b).
Proof. loop k @dt_mvd_loop. Qed.
Lemma blind_dt_mvs_loop k : forall a b, blind (dt_mvs_loop k a b).
Proof. loop k @dt_mvs_loop. Qed.
Lemma blind_st_clear_loop k : forall a, blind (st_clear_loop k a).
Proof. loop k @st_clear_loop. Qed.
Lemma blind_st_clear_up k : forall a, blind (st_clear_up k a).
Proof. loop k @st_clear_up. Qed.
Lemma blind_st_st_loop k : forall a l sh, blind (st_st_loop k a l sh).
Proof. loop k @st_st_loop. Qed.
Lemma blind_st_bits_loop k : forall a x y, blind (st_bits_loop k a x y).
Proof. loop k @st_bits_loop. Qed.
Lemma blind_st_ldu_loop k : forall a u, blind (st_ldu_loop k a u).
Proof. loop k @st_ldu_loop. Qed.
Lemma blind_st_lds_loop k : forall a u, blind (st_lds_loop k a u).
Proof. loop k @st_lds_loop. Qed.
Lemma blind_st_mvs_loop k : forall a b, blind (st_mvs_loop k a b).
Proof. loop k @st_mvs_loop. Qed.
Lemma blind_st_mvd_loop k : forall a b, blind (st_mvd_loop k a b).
Proof. loop k @st_mvd_loop. Qed.
Lemma blind_pop_frames_loop k : blind (pop_frames_loop k).
Proof. loop k @pop_frames_loop. Qed.
Lemma blind_ptr2seg_loop k p : blind (ptr2seg_loop k p).
Proof. loop k @ptr2seg_loop. Qed.
Lemma blind_pushFRA_loop k : forall i, blind (pushFRA_loop k i).
Proof. loop k @pushFRA_loop. Qed.
Lemma blind_popFRA_loop k : forall i, blind (popFRA_loop k i).
Proof. loop k @popFRA_loop. Qed.
Lemma blind_logic_loop op k : forall p l, blind (logic_loop op k p l).
Proof. loop k @logic_loop. Qed.
Lemma blind_com_loop k : forall p, blind (com_loop k p).
Proof. loop k @com_loop. Qed.
Lemma blind_compare_loop k : forall a b, blind (compare_loop k a b).
Proof. loop k @compare_loop. Qed.
End Loops.
#[export] Hint Resolve blind_bytes_in blind_dt_clear_loop blind_dt_st_loop blind_dt_bits_loop blind_dt_ldu_loop
  blind_dt_lds_loop blind_dt_mvd_loop blind_dt_mvs_loop blind_st_clear_loop blind_st_clear_up blind_st_st_loop
  blind_st_bits_loop blind_st_ldu_loop blind_st_lds_loop blind_st_mvs_loop blind_st_mvd_loop blind_pop_frames_loop
  blind_ptr2seg_loop blind_pushFRA_loop blind_popFRA_loop blind_logic_loop blind_com_loop blind_compare_loop : blind.

(** ** Routines *)
Section Routines.
Context {cfg : Config}.

Lemma blind_newHP p : blind (newHP p).
Proof. blind_tac. Qed.
#[local] Hint Resolve blind_newHP : blind.
Lemma blind_dt_stdp a l : blind (dt_stdp a l).
Proof. blind_tac. Qed.
#[local] Hint Resolve blind_dt_stdp : blind.
Lemma blind_dt_stip a l : blind (dt_stip a l).
Proof. blind_tac. Qed.
#[local] Hint Resolve blind_dt_stip : blind.
Lemma blind_dt_stn a l n : blind (dt_stn a l n).
Proof. blind_tac. Qed.
#[local] Hint Resolve blind_dt_stn : blind.
Lemma blind_dt_stw a l : blind (dt_stw a l).
Proof. blind_tac. Qed.
#[local] Hint Resolve blind_dt_stw : blind.
Lemma blind_dt_lddp a : blind (dt_lddp a).
Proof. blind_tac. Qed.
#[local] Hint Resolve blind_dt_lddp : blind.
Lemma blind_dt_ldip a : blind (dt_ldip a).
Proof. blind_tac. Qed.
#[local] Hint Resolve blind_dt_ldip : blind.
Lemma blind_dt_ldu a n : blind (dt_ldu a n).
Proof. blind_tac. Qed.
#[local] Hint Resolve blind_dt_ldu : blind.
Lemma blind_dt_lduw a : blind (dt_lduw a).
Proof. blind_tac. Qed.
#[local] Hint Resolve blind_dt_lduw : blind.
Lemma blind_dt_lds a n : blind (dt_lds a n).
Proof. blind_tac. Qed.
#[local] Hint Resolve blind_dt_lds : blind.
Lemma blind_dt_ldsw a : blind (dt_ldsw a).
Proof. blind_tac. Qed.
#[local] Hint Resolve blind_dt_ldsw : blind.
Lemma blind_dt_mvd a b n : blind (dt_mvd a b n).
Proof. blind_tac. Qed.
#[local] Hint Resolve blind_dt_mvd : blind.
Lemma blind_dt_mvs a b n : blind (dt_mvs a b n).
Proof. blind_tac. Qed.
#[local] Hint Resolve blind_dt_mvs : blind.
Lemma blind_newSP p : blind (newSP p).
Proof. blind_tac. Qed.
#[local] Hint Resolve blind_newSP : blind.
Lemma blind_incSP n : blind (incSP n).
Proof. blind_tac. Qed.
#[local] Hint Resolve blind_incSP : blind.
Lemma blind_decSP n : blind (decSP n).
Proof. blind_tac. Qed.
#[local] Hint Resolve blind_decSP : blind.
Lemma blind_newLB p : blind (newLB p).
Proof. blind_tac. Qed.
#[local] Hint Resolve blind_newLB : blind.
Lemma blind_st_inc n : blind (st_inc n).
Proof. blind_tac. Qed.
#[local] Hint Resolve blind_st_inc : blind.
Lemma blind_st_dec n : blind (st_dec n).
Proof. blind_tac. Qed.
#[local] Hint Resolve blind_st_dec : blind.
Lemma blind_st_stdp a l : blind (st_stdp a l).
Proof. blind_tac. Qed.
#[local] Hint Resolve blind_st_stdp : blind.
Lemma blind_st_stip a l : blind (st_stip a l).
Proof. blind_tac. Qed.
#[local] Hint Resolve blind_st_stip : blind.
Lemma blind_st_stn a l n : blind (st_stn a l n).
Proof. blind_tac. Qed.
#[local] Hint Resolve blind_st_stn : blind.
Lemma blind_st_stw a l : blind (st_stw a l).
Proof. blind_tac. Qed.
#[local] Hint Resolve blind_st_stw : blind.
Lemma blind_st_lddp a : blind (st_lddp a).
Proof. blind_tac. Qed.
#[local] Hint Resolve blind_st_lddp : blind.
Lemma blind_st_ldip a : blind (st_ldip a).
Proof. blind_tac. Qed.
#[local] Hint Resolve blind_st_ldip : blind.
Lemma blind_st_ldu a n : blind (st_ldu a n).
Proof. blind_tac. Qed.
#[local] Hint Resolve blind_st_ldu : blind.
Lemma blind_st_lduw a : blind (st_lduw a).
Proof. blind_tac. Qed.
#[local] Hint Resolve blind_st_lduw : blind.
Lemma blind_st_lds a n : blind (st_lds a n).
Proof. blind_tac. Qed.
#[local] Hint Resolve blind_st_lds : blind.
Lemma blind_st_ldsw a : blind (st_ldsw a).
Proof. blind_tac. Qed.
#[local] Hint Resolve blind_st_ldsw : blind.
Lemma blind_st_mvs a b n : blind (st_mvs a b n).
Proof. blind_tac. Qed.
#[local] Hint Resolve blind_st_mvs : blind.
Lemma blind_st_mvd a b n : blind (st_mvd a b n).
Proof. blind_tac. Qed.
#[local] Hint Resolve blind_st_mvd : blind.
Lemma blind_wpush l : blind (wpush l).
Proof. blind_tac. Qed.
#[local] Hint Resolve blind_wpush : blind.
Lemma blind_dppush l : blind (dppush l).
Proof. blind_tac. Qed.
#[local] Hint Resolve blind_dppush : blind.
Lemma blind_npush l n : blind (npush l n).
Proof. blind_tac. Qed.
#[local] Hint Resolve blind_npush : blind.
Lemma blind_spop n : blind (spop n).
Proof. blind_tac. Qed.
#[local] Hint Resolve blind_spop : blind.
Lemma blind_upop n : blind (upop n).
Proof. blind_tac. Qed.
#[local] Hint Resolve blind_upop : blind.
Lemma blind_dppop : blind dppop.
Proof. blind_tac. Qed.
#[local] Hint Resolve blind_dppop : blind.
Lemma blind_wpop : blind wpop.
Proof. blind_tac. Qed.
#[local] Hint Resolve blind_wpop : blind.
Lemma blind_swpop : blind swpop.
Proof. blind_tac. Qed.
#[local] Hint Resolve blind_swpop : blind.
Lemma blind_uwpop : blind uwpop.
Proof. blind_tac. Qed.
#[local] Hint Resolve blind_uwpop : blind.
Lemma blind_newPC p : blind (newPC p).
Proof. blind_tac. Qed.
#[local] Hint Resolve blind_newPC : blind.
Lemma blind_pushFRA n : blind (pushFRA n).
Proof. blind_tac. Qed.
#[local] Hint Resolve blind_pushFRA : blind.
Lemma blind_popFRA n : blind (popFRA n).
Proof. blind_tac. Qed.
#[local] Hint Resolve blind_popFRA : blind.
Lemma blind_putLIN l : blind (putLIN l).
Proof. blind_tac. Qed.
#[local] Hint Resolve blind_putLIN : blind.
Lemma blind_putFIL l : blind (putFIL l).
Proof. blind_tac. Qed.
#[local] Hint Resolve blind_putFIL : blind.
Lemma blind_pushrsb c : blind (pushrsb c).
Proof. blind_tac. Qed.
#[local] Hint Resolve blind_pushrsb : blind.
Lemma blind_poprsb b : blind (poprsb b).
Proof. blind_tac. Qed.
#[local] Hint Resolve blind_poprsb : blind.
Lemma blind_call p c : blind (call p c).
Proof. blind_tac. Qed.
#[local] Hint Resolve blind_call : blind.
Lemma blind_lfr n : blind (lfr n).
Proof. blind_tac. Qed.
#[local] Hint Resolve blind_lfr : blind.
Lemma blind_do_ret n : blind (do_ret n).
Proof. blind_tac. Qed.
#[local] Hint Resolve blind_do_ret : blind.

Ltac loop k f := induction k as [|k IH]; intros; cbn [f]; blind_tac.
Lemma blind_clear_set k : blind (clear_set k).
Proof. loop k @clear_set. Qed.
Lemma blind_lexback_loop k : forall lb, blind (lexback_loop k lb).
Proof. loop k @lexback_loop. Qed.
Lemma blind_search_loop k : forall p v n, blind (search_loop k p v n).
Proof. loop k @search_loop. Qed.
Lemma blind_gto_loop k : forall a b, blind (gto_loop k a b).
Proof. loop k @gto_loop. Qed.
Lemma blind_do_trap_rec d : forall nr, blind (do_trap_rec d nr).
Proof.
  induction d as [|d IH]; intros nr; cbn [do_trap_rec]; [blind_tac|].
  blind_tac. apply blind_catch; [blind_tac | apply IH].
Qed.
End Routines.
#[export] Hint Resolve blind_newHP blind_dt_stdp blind_dt_stip blind_dt_stn blind_dt_stw blind_dt_lddp
  blind_dt_ldip blind_dt_ldu blind_dt_lduw blind_dt_lds blind_dt_ldsw blind_dt_mvd blind_dt_mvs blind_newSP
  blind_incSP blind_decSP blind_newLB blind_st_inc blind_st_dec blind_st_stdp blind_st_stip blind_st_stn
  blind_st_stw blind_st_lddp blind_st_ldip blind_st_ldu blind_st_lduw blind_st_lds blind_st_ldsw blind_st_mvs
  blind_st_mvd blind_wpush blind_dppush blind_npush blind_spop blind_upop blind_dppop blind_wpop blind_swpop
  blind_uwpop blind_newPC blind_pushFRA blind_popFRA blind_putLIN blind_putFIL blind_pushrsb blind_poprsb
  blind_call blind_lfr blind_do_ret blind_clear_set blind_lexback_loop blind_search_loop blind_gto_loop
  blind_do_trap_rec : blind.

(** ** The machine *)

Section Machine.
Context {cfg : Config} {host : Host} {os : Os}.

Ltac loop k f := induction k as [|k IH]; intros; cbn [f]; blind_tac.
Lemma blind_os_ask c : blind (os_ask c).
Proof. intros s1 s2 [w ->]. split; [done | by eexists]. Qed.
#[local] Hint Resolve blind_os_ask : blind.
Lemma blind_highestfd k : forall fd, blind (highestfd k fd).
Proof. loop k @highestfd. Qed.
#[local] Hint Resolve blind_highestfd : blind.
Lemma blind_init_ofiles fn lg : blind (init_ofiles false fn lg).
Proof. unfold init_ofiles. blind_tac. Qed.
Lemma blind_deliver_all l : blind (deliver_all l).
Proof. loop l @deliver_all. Qed.
Lemma blind_strlen_loop k : forall a n, blind (strlen_loop k a n).
Proof. loop k @strlen_loop. Qed.
Lemma blind_strcpy_loop k : forall n i a, blind (strcpy_loop k n i a).
Proof. loop k @strcpy_loop. Qed.
#[local] Hint Resolve blind_init_ofiles blind_deliver_all blind_strlen_loop blind_strcpy_loop : blind.
Lemma blind_savestr n a : blind (savestr n a).
Proof. blind_tac. Qed.
#[local] Hint Resolve blind_savestr : blind.
Lemma blind_vec_count k : forall n2 a p e l, blind (vec_count k n2 a p e l).
Proof. loop k @vec_count. Qed.
Lemma blind_vec_copy k : forall n1 n2 p e c i, blind (vec_copy k n1 n2 p e c i).
Proof. loop k @vec_copy. Qed.
Lemma blind_mem_stflds a flds : forall vals, blind (mem_stflds a flds vals).
Proof. induction flds as [|[o l] flds IH]; intros [|v vals]; cbn [mem_stflds]; blind_tac. Qed.
Lemma blind_store_read l : forall a, blind (store_read l a).
Proof. loop l @store_read. Qed.
Lemma blind_warn_write k : forall a, blind (warn_write k a).
Proof. loop k @warn_write. Qed.
Lemma blind_load_write k : forall a i, blind (load_write k a i).
Proof. loop k @load_write. Qed.
#[local] Hint Resolve blind_vec_count blind_vec_copy blind_mem_stflds blind_store_read blind_warn_write
  blind_load_write : blind.
Lemma blind_mon_call n : blind (mon_call n).
Proof. unfold mon_call. repeat case_match; blind_tac. Qed.
#[local] Hint Resolve blind_mon_call : blind.
Lemma blind_eval_arg a : blind (eval_arg a).
Proof. destruct a; cbn [eval_arg]; blind_tac. Qed.
Lemma blind_dispatch m arg : blind (dispatch m arg).
Proof. destruct m; cbn [dispatch]; blind_tac. Qed.
#[local] Hint Resolve blind_eval_arg blind_dispatch : blind.
Lemma blind_do_case opc : blind (do_case opc).
Proof. unfold do_case. destruct (find_case opc DoCases) as [[m a]|]; blind_tac. Qed.
#[local] Hint Resolve blind_do_case : blind.
Lemma blind_one_instr : blind one_instr.
Proof. blind_tac. Qed.
#[local] Hint Resolve blind_one_instr : blind.
Lemma blind_turn : blind turn.
Proof. blind_tac. Qed.
Lemma blind_step armed : blind (step armed).
Proof. apply blind_catch; [apply blind_turn | intros nr; blind_tac]. Qed.

(** C3: the warnings that have been counted and printed have no effect on the
    program: from two states that differ only in the warning administration, every
    turn of the main loop has the same outcome, and runs of any length end in the
    same way, with the same registers and memory. *)
Theorem warnings_have_no_effect fuel armed s1 s2 :
  eqw s1 s2 ->
  same_outcome (step armed s1) (step armed s2) /\
  match run_loop fuel armed s1, run_loop fuel armed s2 with
  | Some r1, Some r2 => same_outcome r1 r2
  | None, None => True
  | _, _ => False
  end.
Proof.
  intros Hs. split; [by apply blind_step|]. revert armed s1 s2 Hs.
  induction fuel as [|f IH]; intros armed s1 s2 Hs; cbn [run_loop]; [done|].
  assert (running s2 = running s1) as -> by (by destruct Hs as [w ->]).
  destruct (running s1); [|done]. pose proof (blind_step armed s1 s2 Hs) as H.
  destruct (step armed s1), (step armed s2); try done. by apply IH, H.
Qed.
End Machine.
