(* ===== verification/Dump.v ===== *)
(** * Dumps of the memory ([dump.c])

    What the logging machine writes at the end of an instruction: the stack, the
    global data area, the heap and the Function Return Area, with the shadow bytes.
    A dump ends, leaves the machine as it is, and accounts for every byte; it goes wrong
    only if a run of undefined bytes is too long for its buffer. *)
From Stdlib Require Import ZArith Lia Bool String.
From stdpp Require Import base gmap list.
From S2P Require Import Prelude Os Machine Log Warn Mem Wp Data Stack StackSpec DataSpec Frame.
Local Open Scope string_scope.
Local Open Scope Z_scope.
Local Open Scope list_scope.

(** ** What is written *)

(** The number of undefined bytes, in words and the bytes on both sides. *)
Inductive undefs :=
| UBytes (n : Z) | UWords (wrds : Z) | UWordsBytes (wrds right : Z)
| UBytesWords (left wrds : Z) | UBytesWordsBytes (left wrds right : Z).
Inductive filename := FNull | FNotInGda | FName (buf : list Z).
Inductive value := VPointer (p : Z) | VWord (w : Z) | VByte.
Inductive pdescr := PUninit | PProc (pi nloc : Z) | PIllegal (pi : Z).
Inductive rsbname := STP | CAL | RTT | NRT | BadRSBCode.
Inductive dump := DStack (raw : bool) | DGda | DHeap.

Inductive logline :=
| TBlank | TRule | TColumns | TDots
| THead (d : dump) (inr : Z)
| TUndef (addr : Z)
| TUndefs (addr : Z) (u : undefs)
| TItem (addr byte : Z) (v : value) (sh : list Z)
| TFRA (size : Z) (def : bool)
| TFRAItem (addr byte : Z) (v : value) (sh : list Z)
| TRSB (code : rsbname) (pi : pdescr) (pc lb lin : Z) (fil : filename)
| TIncomplete
| TRegs (ab lb sp hp lin : Z) (fil : filename).

Section Dump.
Context {cfg : Config} (lg : logst).

(** [LOG((" cl..."))]: class letter, level digit. *)
Definition LOG (class level : Z) (t : logline) : list logline := if check_log lg class level then [t] else [].
#[local] Abbreviation LOGd := (LOG 100).  (* the class d: stack *)
#[local] Abbreviation LOGp := (LOG 43).   (* the class +: global data *)
#[local] Abbreviation LOGs := (LOG 42).   (* the class *: heap *)

(** ** Service routines *)

(** The shadow bytes from [low], [n] of them, taken together. *)
Fixpoint and_bytes (sh : Z -> M Z) (n : nat) (low byte : Z) : M Z :=
  match n with
  | O => ret byte
  | S n' => b ← sh low; and_bytes sh n' (low +p 1) (Z.land byte b)
  end.
Definition sh_bytes (sh : Z -> M Z) (low high bits : Z) : M Z :=
  byte ← and_bytes sh (Z.to_nat (high - low)) low bits; ret (Z.land byte bits).
Definition std_bytes : Z -> Z -> Z -> M Z := sh_bytes st_sh.
Definition dtd_bytes : Z -> Z -> Z -> M Z := sh_bytes dt_sh.
Definition FRAd_bytes : Z -> Z -> Z -> M Z := sh_bytes FRA_sh_at.

Definition split_undefs (nundef addr : Z) : undefs :=
  let left := wsize - 1 - (addr +p -1) mod wsize in
  let wrds := Z.quot (nundef - left) wsize in
  let right := nundef - left - wrds * wsize in
  if wrds =? 0 then UBytes nundef
  else if (left =? 0) && (right =? 0) then UWords wrds
  else if left =? 0 then UWordsBytes wrds right
  else if right =? 0 then UBytesWords left wrds
  else UBytesWordsBytes left wrds right.
(** The characters of a number, and of a number of bytes or words. *)
Fixpoint digits_of (turns : nat) (n : Z) : Z :=
  match turns with O => 1 | S k => if n <? 10 then 1 else 1 + digits_of k (n / 10) end.
Definition number_len (n : Z) : Z := if n <? 0 then 1 + digits_of 10 (- n) else digits_of 10 n.
Definition counted_len (n : Z) : Z := number_len n + 5 + (if n =? 1 then 0 else 1).
Definition undefs_len (u : undefs) : Z :=
  match u with
  | UBytes n => counted_len n
  | UWords w => counted_len w
  | UWordsBytes w r => counted_len w + 3 + counted_len r
  | UBytesWords l w => counted_len l + 3 + counted_len w
  | UBytesWordsBytes l w r => counted_len l + 3 + counted_len w + 3 + counted_len r
  end.
(** The text and its zero byte are written into 30 characters. *)
Definition displ_undefs (nundef addr : Z) : M undefs :=
  let u := split_undefs nundef addr in
  if undefs_len u + 1 <=? 30 then ret u else undef.

(** [buf] has 40 characters, the last of them for the zero byte. *)
Definition put_name (ch : Z) (buf : list Z) : list Z := if (length buf <? 39)%nat then buf ++ [ch] else buf.
Fixpoint displ_fil_loop (turns : nat) (fil : Z) (buf : list Z) : M (list Z) :=
  if in_gda fil then
    ch ← data_loc fil;
    if ch =? 0 then ret buf
    else
      match turns with
      | O => undef
      | S k => displ_fil_loop k (fil +p 1) (put_name (if (s8 ch <? 32) || (126 <? s8 ch) then 63 else s8 ch) buf)
      end
  else ret buf.
Definition displ_fil (fil : Z) : M filename :=
  let fil := u64 fil in
  if fil =? 0 then ret FNull
  else if HB <=? fil then ret FNotInGda
  else buf ← displ_fil_loop (Z.to_nat (HB - fil)) fil [34]; ret (FName (put_name 34 buf)).

(** In Fl Dp Ip, Prot, and the character if it is one. *)
Definition displ_sh (shadow byte : Z) : list Z :=
  let has b := negb (Z.land shadow b =? 0) in
  (if has SH_INT then str "In" else []) ++ (if has SH_FLOAT then str "Fl" else []) ++
  (if has SH_DATAP then str "Dp" else []) ++ (if has SH_INSP then str "Ip" else []) ++
  (if has SH_PROT then str ", Prot" else []) ++
  (if has SH_INT && ((32 <=? s8 byte) && (s8 byte <=? 126)) then str ", " ++ [s8 byte] ++ str " " else []).

Definition displ_code (rsbcode : Z) : rsbname :=
  if rsbcode =? RSB_STP then STP
  else if rsbcode =? RSB_CAL then CAL
  else if rsbcode =? RSB_RTT then RTT
  else if rsbcode =? RSB_NRT then NRT
  else BadRSBCode.

(** ** A byte and what it is the start of *)

Section Item.
(** The line that is written, the tests that a pointer or a word lies in the area,
    the bytes and the shadow bytes of the area. *)
Context (line : Z -> Z -> value -> list Z -> list logline).
Context (p_in w_in : Z -> state -> bool) (loc sh : Z -> M Z).

Definition item_value (addr : Z) : M value :=
  pin ← gets (p_in addr);
  p ← (if is_wordaligned addr && pin then sh_bytes sh addr (addr +p psize) (Z.lor SH_DATAP SH_INSP) else ret 0);
  if negb (p =? 0) then u ← bytes_in loc addr (if psize =? 2 then 2 else 4); ret (VPointer u)
  else
    win ← gets (w_in addr);
    w ← (if is_wordaligned addr && win then sh_bytes sh addr (addr +p wsize) SH_INT else ret 0);
    if negb (w =? 0) then
      u ← bytes_in loc addr (if wsize =? 2 then 2 else 4); ret (VWord (sext (8 * wsize) u))
    else ret VByte.
Definition item (addr : Z) : M (list logline) :=
  v ← item_value addr; b ← loc addr; x ← sh addr; ret (line addr b v (displ_sh x b)).
End Item.

Definition is_in_FRA (a n : Z) (s : state) : bool := a + n <=? FRASize s.
Definition std_item : Z -> M (list logline) :=
  item (fun a b v x => LOGd 2 (TItem a b v x)) (fun a s => is_in_stack a psize s) w_is_in_stack stack_loc st_sh.
Definition FRA_item : Z -> M (list logline) :=
  item (fun a b v x => LOGd 2 (TFRAItem a b v x)) (fun a s => is_in_FRA a psize s) (fun a s => is_in_FRA a wsize s)
    FRA_at FRA_sh_at.
Definition gdad_item : Z -> M (list logline) :=
  item (fun a b v x => LOGp 1 (TItem a b v x)) (fun a s => is_in_data a psize s) (fun a s => is_in_data a wsize s)
    data_loc dt_sh.
Definition hpd_item : Z -> M (list logline) :=
  item (fun a b v x => LOGs 1 (TItem a b v x)) (fun a s => is_in_data a psize s) (fun a s => is_in_data a wsize s)
    data_loc dt_sh.

(** ** Runs of undefined bytes *)

Definition left_undefs (class level nundef addr : Z) : M (list logline) :=
  if nundef =? 1 then ret []
  else if nundef =? 2 then ret (LOG class level (TUndef addr))
  else u ← displ_undefs nundef addr; ret (LOG class level TDots ++ LOG class level (TUndefs addr u)).
Definition std_left_undefs : Z -> Z -> M (list logline) := left_undefs 100 2.
Definition gdad_left_undefs : Z -> Z -> M (list logline) := left_undefs 43 1.
Definition hpd_left_undefs : Z -> Z -> M (list logline) := left_undefs 42 1.

(** The loop over an area, upwards ([d] is 1) or downwards ([d] is -1). *)
Section Loop.
Context (inside : Z -> M bool) (sh : Z -> M Z) (class level : Z) (left_undefs : Z -> Z -> M (list logline)).
Context (item : Z -> M (list logline)) (d : Z).
Definition pending (nundef addr : Z) : M (list logline) :=
  if nundef =? 0 then ret [] else left_undefs nundef (addr +p - d).
Fixpoint area_loop (turns : nat) (addr nundef : Z) : M (list logline * Z) :=
  more ← inside addr;
  if more then
    match turns with
    | O => undef
    | S k =>
        x ← sh addr;
        if x =? UNDEFINED then
          r ← area_loop k (addr +p d) (s32 (nundef + 1));
          ret ((if nundef =? 0 then LOG class level (TUndef addr) else []) ++ r.1, r.2)
        else
          u ← pending nundef addr;
          l ← item addr;
          r ← area_loop k (addr +p d) 0;
          ret (u ++ l ++ r.1, r.2)
    end
  else u ← pending nundef addr; ret (u, addr).
End Loop.

(** ** The stack *)

(** [rsbcode] is an [int]; the procedure number an unsigned value. *)
Definition std_rsb (addr : Z) : M (list logline * Z) :=
  here ← gets (in_stack addr);
  if negb here then ret ([], addr)
  else
    let dmp_lb := addr +p - (rsbsize - 1) in
    whole ← gets (in_stack dmp_lb);
    if negb whole then ret (LOGd 1 TIncomplete, dmp_lb)
    else
      code ← w_in_stack (dmp_lb +p rsb_rsbcode);
      pi ← p_in_stack (dmp_lb +p rsb_PI);
      pc ← p_in_stack (dmp_lb +p rsb_PC);
      lb ← p_in_stack (dmp_lb +p rsb_LB);
      lin ← bytes_in stack_loc (dmp_lb +p rsb_LIN) (Z.to_nat LINSIZE);
      fil ← p_in_stack (dmp_lb +p rsb_FIL);
      descr ← (if s64 pi =? -1 then ret PUninit
               else if s64 pi <? NProc then
                 match proctab !! Z.to_nat pi with Some pr => ret (PProc pi (pr_nloc pr)) | None => undef end
               else ret (PIllegal pi));
      name ← displ_fil fil;
      ret (LOGd 1 (TRSB (displ_code code) descr pc lb lin name) ++ LOGd 2 TBlank, addr +p - rsbsize).

Definition raw_inside (rawfl : bool) (addr : Z) : M bool :=
  here ← gets (in_stack addr);
  if here then x ← st_sh addr; ret ((Z.land x SH_PROT =? 0) || rawfl) else ret false.
Definition std_raw (rawfl : bool) (addr : Z) : M (list logline * Z) :=
  sp ← gets SP;
  r ← area_loop (raw_inside rawfl) st_sh 100 2 std_left_undefs std_item (-1) (Z.to_nat (addr + 1 - sp)) addr 0;
  ret (LOGd 2 TColumns ++ r.1, r.2).

Fixpoint FRA_items (n : nat) (addr : Z) : M (list logline) :=
  match n with
  | O => ret []
  | S n' => l ← FRA_item addr; r ← FRA_items n' (addr + 1); ret (l ++ r)
  end.
Definition FRA_dump : M (list logline) :=
  sz ← gets FRASize; def ← gets FRA_def;
  r ← FRA_items (Z.to_nat sz) 0;
  ret (LOGd 2 (TFRA sz (negb (def =? 0))) ++ r).

(** The first address from [addr] upwards with, or without, the protection. *)
Fixpoint find_prot (prot : bool) (turns : nat) (addr : Z) : M Z :=
  here ← gets (in_stack addr);
  if here then
    x ← st_sh addr;
    if eqb (Z.land x SH_PROT =? 0) prot then
      match turns with O => undef | S k => find_prot prot k (addr +p 1) end
    else ret addr
  else ret addr.
(** The first address from which the dump goes down: the highest one of a Return
    Status Block, or of the stack. *)
Definition start_address (sz : Z) : M Z :=
  sp ← gets SP;
  let turns := Z.to_nat (ML + 1 - sp) in
  addr ← find_prot true turns (if negb (sz =? 0) && (u64 sz <? u64 (ML - sp)) then sp +p sz else ML);
  addr ← find_prot false turns addr;
  ret (addr +p -1).

Fixpoint stack_loop (turns : nat) (rawfl : bool) (addr : Z) : M (list logline) :=
  here ← gets (in_stack addr);
  if here then
    match turns with
    | O => undef
    | S k =>
        r ← std_raw rawfl addr; q ← std_rsb r.2; l ← stack_loop k rawfl q.2;
        ret (r.1 ++ q.1 ++ l)
    end
  else ret [].
Definition std_all (sz rawfl : Z) : M (list logline) :=
  if negb (check_log lg 100 1) then ret []
  else
    let raw := negb (rawfl =? 0) in
    addr ← start_address sz;
    sp ← gets SP;
    body ← stack_loop (Z.to_nat (ML + 1 - sp)) raw addr;
    fra ← FRA_dump;
    fil ← gets FIL; name ← displ_fil fil;
    ab ← gets AB; lb ← gets LB; hp ← gets HP; lin ← gets LIN;
    ret (LOGd 2 TBlank ++ LOGd 2 (THead (DStack raw) (l_inr lg)) ++ LOGd 2 TRule ++ body ++ fra ++
         LOGd 1 (TRegs ab lb sp hp lin name) ++ LOGd 2 TRule ++ LOGd 2 TBlank).

(** ** The global data area and the heap *)
Definition gdad_all (low high : Z) : M (list logline) :=
  if negb (check_log lg 43 1) then ret []
  else
    let low := u64 low in
    let high := if (low =? 0) && (u64 high =? 0) then HB else u64 high in
    r ← area_loop (fun addr => ret (addr <? Z.min HB high)) dt_sh 43 1 gdad_left_undefs gdad_item 1 (Z.to_nat (Z.min HB high - low)) low 0;
    ret (LOGp 1 TBlank ++ LOGp 1 (THead DGda (l_inr lg)) ++ LOGp 1 TRule ++ LOGp 1 TColumns ++ r.1 ++
         LOGp 1 TRule ++ LOGp 1 TBlank).
Definition hpd_all : M (list logline) :=
  if negb (check_log lg 42 1) then ret []
  else
    hp ← gets HP;
    r ← area_loop (fun addr => hp ← gets HP; ret (addr <? hp)) dt_sh 42 1 hpd_left_undefs hpd_item 1 (Z.to_nat (hp - HB)) HB 0;
    ret (LOGs 1 TBlank ++ LOGs 1 (THead DHeap (l_inr lg)) ++ LOGs 1 TRule ++ LOGs 1 TColumns ++ r.1 ++
         LOGs 1 TRule ++ LOGs 1 TBlank).

(** The dumps at the end of an instruction ([log_eoi]). *)
Definition dumps : M (list logline) :=
  if logging lg then
    g ← (if l_inr lg =? gdump lg then gdad_all (gmin lg) (gmax lg) else ret []);
    h ← (if l_inr lg =? hdump lg then hpd_all else ret []);
    d ← std_all (stdsize lg) (stdrawflag lg);
    ret (g ++ h ++ d)
  else ret [].
End Dump.
