(* ===== verification/DumpSpec.v ===== *)
(** * What the dumps show

    The dumps of the stack, the global data area and the heap account for every byte
    of their area, once and in order; the dumps at the end of an instruction end and
    leave the machine as it is. *)
From Stdlib Require Import ZArith Lia Bool String.
From stdpp Require Import base gmap list.
From S2P Require Import Prelude Os Machine Log Warn Mem Wp Data Stack StackSpec DataSpec Frame Calls Dump.
Local Open Scope Z_scope.
Local Open Scope list_scope.

(** ** The split of a run of undefined bytes *)
Section Undefs.
Context {cfg : Config} {ok : ConfigOk}.

(** The bytes on the left, the words and the bytes on the right; without words, all
    bytes are together. *)
Definition split_of (u : undefs) : Z * Z * Z :=
  match u with
  | UBytes n => (n, 0, 0) | UWords w => (0, w, 0) | UWordsBytes w r => (0, w, r)
  | UBytesWords l w => (l, w, 0) | UBytesWordsBytes l w r => (l, w, r)
  end.

Lemma undefs_left a : 0 <= a < 2 ^ 62 -> wsize - 1 - (a +p -1) mod wsize = (- a) mod wsize.
Proof.
  intros Ha. unfold padd, u64. change (2 ^ 64) with 18446744073709551616. change (2 ^ 62) with 4611686018427387904 in Ha.
  sizes; Z.to_euclidean_division_equations; lia.
Qed.

(** [u] counts [n] bytes, of which [a] is the first: the words are aligned, and no word
    is counted only if none fits. *)
Definition counts (n a : Z) (u : undefs) : Prop :=
  let '(l, w, r) := split_of u in
  l + w * wsize + r = n /\ 0 <= w /\ 0 <= r < wsize /\
  (0 < w -> (a + l) mod wsize = 0 /\ 0 <= l < wsize) /\
  (w = 0 -> forall b, a <= b -> b mod wsize = 0 -> a + n < b + wsize).
Lemma split_undefs_words n a : 0 < n -> 0 <= a < 2 ^ 62 -> counts n a (split_undefs n a).
Proof.
  intros Hn Ha. unfold counts, split_undefs. rewrite undefs_left by lia. set (l := (- a) mod wsize).
  assert (Hl : 0 <= l < wsize) by (apply Z.mod_pos_bound; sizes; lia).
  assert (Hal : (a + l) mod wsize = 0).
  { unfold l. rewrite Zplus_mod_idemp_r. by replace (a + - a) with 0 by lia. }
  assert (Hws : 0 < wsize) by lia. clearbody l. clear Ha.
  assert (Hq : 0 <= Z.quot (n - l) wsize /\ (n < l /\ Z.quot (n - l) wsize = 0 \/
               0 <= n - l - Z.quot (n - l) wsize * wsize < wsize)).
  { destruct (Z.lt_ge_cases n l) as [H|H].
    - replace (n - l) with (- (l - n)) by lia. rewrite Z.quot_opp_l, Z.quot_small by lia. lia.
    - pose proof (Z.quot_rem' (n - l) wsize). pose proof (Z.rem_bound_pos (n - l) wsize ltac:(lia) Hws).
      pose proof (Z.quot_pos (n - l) wsize ltac:(lia) Hws). lia. }
  set (w := Z.quot (n - l) wsize) in *. clearbody w. destruct Hq as [H0 Hq].
  assert (Hb : w = 0 -> forall b, a <= b -> b mod wsize = 0 -> a + n < b + wsize).
  { intros E b Hab Hb. assert (a + l <= b); [|lia].
    assert (Hm : (b - a - l) mod wsize = 0) by (rewrite <- Z.sub_add_distr, Zminus_mod, Hb, Hal; done).
    rewrite Z.mod_divide in Hm by (clear -Hws; lia). destruct Hm as [k Hk]. clear -Hk Hl Hws Hab. assert (- 1 < k) by nia. nia. }
  destruct (Z.eqb_spec w 0) as [E|E]; [cbn [split_of]; split_and!; lia || (intros; by apply Hb)|].
  destruct (Z.eqb_spec l 0) as [El|El], (Z.eqb_spec (n - l - w * wsize) 0) as [Er|Er]; cbn [andb split_of];
    split_and!; try lia; rewrite ?El in *; rewrite ?Z.add_0_r in *; (done || intros; done || lia).
Qed.

(** The text fits its buffer. *)
Lemma digits_of_le k : forall n j, 1 <= j -> 0 <= n < 10 ^ j -> digits_of k n <= j.
Proof.
  induction k as [|k IH]; intros n j Hj Hn; cbn [digits_of]; [lia|]. destruct (Z.ltb_spec n 10); [lia|].
  assert (j <> 1) by (intros ->; lia). replace j with (Z.succ (j - 1)) in Hn by lia. rewrite Z.pow_succ_r in Hn by lia.
  pose proof (Z.div_pos n 10 ltac:(lia) ltac:(lia)). pose proof (Z.div_lt_upper_bound n 10 (10 ^ (j - 1)) ltac:(lia) ltac:(lia)).
  specialize (IH (n / 10) (j - 1) ltac:(lia) ltac:(lia)). lia.
Qed.
Lemma counted_len_le n j : 1 <= j -> 0 <= n < 10 ^ j -> counted_len n <= j + 6.
Proof.
  intros Hj Hn. unfold counted_len, number_len. replace (n <? 0) with false by lia. pose proof (digits_of_le 10 n j Hj Hn).
  destruct (n =? 1); lia.
Qed.
Lemma split_both n a l w r : split_undefs n a = UBytesWordsBytes l w r -> l <> 0 /\ w <> 0 /\ r <> 0.
Proof.
  unfold split_undefs. set (l' := wsize - 1 - _). set (w' := Z.quot _ _). clearbody l' w'.
  destruct (Z.eqb_spec w' 0), (Z.eqb_spec l' 0), (Z.eqb_spec (n - l' - w' * wsize) 0); cbn [andb]; try discriminate.
  by intros [= <- <- <-].
Qed.
Lemma displ_undefs_run n a s : 0 < n <= 4000 -> 0 <= a < 2 ^ 62 -> displ_undefs n a s = Ret (split_undefs n a) s.
Proof.
  intros Hn Ha. unfold displ_undefs. pose proof (split_undefs_words n a ltac:(lia) Ha) as H. unfold counts in H.
  assert (Hlen : undefs_len (split_undefs n a) <= 29).
  { destruct (split_undefs n a) as [m|w|w r|l w|l w r] eqn:Es; cbn [split_of undefs_len] in *; destruct H as (He & Hw & Hr & Hl & _).
    - pose proof (counted_len_le m 4). lia.
    - assert (w <= 4000) by (sizes; lia). pose proof (counted_len_le w 4). lia.
    - assert (w <= 4000 /\ r < 4) by (sizes; lia). pose proof (counted_len_le w 4). pose proof (counted_len_le r 1). lia.
    - assert (l <= 4000 /\ w <= 4000) by (destruct (Z.eq_dec w 0); sizes; lia).
      pose proof (counted_len_le w 4). pose proof (counted_len_le l 4). destruct (Z.eq_dec w 0); sizes; lia.
    - apply split_both in Es as (Hl0 & Hw0 & Hr0). destruct (Hl ltac:(lia)) as [_ Hl']. sizes.
      1,2: replace l with 1 by lia; replace r with 1 by lia; pose proof (counted_len_le w 4);
        change (counted_len 1) with 6; lia.
      pose proof (counted_len_le l 1). pose proof (counted_len_le r 1). pose proof (counted_len_le w 3). lia. }
  replace (_ <=? 30) with true by lia. done.
Qed.

(** A run of undefined bytes that is not too long is reported as the words it
    contains and the bytes on both sides of them, if the address of its first byte is
    passed: the words are aligned, and the numbers add up; no word is reported only if
    none fits. *)
Theorem displ_undefs_words n a s :
  0 < n <= 4000 -> 0 <= a < 2 ^ 62 ->
  exists u, displ_undefs n a s = Ret u s /\ counts n a u.
Proof.
  intros Hn Ha. exists (split_undefs n a). split; [by apply displ_undefs_run|]. apply split_undefs_words; lia.
Qed.
End Undefs.

(** ** A byte and the object that starts at it *)
Section Value.
Context {cfg : Config} {ok : ConfigOk}.

(** [n] bytes at [a], below [hi], are aligned and have a type of [bits] in common. *)
Definition typed (m : gmap Z Z) (hi bits a n : Z) : Prop :=
  a mod wsize = 0 /\ a + n <= hi /\
  exists k, 0 <= k /\ Z.testbit bits k = true /\ forall i, 0 <= i < n -> Z.testbit (mget m (a + i)) k = true.
(** The value that is shown for the object at [a]. *)
Definition value_ok (ar : area) (hi a : Z) (v : value) : Prop :=
  let pointer := typed (shad ar) hi (Z.lor SH_DATAP SH_INSP) a psize in
  let word := typed (shad ar) hi SH_INT a wsize in
  match v with
  | VPointer p => pointer /\ p = ldn (bytes ar) a (Z.to_nat psize)
  | VWord w => ~ pointer /\ word /\ w = sext (8 * wsize) (ldn (bytes ar) a (Z.to_nat wsize))
  | VByte => ~ pointer /\ ~ word
  end.

Lemma testbit_nonzero x : x <> 0 <-> exists k, 0 <= k /\ Z.testbit x k = true.
Proof.
  split.
  - intros H. destruct (Z.lt_trichotomy x 0) as [Hx|[|Hx]]; [|done|].
    + exists (Z.log2 (Z.pred (- x)) + 1). pose proof (Z.log2_nonneg (Z.pred (- x))). split; [lia|].
      apply Z.bits_above_log2_neg; lia.
    + exists (Z.log2 x). split; [apply Z.log2_nonneg|by apply Z.bit_log2].
  - intros (k & _ & Hk) ->. by rewrite Z.bits_0 in Hk.
Qed.

(** ** What the lines say *)

(** The text for a shadow byte: its type bits, the protection, and the character if
    the byte is a printable one of an integer. *)
Definition mark (x k : Z) (t : string) : list Z := if Z.testbit x k then str t else [].
Definition shadow_text (x b : Z) : list Z :=
  mark x 0 "In" ++ mark x 1 "Fl" ++ mark x 2 "Dp" ++ mark x 3 "Ip" ++ mark x 7 ", Prot" ++
  (if Z.testbit x 0 && ((32 <=? s8 b) && (s8 b <=? 126)) then str ", " ++ [s8 b] ++ str " " else []).
Lemma displ_sh_text x b : displ_sh x b = shadow_text x b.
Proof.
  unfold displ_sh, shadow_text, mark. change SH_INT with (2 ^ 0). change SH_FLOAT with (2 ^ 1). change SH_DATAP with (2 ^ 2).
  change SH_INSP with (2 ^ 3). change SH_PROT with (2 ^ 7). rewrite !land_bit by lia. by rewrite !negb_involutive.
Qed.

(** The name of the file at [fil], between quotes and cut off to 39 characters: the
    bytes before the first zero byte or the end of the global data, with a question
    mark for what is not printable. *)
Definition shown_char (c : Z) : Z := if (32 <=? s8 c) && (s8 c <=? 126) then s8 c else 63.
Definition file_name (s : state) (fil : Z) (name : filename) : Prop :=
  if fil =? 0 then name = FNull
  else if HB <=? fil then name = FNotInGda
  else exists n : nat,
    (forall i, 0 <= i < Z.of_nat n -> fil + i < HB /\ mget (bytes (data s)) (fil + i) <> 0) /\
    (fil + Z.of_nat n = HB \/ fil + Z.of_nat n < HB /\ mget (bytes (data s)) (fil + Z.of_nat n) = 0) /\
    name = FName (firstn 39 (34 :: map (fun i => shown_char (mget (bytes (data s)) (fil + Z.of_nat i))) (seq 0 n) ++ [34])).

(** The procedure of a Return Status Block, and its code. *)
Definition procedure_shown (pi : Z) (d : pdescr) : Prop :=
  if pi <? NProc then exists pr, proctab !! Z.to_nat pi = Some pr /\ d = PProc pi (pr_nloc pr) else d = PIllegal pi.
Definition code_name (code : Z) (n : rsbname) : Prop :=
  match n with
  | STP => code = RSB_STP | CAL => code = RSB_CAL | RTT => code = RSB_RTT | NRT => code = RSB_NRT
  | BadRSBCode => ~ In code [RSB_STP; RSB_CAL; RSB_RTT; RSB_NRT]
  end.
Lemma displ_code_name code : code_name code (displ_code code).
Proof.
  unfold displ_code. destruct (Z.eqb_spec code RSB_STP); [done|]. destruct (Z.eqb_spec code RSB_CAL); [done|].
  destruct (Z.eqb_spec code RSB_RTT); [done|]. destruct (Z.eqb_spec code RSB_NRT); [done|]. cbn [code_name In].
  intros [H|[H|[H|[H|[]]]]]; by symmetry in H.
Qed.

(** Lines without an address. *)
Definition plain (t : logline) : bool :=
  match t with TBlank | TRule | TColumns | TDots | THead _ _ => true | _ => false end.

(** [shows block s ar hi d p l q]: the lines [l] say what is in the bytes of the area
    [ar], below [hi], from [p] on, in the direction [d], up to [q], which is not
    included.  An undefined byte has a line of its own, or it is in a run of which the
    first and the last byte have a line; [TUndefs] has the length of the run as words
    and bytes, counted as if the address in the line were the lowest of the run.  A byte that satisfies [block] is the last one of a Return Status Block
    and does not have a line of its own; the block has one, with what has been saved
    in it, unless its lowest bytes have been popped. *)
Inductive shows (block : Z -> Prop) (s : state) (ar : area) (hi d : Z) : Z -> list logline -> Z -> Prop :=
| shows_nil p : shows block s ar hi d p [] p
| shows_plain p t l q : plain t = true -> shows block s ar hi d p l q -> shows block s ar hi d p (t :: l) q
| shows_item p v l q :
    let b := mget (bytes ar) p in let x := mget (shad ar) p in
    x <> UNDEFINED -> ~ block p -> value_ok ar hi p v ->
    shows block s ar hi d (p + d) l q -> shows block s ar hi d p (TItem p b v (shadow_text x b) :: l) q
| shows_undef p l q :
    mget (shad ar) p = UNDEFINED ->
    shows block s ar hi d (p + d) l q -> shows block s ar hi d p (TUndef p :: l) q
| shows_undefs p n a l q :
    0 < n -> a = p + d * (n - 1) -> counts (n + 1) a (split_undefs (n + 1) a) -> (forall i, 0 <= i < n -> mget (shad ar) (p + d * i) = UNDEFINED) ->
    shows block s ar hi d (a + d) l q -> shows block s ar hi d p (TUndefs a (split_undefs (n + 1) a) :: l) q
| shows_rsb p lb code pi name l q :
    d = -1 -> block p -> lb = p - (rsbsize - 1) -> SP s <= lb ->
    code_name (stks s (lb + rsb_rsbcode) wsize) code ->
    procedure_shown (stk s (lb + rsb_PI) psize) pi ->
    file_name s (stk s (lb + rsb_FIL) psize) name ->
    shows block s ar hi d (lb - 1) l q ->
    shows block s ar hi d p (TRSB code pi (stk s (lb + rsb_PC) psize)
                               (stk s (lb + rsb_LB) psize) (stk s (lb + rsb_LIN) LINSIZE) name :: l) q
| shows_incomplete p l q :
    d = -1 -> block p -> p - (rsbsize - 1) < SP s <= p ->
    shows block s ar hi d (SP s - 1) l q -> shows block s ar hi d p (TIncomplete :: l) q.
Lemma shows_app block s ar hi d p l1 q l2 r :
  shows block s ar hi d p l1 q -> shows block s ar hi d q l2 r -> shows block s ar hi d p (l1 ++ l2) r.
Proof. intros H1 H2. induction H1; cbn [app]; eauto using shows. Qed.

(** A Return Status Block is known by its protection; in a raw dump nothing is. *)
Definition rsb_top (raw : bool) (s : state) (p : Z) : Prop :=
  raw = false /\ Z.testbit (mget (shad (stack s)) p) 7 = true.
Definition no_block (p : Z) : Prop := False.

(** No run of undefined bytes is too long for the buffer of its text. *)
Definition short_runs (ar : area) (lo hi : Z) : Prop :=
  forall a n, lo <= a -> a + n <= hi -> (forall i, 0 <= i < n -> mget (shad ar) (a + i) = UNDEFINED) -> n <= 4000.

Section Area.
(** An area, readable from [lo] up to [hi]. *)
Context (s : state) (ar : area) (lo hi : Z) (Hlo : 0 <= lo) (Hhi : hi < 2 ^ 62) (Hbytes : bytes_ok (bytes ar)).
Context (loc sh : Z -> M Z) (p_in w_in : Z -> state -> bool) (line : Z -> Z -> value -> list Z -> list logline).
Context (Hloc : forall a, lo <= a < hi -> loc a s = Ret (mget (bytes ar) a) s).
Context (Hsh : forall a, lo <= a < hi -> sh a s = Ret (mget (shad ar) a) s).
Context (Hp : forall a, lo <= a < hi -> p_in a s = (a + psize <=? hi)).
Context (Hw : forall a, lo <= a < hi -> w_in a s = (a + wsize <=? hi)).

Lemma bytes_in_area n : forall a,
  lo <= a -> a + Z.of_nat n <= hi -> bytes_in loc a n s = Ret (ldn (bytes ar) a n) s.
Proof.
  induction n as [|n IH]; intros a H1 H2; cbn [bytes_in]; [done|].
  run. rewrite Hloc by lia. run. rewrite padd_small, IH by lia. run. rewrite lor_byte; [done|]. by apply mget_range.
Qed.
Lemma and_bytes_area n : forall a x,
  lo <= a -> a + Z.of_nat n <= hi ->
  exists y, and_bytes sh n a x s = Ret y s /\
    forall k, 0 <= k -> Z.testbit y k = true <->
      Z.testbit x k = true /\ forall i, 0 <= i < Z.of_nat n -> Z.testbit (mget (shad ar) (a + i)) k = true.
Proof.
  induction n as [|n IH]; intros a x H1 H2; cbn [and_bytes].
  { exists x. split; [done|]. intros k Hk. split; [intros Hx; split; [done|lia]|by intros [Hx _]]. }
  run. rewrite Hsh by lia. run. rewrite padd_small by lia.
  destruct (IH (a + 1) (Z.land x (mget (shad ar) a))) as (y & E & Hy); [lia..|]. exists y. split; [done|].
  intros k Hk. rewrite Hy by done. rewrite Z.land_spec, andb_true_iff. split.
  - intros [[Hx Ha] Hi]. split; [done|]. intros i Hi'. destruct (Z.eq_dec i 0) as [->|]; [by rewrite Z.add_0_r|].
    replace (a + i) with (a + 1 + (i - 1)) by lia. apply Hi. lia.
  - intros [Hx Hi]. split; [split; [done|]|].
    + specialize (Hi 0 ltac:(lia)). by rewrite Z.add_0_r in Hi.
    + intros i Hi'. replace (a + 1 + i) with (a + (i + 1)) by lia. apply Hi. lia.
Qed.
Lemma sh_bytes_area a n bits :
  lo <= a < hi -> 0 < n <= 4 ->
  exists x, (if is_wordaligned a && (a + n <=? hi) then sh_bytes sh a (a +p n) bits else ret 0) s = Ret x s /\
    (x <> 0 <-> typed (shad ar) hi bits a n).
Proof.
  intros Ha Hn. rewrite wordaligned_mod. unfold typed. destruct (Z.eqb_spec (a mod wsize) 0); cbn [andb].
  2:{ exists 0. split; [done|]. split; [lia|]. by intros [? _]. }
  destruct (Z.leb_spec (a + n) hi).
  2:{ exists 0. split; [done|]. split; [lia|]. intros (_ & ? & _). lia. }
  unfold sh_bytes. rewrite padd_small by lia. replace (a + n - a) with n by lia.
  destruct (and_bytes_area (Z.to_nat n) a bits) as (y & E & Hy); [lia..|]. unfold bind. rewrite E.
  eexists. split; [reflexivity|]. rewrite Z2Nat.id in Hy by lia. rewrite testbit_nonzero. split.
  - intros (k & Hk & Hyk). rewrite Z.land_spec, andb_true_iff, Hy in Hyk by done. destruct Hyk as [[_ Hyk] Hb].
    split; [done|split; [done|]]. by exists k.
  - intros (_ & _ & k & Hk & Hb & Hi). exists k. split; [done|]. rewrite Z.land_spec, Hb, andb_true_r. by apply Hy.
Qed.
Lemma item_area a :
  lo <= a < hi ->
  exists v, item line p_in w_in loc sh a s = Ret (line a (mget (bytes ar) a) v (displ_sh (mget (shad ar) a) (mget (bytes ar) a))) s /\
    value_ok ar hi a v.
Proof.
  intros Ha. unfold item. enough (exists v, item_value p_in w_in loc sh a s = Ret v s /\ value_ok ar hi a v) as (v & E & Hv).
  { exists v. split; [|done]. unfold bind. by rewrite E, Hloc, Hsh. }
  unfold item_value, bind, gets. rewrite Hp by done.
  destruct (sh_bytes_area a psize (Z.lor SH_DATAP SH_INSP)) as (x & -> & Hx); [done|sizes; lia|].
  destruct (sh_bytes_area a wsize SH_INT) as (y & Ey & Hy); [done|sizes; lia|].
  replace (if psize =? 2 then 2%nat else 4%nat) with (Z.to_nat psize) by (by sizes).
  replace (if wsize =? 2 then 2%nat else 4%nat) with (Z.to_nat wsize) by (by sizes).
  destruct (Z.eqb_spec x 0) as [E0|E0]; cbn [negb]; [rewrite Hw, Ey by done; destruct (Z.eqb_spec y 0) as [E1|E1]; cbn [negb]|].
  - exists VByte. split; [done|]. split; [by intros ?%Hx|by intros ?%Hy].
  - pose proof (proj1 Hy E1) as (? & Hin & ?). rewrite bytes_in_area by (sizes; lia).
    eexists. split; [reflexivity|]. split; [by intros ?%Hx|]. split; [by apply Hy|done].
  - pose proof (proj1 Hx E0) as (? & Hin & ?). rewrite bytes_in_area by (sizes; lia).
    eexists. split; [reflexivity|]. split; [by apply Hx|done].
Qed.

(** ** The loop over an area *)
Context (Hshort : short_runs ar lo hi).
Context (lg : logst) (class level d top : Z) (inside : Z -> M bool) (stop : Z -> Prop).
Context (block : Z -> Prop) (Hd : d = 1 \/ d = -1) (Hlo' : 0 < lo \/ d = 1).
Context (Hin : forall a, (d = 1 -> lo <= a) -> inside a s = Ret true s /\ lo <= a < hi /\ a < top /\ ~ block a \/ inside a s = Ret false s /\ stop a).
Context (Hline : forall a b v x, line a b v x = LOG lg class level (TItem a b v x)).

(** The turns that are left, the address after the lines written so far when [n]
    undefined bytes are pending, the end of the loop. *)
Definition left_to (a : Z) : Z := if d =? 1 then top - a else a + 1 - lo.
Definition from (a n : Z) : Z := if n =? 0 then a else a - d * (n - 1).
Definition ends_at (a e : Z) : Prop := stop e /\ (e = a \/ lo <= e - d < hi /\ e - d < top /\ 0 < (e - a) * d).

(** [n] bytes before [a] are undefined. *)
Definition undef_before (a n : Z) : Prop :=
  0 <= n /\ forall i, 1 <= i <= n -> lo <= a - d * i < hi /\ mget (shad ar) (a - d * i) = UNDEFINED.
Lemma undef_before_short a n : undef_before a n -> n <= 4000.
Proof.
  intros [Hn Hu]. destruct (Z.eq_dec n 0) as [->|]; [lia|]. pose proof (Hu 1 ltac:(lia)) as [H1 _]. pose proof (Hu n ltac:(lia)) as [H2 _].
  destruct Hd as [E|E]; rewrite E in *.
  - apply (Hshort (a - n) n); [lia|lia|]. intros i Hi. replace (a - n + i) with (a - 1 * (n - i)) by lia. apply Hu. lia.
  - apply (Hshort (a + 1) n); [lia|lia|]. intros i Hi. replace (a + 1 + i) with (a - -1 * (i + 1)) by lia. apply Hu. lia.
Qed.
Lemma pending_shows a n :
  undef_before a n ->
  exists l, pending (left_undefs lg class level) d n a s = Ret l s /\
    (check_log lg class level = true -> shows block s ar hi d (from a n) l a).
Proof.
  intros Hb. pose proof (undef_before_short a n Hb) as Hn'. destruct Hb as [Hn Hu]. unfold from, pending.
  destruct (Z.eqb_spec n 0) as [->|Hn0]; [exists []; split; [done|constructor]|].
  pose proof (Hu 1 ltac:(lia)) as [H1 _]. rewrite Z.mul_1_r in H1.
  unfold padd. replace (a + - d) with (a - d) by lia. rewrite u64_small by lia.
  unfold left_undefs, LOG. destruct (Z.eqb_spec n 1) as [->|]; [exists []; split; [done|]; rewrite Z.mul_0_r, Z.sub_0_r; constructor|].
  destruct (Z.eqb_spec n 2) as [->|].
  - eexists. split; [reflexivity|]. intros ->. replace (a - d * (2 - 1)) with (a - d) by lia.
    constructor; [specialize (Hu 1); rewrite Z.mul_1_r in Hu; apply Hu; lia|].
    replace (a - d + d) with a by lia. constructor.
  - unfold bind. rewrite displ_undefs_run by lia. eexists. split; [reflexivity|]. intros ->. cbn [app].
    apply shows_plain; [done|]. replace n with (n - 1 + 1) at 2 by lia. apply shows_undefs.
    + lia.
    + lia.
    + apply split_undefs_words; lia.
    + intros i Hi. replace (a - d * (n - 1) + d * i) with (a - d * (n - 1 - i)) by lia. apply Hu. lia.
    + replace (a - d + d) with a by lia. constructor.
Qed.

Lemma area_loop_shows k : forall a n,
  (d = 1 -> lo <= a) -> left_to a <= Z.of_nat k -> undef_before a n ->
  exists l e, area_loop lg inside sh class level (left_undefs lg class level) (item line p_in w_in loc sh) d k a n s = Ret (l, e) s /\
    ends_at a e /\ (check_log lg class level = true -> shows block s ar hi d (from a n) l e).
Proof.
  induction k as [|k IH]; intros a n Hla Hk Hu; destruct (pending_shows a n Hu) as (u & Eu & Hsu).
  all: destruct (Hin a Hla) as [(Ei & Ha & Hat & Hnb)|[Ei Ha]];
    [|exists u, a; unfold area_loop, bind; rewrite Ei, Eu; split; [done|]; split; [split; [done|by left]|done]].
  { exfalso. unfold left_to in Hk. destruct Hd as [E|E]; rewrite E in Hk; cbn [Z.eqb Pos.eqb] in Hk; lia. }
  assert (Hr : left_to (a + d) = left_to a - 1) by (unfold left_to; destruct Hd as [E|E]; rewrite E; cbn [Z.eqb Pos.eqb]; lia).
  assert (Had : a +p d = a + d) by (apply padd_small; lia).
  assert (Hend : forall e, ends_at (a + d) e -> ends_at a e).
  { intros e [Hs [->|He]]; split; [done|right|done|right]; [split; [lia|split; [lia|destruct Hd; subst; lia]]|].
    destruct Hd as [E|E]; rewrite E in *; lia. }
  cbn [area_loop]. unfold bind at 1. rewrite Ei. unfold bind at 1. rewrite Hsh by done.
  destruct (Z.eqb_spec (mget (shad ar) a) UNDEFINED) as [Ex|Ex]; rewrite Had.
  - assert (Hu' : undef_before (a + d) (n + 1)).
    { destruct Hu as [Hn Hu]. split; [lia|]. intros i Hi. destruct (Z.eq_dec i 1) as [->|].
      - by replace (a + d - d * 1) with a by lia.
      - replace (a + d - d * i) with (a - d * (i - 1)) by lia. apply Hu. lia. }
    pose proof (undef_before_short _ _ Hu'). destruct Hu as [Hn _].
    unfold s32. rewrite sext_small by lia. destruct (IH (a + d) (n + 1)) as (l & e & E & He & Hl); [lia|lia|done|].
    eexists _, e. unfold bind. rewrite E. split; [reflexivity|]. split; [by apply Hend|].
    intros Hlog. specialize (Hl Hlog). unfold from in *.
    replace (n + 1 =? 0) with false in Hl by lia. replace (a + d - d * (n + 1 - 1)) with (a - d * (n - 1)) in Hl by lia.
    destruct (Z.eqb_spec n 0) as [->|]; [|done]. unfold LOG. rewrite Hlog. constructor; [done|].
    by replace (a + d) with (a - d * (0 - 1)) by lia.
  - destruct (IH (a + d) 0) as (l & e & E & He & Hl); [lia|lia|split; lia|]. destruct (item_area a Ha) as (v & Ev & Hv).
    eexists _, e. unfold bind. rewrite Eu, Ev, E. split; [reflexivity|]. split; [by apply Hend|].
    intros Hlog. eapply shows_app; [by apply Hsu|]. rewrite Hline, displ_sh_text. unfold LOG. rewrite Hlog.
    constructor; [done..|]. by apply Hl.
Qed.
End Area.
End Value.

(** ** The dumps *)
Section Dumps.
Context {cfg : Config} {ok : ConfigOk} (lg : logst).
Context (procs : NProc <= Z.of_nat (length proctab)) (fra : FRALimit < 2 ^ 31).

(** The name of the file, between quotes, is cut off to fit its buffer. *)
Lemma put_name_firstn ch l : put_name ch (firstn 39 l) = firstn 39 (l ++ [ch]).
Proof.
  unfold put_name. rewrite length_firstn, firstn_app. destruct (Nat.ltb_spec (39 `min` length l) 39).
  - rewrite !firstn_all2 by (cbn; lia). done.
  - replace (39 - length l)%nat with 0%nat by lia. by rewrite app_nil_r.
Qed.
Lemma shown_char_if c : (if (s8 c <? 32) || (126 <? s8 c) then 63 else s8 c) = shown_char c.
Proof. unfold shown_char. destruct (_ || _) eqn:E, (_ && _) eqn:E'; done || lia. Qed.
Lemma displ_fil_loop_run s k : forall fil l,
  Inv s -> 0 <= fil <= HB -> HB - fil <= Z.of_nat k ->
  exists n : nat, displ_fil_loop k fil (firstn 39 l) s =
      Ret (firstn 39 (l ++ map (fun i => shown_char (mget (bytes (data s)) (fil + Z.of_nat i))) (seq 0 n))) s /\
    (forall i, 0 <= i < Z.of_nat n -> fil + i < HB /\ mget (bytes (data s)) (fil + i) <> 0) /\
    (fil + Z.of_nat n = HB \/ fil + Z.of_nat n < HB /\ mget (bytes (data s)) (fil + Z.of_nat n) = 0).
Proof.
  induction k as [|k IH]; intros fil l Hs Hf Hk; cbn [displ_fil_loop]; unfold in_gda.
  all: destruct (Z.ltb_spec fil HB); [|exists 0%nat; cbn [seq map]; rewrite app_nil_r; split; [done|split; lia]].
  { lia. }
  pose proof (inv_HP s Hs). pose proof (inv_data_alloc s Hs). pose proof (inv_HL s Hs). run. unfold data_loc at 1.
  replace (data_valid fil s) with true by (unfold data_valid; lia). run. destruct (Z.eqb_spec (mget (bytes (data s)) fil) 0) as [E0|E0].
  { exists 0%nat. cbn [seq map]. rewrite app_nil_r, Z.add_0_r. split; [done|split; [lia|by right]]. }
  rewrite padd_small, shown_char_if, put_name_firstn by lia.
  destruct (IH (fil + 1) (l ++ [shown_char (mget (bytes (data s)) fil)])) as (n & E & Hn & He); [done|lia|lia|].
  exists (S n). split; [|split].
  - rewrite E, <- app_assoc. cbn [seq map app]. rewrite Z.add_0_r, <- seq_shift, map_map.
    do 4 f_equal. apply map_ext. intros i. do 2 f_equal. lia.
  - intros i Hi. destruct (Z.eq_dec i 0) as [->|]; [by rewrite Z.add_0_r|]. destruct (Hn (i - 1)) as [Hx Hy]; [lia|].
    replace (fil + 1 + (i - 1)) with (fil + i) in * by lia. done.
  - replace (fil + Z.of_nat (S n)) with (fil + 1 + Z.of_nat n) by lia. done.
Qed.
Lemma displ_fil_run fil s : Inv s -> exists name, displ_fil fil s = Ret name s /\ file_name s (u64 fil) name.
Proof.
  intros Hs. unfold displ_fil, file_name. pose proof (u64_range fil) as Hf. generalize dependent (u64 fil). clear fil. intros fil Hf. destruct (Z.eqb_spec fil 0); [by eexists|].
  destruct (Z.leb_spec HB fil); [by eexists|].
  destruct (displ_fil_loop_run s (Z.to_nat (HB - fil)) fil [34]) as (m & E & Hn & He); [done|lia|lia|].
  change (firstn 39 [34]) with [34] in E. unfold bind. rewrite E. eexists. split; [reflexivity|]. exists m.
  split; [done|]. split; [done|]. rewrite put_name_firstn. by rewrite <- app_assoc.
Qed.

(** *** The stack *)
Lemma stack_sh_run s a : Inv s -> SP s <= a < ML + 1 -> st_sh a s = Ret (mget (shad (stack s)) a) s.
Proof.
  intros Hs Ha. pose proof (inv_stack s Hs). unfold st_sh. by replace (stack_valid a s) with true by (unfold stack_valid; lia).
Qed.
Lemma stack_loc_run s a : Inv s -> SP s <= a < ML + 1 -> stack_loc a s = Ret (mget (bytes (stack s)) a) s.
Proof.
  intros Hs Ha. pose proof (inv_stack s Hs). unfold stack_loc. by replace (stack_valid a s) with true by (unfold stack_valid; lia).
Qed.

Lemma std_raw_shows raw s a :
  Inv s -> short_runs (stack s) (SP s) (ML + 1) -> a <= ML ->
  exists l e, std_raw lg raw a s = Ret (l, e) s /\ (e = a \/ SP s - 1 <= e < a) /\ (SP s <= e -> rsb_top raw s e) /\
    (check_log lg 100 2 = true -> shows (rsb_top raw s) s (stack s) (ML + 1) (-1) a l e).
Proof.
  intros Hs Hsh Ha. pose proof ML_range. pose proof (inv_SP s Hs). unfold std_raw. unfold bind, gets.
  assert (Hlo : 0 <= SP s) by lia. assert (Hhi : ML + 1 < 2 ^ 62) by lia.
  destruct (area_loop_shows s (stack s) (SP s) (ML + 1) Hlo Hhi (inv_stack_bytes s Hs) stack_loc st_sh
    (fun a s => is_in_stack a psize s) w_is_in_stack (fun a b v x => LOG lg 100 2 (TItem a b v x))
    (fun a => stack_loc_run s a Hs) (fun a => stack_sh_run s a Hs)) with (lg := lg) (class := 100) (level := 2) (d := -1) (top := ML + 1)
    (block := rsb_top raw s) (inside := raw_inside raw) (stop := fun b => in_stack b s = true -> rsb_top raw s b) (k := Z.to_nat (a + 1 - SP s)) (a := a) (n := 0)
    as (l & e & E & [Hstop He] & Hl).
  - intros b Hb. unfold is_in_stack. rewrite padd_assoc, padd_small by (sizes; lia). sizes; lia.
  - intros b Hb. unfold w_is_in_stack, wsizem1. rewrite padd_small by (sizes; lia). sizes; lia.
  - done.
  - by right.
  - by left; lia.
  - intros b _. unfold raw_inside, bind, gets, in_stack. destruct ((SP s <=? b) && (b <=? ML)) eqn:Eb; [|by right].
    rewrite stack_sh_run by (done || lia). change SH_PROT with (2 ^ 7). rewrite land_bit by lia. unfold rsb_top.
    destruct raw; rewrite ?orb_true_r, ?orb_false_r; [left; split; [done|split; [lia|split; [lia|by intros [? _]]]]|].
    destruct (Z.testbit _ 7); cbn [negb]; [by right|left; split; [done|split; [lia|split; [lia|by intros [_ ?]]]]].
  - done.
  - done.
  - unfold left_to. cbn [Z.eqb Pos.eqb]. lia.
  - split; lia.
  - unfold std_item, std_left_undefs. rewrite E. eexists _, e. split; [reflexivity|]. split; [lia|].
    split; [intros Hse; apply Hstop; unfold in_stack; lia|]. intros Hlog. unfold LOG at 1. rewrite Hlog. apply shows_plain; [done|]. by apply Hl.
Qed.

(** Four loads of pointers and two of words. *)
Lemma p_in_stack_run a s : Inv s -> on_stack a psize s -> p_in_stack a s = Ret (stk s a psize) s.
Proof.
  intros Hs Ha. destruct (wp_ret_inv (p_in_stack a) (fun v s' => v = stk s a psize /\ s' = s) s) as (v & s' & E & -> & ->); [|done].
  by apply wp_p_in_stack.
Qed.
Lemma w_in_stack_run a s : Inv s -> on_stack a wsize s -> w_in_stack a s = Ret (stks s a wsize) s.
Proof.
  intros Hs Ha. destruct (wp_ret_inv (w_in_stack a) (fun v s' => v = stks s a wsize /\ s' = s) s) as (v & s' & E & -> & ->); [|done].
  by apply wp_w_in_stack.
Qed.
Lemma stk_unsigned s a n : Inv s -> 0 <= n -> 0 <= stk s a n < 2 ^ (8 * n).
Proof.
  intros Hs Hn. unfold stk. pose proof (ldn_range (Z.to_nat n) (bytes (stack s)) a (inv_stack_bytes s Hs)).
  by rewrite Z2Nat.id in H by done.
Qed.
Lemma pdescr_run pi s :
  0 <= pi < 2 ^ 63 ->
  exists descr, procedure_shown pi descr /\ (if s64 pi =? -1 then ret PUninit
                 else if s64 pi <? NProc then
                   match proctab !! Z.to_nat pi with Some pr => ret (PProc pi (pr_nloc pr)) | None => undef end
                 else ret (PIllegal pi)) s = Ret descr s.
Proof.
  intros Hp. unfold s64, procedure_shown. rewrite sext_small by lia. replace (pi =? -1) with false by lia.
  destruct (Z.ltb_spec pi NProc); [|by eexists]. destruct (proctab !! Z.to_nat pi) as [pr|] eqn:E.
  { exists (PProc pi (pr_nloc pr)). split; [by exists pr|done]. }
  apply lookup_ge_None in E. lia.
Qed.
Lemma std_rsb_shows raw s a :
  Inv s -> a <= ML -> (SP s <= a -> rsb_top raw s a) ->
  exists l e, std_rsb lg a s = Ret (l, e) s /\ (a < SP s -> l = [] /\ e = a) /\
    (SP s <= a ->
       (SP s - 1 <= e < a /\ (check_log lg 100 1 = true -> shows (rsb_top raw s) s (stack s) (ML + 1) (-1) a l e)) \/
       (in_stack e s = false /\ (check_log lg 100 1 = true -> shows (rsb_top raw s) s (stack s) (ML + 1) (-1) a l (SP s - 1)))).
Proof.
  intros Hs Ha Htop. pose proof ML_range. pose proof (inv_SP s Hs). pose proof rsb_layout as Hr. unfold std_rsb, in_stack. run.
  destruct (Z.leb_spec (SP s) a); cbn [andb negb].
  2:{ eexists _, _. split; [reflexivity|]. split; [done|lia]. }
  replace (a <=? ML) with true by lia. cbn [negb]. run.
  destruct (Z.lt_ge_cases (a - (rsbsize - 1)) (SP s)) as [Hlt|Hge].
  - assert (Eo : (SP s <=? a +p - (rsbsize - 1)) && (a +p - (rsbsize - 1) <=? ML) = false).
    { destruct (Z.lt_ge_cases (a - (rsbsize - 1)) 0); [|rewrite padd_small by (sizes; lia); lia].
      unfold padd, u64. replace (a + - (rsbsize - 1)) with (a - (rsbsize - 1) + 2 ^ 64 + (-1) * 2 ^ 64) by lia.
      rewrite Z.mod_add, Z.mod_small by (sizes; lia). sizes; lia. }
    rewrite Eo. cbn [negb]. run. eexists _, _. split; [reflexivity|]. split; [lia|]. intros _. right. split; [done|]. intros Hlog.
    unfold LOG. rewrite Hlog. apply shows_incomplete; [done|by apply Htop|lia|constructor].
  - set (lb := a - (rsbsize - 1)). assert (Hlb : a +p - (rsbsize - 1) = lb) by (apply padd_small; sizes; lia). rewrite Hlb.
    replace ((SP s <=? lb) && (lb <=? ML)) with true by (sizes; lia). cbn [negb].
    assert (Hon : forall o n, 0 <= o -> o + n <= rsbsize -> on_stack (lb + o) n s) by (intros o n ? ?; split; lia).
    assert (Hadd : forall o, 0 <= o <= rsbsize -> lb +p o = lb + o) by (intros o Ho; apply padd_small; sizes; lia).
    rewrite !Hadd by lia. unfold bind at 1. rewrite w_in_stack_run by (done || (apply Hon; lia)).
    do 3 (unfold bind at 1; rewrite p_in_stack_run by (done || (apply Hon; lia))).
    unfold bind at 1. rewrite bytes_in_run by (done || (unfold LINSIZE; lia)).
    unfold bind at 1. rewrite p_in_stack_run by (done || (apply Hon; lia)).
    assert (Hp0 : 0 <= psize) by lia. pose proof (stk_unsigned s (lb + rsb_PI) psize Hs Hp0) as Hpi.
    destruct (pdescr_run (stk s (lb + rsb_PI) psize) s) as (descr & Hd & Ed); [sizes; lia|]. unfold bind at 1. rewrite Ed.
    destruct (displ_fil_run (stk s (lb + rsb_FIL) psize) s Hs) as (name & En & Hn). unfold bind at 1. rewrite En.
    pose proof (stk_unsigned s (lb + rsb_FIL) psize Hs Hp0) as Hfil. rewrite u64_small in Hn by (sizes; lia).
    eexists _, _. split; [reflexivity|]. rewrite padd_small by (sizes; lia). split; [lia|]. intros _. left. split; [lia|]. intros Hlog.
    unfold LOG. rewrite Hlog. cbn [app]. apply shows_rsb with (lb := lb); [done|by apply Htop|done|lia|apply displ_code_name|done|done|].
    replace (a + - rsbsize) with (lb - 1) by lia. destruct (check_log lg 100 2); [by apply shows_plain; [|constructor]|constructor].
Qed.

Lemma log_level_le c l l' : check_log lg c l = true -> l' <= l -> check_log lg c l' = true.
Proof. unfold check_log. destruct (logging lg); cbn [andb]; [lia|done]. Qed.

Lemma stack_loop_outside k raw a s : in_stack a s = false -> stack_loop lg k raw a s = Ret [] s.
Proof. intros H. unfold stack_loop. destruct k; unfold bind, gets; by rewrite H. Qed.
Lemma stack_loop_shows k raw s : forall a,
  Inv s -> short_runs (stack s) (SP s) (ML + 1) -> a <= ML -> a + 1 - SP s <= Z.of_nat k ->
  exists l, stack_loop lg k raw a s = Ret l s /\
    (SP s - 1 <= a -> check_log lg 100 2 = true -> shows (rsb_top raw s) s (stack s) (ML + 1) (-1) a l (SP s - 1)).
Proof.
  induction k as [|k IH]; intros a Hs Hsh Ha Hk.
  all: destruct (Z.lt_ge_cases a (SP s)) as [Hlt|Hge];
    [exists []; split; [apply stack_loop_outside; unfold in_stack; lia|intros; replace a with (SP s - 1) by lia; constructor]|].
  { lia. }
  cbn [stack_loop]. unfold bind at 1, gets at 1. replace (in_stack a s) with true by (unfold in_stack; lia).
  destruct (std_raw_shows raw s a Hs Hsh Ha) as (l1 & e1 & E1 & He1 & Ht1 & H1).
  destruct (std_rsb_shows raw s e1 Hs ltac:(lia) Ht1) as (l2 & e2 & E2 & H20 & H2).
  assert (exists l3, stack_loop lg k raw e2 s = Ret l3 s /\
    (check_log lg 100 2 = true -> shows (rsb_top raw s) s (stack s) (ML + 1) (-1) e1 (l2 ++ l3) (SP s - 1))) as (l3 & E3 & H3).
  { destruct (Z.lt_ge_cases e1 (SP s)) as [Hlt|Hge1].
    - destruct (H20 Hlt) as [-> ->]. exists []. split; [apply stack_loop_outside; unfold in_stack; lia|].
      intros _. replace e1 with (SP s - 1) by lia. constructor.
    - destruct (H2 Hge1) as [[He2 Hs2]|[Ho Hs2]].
      + destruct (IH e2 Hs Hsh) as (l3 & E3 & H3); [lia|lia|]. exists l3. split; [done|]. intros Hlog.
        eapply shows_app; [by apply Hs2, (log_level_le 100 2)|apply H3; [lia|done]].
      + exists []. split; [by apply stack_loop_outside|]. intros Hlog. rewrite app_nil_r.
        by apply Hs2, (log_level_le 100 2). }
  unfold bind. rewrite E1. cbn [fst snd]. rewrite E2. cbn [fst snd]. rewrite E3. eexists. split; [reflexivity|].
  intros _ Hlog. eapply shows_app; [by apply H1|by apply H3].
Qed.

(** Where the dump of the stack starts. *)
Lemma find_prot_outside prot k a s : in_stack a s = false -> find_prot prot k a s = Ret a s.
Proof. intros H. unfold find_prot. destruct k; unfold bind, gets; by rewrite H. Qed.
Lemma find_prot_run prot k s : forall a,
  Inv s -> SP s <= a <= ML + 1 -> ML + 1 - a <= Z.of_nat k ->
  exists b, find_prot prot k a s = Ret b s /\ a <= b <= ML + 1 /\
    (b <= ML -> eqb (Z.land (mget (shad (stack s)) b) SH_PROT =? 0) prot = false).
Proof.
  pose proof ML_range. induction k as [|k IH]; intros a Hs Ha Hk; pose proof (inv_SP s Hs).
  all: destruct (in_stack a s) eqn:Ei; [|exists a; split; [by apply find_prot_outside|unfold in_stack in Ei; lia]].
  { unfold in_stack in Ei. lia. }
  cbn [find_prot]. unfold bind at 1, gets at 1. rewrite Ei. unfold in_stack in Ei. unfold bind at 1. rewrite stack_sh_run by (done || lia).
  destruct (eqb _ prot) eqn:Ep; [|exists a; split; [done|]; split; [lia|done]].
  rewrite padd_small by lia. destruct (IH (a + 1) Hs) as (b & E & Hb & Hx); [lia..|]. exists b. split; [done|]. split; [lia|done].
Qed.
Lemma start_address_run sz s :
  Inv s -> SP s <= ML -> exists a, start_address sz s = Ret a s /\ SP s - 1 <= a <= ML /\ (sz = 0 -> a = ML).
Proof.
  intros Hs Hsp. pose proof ML_range. pose proof (inv_SP s Hs). unfold start_address. unfold bind at 1, gets at 1.
  set (top := if _ && _ then _ else _). assert (Ht : SP s <= top <= ML /\ (sz = 0 -> top = ML)).
  { unfold top. destruct (Z.eqb_spec sz 0); cbn [negb andb]; [lia|]. rewrite (u64_small (ML - SP s)) by lia.
    destruct (Z.ltb_spec (u64 sz) (ML - SP s)); [|lia]. pose proof (u64_range sz).
    replace (SP s +p sz) with (SP s + u64 sz); [lia|]. unfold padd. rewrite <- (u64_small (SP s + u64 sz)) by lia.
    unfold u64. by rewrite Zplus_mod_idemp_r. }
  destruct (find_prot_run true (Z.to_nat (ML + 1 - SP s)) s top Hs) as (b & E & Hb & Hx); [lia..|].
  destruct (find_prot_run false (Z.to_nat (ML + 1 - SP s)) s b Hs) as (c & E' & Hc & Hy); [lia..|].
  unfold bind. rewrite E, E'. eexists. split; [reflexivity|]. rewrite padd_small by lia. split; [lia|].
  intros Hz. destruct Ht as [_ Ht]. specialize (Ht Hz). enough (c = ML + 1) by lia.
  destruct (Z.eq_dec c (ML + 1)) as [|Hne]; [done|]. exfalso. assert (b = c) as -> by lia.
  specialize (Hx ltac:(lia)). specialize (Hy ltac:(lia)). destruct (Z.land _ SH_PROT =? 0); discriminate.
Qed.

(** *** The Function Return Area *)

(** The line of the [i]th byte. *)
Definition FRA_shown (s : state) (i : Z) (t : logline) : Prop :=
  let b := mget (bytes (FRA s)) i in
  exists v, value_ok (FRA s) (FRASize s) i v /\ t = TFRAItem i b v (shadow_text (mget (shad (FRA s)) i) b).
Lemma FRA_items_run s n : forall a,
  Inv s -> 0 <= a -> a + Z.of_nat n <= FRASize s ->
  exists l, FRA_items lg n a s = Ret l s /\
    (check_log lg 100 2 = true -> length l = n /\ forall i t, l !! i = Some t -> FRA_shown s (a + Z.of_nat i) t).
Proof.
  induction n as [|n IH]; intros a Hs H0 H1; cbn [FRA_items]; [by exists []|].
  pose proof (inv_FRA s Hs) as Hf. pose proof (inv_FRA_alloc s Hs) as Ha.
  assert (Hlo : 0 <= 0) by lia. assert (Hhi : FRASize s < 2 ^ 62) by lia.
  assert (Hv : forall b, 0 <= b < FRASize s -> fra_valid b s = true) by (intros b Hb; unfold fra_valid; lia).
  destruct (item_area s (FRA s) 0 (FRASize s) Hlo Hhi (inv_FRA_bytes s Hs) FRA_at FRA_sh_at (fun a s => is_in_FRA a psize s)
    (fun a s => is_in_FRA a wsize s) (fun a b v x => LOG lg 100 2 (TFRAItem a b v x))) with (a := a) as (v & E & Hval).
  - intros b Hb. unfold FRA_at. by rewrite Hv.
  - intros b Hb. unfold FRA_sh_at. by rewrite Hv.
  - done.
  - done.
  - lia.
  - unfold FRA_item. unfold bind. rewrite E. destruct (IH (a + 1)) as (l & E' & Hl); [done|lia..|]. rewrite E'.
    eexists. split; [reflexivity|]. intros Hlog. destruct (Hl Hlog) as [Hlen Hi]. unfold LOG. rewrite Hlog.
    split; [cbn [app length]; by rewrite Hlen|]. intros [|i] t; cbn [app lookup list_lookup].
    + intros [= <-]. rewrite Z.add_0_r. exists v. split; [done|]. by rewrite displ_sh_text.
    + intros Ht%Hi. by replace (a + Z.of_nat (S i)) with (a + 1 + Z.of_nat i) by lia.
Qed.

Lemma shows_plains block s ar hi d p l q : Forall (fun t => plain t = true) l -> p = q -> shows block s ar hi d p l q.
Proof. intros H ->. induction H; [constructor|by apply shows_plain]. Qed.
Lemma LOG_plain c l t : plain t = true -> Forall (fun t => plain t = true) (LOG lg c l t).
Proof. intros H. unfold LOG. destruct (check_log _ _ _); by repeat constructor. Qed.

(** *** The global data area and the heap *)
Lemma data_loop_shows (inside : Z -> M bool) class level left_undefs' item' line lim s a k :
  Inv s -> short_runs (data s) 0 (HP s) -> left_undefs' = left_undefs lg class level ->
  item' = item line (fun a s => is_in_data a psize s) (fun a s => is_in_data a wsize s) data_loc dt_sh ->
  (forall a b v x, line a b v x = LOG lg class level (TItem a b v x)) ->
  (forall b, inside b s = Ret (b <? lim) s) -> lim <= HP s -> 0 <= a -> lim - a <= Z.of_nat k ->
  exists l, area_loop lg inside dt_sh class level left_undefs' item' 1 k a 0 s = Ret (l, Z.max a lim) s /\
    (check_log lg class level = true -> shows no_block s (data s) (HP s) 1 a l (Z.max a lim)).
Proof.
  intros Hs Hsh -> -> Hline Hin Hlim Ha Hk. pose proof (inv_HP s Hs). pose proof (inv_data_alloc s Hs).
  assert (Hlo : 0 <= 0) by lia. assert (Hhi : HP s < 2 ^ 62) by lia.
  assert (Hv : forall b, 0 <= b < HP s -> data_valid b s = true) by (intros b Hb; unfold data_valid; lia).
  destruct (area_loop_shows s (data s) 0 (HP s) Hlo Hhi (inv_data_bytes s Hs) data_loc dt_sh
    (fun a s => is_in_data a psize s) (fun a s => is_in_data a wsize s) line) with (lg := lg) (class := class) (level := level)
    (d := 1) (top := lim) (block := no_block) (inside := inside) (stop := fun b => lim <= b) (k := k) (a := a) (n := 0) as (l & e & E & [He1 He2] & Hl).
  - intros b Hb. unfold data_loc. by rewrite Hv.
  - intros b Hb. unfold dt_sh. by rewrite Hv.
  - intros b Hb. unfold is_in_data. rewrite padd_small by (sizes; lia). done.
  - intros b Hb. unfold is_in_data. rewrite padd_small by (sizes; lia). done.
  - done.
  - by left.
  - by right.
  - intros b Hb. rewrite Hin. destruct (Z.ltb_spec b lim); [left; split; [done|split; [lia|split; [lia|by intros []]]]|by right].
  - done.
  - done.
  - unfold left_to. cbn [Z.eqb Pos.eqb]. lia.
  - split; lia.
  - rewrite E. replace (Z.max a lim) with e by lia. by exists l.
Qed.

Lemma gdad_all_shows low high s :
  Inv s -> short_runs (data s) 0 (HP s) ->
  let lo := u64 low in let hi := if (lo =? 0) && (u64 high =? 0) then HB else Z.min HB (u64 high) in
  exists l, gdad_all lg low high s = Ret l s /\
    (check_log lg 43 1 = true -> shows no_block s (data s) (HP s) 1 lo l (Z.max lo hi)).
Proof.
  intros Hs Hsh lo hi. unfold gdad_all. destruct (check_log lg 43 1) eqn:Hlog; cbn [negb]; [|by eexists].
  pose proof (inv_HP s Hs). pose proof (u64_range low). fold lo. cbv zeta.
  assert (Eh : hi = Z.min HB (if (lo =? 0) && (u64 high =? 0) then HB else u64 high)) by (unfold hi; destruct (_ && _); lia).
  rewrite <- Eh. destruct (data_loop_shows (fun addr => ret (addr <? hi)) 43 1 (gdad_left_undefs lg) (gdad_item lg)
    (fun a b v x => LOG lg 43 1 (TItem a b v x)) hi s lo (Z.to_nat (hi - lo))) as (l & E & Hl); [done..|lia|lia|lia|].
  unfold bind. rewrite E. eexists. split; [reflexivity|]. intros _. repeat (eapply shows_app; [apply shows_plains; [by apply LOG_plain|reflexivity]|]).
  eapply shows_app; [by apply Hl|]. apply shows_plains; [apply Forall_app; split; by apply LOG_plain|done].
Qed.
Lemma hpd_all_shows s :
  Inv s -> short_runs (data s) 0 (HP s) -> exists l, hpd_all lg s = Ret l s /\
    (check_log lg 42 1 = true -> shows no_block s (data s) (HP s) 1 HB l (HP s)).
Proof.
  intros Hs Hsh. unfold hpd_all. destruct (check_log lg 42 1) eqn:Hlog; cbn [negb]; [|by eexists].
  pose proof (inv_HP s Hs). pose proof ok_HB. unfold bind at 1, gets at 1.
  destruct (data_loop_shows (fun addr => hp ← gets HP; ret (addr <? hp)) 42 1 (hpd_left_undefs lg) (hpd_item lg)
    (fun a b v x => LOG lg 42 1 (TItem a b v x)) (HP s) s HB (Z.to_nat (HP s - HB))) as (l & E & Hl); [done..|lia|lia|lia|].
  unfold bind. unfold bind in E. rewrite E. eexists. split; [reflexivity|]. intros _.
  repeat (eapply shows_app; [apply shows_plains; [by apply LOG_plain|reflexivity]|]).
  replace (Z.max HB (HP s)) with (HP s) in Hl by lia.
  eapply shows_app; [by apply Hl|]. apply shows_plains; [apply Forall_app; split; by apply LOG_plain|done].
Qed.

(** What comes after the dump of the stack: the Function Return Area, and the registers. *)
Definition FRA_and_registers (s : state) (l : list logline) : Prop :=
  exists items name,
    l = TFRA (FRASize s) (negb (FRA_def s =? 0)) :: items ++
        [TRegs (AB s) (LB s) (SP s) (HP s) (LIN s) name; TRule; TBlank] /\
    Z.of_nat (length items) = FRASize s /\ (forall i t, items !! i = Some t -> FRA_shown s (Z.of_nat i) t) /\
    file_name s (u64 (FIL s)) name.

Lemma std_all_shows sz rawfl s :
  let raw := negb (rawfl =? 0) in
  Inv s -> short_runs (stack s) (SP s) (ML + 1) -> exists l top, std_all lg sz rawfl s = Ret l s /\ SP s - 1 <= top <= ML /\ (sz = 0 -> top = ML) /\
    (check_log lg 100 2 = true -> exists body rest, l = body ++ rest /\
       shows (rsb_top raw s) s (stack s) (ML + 1) (-1) top body (SP s - 1) /\ FRA_and_registers s rest).
Proof.
  intros raw Hs Hsh. pose proof ML_range. pose proof (inv_SP s Hs). pose proof (inv_LB s Hs). unfold std_all.
  destruct (check_log lg 100 1) eqn:Hlog1; cbn [negb].
  2:{ exists [], ML. split; [done|]. split; [lia|]. split; [done|]. intros H2. by rewrite (log_level_le 100 2 1) in Hlog1. }
  fold raw.
  assert (exists a body top, start_address sz s = Ret a s /\ stack_loop lg (Z.to_nat (ML + 1 - SP s)) raw a s = Ret body s /\
    SP s - 1 <= top <= ML /\ (sz = 0 -> top = ML) /\
    (check_log lg 100 2 = true -> shows (rsb_top raw s) s (stack s) (ML + 1) (-1) top body (SP s - 1))) as (a & body & top & Ea & Eb & Ht & Hz & Hb).
  { destruct (Z.le_gt_cases (SP s) ML) as [Hle|Hgt].
    - destruct (start_address_run sz s Hs Hle) as (a & Ea & Ha & Hz).
      destruct (stack_loop_shows (Z.to_nat (ML + 1 - SP s)) raw s a Hs Hsh) as (body & Eb & Hb); [lia|lia|].
      exists a, body, a. split; [done|]. split; [done|]. split; [lia|]. split; [done|]. apply Hb. lia.
    - assert (Ho : forall b, in_stack b s = false) by (intros b; unfold in_stack; lia).
      eexists _, [], ML. split; [|split; [by apply stack_loop_outside|split; [lia|split; [done|]]]].
      + unfold start_address, bind, gets. by rewrite !find_prot_outside by apply Ho.
      + intros _. replace ML with (SP s - 1) by lia. constructor. }
  destruct (FRA_items_run s (Z.to_nat (FRASize s)) 0 Hs) as (items & Ef & Hf); [lia|pose proof (inv_FRA s Hs); lia|].
  destruct (displ_fil_run (FIL s) s Hs) as (name & En & Hn).
  assert (Ef' : FRA_dump lg s = Ret (LOG lg 100 2 (TFRA (FRASize s) (negb (FRA_def s =? 0))) ++ items) s)
    by (unfold FRA_dump, bind, gets; by rewrite Ef).
  eexists _, top. unfold bind, gets. rewrite Ea, Eb, Ef', En. split; [reflexivity|]. split; [done|]. split; [done|].
  intros H2. unfold LOG. rewrite H2, Hlog1. exists ([TBlank; THead (DStack raw) (l_inr lg); TRule] ++ body).
  eexists. split; [rewrite <- app_assoc; reflexivity|]. split; [do 3 (apply shows_plain; [done|]); by apply Hb|].
  exists items, name. split; [done|]. destruct (Hf H2) as [Hl Hi]. pose proof (inv_FRA s Hs). split; [lia|]. by split.
Qed.

(** C15: the dumps at the end of an instruction end and leave the machine as it is, if
    no run of undefined bytes is too long. *)
Theorem dumps_end s :
  Inv s -> short_runs (stack s) (SP s) (ML + 1) -> short_runs (data s) 0 (HP s) -> exists l, dumps lg s = Ret l s.
Proof.
  intros Hs Hst Hda. unfold dumps. destruct (logging lg); [|by eexists]. unfold bind, ret.
  destruct (gdad_all_shows (gmin lg) (gmax lg) s Hs Hda) as (g & Eg & _). destruct (hpd_all_shows s Hs Hda) as (h & Eh & _).
  destruct (std_all_shows (stdsize lg) (stdrawflag lg) s Hs Hst) as (d & top & Ed & _).
  destruct (_ =? gdump lg); rewrite ?Eg; (destruct (_ =? hdump lg); rewrite ?Eh; rewrite Ed; by eexists).
Qed.



(** The text of a run of undefined bytes with bytes on both sides and a thousand
    words of four bytes does not fit. *)
Example long_run_overflows a s :
  wsize = 4 -> 0 < a < 2 ^ 32 -> a mod 4 = 1 -> displ_undefs 4006 a s = Undef.
Proof.
  intros Hw Ha Hm. unfold displ_undefs, split_undefs. rewrite Hw, padd_small by lia.
  by replace ((a + -1) mod 4) with 0 by (Z.to_euclidean_division_equations; lia).
Qed.
(** The dumps of the data pass the last byte of a run of undefined bytes instead of the
    first: a word with a byte on both sides is shown as two words. *)
Example data_undefs_split a s :
  wsize = 2 -> 0 < a < 2 ^ 32 -> a mod 2 = 1 ->
  gdad_left_undefs lg 4 (a + 3) s = Ret (LOG lg 43 1 TDots ++ LOG lg 43 1 (TUndefs (a + 3) (UWords 2))) s /\
  displ_undefs 4 a s = Ret (UBytesWordsBytes 1 1 1) s.
Proof.
  intros Hw Ha Hm. unfold gdad_left_undefs, left_undefs, displ_undefs, split_undefs, bind. rewrite Hw, !padd_small by lia. cbn [Z.eqb Pos.eqb].
  replace ((a + 3 + -1) mod 2) with 1 by (Z.to_euclidean_division_equations; lia).
  by replace ((a + -1) mod 2) with 0 by (Z.to_euclidean_division_equations; lia).
Qed.
End Dumps.

(** ** A dump does not change the machine, whatever its state *)
Section Readonly.
Context {cfg : Config}.

Create HintDb dump_readonly.
Definition readonly {A} (m : M A) : Prop := forall s, match m s with Ret _ s' => s' = s | Undef => True | _ => False end.
Lemma readonly_ret {A} (a : A) : readonly (ret a).
Proof. by intros s. Qed.
Lemma readonly_undef {A} : readonly (undef (A := A)).
Proof. by intros s. Qed.
Lemma readonly_gets {A} (f : state -> A) : readonly (gets f).
Proof. by intros s. Qed.
Lemma readonly_bind {A B} (m : M A) (k : A -> M B) : readonly m -> (forall a, readonly (k a)) -> readonly (bind m k).
Proof. intros Hm Hk s. unfold bind. pose proof (Hm s) as H. destruct (m s) as [a s'| | |]; [subst; apply Hk|done..]. Qed.
Lemma readonly_loc a : readonly (stack_loc a) /\ readonly (st_sh a) /\ readonly (data_loc a) /\ readonly (dt_sh a) /\ readonly (FRA_at a) /\ readonly (FRA_sh_at a).
Proof.
  split_and!; intros s; unfold stack_loc, st_sh, data_loc, dt_sh, FRA_at, FRA_sh_at;
    first [by destruct (stack_valid a s)|by destruct (data_valid a s)|by destruct (fra_valid a s)].
Qed.
Ltac readonly_tac :=
  cbv zeta; repeat first
    [ apply readonly_ret | apply readonly_undef | apply readonly_gets | apply readonly_loc | solve [eauto with dump_readonly]
    | apply readonly_bind; [|intros ?] | match goal with |- readonly (if ?b then _ else _) => destruct b
      | |- readonly (match ?x with Some _ => _ | None => _ end) => destruct x end ].

Lemma readonly_bytes_in loc n : (forall a, readonly (loc a)) -> forall a, readonly (bytes_in loc a n).
Proof. intros H. induction n; intros a; cbn [bytes_in]; readonly_tac. Qed.
Lemma readonly_and_bytes sh n : (forall a, readonly (sh a)) -> forall a x, readonly (and_bytes sh n a x).
Proof. intros H. induction n; intros a x; cbn [and_bytes]; readonly_tac. Qed.
Lemma readonly_displ_fil_loop k : forall fil buf, readonly (displ_fil_loop k fil buf).
Proof. induction k; intros fil buf; cbn [displ_fil_loop]; readonly_tac. Qed.
#[local] Hint Resolve readonly_bytes_in readonly_and_bytes readonly_displ_fil_loop : dump_readonly.
Lemma readonly_item line p_in w_in loc sh a :
  (forall a, readonly (loc a)) -> (forall a, readonly (sh a)) -> readonly (item line p_in w_in loc sh a).
Proof. intros H1 H2. unfold item, item_value, sh_bytes. readonly_tac. Qed.
Lemma readonly_left_undefs lg c l n a : readonly (left_undefs lg c l n a).
Proof. unfold left_undefs, displ_undefs. readonly_tac. Qed.
Lemma readonly_area_loop lg inside sh c l left_undefs' item' d k :
  (forall a, readonly (inside a)) -> (forall a, readonly (sh a)) -> (forall n a, readonly (left_undefs' n a)) -> (forall a, readonly (item' a)) ->
  forall a n, readonly (area_loop lg inside sh c l left_undefs' item' d k a n).
Proof. intros H1 H2 H3 H4. induction k; intros a n; cbn [area_loop]; unfold pending; readonly_tac. Qed.
Lemma readonly_displ_fil fil : readonly (displ_fil fil).
Proof. unfold displ_fil. readonly_tac. Qed.
#[local] Hint Resolve readonly_item readonly_area_loop readonly_displ_fil : dump_readonly.
Lemma readonly_stack_items lg a : readonly (std_item lg a) /\ readonly (gdad_item lg a) /\ readonly (hpd_item lg a) /\ readonly (FRA_item lg a).
Proof. split_and!; apply readonly_item; intros ?; apply readonly_loc. Qed.
Lemma readonly_std_raw lg raw a : readonly (std_raw lg raw a).
Proof.
  unfold std_raw. apply readonly_bind; [apply readonly_gets|intros sp]. apply readonly_bind; [|intros; apply readonly_ret].
  apply readonly_area_loop; intros; [unfold raw_inside; readonly_tac|apply readonly_loc|apply readonly_left_undefs|apply readonly_stack_items].
Qed.
Lemma readonly_std_rsb lg a : readonly (std_rsb lg a).
Proof.
  assert (Hp : forall b n, readonly (bytes_in stack_loc b n)) by (intros b n; apply readonly_bytes_in; intros ?; apply readonly_loc).
  unfold std_rsb, w_in_stack, p_in_stack. readonly_tac.
Qed.
#[local] Hint Resolve readonly_std_raw readonly_std_rsb : dump_readonly.
Lemma readonly_stack_loop lg raw k : forall a, readonly (stack_loop lg k raw a).
Proof. induction k; intros a; cbn [stack_loop]; readonly_tac. Qed.
Lemma readonly_find_prot prot k : forall a, readonly (find_prot prot k a).
Proof. induction k; intros a; cbn [find_prot]; readonly_tac. Qed.
Lemma readonly_FRA_items lg n : forall a, readonly (FRA_items lg n a).
Proof. induction n; intros a; cbn [FRA_items]; [readonly_tac|]. apply readonly_bind; [apply readonly_stack_items|intros]. readonly_tac. Qed.
#[local] Hint Resolve readonly_stack_loop readonly_find_prot readonly_FRA_items : dump_readonly.
Lemma readonly_data_loop lg inside c l u item' k a n :
  (forall a, readonly (inside a)) -> (forall n a, readonly (u n a)) -> item' = gdad_item lg \/ item' = hpd_item lg ->
  readonly (area_loop lg inside dt_sh c l u item' 1 k a n).
Proof.
  intros H1 H2 H3. apply readonly_area_loop; intros; [done|apply readonly_loc|done|]. destruct H3 as [->| ->]; apply readonly_stack_items.
Qed.
Lemma readonly_dumps lg : readonly (dumps lg).
Proof.
  unfold dumps, gdad_all, hpd_all, std_all, start_address, FRA_dump. readonly_tac.
  - apply readonly_data_loop; [intros; readonly_tac|intros; apply readonly_left_undefs|by left].
  - apply readonly_data_loop; [intros; readonly_tac|intros; apply readonly_left_undefs|by right].
Qed.
End Readonly.
