(* ===== verification/Core.v ===== *)
(** * The core dump ([core.c])

    After a fatal error in a running machine the parameters, the registers and the
    memory with its shadow bytes are written to a file, from which the state of the
    machine can be read back.  The file is taken to be created. *)
From Stdlib Require Import ZArith Lia Bool String.
From stdpp Require Import base gmap list.
From S2P Require Import Prelude Os Machine Warn Mem Wp Text Frame DumpSpec.
Local Open Scope string_scope.
Local Open Scope Z_scope.
Local Open Scope list_scope.

Section Core.
Context {cfg : Config}.

(** The lines NAME=VALUE, and the bytes. *)
Record core := mkCore {
  c_fields : list (string * Z);
  c_text : list Z; c_data : list Z; c_stack : list Z; c_FRA : list Z;
  c_FRA_sh : list Z; c_data_sh : list Z; c_stack_sh : list Z
}.

Definition trap_code (t : trapmode) : Z := match t with TR_ABORT => 1 | TR_HALT => 2 | TR_TRAP => 3 end.
Definition core_fields (s : state) : list (string * Z) :=
  [("wsize", wsize); ("psize", psize);
   ("ML", ML); ("HB", HB); ("DB", DB); ("NProc", NProc);
   ("PI", PI s); ("PC", PC s); ("HP", HP s); ("SP", SP s); ("LB", LB s); ("AB", AB s);
   ("ES", ES s); ("ES_def", if ES_def s then 1 else 0);
   ("OnTrap", trap_code (OnTrap s)); ("IgnMask", IgnMask s); ("TrapPI", TrapPI s);
   ("FRASize", FRASize s); ("FRA_def", FRA_def s); ("HL", HL s); ("SL", SL s)].

(** [fwrite] of an array: the bytes at [a], [a + d] and so on.  The length is an [int]
    that is converted to [size_t]: the array is shorter than a negative one. *)
Fixpoint fwrite_bytes (loc : Z -> M Z) (d : Z) (n : nat) (a : Z) : M (list Z) :=
  match n with
  | O => ret []
  | S n' => b ← loc a; l ← fwrite_bytes loc d n' (a + d); ret (b :: l)
  end.
Definition fwrite (loc : Z -> M Z) (d : Z) (a len : Z) : M (list Z) :=
  if s32 len <? 0 then undef else fwrite_bytes loc d (Z.to_nat (s32 len)) a.

(** The stack array starts with the byte at ML and goes down. *)
Definition core_dump : M core :=
  fields ← gets core_fields;
  text ← fwrite text_loc 1 0 DB;
  hl ← gets HL; sl ← gets SL;
  data ← fwrite data_loc 1 0 hl;
  stack ← fwrite stack_loc (-1) ML (u64 (ML + 1 - sl));
  fra ← fwrite FRA_at 1 0 FRALimit;
  fra_sh ← fwrite FRA_sh_at 1 0 FRALimit;
  data_sh ← fwrite dt_sh 1 0 hl;
  stack_sh ← fwrite st_sh (-1) ML (u64 (ML + 1 - sl));
  ret (mkCore fields text data stack fra fra_sh data_sh stack_sh).
(** [fatal]: only a running machine is dumped. *)
Definition fatal_core : M (option core) :=
  r ← gets running;
  if r then c ← core_dump; ret (Some c) else ret None.

(** ** The state is in the core *)
Definition field (c : core) (name : string) : option Z :=
  option_map snd (List.find (fun p => String.eqb p.1 name) (c_fields c)).

Lemma fwrite_bytes_run s loc (m : Z -> Z) d n : forall a,
  (forall i, 0 <= i < Z.of_nat n -> loc (a + d * i) s = Ret (m (a + d * i)) s) ->
  exists l, fwrite_bytes loc d n a s = Ret l s /\ length l = n /\
    forall i, 0 <= i < Z.of_nat n -> l !! Z.to_nat i = Some (m (a + d * i)).
Proof.
  induction n as [|n IH]; intros a H; cbn [fwrite_bytes]; [exists []; split; [done|split; [done|lia]]|].
  destruct (IH (a + d)) as (l & E & Hl & Hi).
  { intros i Hi. replace (a + d + d * i) with (a + d * (i + 1)) by lia. apply H. lia. }
  pose proof (H 0 ltac:(lia)) as H0. rewrite Z.mul_0_r, Z.add_0_r in H0. unfold bind. rewrite H0, E.
  eexists. split; [reflexivity|]. split; [cbn; by rewrite Hl|]. intros i Hi'.
  destruct (Z.eq_dec i 0) as [->|]; [by rewrite Z.mul_0_r, Z.add_0_r|].
  replace (Z.to_nat i) with (S (Z.to_nat (i - 1))) by lia. cbn [lookup list_lookup]. rewrite Hi by lia.
  f_equal. f_equal. lia.
Qed.
Lemma fwrite_run s loc m d a len :
  0 <= len < 2 ^ 31 -> (forall i, 0 <= i < len -> loc (a + d * i) s = Ret (m (a + d * i)) s) ->
  exists l, fwrite loc d a len s = Ret l s /\ Z.of_nat (length l) = len /\
    forall i, 0 <= i < len -> l !! Z.to_nat i = Some (m (a + d * i)).
Proof.
  intros Hl H. unfold fwrite, s32. rewrite sext_small by lia. replace (len <? 0) with false by lia.
  destruct (fwrite_bytes_run s loc m d (Z.to_nat len) a) as (l & E & Hn & Hi); [intros; apply H; lia|].
  exists l. split; [done|]. split; [lia|]. intros. apply Hi. lia.
Qed.

Context {ok : ConfigOk}.

(** C16: the state of a machine can be read back from its core: every register and
    parameter is the value of the line with its name, and every
    byte of the text, the data and the stack, and of the Function Return Area, with
    the shadow bytes, if the areas are smaller than two gigabytes. *)
Theorem core_complete s :
  Inv s -> 0 <= DB < 2 ^ 31 -> (length text = Z.to_nat DB) -> HL s < 2 ^ 31 ->
  alloc (stack s) < 2 ^ 31 ->
  exists c, core_dump s = Ret c s /\
    (field c "wsize" = Some wsize /\ field c "psize" = Some psize /\
     field c "ML" = Some ML /\ field c "HB" = Some HB /\ field c "DB" = Some DB /\ field c "NProc" = Some NProc) /\
    (field c "PI" = Some (PI s) /\ field c "PC" = Some (PC s) /\
     field c "HP" = Some (HP s) /\ field c "SP" = Some (SP s) /\
     field c "LB" = Some (LB s) /\ field c "AB" = Some (AB s) /\
     field c "ES" = Some (ES s) /\ field c "ES_def" = Some (if ES_def s then 1 else 0)) /\
    (field c "OnTrap" = Some (match OnTrap s with TR_ABORT => 1 | TR_HALT => 2 | TR_TRAP => 3 end) /\
     field c "IgnMask" = Some (IgnMask s) /\ field c "TrapPI" = Some (TrapPI s) /\
     field c "FRASize" = Some (FRASize s) /\ field c "FRA_def" = Some (FRA_def s) /\
     field c "HL" = Some (HL s) /\ field c "SL" = Some (SL s)) /\
    c_text c = text /\
    (forall a, 0 <= a < HL s -> c_data c !! Z.to_nat a = Some (mget (bytes (data s)) a) /\
                                 c_data_sh c !! Z.to_nat a = Some (mget (shad (data s)) a)) /\
    (forall a, ML + 1 - alloc (stack s) <= a <= ML ->
       c_stack c !! Z.to_nat (ML - a) = Some (mget (bytes (stack s)) a) /\
       c_stack_sh c !! Z.to_nat (ML - a) = Some (mget (shad (stack s)) a)) /\
    (forall i, 0 <= i < FRALimit -> c_FRA c !! Z.to_nat i = Some (mget (bytes (FRA s)) i) /\
                                    c_FRA_sh c !! Z.to_nat i = Some (mget (shad (FRA s)) i)).
Proof.
  intros Hs Hdb Htext Hhl Hal. pose proof ok_HB. pose proof (inv_HP s Hs). pose proof ok_FRALimit. assert (0 < psize) by (sizes; lia). pose proof ML_range. pose proof (inv_SP s Hs). pose proof (inv_LB s Hs).
  pose proof (inv_stack s Hs) as Hst. pose proof (inv_HL s Hs). pose proof (inv_FRA_alloc s Hs) as Hfa. pose proof (inv_FRA s Hs).
  assert (Esl : u64 (ML + 1 - SL s) = alloc (stack s)).
  { rewrite (inv_SL s Hs). unfold u64. rewrite Zminus_mod_idemp_r. replace (ML + 1 - (ML + 1 - alloc (stack s))) with (alloc (stack s)) by lia.
    apply Z.mod_small. lia. }
  destruct (fwrite_run s text_loc (fun a => default 0 (text !! Z.to_nat a)) 1 0 DB) as (lt & Et & Hlt & Ht); [lia| |].
  { intros i Hi. unfold text_loc. replace ((0 <=? 0 + 1 * i) && (0 + 1 * i <? DB)) with true by lia.
    destruct (text !! Z.to_nat (0 + 1 * i)) eqn:E; [done|]. apply lookup_ge_None in E. lia. }
  destruct (fwrite_run s data_loc (mget (bytes (data s))) 1 0 (HL s)) as (ld & Ed & _ & Hd); [lia| |].
  { intros i Hi. unfold data_loc. by replace (data_valid _ s) with true by (unfold data_valid; lia). }
  destruct (fwrite_run s dt_sh (mget (shad (data s))) 1 0 (HL s)) as (lds & Eds & _ & Hds); [lia| |].
  { intros i Hi. unfold dt_sh. by replace (data_valid _ s) with true by (unfold data_valid; lia). }
  destruct (fwrite_run s stack_loc (mget (bytes (stack s))) (-1) ML (alloc (stack s))) as (lst & Est & _ & Hlst); [lia| |].
  { intros i Hi. unfold stack_loc. by replace (stack_valid _ s) with true by (unfold stack_valid; lia). }
  destruct (fwrite_run s st_sh (mget (shad (stack s))) (-1) ML (alloc (stack s))) as (lss & Ess & _ & Hss); [lia| |].
  { intros i Hi. unfold st_sh. by replace (stack_valid _ s) with true by (unfold stack_valid; lia). }
  destruct (fwrite_run s FRA_at (mget (bytes (FRA s))) 1 0 FRALimit) as (lf & Ef & _ & Hf); [lia| |].
  { intros i Hi. unfold FRA_at. by replace (fra_valid _ s) with true by (unfold fra_valid; lia). }
  destruct (fwrite_run s FRA_sh_at (mget (shad (FRA s))) 1 0 FRALimit) as (lfs & Efs & _ & Hfs); [lia| |].
  { intros i Hi. unfold FRA_sh_at. by replace (fra_valid _ s) with true by (unfold fra_valid; lia). }
  exists (mkCore (core_fields s) lt ld lst lf lfs lds lss).
  split. { unfold core_dump, bind, gets. by rewrite Et, Ed, Esl, Est, Ef, Efs, Eds, Ess. }
  do 3 (split; [repeat split|]).
  split.
  { cbn [c_text]. apply list_eq_same_length with (n := Z.to_nat DB); [done|lia|]. intros i x y Hi Hx Hy.
    specialize (Ht (Z.of_nat i) ltac:(lia)). rewrite Nat2Z.id in Ht. rewrite Ht in Hx. injection Hx as <-.
    replace (Z.to_nat (0 + 1 * Z.of_nat i)) with i by lia. by rewrite Hy. }
  cbn [c_data c_data_sh c_stack c_stack_sh c_FRA c_FRA_sh]. split_and!.
  - intros a Ha. rewrite Hd, Hds by done. by replace (0 + 1 * a) with a by lia.
  - intros a Ha. rewrite Hlst, Hss by lia. by replace (ML + -1 * (ML - a)) with a by lia.
  - intros i Hi. rewrite Hf, Hfs by done. by replace (0 + 1 * i) with i by lia.
Qed.
End Core.
