(* ===== verification/Boot.v ===== *)
(** * Startup ([init.c], [read.c], the [init_*] routines)

    From the bytes of a load file, the arguments and the environment to the
    parameters and the state of the machine before the first call. *)
From Stdlib Require Import ZArith Lia Bool.
From stdpp Require Import base gmap list.
From S2P Require Import Prelude Os Machine Log Warn Mem Wp Sigtrp Data Stack Text Proctab Frame Real Float Switch Interp.

(** The options of the command line that are parameters of the machine. *)
Record options := mkOptions {
  o_maxstack : Z; o_maxheap : Z; o_FRALimit : Z; o_PreIgnMask : Z; o_warnmask : Z -> bool;
  o_mess_file : cstr; o_log : logst
}.

(** What [Malloc] returns: arrays with arbitrary contents. *)
Record fresh := mkFresh {
  f_data : gmap Z Z; f_stack : gmap Z Z; f_FRA : gmap Z Z; f_FRA_sh : gmap Z Z; f_AB_list : gmap Z Z
}.

(** Load-time variables ([read.h]). *)
Record header := mkHeader {
  h_FLAGS : Z; h_wsize : Z; h_psize : Z; h_NTEXT : Z; h_NDATA : Z; h_NPROC : Z;
  h_ENTRY : Z; h_NLINE : Z; h_SZDATA : Z
}.

(** ** Reading the load file: the monad over the unread bytes *)
Definition R (A : Type) : Type := list Z -> M (A * list Z).
Definition rret {A} (a : A) : R A := fun f => ret (a, f).
Definition rbind {A B} (m : R A) (k : A -> R B) : R B := fun f => p ← m f; k p.1 p.2.
Notation "x ⇐ m ; k" := (rbind m (fun x => k))
  (at level 20, m at level 100, k at level 200, only parsing) : em_scope.
Definition lift {A} (m : M A) : R A := fun f => a ← m; ret (a, f).
Definition rfatal {A} (e : load_error) : R A := lift (fatal (FLoad e)).
Definition rguard (bad : bool) (e : load_error) : R unit := if bad then rfatal e else rret tt.

(** [rd_byte]: [getc] returns the next byte, [EOF] at the end. *)
Definition rd_byte : R Z := fun f =>
  match f with b :: f' => ret (b, f') | [] => fatal (FLoad LEof) end.

(** [rd_int(n)]: [n] bytes, least significant first; [i] runs from 1. *)
Fixpoint rd_int_loop (k : nat) (i l : Z) : R Z :=
  match k with
  | O => rret l
  | S k' => b ⇐ rd_byte; rd_int_loop k' (i + 1) (Z.lor l (Z.shiftl b (i * 8)))
  end.
Definition rd_int (n : Z) : R Z := l ⇐ rd_byte; rd_int_loop (Z.to_nat (n - 1)) 1 l.

(** The parameters of the machine, once the sizes of all areas are known. *)
Definition machine (opt : options) (h : header) (hb : Z) (txt : list Z) (procs : list proc) : Config := {|
  wsize := h_wsize h; psize := h_psize h;
  maxstack := o_maxstack opt; maxheap := o_maxheap opt;
  FRALimit := o_FRALimit opt; PreIgnMask := o_PreIgnMask opt;
  must_test := Z.testbit (h_FLAGS h) 0; warnmask := o_warnmask opt;
  HB := hb; DB := h_NTEXT h; NProc := h_NPROC h; ENTRY := h_ENTRY h;
  NLINE := h_NLINE h; text := txt; proctab := procs
|}.

Section Header.
Context (as_magic VERSION : Z) (opt : options).

(** A warning while the header is read: only the warning mask is known. *)
Definition header_warning (nr : Z) : M unit :=
  @warning (machine opt (mkHeader 0 0 0 0 0 0 0 0 0) 0 [] []) nr.

Definition rd_header : R header :=
  m ⇐ rd_int 2; _ ⇐ rguard (negb (m =? as_magic)) LBadMagic;
  flags ⇐ rd_int 2;
  u ⇐ rd_int 2; _ ⇐ rguard (negb (u =? 0)) LUnresolved;
  v ⇐ rd_int 2; _ ⇐ rguard (negb (v =? VERSION)) LBadVersion;
  ws ⇐ rd_int 2; _ ⇐ rguard (negb ((ws =? 2) || (ws =? 4))) LBadWordsize;
  ps ⇐ rd_int 2; _ ⇐ rguard (negb ((ps =? 2) || (ps =? 4)) || (ps <? ws)) LBadPointersize;
  _ ⇐ rguard (o_FRALimit opt <? 2 * ps) LFRASmall;
  _ ⇐ rd_int 2; _ ⇐ rd_int 2;
  ntext ⇐ rd_int ps; ndata ⇐ rd_int ps; nproc ⇐ rd_int ps;
  entry ⇐ rd_int ps; _ ⇐ rguard ((entry <? 0) || (nproc <=? entry)) LBadEntry;
  nline ⇐ rd_int ps;
  _ ⇐ lift (when (nline =? 0) (header_warning WNLINEZR));
  szdata ⇐ rd_int ps;
  _ ⇐ rd_int ps; _ ⇐ rd_int ps;
  rret (mkHeader flags ws ps ntext ndata nproc entry
          (if nline =? 0 then I_MAXS4 else nline) szdata).
End Header.

Section Init.
Context {cfg : Config} {host : Host}.

Definition STACKSIZE := 1000.
Definition HEAPSIZE := 1000.
Definition ABLISTSIZE := 100.

(** The registers before [init]: C globals are zero. *)
Definition state0 : state :=
  mkState 0 0 0 0 0 0 0 false TR_ABORT 0 0 (mkArea ∅ ∅ 0) 0 0 (mkArea ∅ ∅ 0) 0
    (mkArea ∅ ∅ 0) 0 ∅ 0 0 0 0 false false 0 (mkWarn ∅ false []) mon0.

Definition init_text : M unit := modify (set_PI (-1)) ;; modify (set_PC 0).

Definition init_data (g : fresh) : M unit :=
  modify (set_HP HB) ;;
  modify (set_HL (HB +p HEAPSIZE)) ;;
  hl ← gets HL;
  modify (set_data (mkArea (f_data g) ∅ (malloc_size hl))) ;;
  dt_clear_area 0 hl.

Definition init_stack (g : fresh) : M unit :=
  modify (set_SP (ML +p 1)) ;; modify (set_SL (ML +p 1)) ;;
  modify (set_LB (ML +p 1)) ;; modify (set_AB (ML +p 1)) ;;
  modify (set_SL (ML +p 1 +p - STACKSIZE)) ;;
  modify (set_stack (mkArea (f_stack g) ∅ (malloc_size STACKSIZE))) ;;
  sl ← gets SL; st_clear_area ML sl.

Definition init_FRA (g : fresh) : M unit :=
  modify (set_FRA (mkArea (f_FRA g) (f_FRA_sh g) (malloc_size FRALimit))) ;;
  modify (set_FRA_def UNDEFINED).

Definition init_AB_list (g : fresh) : M unit :=
  modify (set_frame_limit ABLISTSIZE) ;; modify (set_curr_frame 0) ;;
  modify (set_AB_list (f_AB_list g)) ;;
  ab ← gets AB; set_AB_at 0 ab.

(** ** The global data area ([rd_gda], [rd_repeat], [rd_descr]) *)
Fixpoint repeat_bytes (i : nat) (pos diff : Z) : M Z :=
  match i with
  | O => ret pos
  | S i' =>
      b ← data_loc (pos +p - diff); set_data_loc pos b ;;
      x ← dt_sh (pos +p - diff); set_dt_sh pos x ;;
      repeat_bytes i' (pos +p 1) diff
  end.
Fixpoint repeat_loop (j : nat) (pos diff : Z) : M Z :=
  match j with
  | O => ret pos
  | S j' => pos ← repeat_bytes (Z.to_nat diff) pos diff; repeat_loop j' pos diff
  end.
Definition rd_repeat (pos count prev_pos : Z) : M Z :=
  repeat_loop (Z.to_nat count) pos (s64 (pos - prev_pos)).

(** [n] times [item], the position advancing by [w]. *)
Fixpoint rd_items (n : nat) (item : Z -> R unit) (pos w : Z) : R Z :=
  match n with
  | O => rret pos
  | S n' => _ ⇐ item pos; rd_items n' item (pos +p w) w
  end.

(** The characters of a float, up to a zero byte. *)
Fixpoint rd_float_chars (k : nat) (acc : list Z) : R (list Z) :=
  match k with
  | O => rfatal LFloatTooLong
  | S k' => b ⇐ rd_byte; if b =? 0 then rret (rev acc) else rd_float_chars k' (b :: acc)
  end.

Definition rd_descr (type count pos : Z) : R Z :=
  if type =? 1 then rd_items (Z.to_nat count) (fun p => lift (dt_stw p 0)) pos wsize
  else if type =? 2 then
    rd_items (Z.to_nat count) (fun p => b ⇐ rd_byte; lift (dt_stn p b 1)) pos 1
  else if type =? 3 then
    rd_items (Z.to_nat count) (fun p => v ⇐ rd_int wsize; lift (dt_stw p v)) pos wsize
  else if type =? 4 then
    rd_items (Z.to_nat count) (fun p => v ⇐ rd_int psize; lift (dt_stdp p v)) pos psize
  else if type =? 5 then
    rd_items (Z.to_nat count) (fun p => v ⇐ rd_int psize; lift (dt_stip p v)) pos psize
  else if (type =? 6) || (type =? 7) then
    _ ⇐ rguard (negb ((count =? 1) || (count =? 2) || (count =? 4))) LBadIntegersize;
    v ⇐ rd_int count; _ ⇐ lift (dt_stn pos v count); rret (pos +p count)
  else if type =? 8 then
    _ ⇐ rguard (negb ((count =? 4) || (count =? 8))) LBadFloatsize;
    cs ⇐ rd_float_chars 128 []; _ ⇐ lift (f ← str2double cs; dt_stf pos f count); rret (pos +p count)
  else rfatal LUnknownInitializer.

Fixpoint rd_gda_loop (n : nat)
    (prev_type pos prev_pos : Z) : R unit :=
  match n with
  | O => rret tt
  | S n' =>
      type ⇐ rd_byte;
      if type =? 0 then
        count ⇐ rd_int psize;
        _ ⇐ rguard (prev_type =? 0) LType0OnType0;
        pos' ⇐ lift (rd_repeat pos count prev_pos);
        rd_gda_loop n' 0 pos' prev_pos
      else
        count ⇐ rd_byte;
        pos' ⇐ rd_descr type count pos;
        rd_gda_loop n' type pos' pos
  end.
Definition rd_gda (ndata : Z) : R unit :=
  _ ⇐ rd_gda_loop (Z.to_nat ndata) 0 0 0;
  _ ⇐ lift (dt_prot 0 LINSIZE); lift (dt_prot 4 psize).

(** [rd_proctab]: [n] descriptors are left. *)
Fixpoint rd_procs (n : nat) (tab : list proc) : R (list proc) :=
  match n with
  | O => rret tab
  | S n' =>
      nloc ⇐ rd_int psize; ep ⇐ rd_int psize;
      match add_proc DB nloc ep tab with
      | Some tab' => rd_procs n' tab'
      | None => lift (fatal FEntryOutside)
      end
  end.

(** ** Arguments and environment *)
(** [strlen(s) + 1] rounded up to a multiple of the word size. *)
Definition alignedstrlen (s : list Z) : Z :=
  (Z.of_nat (length s) + 1 + wsize - 1) / wsize * wsize.

Fixpoint store_chars (cs : list Z) (addr : Z) : M Z :=
  match cs with
  | [] => ret addr
  | c :: cs' => set_data_loc addr c ;; set_dt_sh addr SH_INT ;; store_chars cs' (addr +p 1)
  end.
(** [storestring(addr, s)]: the string, its zero byte and the padding. *)
Definition storestring (addr : Z) (s : list Z) : M Z :=
  let newlen := alignedstrlen s in
  ch_in_data addr newlen ;; ch_aligned addr newlen ;;
  store_chars (s ++ replicate (Z.to_nat newlen - length s) 0) addr.

Fixpoint store_vector (strs : list (list Z)) (vecp strp : Z) : M (Z * Z) :=
  match strs with
  | [] => ret (vecp, strp)
  | s :: strs' =>
      dt_stdp vecp strp ;; strp' ← storestring strp s;
      store_vector strs' (vecp +p psize) strp'
  end.
(** The address of the vector is pushed; the vector ends in a zero pointer. *)
Definition put_vector (strs : list (list Z)) (vecp vec_size : Z) : M Z :=
  dppush vecp ;;
  p ← store_vector strs vecp (vecp +p vec_size);
  dt_stdp p.1 0 ;; ret p.2.

Definition vec_size (strs : list (list Z)) : Z := (Z.of_nat (length strs) + 1) * psize.
Definition strings_size (strs : list (list Z)) : Z :=
  foldr (fun s n => alignedstrlen s + n) 0 strs.
End Init.

(** ** [init]: everything up to the first call *)
Section Boot.
Context {host : Host} {os : Os} (as_magic VERSION : Z) (opt : options) (g : fresh).
Context (argv environ : list (list Z)).

Definition set_up (cfg : Config) : M unit :=
  init_text ;; init_data g ;; init_stack g ;; init_FRA g ;; init_AB_list g ;;
  modify (set_TrapPI 0) ;; modify (set_OnTrap TR_ABORT) ;;
  modify (set_IgnMask PreIgnMask) ;; modify (set_ES_def false).

(** [ARGB + arg_vec_size + env_vec_size + string_size] *)
Definition heap_base (h : header) : Z :=
  let cfg := machine opt h 0 [] [] in
  u64 (h_SZDATA h + vec_size argv + vec_size environ
       + (strings_size environ + strings_size argv)).

Definition put_arguments (cfg : Config) (h : header) : M unit :=
  strp ← put_vector environ (u64 (h_SZDATA h)) (vec_size environ);
  _ ← put_vector argv strp (vec_size argv);
  wpush (Z.of_nat (length argv)).

(** [rd_text] ([fread]), [rd_gda] and [rd_proctab]. *)
Definition rd_partitions (cfg : Config) (h : header) : R (list Z * list proc) := fun f =>
  let txt := firstn (Z.to_nat (h_NTEXT h)) f in
  p ← rd_gda (h_NDATA h) (skipn (Z.to_nat (h_NTEXT h)) f);
  d ← rd_procs (Z.to_nat (h_NPROC h)) [] p.2;
  ret ((txt, d.1), d.2).

(** What comes before the load file is opened. *)
Definition init_files : M logst :=
  lg ← init_ofiles true (o_mess_file opt) (o_log opt); init_signals ;; ret lg.

(** [init] up to the first call: the parameters, the FLAGS word and the logging machine. *)
Definition boot (file : list Z) : M (Config * Z * logst) :=
  lg ← init_files;
  p ← rd_header as_magic VERSION opt file;
  let h := p.1 in
  let cfg0 := machine opt h (heap_base h) [] [] in
  set_up cfg0 ;;
  q ← rd_partitions cfg0 h p.2;
  let cfg := machine opt h (heap_base h) q.1.1 q.1.2 in
  put_arguments cfg h ;;
  ret (cfg, h_FLAGS h, lg).
End Boot.


(** ** A machine that has been loaded satisfies the invariant *)

(** [rspec m P]: [m] reads bytes, its value satisfies [P], the state is unchanged
    but for the warnings. *)
Definition file_ok (f : list Z) : Prop := Forall is_byte f.
Definition rspec {A} (m : R A) (P : A -> Prop) : Prop :=
  forall f s, file_ok f ->
  wp True (m f) (fun p s' => P p.1 /\ file_ok p.2 /\ eqw s s') (fun _ => eqw s) s.

Lemma rspec_bind {A B} (m : R A) (k : A -> R B) P Q :
  rspec m P -> (forall a, P a -> rspec (k a) Q) -> rspec (rbind m k) Q.
Proof.
  intros Hm Hk f s Hf. apply wp_bind. eapply wp_call; [by apply Hm|done|].
  intros [a f'] s' (Ha & Hf' & Hs). cbn in *.
  eapply wp_call; [by apply Hk| |]; [intros nr s'' ?; by transitivity s'|].
  intros p s'' (? & ? & ?). split_and!; [done|done|]. by transitivity s'.
Qed.
Lemma rspec_ret {A} (a : A) (P : A -> Prop) : P a -> rspec (rret a) P.
Proof. intros H f s Hf. by split_and!. Qed.
Lemma rspec_guard b e : rspec (rguard b e) (fun _ => b = false).
Proof. intros f s Hf. by destruct b. Qed.
Lemma rspec_byte : rspec rd_byte is_byte.
Proof. intros [|b f] s Hf; [done|]. inversion Hf; subst. by split_and!. Qed.

Lemma lor_bytes b l i : is_byte b -> 0 <= l < 2 ^ (8 * i) -> 0 <= i ->
  0 <= Z.lor l (Z.shiftl b (i * 8)) < 2 ^ (8 * (i + 1)).
Proof.
  intros Hb Hl Hi. unfold is_byte in Hb.
  assert (0 <= Z.shiftl b (i * 8)) by (apply Z.shiftl_nonneg; lia).
  assert (Hn : 0 <= Z.lor l (Z.shiftl b (i * 8))) by (apply Z.lor_nonneg; lia).
  split; [done|].
  assert (Hb' : Z.shiftl b (i * 8) < 2 ^ (8 * (i + 1))).
  { rewrite Z.shiftl_mul_pow2 by lia. replace (8 * (i + 1)) with (8 + i * 8) by lia.
    rewrite Z.pow_add_r by lia. change (2 ^ 8) with 256. pose proof (Z.pow_pos_nonneg 2 (i * 8)). nia. }
  assert (Hl' : l < 2 ^ (8 * (i + 1))).
  { apply Z.lt_le_trans with (2 ^ (8 * i)); [lia|]. apply Z.pow_le_mono_r; lia. }
  destruct (Z.eq_dec (Z.lor l (Z.shiftl b (i * 8))) 0) as [->|Hne]; [apply Z.pow_pos_nonneg; lia|].
  apply Z.log2_lt_pow2; [lia|]. rewrite Z.log2_lor by lia.
  apply Z.max_lub_lt.
  - destruct (Z.eq_dec l 0) as [->|]; [cbn; lia | apply Z.log2_lt_pow2; lia].
  - destruct (Z.eq_dec (Z.shiftl b (i * 8)) 0) as [->|]; [cbn; lia | apply Z.log2_lt_pow2; lia].
Qed.
Lemma rspec_int_loop k : forall i l, 0 <= i -> 0 <= l < 2 ^ (8 * i) ->
  rspec (rd_int_loop k i l) (fun v => 0 <= v < 2 ^ (8 * (i + Z.of_nat k))).
Proof.
  induction k as [|k IH]; intros i l Hi Hl; cbn [rd_int_loop].
  - apply rspec_ret. by rewrite Z.add_0_r.
  - eapply rspec_bind; [apply rspec_byte|]. intros b Hb.
    replace (i + Z.of_nat (S k)) with (i + 1 + Z.of_nat k) by lia.
    apply IH; [lia|]. by apply lor_bytes.
Qed.
(** An [n] byte integer is unsigned. *)
Lemma rspec_int n : 1 <= n -> rspec (rd_int n) (fun v => 0 <= v < 2 ^ (8 * n)).
Proof.
  intros Hn. eapply rspec_bind; [apply rspec_byte|]. intros b Hb.
  replace (8 * n) with (8 * (1 + Z.of_nat (Z.to_nat (n - 1)))) by lia.
  apply rspec_int_loop; [lia|]. unfold is_byte in Hb. cbn. lia.
Qed.

(** What a header that is accepted satisfies. *)
Definition header_ok (opt : options) (h : header) : Prop :=
  (h_wsize h = 2 \/ h_wsize h = 4) /\ (h_psize h = 2 \/ h_psize h = 4) /\
  h_wsize h <= h_psize h /\ 2 * h_psize h <= o_FRALimit opt /\
  0 <= h_SZDATA h < 2 ^ 32 /\ 0 <= h_ENTRY h < h_NPROC h /\ 0 <= h_NTEXT h < 2 ^ 32 /\
  0 < h_NLINE h.

Lemma rspec_conseq {A} (m : R A) (P Q : A -> Prop) :
  rspec m P -> (forall a, P a -> Q a) -> rspec m Q.
Proof.
  intros Hm H f s Hf. eapply wp_call; [by apply Hm|done|]. intros p s' (? & ? & ?).
  split_and!; auto.
Qed.
Lemma rspec_any {A} (m : R A) P : rspec m P -> rspec m any.
Proof. intros H. by eapply rspec_conseq. Qed.
Lemma rspec_int4 n : n = 2 \/ n = 4 -> rspec (rd_int n) (fun v => 0 <= v < 2 ^ 32).
Proof.
  intros Hn. eapply rspec_conseq; [apply rspec_int; lia|]. cbv beta.
  destruct Hn as [-> | ->]; lia.
Qed.
Lemma rspec_lift_quiet {A} (m : M A) : quiet m -> rspec (lift m) any.
Proof.
  intros Hm f s Hf. apply wp_bind. eapply wp_call; [apply Hm|done|].
  intros a s' Hs'. by split_and!.
Qed.

Ltac rd H x := eapply rspec_bind; [apply H | intros x ?; cbv beta in *].
Lemma rspec_header magic version opt :
  rspec (rd_header magic version opt) (header_ok opt).
Proof.
  pose proof (rspec_int4 2 ltac:(auto)) as H2.
  unfold rd_header.
  rd H2 m. rd rspec_guard g1. rd H2 flags. rd H2 u. rd rspec_guard g2. rd H2 v. rd rspec_guard g3.
  rd H2 ws. rd rspec_guard g4. rd H2 ps. rd rspec_guard g5. rd rspec_guard g6.
  assert (ps = 2 \/ ps = 4) as Hps by lia. pose proof (rspec_int4 _ Hps) as Hp.
  rd H2 x1. rd H2 x2. rd Hp ntext. rd Hp ndata. rd Hp nproc. rd Hp entry. rd rspec_guard g7.
  rd Hp nline.
  eapply rspec_bind; [apply rspec_lift_quiet, quiet_when, quiet_warning | intros _ _].
  rd Hp szdata. rd Hp x3. rd Hp x4.
  apply rspec_ret. unfold header_ok. cbn.
  split_and!; try lia. destruct (Z.eqb_spec nline 0); unfold I_MAXS4; lia.
Qed.

(** ** Setting up the areas *)
Definition fresh_ok (g : fresh) : Prop :=
  bytes_ok (f_data g) /\ bytes_ok (f_stack g) /\ bytes_ok (f_FRA g).

Section SetUp.
Context {cfg : Config} {ok : ConfigOk} {host : Host} (g : fresh).

Lemma set_up_Inv s :
  fresh_ok g -> HB < 2 ^ 61 -> FRASize s = 0 ->
  wp True (set_up g cfg) (fun _ s' => Inv s') (fun _ _ => False) s.
Proof.
  intros (Hgd & Hgs & HgF) HHB HFRA. pose proof ok_HB. pose proof ML_range.
  pose proof ok_FRALimit. assert (0 < psize) by (sizes; lia).
  assert (Hml : 65531 <= ML).
  { unfold ML, max_addr, I_MAXU2, I_MAXS4. sizes; vm_compute; congruence. }
  unfold wp, set_up, init_text, init_data, init_stack, init_FRA, init_AB_list. run.
  unfold dt_clear_area, HEAPSIZE, STACKSIZE, ABLISTSIZE.
  rewrite !padd_small by (rewrite ?padd_small; lia).
  rewrite (malloc_size_small 1000), (malloc_size_small FRALimit) by lia.
  destruct (Z.leb_spec (2 ^ 32) (HB + 1000)).
  { rewrite dt_clear_loop_overrun; [done|..]; cbn [HL set_data set_HL set_HP set_PC set_PI data alloc]; unfold malloc_size;
      Z.to_euclidean_division_equations; lia. }
  rewrite malloc_size_small by (cbn; lia).
  rewrite dt_clear_loop_run; cbn [HL set_data set_HL set_HP set_PC set_PI data alloc]; [|lia|lia|lia].
  run. rewrite st_clear_area_run by (cbn; lia). run. unfold set_AB_at.
  match goal with |- context [frame_limit ?x] => change (frame_limit x) with 100 end. run.
  constructor; cbn; try done; try lia.
  - apply ML_aligned.
  - apply ML_aligned.
  - rewrite u64_small; lia.
Qed.

(** [rkeeps m]: reading with [m] preserves the invariant. *)
Definition rkeeps {A} (m : R A) (P : A -> Prop) : Prop :=
  forall f, file_ok f -> keeps (m f) (fun p => P p.1 /\ file_ok p.2).

Lemma rkeeps_bind {A B} (m : R A) (k : A -> R B) P Q :
  rkeeps m P -> (forall a, P a -> rkeeps (k a) Q) -> rkeeps (rbind m k) Q.
Proof.
  intros Hm Hk f Hf. eapply keeps_bind; [by apply Hm|]. intros [a f'] [Ha Hf']. by apply Hk.
Qed.
Lemma rkeeps_ret {A} (a : A) (P : A -> Prop) : P a -> rkeeps (rret a) P.
Proof. intros H f Hf. by apply keeps_ret. Qed.
Lemma rkeeps_lift {A} (m : M A) P : keeps m P -> rkeeps (lift m) P.
Proof.
  intros H f Hf. eapply keeps_bind; [exact H|]. intros a Ha. by apply keeps_ret.
Qed.
Lemma rkeeps_spec {A} (m : R A) P : rspec m P -> rkeeps m P.
Proof.
  intros H f Hf s Hs. eapply wp_conseq; [by apply H|done| |].
  - intros p s' (? & ? & [w ->]). split; [done | by apply Inv_set_warn].
  - intros nr s' [w ->]. by apply Inv_set_warn.
Qed.
Lemma rkeeps_guard b e : rkeeps (rguard b e) (fun _ => b = false).
Proof. apply rkeeps_spec, rspec_guard. Qed.
Lemma rkeeps_byte : rkeeps rd_byte is_byte.
Proof. apply rkeeps_spec, rspec_byte. Qed.
Lemma rkeeps_int n : rkeeps (rd_int n) any.
Proof.
  apply rkeeps_spec. eapply rspec_bind; [apply rspec_byte|]. intros l _.
  generalize (Z.to_nat (n - 1)) as k. intros k. revert l. generalize 1.
  induction k as [|k IH]; intros i l; cbn [rd_int_loop]; [by apply rspec_ret|].
  eapply rspec_bind; [apply rspec_byte | intros b _]. apply IH.
Qed.

Lemma keeps_rd_repeat pos count prev : keeps (rd_repeat pos count prev) any.
Proof.
  unfold rd_repeat. generalize (s64 (pos - prev)) as diff. intros diff.
  assert (Hb : forall i pos, keeps (repeat_bytes i pos diff) any).
  { induction i as [|i IH]; intros p; cbn [repeat_bytes]; keeps_tac. }
  revert pos. induction (Z.to_nat count) as [|j IH]; intros p; cbn [repeat_loop]; keeps_tac.
Qed.
Lemma rkeeps_items n item : (forall p, rkeeps (item p) any) ->
  forall pos w, rkeeps (rd_items n item pos w) any.
Proof.
  intros Hi. induction n as [|n IH]; intros pos w; cbn [rd_items]; [by apply rkeeps_ret|].
  eapply rkeeps_bind; [apply Hi | auto].
Qed.
Lemma rkeeps_fatal {A} e (P : A -> Prop) : rkeeps (rfatal e) P.
Proof. apply rkeeps_lift, keeps_fatal. Qed.
Lemma rkeeps_float_chars k : forall acc, rkeeps (rd_float_chars k acc) any.
Proof.
  induction k as [|k IH]; intros acc; cbn [rd_float_chars]; [apply rkeeps_fatal|].
  eapply rkeeps_bind; [apply rkeeps_byte|]. intros b _. destruct (b =? 0); [by apply rkeeps_ret | apply IH].
Qed.

Ltac rk := eapply rkeeps_bind; [first [apply rkeeps_int | apply rkeeps_byte | apply rkeeps_guard]|intros ? _].
Lemma rkeeps_descr type count pos : rkeeps (rd_descr type count pos) any.
Proof.
  unfold rd_descr.
  repeat match goal with |- context [if ?b then _ else _] => destruct b end;
    try (apply rkeeps_items; intros p; try rk; apply rkeeps_lift; keeps_tac).
  - do 2 rk. eapply rkeeps_bind; [apply rkeeps_lift, keeps_dt_stn | intros _ _]. by apply rkeeps_ret.
  - rk. eapply rkeeps_bind; [apply rkeeps_float_chars | intros cs _].
    eapply rkeeps_bind; [apply rkeeps_lift; keeps_tac | intros _ _]. by apply rkeeps_ret.
  - apply rkeeps_fatal.
Qed.
Lemma rkeeps_gda_loop n : forall pt pos pp, rkeeps (rd_gda_loop n pt pos pp) any.
Proof.
  induction n as [|n IH]; intros; cbn [rd_gda_loop]; [by apply rkeeps_ret|].
  rk. destruct (_ =? 0).
  - do 2 rk. eapply rkeeps_bind; [apply rkeeps_lift, keeps_rd_repeat | intros; apply IH].
  - rk. eapply rkeeps_bind; [apply rkeeps_descr | intros; apply IH].
Qed.
Lemma rkeeps_gda ndata : rkeeps (rd_gda ndata) any.
Proof.
  unfold rd_gda. eapply rkeeps_bind; [apply rkeeps_gda_loop | intros _ _].
  eapply rkeeps_bind; [apply rkeeps_lift, keeps_dt_prot | intros _ _].
  apply rkeeps_lift, keeps_dt_prot.
Qed.
Lemma rkeeps_procs n : forall tab, rkeeps (rd_procs n tab) any.
Proof.
  induction n as [|n IH]; intros tab; cbn [rd_procs]; [by apply rkeeps_ret|].
  do 2 rk. destruct (add_proc _ _ _ _); [apply IH | apply rkeeps_lift, keeps_fatal].
Qed.

(** ** Arguments and environment *)
Lemma keeps_store_chars cs : Forall is_byte cs -> forall a, keeps (store_chars cs a) any.
Proof. induction 1 as [|c cs Hc _ IH]; intros a; cbn [store_chars]; keeps_tac. Qed.
Lemma keeps_storestring a s : Forall is_byte s -> keeps (storestring a s) any.
Proof.
  intros Hs. unfold storestring. keeps_tac. apply keeps_store_chars, Forall_app. split; [done|].
  by apply Forall_replicate.
Qed.
Lemma keeps_store_vector strs : Forall (Forall is_byte) strs ->
  forall v p, keeps (store_vector strs v p) any.
Proof.
  induction 1 as [|c cs Hc _ IH]; intros v p; cbn [store_vector]; [keeps_tac|].
  eapply keeps_bind; [apply keeps_dt_stdp | intros _ _].
  eapply keeps_bind; [by apply keeps_storestring | intros; apply IH].
Qed.
Lemma keeps_put_vector strs v n : Forall (Forall is_byte) strs -> keeps (put_vector strs v n) any.
Proof.
  intros. unfold put_vector. kstep. eapply keeps_bind; [by apply keeps_store_vector | intros p _].
  keeps_tac.
Qed.
End SetUp.

(** ** [boot] *)
Section BootInv.
Context {host : Host} {os : Os} (as_magic VERSION : Z) (opt : options) (g : fresh).
Context (argv environ : list (list Z)).
Context (Hg : fresh_ok g) (HFRA : o_FRALimit opt < 2 ^ 31).
Context (Hargv : Forall (Forall is_byte) argv) (Henv : Forall (Forall is_byte) environ).
Context (Hsizes : forall h, header_ok opt h ->
  let cfg := machine opt h 0 [] [] in
  vec_size argv + vec_size environ + (strings_size environ + strings_size argv) < 2 ^ 60).

Lemma strings_size_nonneg (cfg : Config) l : 0 < wsize -> 0 <= strings_size l.
Proof.
  intros Hw. unfold strings_size. induction l as [|s l IH]; cbn [foldr]; [lia|].
  assert (0 <= alignedstrlen s); [|lia]. unfold alignedstrlen.
  apply Z.mul_nonneg_nonneg; [apply Z.div_pos|]; lia.
Qed.

Lemma heap_base_range h : header_ok opt h -> 0 < heap_base opt argv environ h < 2 ^ 61.
Proof.
  intros Hh. pose proof (Hsizes h Hh) as Hsz. cbv zeta in Hsz.
  destruct Hh as (Hw & Hp & _ & _ & Hd & _).
  set (cfg := machine opt h 0 [] []) in *.
  assert (0 < wsize) by (change wsize with (h_wsize h); lia).
  pose proof (strings_size_nonneg cfg environ). pose proof (strings_size_nonneg cfg argv).
  assert (0 < vec_size argv) by (unfold vec_size; change psize with (h_psize h); nia).
  assert (0 < vec_size environ) by (unfold vec_size; change psize with (h_psize h); nia).
  change (heap_base opt argv environ h) with (u64 (h_SZDATA h + vec_size argv + vec_size environ
       + (strings_size environ + strings_size argv))).
  rewrite u64_small; lia.
Qed.

Lemma machine_ok h txt procs :
  header_ok opt h -> file_ok txt -> ConfigOk (cfg := machine opt h (heap_base opt argv environ h) txt procs).
Proof.
  intros Hh Ht. pose proof (heap_base_range h Hh). destruct Hh as (? & ? & ? & ? & _).
  constructor; cbn; try done. lia.
Qed.

(** The invariant does not depend on the program. *)
Lemma Inv_machine h hb txt procs txt' procs' s :
  Inv (cfg := machine opt h hb txt procs) s -> Inv (cfg := machine opt h hb txt' procs') s.
Proof. intros []. by constructor. Qed.

Lemma rd_partitions_keeps h f :
  header_ok opt h -> file_ok f ->
  let cfg := machine opt h (heap_base opt argv environ h) [] [] in
  keeps (rd_partitions cfg h f) (fun p => file_ok p.1.1).
Proof.
  intros Hh Hf cfg. pose proof (machine_ok h [] [] Hh ltac:(constructor)) as ok. fold cfg in ok.
  assert (file_ok (skipn (Z.to_nat (h_NTEXT h)) f)) by by apply Forall_drop.
  unfold rd_partitions.
  eapply keeps_bind; [apply rkeeps_gda; done | intros p [_ Hp]].
  eapply keeps_bind; [apply rkeeps_procs; done | intros d _].
  apply keeps_ret. cbn. by apply Forall_take.
Qed.

Lemma monly_init_files : monly (init_files opt).
Proof.
  unfold init_files. apply monly_bind; [apply monly_init_ofiles | intros lg].
  apply monly_bind; [apply monly_init_signals | intros; by apply monly_same].
Qed.

(** A load file that is accepted gives legal parameters and a state that satisfies
    the machine invariant. *)
Lemma boot_Inv file :
  file_ok file ->
  wp True (boot as_magic VERSION opt g argv environ file)
    (fun p s => ConfigOk (cfg := p.1.1) /\ Inv (cfg := p.1.1) s) (fun _ _ => True) state0.
Proof.
  intros Hfile. unfold boot. apply wp_bind.
  eapply wp_call; [apply monly_init_files|done|]. intros lg s2 [m2 ->]. apply wp_bind.
  eapply wp_call; [by apply rspec_header|done|]. intros [h f] s (Hh & Hf & [w Hs]). cbn in Hh, Hf.
  cbn [fst snd].
  pose proof (heap_base_range h Hh) as Hhb. set (cfg0 := machine opt h _ [] []).
  assert (ok0 : ConfigOk (cfg := cfg0)) by (apply machine_ok; [done|constructor]).
  apply wp_bind. eapply wp_call; [apply set_up_Inv; [done|exact (proj2 Hhb)|by rewrite Hs]|done|].
  cbv beta; intros _ s3 Hs3. apply wp_bind.
  eapply wp_call; [by apply rd_partitions_keeps|done|].
  intros [[txt procs] f'] s4 [Htxt Hs4]. cbn [fst snd] in *.
  assert (ok : ConfigOk (cfg := machine opt h (heap_base opt argv environ h) txt procs)) by (by apply machine_ok).
  apply wp_bind. eapply wp_call; [|done|].
  - apply (keeps_bind (cfg := machine opt h (heap_base opt argv environ h) txt procs) _ _ any any).
    + by apply keeps_put_vector.
    + intros strp _. eapply keeps_bind; [by apply keeps_put_vector | intros _ _; apply keeps_wpush].
    + by eapply Inv_machine.
  - cbv beta. intros _ s5 [_ Hs5]. by split.
Qed.

(** C1: whatever load file, arguments and environment the interpreter is started
    with, in every state that the machine reaches the stack pointer is aligned and
    lies between the end of the allocated stack and the local base, the heap
    pointer lies in the allocated data area, memory holds bytes, and the function
    result fits in its area. *)
Theorem machine_safe file cfg flags lg s0 armed s :
  file_ok file ->
  boot as_magic VERSION opt g argv environ file state0 = Ret (cfg, flags, lg) s0 ->
  reachable (cfg := cfg) s0 armed s ->
  Inv (cfg := cfg) s.
Proof.
  intros Hf Hb Hr. pose proof (boot_Inv file Hf) as H. unfold wp in H. rewrite Hb in H.
  destruct H as [Hok Hs0]. by eapply reachable_Inv.
Qed.
End BootInv.
