(* ===== verification/Main.v ===== *)
(** * The program ([main.c])

    The start of the machine, the main loop with its statistics and the request to
    stop, and how the program ends. *)
From Stdlib Require Import ZArith Lia Bool String.
From stdpp Require Import base gmap list.
From S2P Require Import Prelude Os Machine Log Warn Options Mem Wp Sigtrp Data Stack Text Frame Real Float Switch Interp Tally Boot Decode PrInstr Disasm Dump DumpSpec.
Local Open Scope Z_scope.
Local Open Scope list_scope.

(** ** The main loop *)
Section Loop.
Context {cfg : Config} {host : Host} {os : Os}.

(** The entry point after a trap. *)
Definition trapped (armed : bool) (t : tallyst) (nr : Z) : M tallyst :=
  do_trap nr ;; if armed then ret t else undef.
(** The turn of the loop, up to [log_eoi]; [tally] comes before a signal is looked at. *)
Definition main_step (tallying armed : bool) (t : tallyst) : M tallyst :=
  catch (signals ;; one_instr ;;
         fil ← gets FIL; lin ← gets LIN;
         match (if tallying then tally fil lin t else Some t) with
         | Some t' => catch (signals ;; check_signal ;; ret t') (trapped armed t')
         | None => undef
         end)
        (trapped armed t).
Definition forget {A B} (b : B) (r : result A) : result B :=
  match r with Ret _ s => Ret b s | Trap nr s => Trap nr s | Fatal m s => Fatal m s | Undef => Undef end.
(** The loop, for at most [fuel] turns.  What the dumps write is left out; [log_eoi]
    closes down without a tally. *)
Fixpoint main_loop (fuel : nat) (tallying armed : bool) (lg : logst) (t : tallyst) (s : state) :
    option (result tallyst) :=
  match fuel with
  | O => None
  | S f =>
      if running s then
        let lg' := count_instr lg in
        match main_step tallying armed t s with
        | Ret t' s' =>
            match dumps lg' s' with
            | Ret _ s' => if log_eoi lg' then Some (Fatal FStopped s') else main_loop f tallying true lg' t' s'
            | r => Some (forget t' r)
            end
        | r => Some r
        end
      else Some (Ret t s)
  end.

(** The file and line after every instruction that does not end in a trap. *)
Definition executed (s : state) : list (Z * Z) :=
  match (signals ;; one_instr) s with Ret _ s' => [(FIL s', LIN s')] | _ => [] end.
Fixpoint run_trace (fuel : nat) (armed : bool) (s : state) : list (Z * Z) :=
  match fuel with
  | O => []
  | S f =>
      if running s then
        executed s ++ match step armed s with Ret _ s' => run_trace f true s' | _ => [] end
      else []
  end.

(** ** The loop and its turns *)
Lemma do_trap_never nr s nr' s' : do_trap nr s <> Trap nr' s'.
Proof. pose proof (do_trap_catches nr s) as H. by destruct (do_trap nr s). Qed.

(** A turn of the loop is a step of the machine, and the instruction is tallied. *)
Lemma main_step_step tallying armed t s :
  match main_step tallying armed t s with
  | Ret t' s' => step armed s = Ret tt s' /\ tally_all (if tallying then executed s else []) t = Some t'
  | Trap _ _ => False
  | Fatal m s' => step armed s = Fatal m s'
  | Undef => step armed s = Undef \/ tallying = true /\ tally_all (executed s) t = None
  end.
Proof.
  unfold main_step, step, turn, executed, catch, trapped, bind, gets.
  destruct (signals s) as [[] s1|nr s1| |]; [|pose proof (do_trap_never nr s1); destruct (do_trap nr s1); destruct armed, tallying; naive_solver|by destruct tallying|by left].
  destruct (one_instr s1) as [[] s2|nr s2| |]; [|pose proof (do_trap_never nr s2); destruct (do_trap nr s2); destruct armed, tallying; naive_solver|by destruct tallying|by left].
  assert (Et : forall o, (if tallying then tally (FIL s2) (LIN s2) t else Some t) = o ->
    tally_all (if tallying then [(FIL s2, LIN s2)] else []) t = o).
  { intros o <-. destruct tallying; [|done]. cbn [tally_all fst snd]. by destruct (tally _ _ t). }
  destruct (if tallying then _ else _) as [t'|] eqn:E; specialize (Et _ eq_refl); [|right; by destruct tallying].
  destruct (signals s2) as [[] s3|nr s3| |]; [|pose proof (do_trap_never nr s3); destruct (do_trap nr s3); destruct armed; naive_solver|done|by left].
  destruct (check_signal s3) as [[] s4|nr s4| |]; [done|pose proof (do_trap_never nr s4); destruct (do_trap nr s4); destruct armed; naive_solver|done|by left].
Qed.

(** A loop that ends: the machine has run to its end, and all its instructions have
    been tallied. *)
Lemma tally_all_app l1 l2 t : tally_all (l1 ++ l2) t = match tally_all l1 t with Some t' => tally_all l2 t' | None => None end.
Proof. revert t. induction l1 as [|x l1 IH]; intros t; [done|]. cbn [app tally_all]. by destruct (tally _ _ t). Qed.
Lemma main_loop_ends fuel tallying : forall armed lg t s t' s',
  main_loop fuel tallying armed lg t s = Some (Ret t' s') ->
  run_loop fuel armed s = Some (Ret tt s') /\
  tally_all (if tallying then run_trace fuel armed s else []) t = Some t'.
Proof.
  induction fuel as [|f IH]; intros armed lg t s t' s'; cbn [main_loop run_loop run_trace]; [done|].
  destruct (running s); [|intros [= <- <-]; by destruct tallying].
  pose proof (main_step_step tallying armed t s) as H. destruct (main_step tallying armed t s) as [t1 s1| | |]; [|done..].
  destruct H as [-> Ht]. pose proof (readonly_dumps (count_instr lg) s1) as Hq.
  destruct (dumps (count_instr lg) s1) as [l s2| | |]; [subst s2|done..].
  destruct (log_eoi _); [done|]. intros [Hr Hl]%IH. split; [done|].
  destruct tallying; [|by injection Ht as ->]. rewrite tally_all_app. by rewrite Ht.
Qed.

(** Nothing is dumped before logging starts. *)
Lemma dumps_off lg s : logging lg = false -> dumps lg s = Ret [] s.
Proof. unfold dumps. by intros ->. Qed.

(** No request to stop is met in [fuel] turns. *)
Definition not_stopped (fuel : nat) (lg : logst) : Prop :=
  0 <= l_inr lg /\ l_inr lg + Z.of_nat fuel < 2 ^ 63 /\ ~ (l_inr lg < l_stop lg <= l_inr lg + Z.of_nat fuel).

Lemma count_instr_inr lg : 0 <= l_inr lg < 2 ^ 63 - 1 -> l_inr (count_instr lg) = l_inr lg + 1.
Proof. intros H. unfold count_instr. cbn [l_inr]. unfold s64. apply sext_small; lia. Qed.


(** The machine at the top of the loop after [k] turns, none of which ended it. *)
Fixpoint after_turns (k : nat) (armed : bool) (s : state) : option (bool * state) :=
  match k with
  | O => Some (armed, s)
  | S k' => if running s then match step armed s with Ret _ s' => after_turns k' true s' | _ => None end else None
  end.

(** How the loop ends when it is to be stopped after [n] turns.  The machine has ended
    before; or it is stopped after the [n]th turn; or in a turn before that the machine
    fails, the tally table overflows, or a dump that is being logged goes wrong. *)
Definition stopped_by {A} (n : nat) (tallying armed : bool) (t : tallyst) (s : state) (r : result A) : Prop :=
  match r with
  | Ret _ s' => exists k a, (k < n)%nat /\ after_turns k armed s = Some (a, s') /\ running s' = false
  | Fatal m s' =>
      m = FStopped /\ after_turns n armed s = Some (true, s') \/
      exists k a s1, (k < n)%nat /\ after_turns k armed s = Some (a, s1) /\ running s1 = true /\ step a s1 = Fatal m s'
  | Trap _ _ => False
  | Undef => exists k a s1, (k < n)%nat /\ after_turns k armed s = Some (a, s1) /\ running s1 = true /\
      (step a s1 = Undef \/
       tallying = true /\ tally_all (run_trace k armed s ++ executed s1) t = None \/
       exists lg s2, step a s1 = Ret tt s2 /\ logging lg = true /\ dumps lg s2 = Undef)
  end.

(** One turn more. *)
Lemma stopped_by_turn {A} n (tallying armed : bool) t t' s s' (r : result A) :
  running s = true -> step armed s = Ret tt s' -> tally_all (if tallying then executed s else []) t = Some t' ->
  stopped_by n tallying true t' s' r -> stopped_by (S n) tallying armed t s r.
Proof.
  intros Hr E Et H.
  assert (Ha : forall k, after_turns (S k) armed s = after_turns k true s') by (intros k; cbn [after_turns]; by rewrite Hr, E).
  destruct r as [t1 s1|nr s1|m s1|]; cbn [stopped_by] in *; [|done|..].
  - destruct H as (k & a & Hk & Hs & Hn). exists (S k), a. split; [lia|]. by rewrite Ha.
  - rewrite Ha. destruct H as [H|(k & a & s2 & Hk & Hs & H)]; [by left|right]. exists (S k), a, s2. split; [lia|]. by rewrite Ha.
  - destruct H as (k & a & s2 & Hk & Hs & Hn & H). exists (S k), a, s2. split; [lia|]. rewrite Ha. do 2 (split; [done|]).
    destruct H as [H|[[Ht H]|H]]; [by left|right; left|by right; right]. subst tallying. split; [done|].
    cbn [run_trace]. rewrite Hr, E, <- app_assoc, tally_all_app. by rewrite Et.
Qed.

(** A request to stop ends the loop. *)
Lemma main_loop_stops n tallying : forall armed lg t s,
  0 <= l_inr lg -> l_stop lg = l_inr lg + Z.of_nat (S n) -> l_stop lg < 2 ^ 63 ->
  exists r, main_loop (S n) tallying armed lg t s = Some r /\ stopped_by (S n) tallying armed t s r.
Proof.
  induction n as [|n IH]; intros armed lg t s H0 Hs Hb.
  all: cbn [main_loop]; destruct (running s) eqn:Er; [|eexists; split; [done|exists 0%nat, armed; split; [lia|done]]].
  all: pose proof (main_step_step tallying armed t s) as H;
    destruct (main_step tallying armed t s) as [t1 s1|nr s1|m s1|]; [|done
    |eexists; split; [done|right; exists 0%nat, armed, s; split; [lia|done]]
    |eexists; split; [done|exists 0%nat, armed, s; split; [lia|]; split; [done|]; split; [done|]; naive_solver]].
  all: destruct H as [E Et]; pose proof (readonly_dumps (count_instr lg) s1) as Hq;
    pose proof (dumps_off (count_instr lg) s1) as Hoff.
  all: destruct (dumps (count_instr lg) s1) as [l s2| | |] eqn:Ed; [subst s2|done|done
    |eexists; split; [done|exists 0%nat, armed, s; split; [lia|]; split; [done|]; split; [done|]; right; right; exists (count_instr lg), s1;
      split; [done|split; [|done]]; destruct (logging (count_instr lg)); [done|by specialize (Hoff eq_refl)]]].
  all: destruct (log_eoi (count_instr lg)) eqn:Ee.
  - eexists. split; [done|]. left. split; [done|]. cbn [after_turns]. by rewrite Er, E.
  - exfalso. unfold log_eoi in Ee. rewrite count_instr_inr in Ee by lia. change (l_stop (count_instr lg)) with (l_stop lg) in Ee. lia.
  - exfalso. unfold log_eoi in Ee. rewrite count_instr_inr in Ee by lia. change (l_stop (count_instr lg)) with (l_stop lg) in Ee. lia.
  - destruct (IH true (count_instr lg) t1 s1) as (r & Em & Hr);
      [rewrite ?count_instr_inr by lia; change (l_stop (count_instr lg)) with (l_stop lg); lia..|].
    exists r. split; [done|]. by eapply stopped_by_turn.
Qed.
End Loop.

(** ** The program *)
Inductive ending :=
| Disassembled (listing : list dline)                        (* [-d]: the program is not run *)
| Exits (status : Z) (tally : option (list (Z * list (Z * Z * Z)))).  (* [close_down(status)], [int.tally]: none if the list is empty *)

Section Program.
Context {host : Host} {os : Os} (as_magic VERSION : Z) (g : fresh).
(** The file system, the environment. *)
Context (files : cstr -> option (list Z)) (environ : list cstr).

Definition machine_options (c : cmdline) (lg : logst) : options :=
  mkOptions (c_maxstack c) (c_maxheap c) (c_FRALimit c) (c_PreIgnMask c) (c_warnmask c) (mess_file c) lg.

(** The load file is opened after the message file and the log file have been made. *)
Definition init (opt : options) (argv : list cstr) : M (Config * Z * logst) :=
  match files (List.hd [] argv) with
  | Some f => boot as_magic VERSION opt g argv environ f
  | None => _ ← init_files opt; fatal FLoadfile
  end.

(** Up to the first call: the machine, the FLAGS word and the logging machine. *)
Definition prepare (args : list cstr) : M (cmdline * (Config * Z * logst)) :=
  p ← read_options args cmd0;
  lg ← init_log (c_arglist p.1);
  q ← init (machine_options p.1 lg) (match p.2 with [] => [str "e.out"] | argv => argv end);
  ret (p.1, q).

Definition FB_PROFILE := 2.
Definition FB_FLOW := 4.
Definition FB_COUNT := 8.
Definition FB_EXTRA := 32.
Definition flag (f FLAGS : Z) : bool := negb (Z.land FLAGS f =? 0).
Definition counting (FLAGS : Z) : bool := flag FB_PROFILE FLAGS || flag FB_FLOW FLAGS || flag FB_COUNT FLAGS.

Definition main (fuel : nat) (args : list cstr) : option (result ending) :=
  match prepare args state0 with
  | Ret (c, (cfg, FLAGS, lg)) s =>
      if must_disassemble c then Some ((listing ← disassemble; ret (Disassembled listing)) s)
      else
        let tallying := must_tally c || counting FLAGS in
        match ((when (flag FB_EXTRA FLAGS) (warning WEXTRIGN)) ;; start) s with
        | Ret _ s =>
            match main_loop fuel tallying false lg tally0 s with
            | Some (Ret t s) =>
                Some (Ret (Exits (if ES_def s then s32 (ES s) else 0) (if tallying then Some (out_tally t) else None)) s)
            | Some (Trap nr s) => Some (Trap nr s)
            | Some (Fatal m s) => Some (Fatal m s)
            | Some Undef => Some Undef
            | None => None
            end
        | Trap nr s => Some (Trap nr s)
        | Fatal m s => Some (Fatal m s)
        | Undef => Some Undef
        end
  | Trap nr s => Some (Trap nr s)
  | Fatal m s => Some (Fatal m s)
  | Undef => Some Undef
  end.
End Program.

(** ** The program *)
Lemma bind_Ret {A B} (m : M A) (k : A -> M B) s b s' :
  (x ← m; k x) s = Ret b s' -> exists a s1, m s = Ret a s1 /\ k a s1 = Ret b s'.
Proof. unfold bind. destruct (m s) as [a s1| | |]; [intros E; by exists a, s1|done..]. Qed.
Ltac inv_bind H := let a := fresh "a" in let s := fresh "s" in let E := fresh "E" in
  apply bind_Ret in H as (a & s & E & H).

Lemma init_log_stop args v s lg s' :
  init_log args s = Ret lg s' -> getpar (str "STOP") args = Some v -> getpar (str "AT") args = None ->
  l_inr lg = 0 /\ l_stop lg = signed_value (skip_spaces v).
Proof.
  intros H Hv Ha. unfold init_log in H. inv_bind H. unfold longpar at 1 in E. rewrite Hv in E.
  unfold atol, ato in E. destruct (_ && _) in E; [|done]. injection E as <- <-.
  do 7 inv_bind H. unfold longpar in E5. inv_bind H. unfold longpar in E6. rewrite Ha in E6. injection E6 as <- <-.
  cbv zeta in H. cbn [Z.eqb] in H. by injection H as <- _.
Qed.
Lemma open_log_settings_stop lg s lg' s' :
  open_log_settings lg s = Ret lg' s' -> l_inr lg' = l_inr lg /\ l_stop lg' = l_stop lg.
Proof. intros H. unfold open_log_settings in H. do 2 inv_bind H. by injection H as <- _. Qed.

Section ProgramFacts.
Context {host : Host} {os : Os} (as_magic VERSION : Z) (g : fresh).
Context (files : cstr -> option (list Z)) (environ : list cstr).
#[local] Abbreviation prepare := (prepare as_magic VERSION g files environ).
#[local] Abbreviation main := (main as_magic VERSION g files environ).

Lemma boot_log opt argv f s cfg FLAGS lg s' :
  boot as_magic VERSION opt g argv environ f s = Ret (cfg, FLAGS, lg) s' ->
  l_inr lg = l_inr (o_log opt) /\ l_stop lg = l_stop (o_log opt).
Proof.
  intros H. unfold boot in H. inv_bind H.
  assert (E' : a = lg) by (do 4 inv_bind H; by injection H). subst a. clear H.
  unfold init_files, init_ofiles, open_log in E. inv_bind E. inv_bind E. injection E as <- _.
  do 2 inv_bind E0. do 2 inv_bind E0. injection E0 as <- _. by eapply open_log_settings_stop.
Qed.
(** The request to stop on the command line. *)
Lemma prepare_stop args s c cfg FLAGS lg s' v :
  prepare args s = Ret (c, (cfg, FLAGS, lg)) s' ->
  getpar (str "STOP") (c_arglist c) = Some v -> getpar (str "AT") (c_arglist c) = None ->
  l_inr lg = 0 /\ l_stop lg = signed_value (skip_spaces v).
Proof.
  intros H Hv Ha. unfold prepare in H. inv_bind H. destruct a as [c' rest]. cbn [fst snd] in H.
  inv_bind H. inv_bind H. injection H as -> -> _. destruct (init_log_stop _ v _ _ _ E0 Hv Ha) as [Hi Hs].
  unfold init in E1. destruct (files _) as [f|]; [|inv_bind E1; done].
  apply boot_log in E1 as [Ei Es]. cbn [o_log machine_options] in Ei, Es. by rewrite Ei, Es.
Qed.

(** C25: a program that is started with STOP=n on the command line, and whose first call
    succeeds, ends within n instructions: if the machine has not ended before, the
    interpreter stops after the nth turn of the loop, and it fails only if the machine
    fails in one of these turns, the tally table overflows or a dump goes wrong. *)
Theorem stop_ends_program args c cfg FLAGS lg s v s1 :
  prepare args state0 = Ret (c, (cfg, FLAGS, lg)) s -> must_disassemble c = false ->
  getpar (str "STOP") (c_arglist c) = Some v -> getpar (str "AT") (c_arglist c) = None ->
  ((when (flag FB_EXTRA FLAGS) (warning WEXTRIGN)) ;; start) s = Ret tt s1 ->
  let n := signed_value (skip_spaces v) in let tallying := must_tally c || counting FLAGS in
  0 < n < 2 ^ 63 ->
  exists r, main (Z.to_nat n) args = Some r /\ stopped_by (Z.to_nat n) tallying false tally0 s1 r /\
    forall e s', r = Ret e s' -> exists l, e = Exits (if ES_def s' then s32 (ES s') else 0) l.
Proof.
  intros H Hd Hv Ha Es n tallying Hn. destruct (prepare_stop _ _ _ _ _ _ _ v H Hv Ha) as [Hi Hs]. fold n in Hs.
  unfold main. rewrite H, Hd, Es. fold tallying.
  replace (Z.to_nat n) with (S (Z.to_nat (n - 1))) by lia.
  destruct (main_loop_stops (Z.to_nat (n - 1)) tallying false lg tally0 s1) as (r & -> & Hr); [lia..|].
  destruct r as [t s2|nr s2|m s2|]; (eexists; split; [done|split; [exact Hr|]]); [|done..].
  intros e s' [= <- <-]. by eexists.
Qed.

(** C10: when a program that is tallied ends, the machine has run to its end, and the
    tally that is written lists exactly the lines of the files on which the machine
    has executed an instruction, with the number of times each was entered and the
    number of instructions executed on it. *)
Theorem program_tally fuel args status rows s' :
  main fuel args = Some (Ret (Exits status (Some rows)) s') ->
  exists c cfg FLAGS lg s0 s1,
    prepare args state0 = Ret (c, (cfg, FLAGS, lg)) s0 /\
    (when (flag FB_EXTRA FLAGS) (warning WEXTRIGN) ;; start) s0 = Ret tt s1 /\
    run_loop fuel false s1 = Some (Ret tt s') /\
    let l := run_trace fuel false s1 in
    forall f i e n, (exists r, In (f, r) rows /\ In (i, e, n) r) <->
      f <> 0 /\ e = entries (f, i) l /\ n = instructions (f, i) l /\ 0 < n.
Proof.
  unfold main. destruct (prepare args state0) as [[c [[cfg FLAGS] lg]] s0| | |] eqn:E; [|done..].
  destruct (must_disassemble c); [unfold bind; by destruct (disassemble s0)|]. destruct ((when (flag FB_EXTRA FLAGS) (warning WEXTRIGN) ;; start) s0) as [[] s1| | |] eqn:E1; [|done..].
  destruct (main_loop _ _ _ _ _ _) as [[t s2| | |]|] eqn:E2; [|done..].
  destruct (must_tally c || counting FLAGS); intros [= _ <- <-].
  exists c, cfg, FLAGS, lg, s0, s1. apply main_loop_ends in E2 as [Hr Ht]. split; [done|split; [done|split; [done|]]].
  exact (tally_listed _ t Ht).
Qed.
End ProgramFacts.
