(* ===== verification/Flt.v ===== *)
(** * Floating point arithmetic of the compilers ([modules/src/flt_arith])

    The compilers, the assemblers and the code generators compute with reals in a
    format of their own: a sign, a binary exponent and a mantissa of 64 bits, kept as
    two words of 32 bits. *)
From Stdlib Require Import ZArith Lia Bool.
From stdpp Require Import base list.
From S2P Require Import Prelude.
Local Open Scope Z_scope.
Local Open Scope list_scope.

(** ** Numbers ([flt_arith.h], [flt_misc.h]) *)

Definition u32 (x : Z) : Z := x mod 2 ^ 32.
Definition u16 (x : Z) : Z := x mod 2 ^ 16.
(** [short]. *)
Definition s16 (x : Z) : Z := sext 16 x.

Record flt_arith := mkFlt { flt_sign : Z; flt_exp : Z; m1 : Z; m2 : Z }.
Definition EXT_MAX := 16384.
Definition EXT_MIN := -16384.

(** [flt_status]. *)
Definition FLT_OK := 0.
Definition FLT_OVFL := 1.
Definition FLT_UNFL := 2.
Definition FLT_DIV0 := 4.
Definition FLT_NOFLT := 8.
Definition FLT_BTSM := 16.

Definition set_sign (v : Z) (e : flt_arith) := mkFlt v (flt_exp e) (m1 e) (m2 e).
Definition set_exp (v : Z) (e : flt_arith) := mkFlt (flt_sign e) (s16 v) (m1 e) (m2 e).
Definition set_mant (m : Z * Z) (e : flt_arith) := mkFlt (flt_sign e) (flt_exp e) m.1 m.2.
Definition mant (e : flt_arith) : Z * Z := (m1 e, m2 e).
Definition is_zero (e : flt_arith) : bool := Z.lor (m1 e) (m2 e) =? 0.

(** ** Mantissas *)

(** [flt_b64_sft(e, n)]: to the right, or to the left if [n] is negative. *)
Definition sft_right (n : Z) (m : Z * Z) : Z * Z :=
  if 0 <? n then
    let l := Z.shiftr m.2 n in
    if negb (m.1 =? 0) then (Z.shiftr m.1 n, Z.lor l (u32 (Z.shiftl m.1 (32 - n)))) else (m.1, l)
  else m.
Definition sft_left (n : Z) (m : Z * Z) : Z * Z :=
  if 0 <? n then
    let h := u32 (Z.shiftl m.1 n) in
    if negb (m.2 =? 0) then (Z.lor h (Z.shiftr m.2 (32 - n)), u32 (Z.shiftl m.2 n)) else (h, m.2)
  else m.
Definition flt_b64_sft (m : Z * Z) (n : Z) : Z * Z :=
  if (63 <? n) || (n <? -63) then (0, 0)
  else
    let p := if 32 <=? n then ((0, m.1), n - 32) else (m, n) in
    let m := sft_right p.2 p.1 in
    let n := - p.2 in
    let p := if 32 <=? n then ((m.2, 0), n - 32) else (m, n) in
    sft_left p.2 p.1.

(** [flt_b64_add(e1, e2)]: the sum, and whether it overflows. *)
Definition flt_b64_add (a b : Z * Z) : (Z * Z) * bool :=
  let overflow := (2 ^ 32 - 1 - a.1 <? b.1) in
  let h := u32 (a.1 + b.1) in
  let carry := (2 ^ 32 - 1 - a.2 <? b.2) in
  let l := u32 (a.2 + b.2) in
  if carry then
    let h := u32 (h + 1) in
    ((h, l), if h =? 0 then true else overflow)
  else ((h, l), overflow).

(** [flt_nrm]: the first bit that is set moves to the top. *)
Fixpoint nrm_count (turns : nat) (l cnt m : Z) : Z :=
  match turns with
  | O => cnt
  | S k => if Z.land l m =? 0 then nrm_count k (Z.shiftr l 1) (cnt - 1) m else cnt
  end.
Definition flt_nrm (e : flt_arith) : flt_arith :=
  if is_zero e then mkFlt 0 0 (m1 e) (m2 e)
  else
    let e := if m1 e =? 0 then mkFlt (flt_sign e) (s16 (flt_exp e - 32)) (m2 e) 0 else e in
    if Z.land (m1 e) 0x80000000 =? 0 then
      let cnt := nrm_count 31 0x40000000 (-1) (m1 e) in
      set_mant (flt_b64_sft (mant e) cnt) (set_exp (flt_exp e + cnt) e)
    else e.

(** [flt_chk]: an exponent out of range, with the status. *)
Definition flt_chk (e : flt_arith) (status : Z) : flt_arith * Z :=
  let p := if EXT_MAX <=? flt_exp e then (mkFlt (flt_sign e) EXT_MAX 0x80000000 0, FLT_OVFL) else (e, status) in
  if flt_exp p.1 <=? EXT_MIN then (mkFlt 0 0 0 0, FLT_UNFL) else p.

(** [flt_split]: the mantissa as four 16-bit words. *)
Definition flt_split (e : flt_arith) : list Z :=
  [Z.land (Z.shiftr (m1 e) 16) 0xFFFF; Z.land (m1 e) 0xFFFF; Z.land (Z.shiftr (m2 e) 16) 0xFFFF; Z.land (m2 e) 0xFFFF].

(** ** Operations: the result and [flt_status] *)

(** The mantissa of [a] is that of [b] at least. *)
Definition sub_mant (a b : Z * Z) : Z * Z :=
  let h := if a.2 <? b.2 then u32 (a.1 - 1) else a.1 in
  (u32 (h - b.1), u32 (a.2 - b.2)).
(** "adjust mantissas to equal power". *)
Definition align (e1 e2 : flt_arith) : flt_arith * flt_arith :=
  let diff := flt_exp e2 - flt_exp e1 in
  if diff <? 0 then (e1, set_mant (flt_b64_sft (mant e2) (- diff)) (set_exp (flt_exp e2 - diff) e2))
  else if 0 <? diff then (set_mant (flt_b64_sft (mant e1) diff) (set_exp (flt_exp e1 + diff) e1), e2)
  else (e1, e2).
Definition add_aligned (e1 e2 : flt_arith) : flt_arith :=
  if negb (flt_sign e1 =? flt_sign e2) then
    if (m1 e2 <? m1 e1) || ((m1 e1 =? m1 e2) && (m2 e2 <? m2 e1))
    then set_mant (sub_mant (mant e1) (mant e2)) e1
    else set_mant (sub_mant (mant e2) (mant e1)) e2
  else
    let a := flt_b64_add (mant e2) (mant e1) in
    if a.2 then
      let m := flt_b64_sft a.1 1 in
      set_exp (flt_exp e2 + 1) (set_mant (Z.lor m.1 0x80000000, m.2) e2)
    else set_mant a.1 e2.
Definition flt_add (e1 e2 : flt_arith) : flt_arith * Z :=
  if is_zero e2 then (e1, FLT_OK)
  else if is_zero e1 then (e2, FLT_OK)
  else let p := align e1 e2 in flt_chk (flt_nrm (add_aligned p.1 p.2)) FLT_OK.

Definition negated (e : flt_arith) : flt_arith := set_sign (if flt_sign e =? 0 then 1 else 0) e.
(** [flt_sub] changes the sign of [*e2] and changes it back: for different objects. *)
Definition flt_sub (e1 e2 : flt_arith) : flt_arith * Z := flt_add e1 (negated e2).
Definition flt_umin (e : flt_arith) : flt_arith * Z := (negated e, FLT_OK).
Definition flt_cmp (e1 e2 : flt_arith) : Z :=
  let x := (flt_sub e1 e2).1 in
  if (m1 x =? 0) && (m2 x =? 0) then 0 else if negb (flt_sign x =? 0) then -1 else 1.

(** *** Multiplication: four by four digits of 16 bits *)

(** The row for the digit [mpi] of the multiplier, from the last digit [j] of the
    multiplicand on; the digits of the result start at [i + 1]. *)
Fixpoint mul_row (mpi : Z) (mc : list Z) (i : nat) (j : nat) (result : list Z) (k : Z) : list Z * Z :=
  match j with
  | O => (result, k)
  | S j' =>
      let c := nth j' mc 0 in
      let tmp := nth (i + 1 + j') result 0 + k in
      let tmp := if c =? 0 then tmp else tmp + u32 (mpi * c) in
      mul_row mpi mc i j' (<[(i + 1 + j')%nat := Z.land tmp 0xFFFF]> result) (Z.land (Z.shiftr tmp 16) 0xFFFF)
  end.
Fixpoint mul_rows (mp mc : list Z) (i : nat) (result : list Z) : list Z :=
  match i with
  | O => result
  | S i' =>
      let mpi := nth i' mp 0 in
      let result :=
        if mpi =? 0 then result
        else let p := mul_row mpi mc i' 4 result 0 in <[i' := p.2]> p.1 in
      mul_rows mp mc i' result
  end.
(** The first five digits, one bit to the left. *)
Definition shl1 (a b : Z) : Z := let a := u16 (Z.shiftl a 1) in if Z.land b 0x8000 =? 0 then a else Z.lor a 1.
Definition shift_result (r : list Z) : list Z :=
  let d := fun i => nth i r 0 in
  [shl1 (d 0%nat) (d 1%nat); shl1 (d 1%nat) (d 2%nat); shl1 (d 2%nat) (d 3%nat); shl1 (d 3%nat) (d 4%nat);
   u16 (Z.shiftl (d 4%nat) 1); d 5%nat; d 6%nat; d 7%nat].
Definition round_up (e : flt_arith) : flt_arith :=
  let l := u32 (m2 e + 1) in
  if l =? 0 then
    let h := u32 (m1 e + 1) in
    if h =? 0 then mkFlt (flt_sign e) (s16 (flt_exp e + 1)) 0x80000000 0 else mkFlt (flt_sign e) (flt_exp e) h 0
  else mkFlt (flt_sign e) (flt_exp e) (m1 e) l.
Definition flt_mul (e1 e2 : flt_arith) : flt_arith * Z :=
  let sign := Z.lxor (flt_sign e1) (flt_sign e2) in
  let exp := s16 (flt_exp e1 + flt_exp e2 + 1) in
  let result := mul_rows (flt_split e1) (flt_split e2) 4 [0; 0; 0; 0; 0; 0; 0; 0] in
  let p := if Z.land (nth 0 result 0) 0x8000 =? 0 then (s16 (exp - 1), shift_result result) else (exp, result) in
  let d := fun i => nth i p.2 0 in
  let res := mkFlt sign p.1 (u32 (Z.shiftl (d 0%nat) 16 + d 1%nat)) (u32 (Z.shiftl (d 2%nat) 16 + d 3%nat)) in
  flt_chk (if Z.land (d 4%nat) 0x8000 =? 0 then res else round_up res) FLT_OK.

(** *** Division: Knuth's algorithm, in digits of 16 bits *)

(** [while (!v[maxv]) maxv--], from [maxv]; the digits of [v] count from 1. *)
Fixpoint last_digit (v : list Z) (maxv : nat) : nat :=
  match maxv with
  | O => O
  | S k => if nth maxv v 0 =? 0 then last_digit v k else maxv
  end.
(** The estimate comes down while it is too large for two digits of the divisor; it
    does not come below 0. *)
Fixpoint est_loop (turns : nat) (v1 v2 u2 q_est temp : Z) : Z :=
  match turns with
  | O => q_est
  | S k =>
      if (Z.land temp 0xFFFF0000 =? 0) && (u32 (u32 (Z.shiftl temp 16) + u2) <? u32 (v2 * q_est))
      then est_loop k v1 v2 u2 (u32 (q_est - 1)) (u32 (temp + v1)) else q_est
  end.
Definition estimate (v1 v2 u0 u1 u2 : Z) : Z :=
  let temp := u32 (Z.shiftl u0 16 + u1) in
  let q_est := if v1 <=? u0 then 0xFFFF else if v1 =? 1 then temp else temp / v1 in
  est_loop (Z.to_nat q_est) v1 v2 u2 q_est (u32 (temp - q_est * v1)).
(** [u_p] is [u + j].  The loop that subtracts [q_est] times the divisor: the digits,
    [k] and [borrow]. *)
Fixpoint sub_row (q_est : Z) (v : list Z) (j i : nat) (u : list Z) (k borrow : Z) : list Z * (Z * Z) :=
  match i with
  | O => (u, (k, borrow))
  | S i' =>
      let tmp := u32 (q_est * nth i v 0 + k + borrow) in
      let md := Z.land tmp 0xFFFF in
      let d := nth (j + i) u 0 in
      sub_row q_est v j i' (<[(j + i)%nat := u16 (d - md)]> u) (Z.land (Z.shiftr tmp 16) 0xFFFF) (if d <? md then 1 else 0)
  end.
(** The loop that adds the divisor again. *)
Fixpoint add_row (v : list Z) (j i : nat) (u : list Z) (borrow : Z) : list Z * Z :=
  match i with
  | O => (u, borrow)
  | S i' =>
      let tmp := u32 (nth i v 0 + nth (j + i) u 0 + borrow) in
      add_row v j i' (<[(j + i)%nat := Z.land tmp 0xFFFF]> u) (Z.land (Z.shiftr tmp 16) 0xFFFF)
  end.
(** One digit of the quotient: the digit, and what is left in [u]. *)
Definition div_digit (v : list Z) (maxv j : nat) (u : list Z) : Z * list Z :=
  let u_p := fun i => nth (j + i) u 0 in
  if (u_p 0%nat =? 0) && (u_p 1%nat <? nth 1 v 0) then (0, u)
  else
    let q_est := estimate (nth 1 v 0) (nth 2 v 0) (u_p 0%nat) (u_p 1%nat) (u_p 2%nat) in
    if q_est =? 0 then (0, u)
    else
      let p := sub_row q_est v j maxv u 0 0 in
      let k := u32 (p.2.1 + p.2.2) in
      let d := nth j p.1 0 in
      let u := <[j := u16 (d - k)]> p.1 in
      if d <? k then
        let p := add_row v j maxv u 0 in
        (u32 (q_est - 1), <[j := u16 (nth j p.1 0 + p.2)]> p.1)
      else (q_est, u).
Fixpoint div_loop (turns : nat) (v : list Z) (maxv j : nat) (u : list Z) (result : Z * Z) : Z * Z :=
  match turns with
  | O => result
  | S k =>
      let p := div_digit v maxv j u in
      let q := if Nat.odd j then p.1 else u32 (Z.shiftl p.1 16) in
      div_loop k v maxv (S j) p.2
        (if Nat.ltb j 2 then (Z.lor result.1 q, result.2) else (result.1, Z.lor result.2 q))
  end.
Definition flt_div (e1 e2 : flt_arith) : flt_arith * Z :=
  let sign := Z.lxor (flt_sign e1) (flt_sign e2) in
  if is_zero e2 then (mkFlt sign EXT_MAX 0x80000000 0, FLT_DIV0)
  else if is_zero e1 then (mkFlt 0 0 0 0, FLT_OK)
  else
    let u := flt_split (set_mant (flt_b64_sft (mant e1) 1) e1) ++ [u16 (Z.shiftl (Z.land (m2 e1) 1) 15); 0; 0; 0] in
    let v := 0 :: flt_split e2 in
    let r := div_loop 4 v (last_digit v 4) 0 u (0, 0) in
    flt_chk (flt_nrm (mkFlt sign (s16 (flt_exp e1 - flt_exp e2)) r.1 r.2)) FLT_OK.

(** *** Conversions: [arith] is a [long] *)

Definition flt_arith2flt (n : Z) (uns : bool) : flt_arith :=
  let p := if negb uns && (n <? 0) then (1, s64 (- n)) else (0, n) in
  let h := u32 (Z.shiftr p.2 32) in
  if p.2 =? 0 then mkFlt p.1 0 h (u32 p.2)
  else flt_nrm (mkFlt p.1 63 h (u32 p.2)).

(** [flt_flt2arith(e, uns)]: the number, and the status. *)
Definition flt_flt2arith (e : flt_arith) (uns : bool) : Z * Z :=
  let u := if uns then 1 else 0 in
  if negb (flt_sign e =? 0) && uns then (0, FLT_UNFL)
  else if flt_exp e <? 0 then (- flt_sign e, FLT_OK)
  else
    let p :=
      if 62 + u <? flt_exp e then
        if negb (flt_sign e =? 0) && (flt_exp e =? 63) && (m2 e =? 0) && (m1 e =? 0x80000000) then (e, FLT_OK)
        else
          (set_exp (62 + u + flt_sign e)
             (if negb (flt_sign e =? 0) then set_mant (0x80000000, 0) e else set_mant (0xFFFFFFFF, 0xFFFFFFFF) e), FLT_OVFL)
      else (e, FLT_OK) in
    let e := p.1 in
    (* the words have 32 bits: nothing is left of the high one *)
    let a := flt_b64_sft (mant e) (63 - flt_exp e) in
    let n := Z.lor a.2 (u32 (Z.shiftl (u32 (Z.shiftl a.1 16)) 16)) in
    (if negb (flt_sign e =? 0) then - n else n, p.2).

(** [flt_modf(e, ipart, fpart)]: the two parts. *)
Definition flt_modf (e : flt_arith) : flt_arith * flt_arith :=
  if flt_exp e <? 0 then (mkFlt 0 0 0 0, e)
  else if 63 <=? flt_exp e then (e, mkFlt 0 0 0 0)
  else
    let m := flt_b64_sft (mant e) (63 - flt_exp e) in
    let ipart := set_mant (flt_b64_sft m (flt_exp e - 63)) e in
    (ipart, (flt_sub e ipart).1).
