(* ===== verification/FltStr.v ===== *)
(** * Reals as text ([modules/src/flt_arith/flt_str2fl.c])

    The powers of ten, the reading of a real, and how a real is written. *)
From Stdlib Require Import ZArith Lia Bool List.
From stdpp Require Import base list.
From S2P Require Import Prelude Flt.
Local Open Scope Z_scope.
Local Open Scope list_scope.

(** ** Powers of ten *)

Definition s10pow : list flt_arith :=
  [ mkFlt 0 0 0x80000000 0;
    mkFlt 0 3 0xA0000000 0;
    mkFlt 0 6 0xC8000000 0;
    mkFlt 0 9 0xFA000000 0;
    mkFlt 0 13 0x9C400000 0;
    mkFlt 0 16 0xC3500000 0;
    mkFlt 0 19 0xF4240000 0;
    mkFlt 0 23 0x98968000 0;
    mkFlt 0 26 0xBEBC2000 0;
    mkFlt 0 29 0xEE6B2800 0;
    mkFlt 0 33 0x9502F900 0;
    mkFlt 0 36 0xBA43B740 0;
    mkFlt 0 39 0xE8D4A510 0;
    mkFlt 0 43 0x9184E72A 0;
    mkFlt 0 46 0xB5E620F4 0x80000000;
    mkFlt 0 49 0xE35FA931 0xA0000000;
    mkFlt 0 53 0x8E1BC9BF 0x04000000;
    mkFlt 0 56 0xB1A2BC2E 0xC5000000;
    mkFlt 0 59 0xDE0B6B3A 0x76400000;
    mkFlt 0 63 0x8AC72304 0x89E80000;
    mkFlt 0 66 0xAD78EBC5 0xAC620000;
    mkFlt 0 69 0xD8D726B7 0x177A8000;
    mkFlt 0 73 0x87867832 0x6EAC9000;
    mkFlt 0 76 0xA968163F 0x0A57B400;
    mkFlt 0 79 0xD3C21BCE 0xCCEDA100;
    mkFlt 0 83 0x84595161 0x401484A0;
    mkFlt 0 86 0xA56FA5B9 0x9019A5C8;
    mkFlt 0 89 0xCECB8F27 0xF4200F3A ].
Definition big_10pow : list flt_arith :=
  [ mkFlt 0 0 0x80000000 0;
    mkFlt 0 93 0x813F3978 0xF8940984;
    mkFlt 0 186 0x82818F12 0x81ED44A0;
    mkFlt 0 279 0x83C7088E 0x1AAB65DB;
    mkFlt 0 372 0x850FADC0 0x9923329E;
    mkFlt 0 465 0x865B8692 0x5B9BC5C2;
    mkFlt 0 558 0x87AA9AFF 0x79042287;
    mkFlt 0 651 0x88FCF317 0xF22241E2;
    mkFlt 0 744 0x8A5296FF 0xE33CC930;
    mkFlt 0 837 0x8BAB8EEF 0xB6409C1A;
    mkFlt 0 930 0x8D07E334 0x55637EB3;
    mkFlt 0 1023 0x8E679C2F 0x5E44FF8F;
    mkFlt 0 1116 0x8FCAC257 0x558EE4E6;
    mkFlt 0 1209 0x91315E37 0xDB165AA9;
    mkFlt 0 1302 0x929B7871 0xDE7F22B9;
    mkFlt 0 1395 0x940919BB 0xD4620B6D;
    mkFlt 0 1488 0x957A4AE1 0xEBF7F3D4;
    mkFlt 0 1581 0x96EF14C6 0x454AA840;
    mkFlt 0 1674 0x98678061 0x27ECE4F5;
    mkFlt 0 1767 0x99E396C1 0x3A3ACFF2 ].
Definition r_10pow : list flt_arith :=
  [ mkFlt 0 0 0x80000000 0;
    mkFlt 0 (-4) 0xCCCCCCCC 0xCCCCCCCD;
    mkFlt 0 (-7) 0xA3D70A3D 0x70A3D70A;
    mkFlt 0 (-10) 0x83126E97 0x8D4FDF3B;
    mkFlt 0 (-14) 0xD1B71758 0xE219652C;
    mkFlt 0 (-17) 0xA7C5AC47 0x1B478423;
    mkFlt 0 (-20) 0x8637BD05 0xAF6C69B6;
    mkFlt 0 (-24) 0xD6BF94D5 0xE57A42BC;
    mkFlt 0 (-27) 0xABCC7711 0x8461CEFD;
    mkFlt 0 (-30) 0x89705F41 0x36B4A597;
    mkFlt 0 (-34) 0xDBE6FECE 0xBDEDD5BF;
    mkFlt 0 (-37) 0xAFEBFF0B 0xCB24AAFF;
    mkFlt 0 (-40) 0x8CBCCC09 0x6F5088CC;
    mkFlt 0 (-44) 0xE12E1342 0x4BB40E13;
    mkFlt 0 (-47) 0xB424DC35 0x095CD80F;
    mkFlt 0 (-50) 0x901D7CF7 0x3AB0ACD9;
    mkFlt 0 (-54) 0xE69594BE 0xC44DE15B;
    mkFlt 0 (-57) 0xB877AA32 0x36A4B449;
    mkFlt 0 (-60) 0x9392EE8E 0x921D5D07;
    mkFlt 0 (-64) 0xEC1E4A7D 0xB69561A5;
    mkFlt 0 (-67) 0xBCE50864 0x92111AEB;
    mkFlt 0 (-70) 0x971DA050 0x74DA7BEF;
    mkFlt 0 (-74) 0xF1C90080 0xBAF72CB1;
    mkFlt 0 (-77) 0xC16D9A00 0x95928A27;
    mkFlt 0 (-80) 0x9ABE14CD 0x44753B53;
    mkFlt 0 (-84) 0xF79687AE 0xD3EEC551;
    mkFlt 0 (-87) 0xC6120625 0x76589DDB;
    mkFlt 0 (-90) 0x9E74D1B7 0x91E07E48 ].
Definition r_big_10pow : list flt_arith :=
  [ mkFlt 0 0 0x80000000 0;
    mkFlt 0 (-94) 0xFD87B5F2 0x8300CA0E;
    mkFlt 0 (-187) 0xFB158592 0xBE068D2F;
    mkFlt 0 (-280) 0xF8A95FCF 0x88747D94;
    mkFlt 0 (-373) 0xF64335BC 0xF065D37D;
    mkFlt 0 (-466) 0xF3E2F893 0xDEC3F126;
    mkFlt 0 (-559) 0xF18899B1 0xBC3F8CA2;
    mkFlt 0 (-652) 0xEF340A98 0x172AACE5;
    mkFlt 0 (-745) 0xECE53CEC 0x4A314EBE;
    mkFlt 0 (-838) 0xEA9C2277 0x23EE8BCB;
    mkFlt 0 (-931) 0xE858AD24 0x8F5C22CA;
    mkFlt 0 (-1024) 0xE61ACF03 0x3D1A45DF;
    mkFlt 0 (-1117) 0xE3E27A44 0x4D8D98B8;
    mkFlt 0 (-1210) 0xE1AFA13A 0xFBD14D6E;
    mkFlt 0 (-1303) 0xDF82365C 0x497B5454;
    mkFlt 0 (-1396) 0xDD5A2C3E 0xAB3097CC;
    mkFlt 0 (-1489) 0xDB377599 0xB6074245;
    mkFlt 0 (-1582) 0xD91A0545 0xCDB51186;
    mkFlt 0 (-1675) 0xD701CE3B 0xD387BF48;
    mkFlt 0 (-1768) 0xD4EEC394 0xD6258BF8 ].
Definition BIGSZ := 20.
Definition SMALLSZ := 28.
Definition entry (table : list flt_arith) (i : Z) : flt_arith := nth (Z.to_nat i) table (mkFlt 0 0 0 0).

(** The first status that is not 0. *)
Definition first_status (status flt_status : Z) : Z := if status =? 0 then flt_status else status.
(** [while (divsz >= BIGSZ)]: the number, [divsz] and the status. *)
Fixpoint big_powers (turns : nat) (neg : bool) (x : flt_arith) (divsz status : Z) : flt_arith * Z * Z :=
  match turns with
  | O => (x, divsz, status)
  | S k =>
      if BIGSZ <=? divsz then
        let p := flt_mul x (entry (if neg then r_big_10pow else big_10pow) (BIGSZ - 1)) in
        big_powers k neg p.1 (divsz - (BIGSZ - 1)) (first_status status p.2)
      else (x, divsz, status)
  end.
(** [add_exponent(e, exp)], with [flt_status]. *)
Definition add_exponent (e : flt_arith) (exp flt_status : Z) : flt_arith * Z :=
  let neg := exp <? 0 in
  let exp := if neg then s32 (- exp) else exp in
  let divsz := s32 (u64 exp / SMALLSZ) in
  let modsz := s32 (u64 exp mod SMALLSZ) in
  let p := flt_mul e (entry (if neg then r_10pow else s10pow) modsz) in
  let b := big_powers (Z.to_nat divsz) neg p.1 divsz (first_status flt_status p.2) in
  let p := flt_mul b.1.1 (entry (if neg then r_big_10pow else big_10pow) b.1.2) in
  (p.1, first_status b.2 p.2).

(** ** Reading: a string is the list of its characters, without the 0 at its end *)

Definition isspace (c : Z) : bool := (c =? 32) || (9 <=? c) && (c <=? 13).
Definition isdigit (c : Z) : bool := (48 <=? c) && (c <=? 57).
Fixpoint skip_spaces (s : list Z) : list Z :=
  match s with
  | c :: s' => if isspace c then skip_spaces s' else s
  | [] => []
  end.
(** A sign: 1 for '-'. *)
Definition sign_char (s : list Z) : Z * list Z :=
  match s with
  | c :: s' => if c =? 45 then (1, s') else if c =? 43 then (0, s') else (0, s)
  | [] => (0, [])
  end.
(** The mantissa times ten, and a digit. *)
Definition add_digit (m : Z * Z) (c : Z) : Z * Z :=
  (flt_b64_add (flt_b64_add (flt_b64_sft m (-3)) (flt_b64_sft m (-1))).1 (0, c - 48)).1.
(** The digits and the point: the mantissa, the exponent, whether a digit was seen, and
    the text from the character that ends them. *)
Fixpoint digits (s : list Z) (dotseen digitseen : bool) (m : Z * Z) (exp : Z) : (Z * Z) * Z * bool * list Z :=
  match s with
  | c :: s' =>
      if isdigit c then
        let p := if m.1 <=? 0x7FFFFFFF / 5 then (add_digit m c, exp) else (m, s32 (exp + 1)) in
        digits s' dotseen true p.1 (if dotseen then s32 (p.2 - 1) else p.2)
      else if (c =? 46) && negb dotseen then digits s' true digitseen m exp
      else (m, exp, digitseen, s)
  | [] => (m, exp, digitseen, [])
  end.
Fixpoint exponent (s : list Z) (exp1 : Z) : Z :=
  match s with
  | c :: s' => if isdigit c then exponent s' (s32 (10 * exp1 + (c - 48))) else exp1
  | [] => exp1
  end.
(** [flt_str2flt(s, e)]: the number, and [flt_status]. *)
Definition flt_str2flt (s : list Z) : flt_arith * Z :=
  let p := sign_char (skip_spaces s) in
  let sign := p.1 in
  let '(m, exp, digitseen, s) := digits p.2 false false (0, 0) 0 in
  if negb digitseen then (mkFlt sign 0 m.1 m.2, FLT_NOFLT)
  else
    let exp :=
      match s with
      | c :: s' =>
          if (c =? 69) || (c =? 101) then
            let p := sign_char s' in
            s32 (exp + s32 ((if p.1 =? 0 then 1 else -1) * exponent p.2 0))
          else exp
      | [] => exp
      end in
    if (m.1 =? 0) && (m.2 =? 0) then (mkFlt sign 0 0 0, FLT_OK)
    else
      let p := add_exponent (flt_nrm (mkFlt sign 63 m.1 m.2)) exp FLT_OK in
      flt_chk p.1 p.2.

(** ** Writing *)

Definition NDIG := 18%nat.
Definition flt_ge (e t : flt_arith) : bool := 0 <=? flt_cmp e t.
Definition mul_by (e t : flt_arith) : flt_arith := (flt_mul e t).1.

(** [while (cond e) { e *= t; *decpt += n }].  [None]: more turns than any number of the
    format takes. *)
Fixpoint scale_loop (turns : nat) (cond : flt_arith -> bool) (t : flt_arith) (n : Z) (e : flt_arith) (decpt : Z) : option (flt_arith * Z) :=
  match turns with
  | O => None
  | S k => if cond e then scale_loop k cond t n (mul_by e t) (decpt + n) else Some (e, decpt)
  end.
(** [while (cond pp) { pp++; findex++; }] over a table.  [None]: it leaves the table. *)
Fixpoint find_loop (cond : flt_arith -> bool) (table : list flt_arith) (findex : Z) : option Z :=
  match table with
  | [] => None
  | t :: rest => if cond t then find_loop cond rest (findex + 1) else Some findex
  end.
(** With the test for the end of the table. *)
Fixpoint find_end (cond : flt_arith -> bool) (table : list flt_arith) (findex : Z) : Z :=
  match table with
  | [] => findex
  | t :: rest => if cond t then find_end cond rest (findex + 1) else findex
  end.
Definition SCALE_TURNS := 64%nat.

(** The number at least 1: it comes below 10 ** 28. *)
Definition scale_down (e : flt_arith) : option (flt_arith * Z * Z) :=
  p ← scale_loop SCALE_TURNS (fun e => flt_ge e (entry big_10pow (BIGSZ - 1))) (entry r_big_10pow (BIGSZ - 1)) ((BIGSZ - 1) * SMALLSZ) e 0;
  findex ← find_loop (flt_ge p.1) (drop 1 big_10pow) 1;
  let e := mul_by p.1 (entry r_big_10pow (findex - 1)) in
  let decpt := p.2 + (findex - 1) * SMALLSZ in
  let findex := find_end (flt_ge e) (drop 1 s10pow) 1 - 1 in
  Some (e, decpt + findex, findex).
(** The number below 1. *)
Definition scale_up (e : flt_arith) (decpt : Z) : option (flt_arith * Z) :=
  p ← scale_loop SCALE_TURNS (fun e => negb (flt_ge e (entry r_big_10pow (BIGSZ - 1)))) (entry big_10pow (BIGSZ - 1)) (- ((BIGSZ - 1) * SMALLSZ)) e decpt;
  findex ← find_loop (fun t => negb (flt_ge p.1 t)) (drop 1 r_big_10pow) 1;
  let e := mul_by (mul_by p.1 (entry big_10pow (findex - 1))) (entry s10pow 1) in
  let decpt := p.2 - (findex - 1) * SMALLSZ - 1 in
  findex ← find_loop (fun t => negb (flt_ge e t)) r_10pow 0;
  Some (mul_by e (entry s10pow findex), decpt - findex).
Definition scale (e : flt_arith) : option (flt_arith * Z * Z) :=
  if m1 e =? 0 then Some (e, 0, 0)
  else
    '(e, decpt, findex) ← scale_down e;
    if negb (flt_ge e (entry s10pow 0)) then
      '(e, decpt) ← scale_up e decpt;
      Some (e, decpt + 1, 0)
    else Some (e, decpt + 1, findex).

(** [while (flt_cmp(e, &tc) >= 0)]: the digit, and [oldtc]. *)
Fixpoint count_loop (turns : nat) (e unit tc oldtc : flt_arith) (count : Z) : option (Z * flt_arith) :=
  match turns with
  | O => None
  | S k => if flt_ge e tc then count_loop k e unit (flt_add tc unit).1 tc (count + 1) else Some (count, oldtc)
  end.
(** A digit before the point of the scaled number, and the rest of the number. *)
Definition big_digit (e : flt_arith) (findex : Z) : option (Z * flt_arith) :=
  '(count, oldtc) ← count_loop SCALE_TURNS e (entry s10pow findex) (entry s10pow findex) (mkFlt 0 0 0 0) 0;
  Some (s8 (count + 48), (flt_add e (set_sign 1 oldtc)).1).
(** The next digit of a number below 10.  [None]: a shift by a negative number. *)
Definition small_digit (e : flt_arith) : option (Z * flt_arith) :=
  p ← (if (0 <=? flt_exp e) && negb (m1 e =? 0) then
         if 30 <? flt_exp e then None
         else
           let x := Z.shiftr (Z.land (Z.shiftr (m1 e) 1) 0x7FFFFFFF) (30 - flt_exp e) in
           Some (s8 (x + 48), if x =? 0 then e else (flt_add e (mkFlt 1 (flt_exp e) (u32 (Z.shiftl x (31 - flt_exp e))) 0)).1)
       else Some (48, e));
  Some (p.1, if m1 p.2 =? 0 then p.2 else mul_by p.2 (entry s10pow 1)).
Fixpoint ecvt_digits (n : nat) (e : flt_arith) (findex : Z) : option (list Z) :=
  match n with
  | O => Some []
  | S k =>
      p ← (if negb (findex =? 0) then big_digit e findex else small_digit e);
      rest ← ecvt_digits k p.2 (if negb (findex =? 0) then findex - 1 else findex);
      Some (p.1 :: rest)
  end.
(** The loop while the character at [p] is above '9', from [p] down: the digits, and whether the first one overflows. *)
Fixpoint round_loop (p : nat) (buf : list Z) : list Z * bool :=
  if 57 <? nth p buf 0 then
    let buf := <[p := 48]> buf in
    match p with
    | O => (<[O := 49]> buf, true)
    | S p' => round_loop p' (<[p' := s8 (nth p' buf 0 + 1)]> buf)
    end
  else (buf, false).
(** The zeros at the end, the first digit apart. *)
Fixpoint strip_zeros (pe : nat) (buf : list Z) : list Z :=
  match pe with
  | O => buf
  | S pe' =>
      if (0 <? Z.of_nat pe) && (nth pe buf 0 =? 48) then strip_zeros pe' (take pe buf) else buf
  end.
(** [flt_ecvt]: the digits and [*decpt]; [*sign] is the sign of the number. *)
Definition flt_ecvt (e : flt_arith) : option (list Z * Z) :=
  '(e, decpt, findex) ← scale (set_sign 0 e);
  buf ← ecvt_digits (S NDIG) e findex;
  let p := round_loop NDIG (<[NDIG := s8 (nth NDIG buf 0 + 5)]> buf) in
  Some (strip_zeros (NDIG - 1) (take NDIG p.1), if p.2 then decpt + 1 else decpt).

(** [do { *--s1 = dp % 10 + '0'; dp /= 10; } while (dp != 0)]: an [int] has ten digits at
    most. *)
Fixpoint decimal (turns : nat) (dp : Z) (s : list Z) : list Z :=
  match turns with
  | O => s
  | S k =>
      let s := (dp mod 10 + 48) :: s in
      if dp / 10 =? 0 then s else decimal k (dp / 10) s
  end.
(** [flt_flt2str(e, buf, bufsize)]: the text in [buf], without the 0 at its end, or
    [FLT_BTSM]. *)
Definition flt_flt2str (e : flt_arith) (bufsize : Z) : option (list Z + Z) :=
  '(buf, dp) ← flt_ecvt e;
  let sign := if negb (flt_sign e =? 0) then [45] else [] in
  let digits := match buf with c :: [] => [c; 46; 48] | c :: rest => c :: 46 :: rest | [] => [] end in
  let dp := if is_zero e then dp else dp - 1 in
  let exp :=
    if dp =? 0 then []
    else 101 :: (if dp <? 0 then 45 else 43) :: decimal 10 (Z.abs dp) [] in
  let s := sign ++ digits ++ exp in
  Some (if bufsize <? Z.of_nat (length s) + 1 then inr FLT_BTSM else inl s).
