(* ===== verification/FltSpec.v ===== *)
(** * What the arithmetic of the compilers computes ([modules/src/flt_arith])

    A number stands for its sign times its mantissa times a power of two; mantissas
    that are [normal] have their highest bit set. *)
From Stdlib Require Import ZArith Lia Bool.
From stdpp Require Import base list.
From S2P Require Import Prelude Flt.
Local Open Scope Z_scope.
Local Open Scope list_scope.

(** [lia] with the laws of division by constants. *)
Ltac dlia := Z.to_euclidean_division_equations; lia.

(** ** Words and mantissas *)

Definition word (x : Z) : Prop := 0 <= x < 2 ^ 32.
Definition mok (m : Z * Z) : Prop := word m.1 /\ word m.2.
Definition mval (m : Z * Z) : Z := m.1 * 2 ^ 32 + m.2.

Lemma u32_small x : word x -> u32 x = x.
Proof. apply Z.mod_small. Qed.
Lemma u32_word x : word (u32 x).
Proof. apply Z.mod_pos_bound. lia. Qed.
Lemma s16_small x : -32768 <= x < 32768 -> s16 x = x.
Proof. intros. apply sext_small; lia. Qed.
Lemma mval_range m : mok m -> 0 <= mval m < 2 ^ 64.
Proof. unfold mok, word, mval. lia. Qed.
Lemma mval_inj m m' : mok m -> mok m' -> mval m = mval m' -> m = m'.
Proof. destruct m, m'. unfold mok, word, mval. cbn. intros. f_equal; lia. Qed.
#[export] Hint Resolve u32_word : core.

(** A word below another one. *)
Lemma lor_disjoint a b k : 0 <= k -> 0 <= a < 2 ^ k -> Z.lor a (b * 2 ^ k) = a + b * 2 ^ k.
Proof.
  intros Hk Ha.
  assert (Z.land a (b * 2 ^ k) = 0) as H.
  { apply Z.bits_inj'. intros i Hi. rewrite Z.land_spec, Z.bits_0.
    destruct (Z.ltb_spec i k).
    - rewrite Z.mul_pow2_bits_low by lia. apply andb_false_r.
    - rewrite (proj2 (Z.testbit_false a i Hi)); [done|].
      rewrite Z.div_small; [done|]. split; [lia|]. apply Z.lt_le_trans with (2 ^ k); [lia|].
      apply Z.pow_le_mono_r; lia. }
  rewrite <- Z.lxor_lor by done. by rewrite <- Z.add_nocarry_lxor by done.
Qed.
(** The highest bit of a number of [k + 1] bits. *)
Lemma top_bit x k : 0 <= k -> 0 <= x < 2 ^ (k + 1) -> (Z.land x (2 ^ k) =? 0) = (x <? 2 ^ k).
Proof.
  intros Hk Hx. rewrite land_bit by done.
  rewrite Z.pow_add_r in Hx by lia.
  destruct (Z.ltb_spec x (2 ^ k)).
  - replace (Z.testbit x k) with false; [done|]. symmetry. apply Z.testbit_false; [done|].
    by rewrite Z.div_small by lia.
  - replace (Z.testbit x k) with true; [done|]. symmetry. apply Z.testbit_true; [done|].
    replace (x / 2 ^ k) with 1; [done|]. apply Z.div_unique with (x - 2 ^ k); lia.
Qed.

Lemma sft_right_val n m : 0 <= n < 32 -> mok m -> mok (sft_right n m) /\ mval (sft_right n m) = mval m / 2 ^ n.
Proof.
  intros Hn [H1 H2]. unfold sft_right. destruct (Z.ltb_spec 0 n) as [Hp|].
  2:{ replace n with 0 by lia. by rewrite Z.div_1_r. }
  pose proof (Z.pow_pos_nonneg 2 n ltac:(lia) ltac:(lia)) as Pn.
  assert (2 ^ 32 = 2 ^ n * 2 ^ (32 - n)) as E by (rewrite <- Z.pow_add_r by lia; f_equal; lia).
  assert (forall x, word x -> 0 <= x / 2 ^ n < 2 ^ (32 - n)) as R.
  { unfold word. intros x Hx. split; [apply Z.div_pos; lia|]. apply Z.div_lt_upper_bound; lia. }
  assert (2 ^ (32 - n) <= 2 ^ 32) by (apply Z.pow_le_mono_r; lia).
  pose proof (R _ H1). pose proof (R _ H2).
  rewrite !Z.shiftr_div_pow2, Z.shiftl_mul_pow2 by lia.
  destruct (Z.eqb_spec m.1 0) as [E1|N1]; cbn [negb].
  - unfold mok, mval, word in *. cbn [fst snd]. rewrite E1, Z.mul_0_l, !Z.add_0_l. lia.
  - assert ((m.1 * 2 ^ (32 - n)) mod 2 ^ 32 = m.1 mod 2 ^ n * 2 ^ (32 - n)) as M1.
    { rewrite E at 1. by rewrite Z.mul_mod_distr_r by lia. }
    unfold u32. rewrite M1.
    pose proof (Z.mod_pos_bound m.1 (2 ^ n) Pn). pose proof (Z.div_mod m.1 (2 ^ n) ltac:(lia)) as D.
    rewrite lor_disjoint by lia.
    assert (mval m / 2 ^ n = m.1 / 2 ^ n * 2 ^ 32 + (m.2 / 2 ^ n + m.1 mod 2 ^ n * 2 ^ (32 - n))) as V.
    { unfold mval. replace (m.1 * 2 ^ 32 + m.2) with (m.2 + (m.1 * 2 ^ (32 - n)) * 2 ^ n) by (rewrite E; ring).
      rewrite Z.div_add by lia. set (q := m.1 / 2 ^ n) in *. set (r := m.1 mod 2 ^ n) in *.
      rewrite D, E. ring. }
    split; [|by rewrite V]. unfold mok, word in *. cbn [fst snd]. split; [lia|].
    rewrite E. set (r := m.1 mod 2 ^ n) in *. nia.
Qed.

Lemma sft_left_val n m : 0 <= n < 32 -> mok m -> mok (sft_left n m) /\ mval (sft_left n m) = (mval m * 2 ^ n) mod 2 ^ 64.
Proof.
  intros Hn [H1 H2]. unfold sft_left. destruct (Z.ltb_spec 0 n) as [Hp|].
  2:{ replace n with 0 by lia. rewrite Z.mul_1_r, Z.mod_small; [done|]. by apply mval_range. }
  pose proof (Z.pow_pos_nonneg 2 n ltac:(lia) ltac:(lia)) as Pn.
  assert (2 ^ 32 = 2 ^ n * 2 ^ (32 - n)) as E by (rewrite <- Z.pow_add_r by lia; f_equal; lia).
  assert (0 < 2 ^ (32 - n)) as Pc by (apply Z.pow_pos_nonneg; lia).
  rewrite Z.shiftr_div_pow2, !Z.shiftl_mul_pow2 by lia. unfold u32.
  assert ((m.1 * 2 ^ n) mod 2 ^ 32 = (m.1 mod 2 ^ (32 - n)) * 2 ^ n) as M1.
  { rewrite E at 1. rewrite (Z.mul_comm (2 ^ n)). by rewrite Z.mul_mod_distr_r by lia. }
  assert ((m.2 * 2 ^ n) mod 2 ^ 32 = (m.2 mod 2 ^ (32 - n)) * 2 ^ n) as M2.
  { rewrite E at 1. rewrite (Z.mul_comm (2 ^ n)). by rewrite Z.mul_mod_distr_r by lia. }
  pose proof (Z.mod_pos_bound m.1 (2 ^ (32 - n)) Pc). pose proof (Z.div_mod m.1 (2 ^ (32 - n)) ltac:(lia)) as D1.
  pose proof (Z.mod_pos_bound m.2 (2 ^ (32 - n)) Pc). pose proof (Z.div_mod m.2 (2 ^ (32 - n)) ltac:(lia)) as D2.
  assert (0 <= m.2 / 2 ^ (32 - n) < 2 ^ n) as Q.
  { unfold word in *. split; [apply Z.div_pos; lia | apply Z.div_lt_upper_bound; lia]. }
  set (q1 := m.1 / 2 ^ (32 - n)) in *. set (r1 := m.1 mod 2 ^ (32 - n)) in *.
  set (q2 := m.2 / 2 ^ (32 - n)) in *. set (r2 := m.2 mod 2 ^ (32 - n)) in *.
  assert ((mval m * 2 ^ n) mod 2 ^ 64 = (r1 * 2 ^ n + q2) * 2 ^ 32 + r2 * 2 ^ n) as V.
  { symmetry. apply Z.mod_unique with q1.
    - left. change (2 ^ 64) with (2 ^ 32 * 2 ^ 32). nia.
    - unfold mval. rewrite D1, D2. change (2 ^ 64) with (2 ^ 32 * 2 ^ 32). rewrite E. ring. }
  rewrite V, M1, M2. destruct (Z.eqb_spec m.2 0) as [E2|N2]; cbn [negb].
  - assert (q2 = 0 /\ r2 = 0) as [-> ->] by (unfold q2, r2; rewrite E2, Z.div_0_l, Z.mod_0_l by lia; done).
    unfold mok, mval, word. cbn. rewrite E2. nia.
  - rewrite Z.lor_comm, lor_disjoint by lia. unfold mok, mval, word. cbn. nia.
Qed.

Lemma sft_val m n : mok m ->
  mok (flt_b64_sft m n) /\
  mval (flt_b64_sft m n) = if 0 <=? n then mval m / 2 ^ n else (mval m * 2 ^ (- n)) mod 2 ^ 64.
Proof.
  intros Hm. pose proof (mval_range m Hm) as Hv. destruct Hm as [H1 H2]. unfold flt_b64_sft.
  destruct (Z.leb_spec 0 n) as [Hn|Hn].
  - destruct (Z.ltb_spec 63 n) as [L|L]; cbn [orb].
    { split; [unfold mok, word; cbn; lia|]. rewrite Z.div_small; [done|].
      split; [lia|]. apply Z.lt_le_trans with (2 ^ 64); [lia|]. apply Z.pow_le_mono_r; lia. }
    replace (n <? -63) with false by lia. cbn zeta.
    destruct (Z.leb_spec 32 n) as [G|G]; cbn [fst snd].
    + assert (mok (0, m.1)) as Hm' by (split; [unfold word; cbn; lia | done]).
      destruct (sft_right_val (n - 32) _ ltac:(lia) Hm') as [A B].
      replace (32 <=? - (n - 32)) with false by lia. cbn [fst snd]. unfold sft_left.
      replace (0 <? - (n - 32)) with false by lia. split; [done|]. rewrite B.
      replace (2 ^ n) with (2 ^ 32 * 2 ^ (n - 32)) by (rewrite <- Z.pow_add_r by lia; f_equal; lia).
      rewrite <- Z.div_div by lia. f_equal. unfold mval, word in *. cbn [fst snd].
      rewrite Z.div_add_l, (Z.div_small m.2) by lia. lia.
    + destruct (sft_right_val n m ltac:(lia) ltac:(done)) as [A B].
      replace (32 <=? - n) with false by lia. cbn [fst snd]. unfold sft_left.
      replace (0 <? - n) with false by lia. done.
  - destruct (Z.ltb_spec n (-63)) as [L|L]; rewrite ?orb_true_r.
    { split; [unfold mok, word; cbn; lia|].
      replace (2 ^ (- n)) with (2 ^ (- n - 64) * 2 ^ 64) by (rewrite <- Z.pow_add_r by lia; f_equal; lia).
      by rewrite Z.mul_assoc, Z.mod_mul by lia. }
    replace (63 <? n) with false by lia. replace (32 <=? n) with false by lia. cbn [orb fst snd].
    unfold sft_right. replace (0 <? n) with false by lia. cbn zeta.
    destruct (Z.leb_spec 32 (- n)) as [G|G]; cbn [fst snd].
    + assert (mok (m.2, 0)) as Hm' by (split; [done | unfold word; cbn; lia]).
      destruct (sft_left_val (- n - 32) _ ltac:(lia) Hm') as [A B]. split; [done|]. rewrite B.
      replace (2 ^ (- n)) with (2 ^ 32 * 2 ^ (- n - 32)) by (rewrite <- Z.pow_add_r by lia; f_equal; lia).
      unfold mval. cbn [fst snd].
      replace ((m.1 * 2 ^ 32 + m.2) * (2 ^ 32 * 2 ^ (- n - 32)))
        with ((m.2 * 2 ^ 32 + 0) * 2 ^ (- n - 32) + (m.1 * 2 ^ (- n - 32)) * 2 ^ 64) by (change (2 ^ 64) with (2 ^ 32 * 2 ^ 32); ring).
      by rewrite Z_mod_plus_full.
    + apply sft_left_val; [lia|done].
Qed.

Lemma add_val a b : mok a -> mok b ->
  mok (flt_b64_add a b).1 /\
  mval (flt_b64_add a b).1 + (if (flt_b64_add a b).2 then 2 ^ 64 else 0) = mval a + mval b.
Proof.
  unfold mok, word. intros [H1 H2] [H3 H4]. unfold flt_b64_add, u32.
  assert (forall x y, 0 <= x < 2 ^ 32 -> 0 <= y < 2 ^ 32 ->
    (x + y) mod 2 ^ 32 = x + y - (if 2 ^ 32 - 1 - x <? y then 2 ^ 32 else 0)) as W.
  { intros x y Hx Hy. symmetry. destruct (Z.ltb_spec (2 ^ 32 - 1 - x) y).
    - apply Z.mod_unique with 1; lia.
    - rewrite Z.mod_small; lia. }
  rewrite (W a.1 b.1), (W a.2 b.2) by done.
  destruct (Z.ltb_spec (2 ^ 32 - 1 - a.1) b.1), (Z.ltb_spec (2 ^ 32 - 1 - a.2) b.2); unfold mval; cbn [fst snd]; try lia.
  - rewrite Z.mod_small by lia. replace (_ =? 0) with false by lia. cbn [fst snd]. lia.
  - destruct (Z.eqb_spec (a.1 + b.1 - 0) (2 ^ 32 - 1)) as [E|N].
    + rewrite E. change ((2 ^ 32 - 1 + 1) mod 2 ^ 32) with 0. cbn [Z.eqb fst snd]. lia.
    + rewrite Z.mod_small by lia. replace (_ =? 0) with false by lia. cbn [fst snd]. lia.
Qed.

(** ** Numbers *)

Definition mant_val (e : flt_arith) : Z := mval (mant e).
Definition is_sign (s : Z) : Prop := s = 0 \/ s = 1.
Definition flt_ok (e : flt_arith) : Prop := mok (mant e) /\ is_sign (flt_sign e).
(** "mantissa normalized, in [1, 2)". *)
Definition normal (e : flt_arith) : Prop :=
  flt_ok e /\ 2 ^ 63 <= mant_val e /\ EXT_MIN < flt_exp e < EXT_MAX.
(** The number with this mantissa. *)
Definition of_mant (s x m : Z) : flt_arith := mkFlt s x (m / 2 ^ 32) (m mod 2 ^ 32).
(** The result of an operation, and its status, if the mantissa and the exponent before
    the check of the range are these. *)
Definition number (s x m : Z) : flt_arith * Z :=
  if EXT_MAX <=? x then (of_mant s EXT_MAX (2 ^ 63), FLT_OVFL)
  else if x <=? EXT_MIN then (of_mant 0 0 0, FLT_UNFL)
  else (of_mant s x m, FLT_OK).
Definition sign_val (s : Z) : Z := if s =? 0 then 1 else -1.
(** The number that is meant, in units that are small enough for all numbers that are
    computed: 2 ** -(40000 + 63). *)
Definition UNIT := 40000.
Definition mean (s x m : Z) : Z := sign_val s * m * 2 ^ (x + UNIT).
Definition value (e : flt_arith) : Z := mean (flt_sign e) (flt_exp e) (mant_val e).

Lemma split_mok m : 0 <= m < 2 ^ 64 -> mok (m / 2 ^ 32, m mod 2 ^ 32) /\ mval (m / 2 ^ 32, m mod 2 ^ 32) = m.
Proof.
  intros Hm. unfold mok, word, mval. cbn [fst snd].
  pose proof (Z.mod_pos_bound m (2 ^ 32) ltac:(lia)). pose proof (Z.div_mod m (2 ^ 32) ltac:(lia)). lia.
Qed.
Lemma of_mant_val s x m : 0 <= m < 2 ^ 64 -> mant_val (of_mant s x m) = m.
Proof. intros. by apply split_mok. Qed.
Lemma of_mant_ok s x m : 0 <= m < 2 ^ 64 -> is_sign s -> flt_ok (of_mant s x m).
Proof. intros. split; [by apply split_mok | done]. Qed.
Lemma of_mant_eq e : mok (mant e) -> e = of_mant (flt_sign e) (flt_exp e) (mant_val e).
Proof.
  intros Hm. pose proof (split_mok (mant_val e) (mval_range _ Hm)) as [A B].
  apply mval_inj in B; [|done|done]. unfold of_mant. destruct e. unfold mant in *. cbn in *. by injection B as -> ->.
Qed.
Lemma set_mant_eq e m : mok m -> set_mant m e = of_mant (flt_sign e) (flt_exp e) (mval m).
Proof.
  intros Hm. rewrite (of_mant_eq (set_mant m e)); [done|]. by destruct m.
Qed.
Lemma mant_range e : mok (mant e) -> 0 <= mant_val e < 2 ^ 64.
Proof. apply mval_range. Qed.
Lemma is_zero_val e : mok (mant e) -> is_zero e = (mant_val e =? 0).
Proof.
  unfold mok, word, is_zero, mant_val, mval, mant. cbn [fst snd]. intros [H1 H2].
  apply eq_true_iff_eq. rewrite !Z.eqb_eq, Z.lor_eq_0_iff. lia.
Qed.
Lemma value_of_mant s x m : 0 <= m < 2 ^ 64 -> value (of_mant s x m) = mean s x m.
Proof. intros. unfold value. by rewrite of_mant_val. Qed.
Lemma chk_number s x m : 0 <= m < 2 ^ 64 -> flt_chk (of_mant s x m) FLT_OK = number s x m.
Proof.
  intros Hm. unfold flt_chk, number, of_mant, EXT_MAX, EXT_MIN. cbn [flt_exp flt_sign fst snd].
  destruct (Z.leb_spec 16384 x); cbn [flt_exp flt_sign fst snd]; [done|].
  destruct (Z.leb_spec x (-16384)); done.
Qed.

Lemma nrm_count_val k : forall c m, 0 < m < 2 ^ (Z.of_nat k) ->
  exists j, 0 <= j < Z.of_nat k /\ nrm_count k (2 ^ (Z.of_nat k - 1)) c m = c - j /\
            2 ^ (Z.of_nat k - 1) <= m * 2 ^ j < 2 ^ Z.of_nat k.
Proof.
  induction k as [|k IH]; intros c m Hm; [cbn in Hm; lia|].
  replace (Z.of_nat (S k) - 1) with (Z.of_nat k) by lia. replace (Z.of_nat (S k)) with (Z.of_nat k + 1) in * by lia.
  cbn [nrm_count]. rewrite Z.land_comm, top_bit by lia.
  destruct (Z.ltb_spec m (2 ^ Z.of_nat k)) as [L|L].
  2:{ exists 0. rewrite Z.mul_1_r. lia. }
  destruct (decide (k = 0%nat)) as [->|Nk]; [cbn in L; lia|].
  rewrite Z.shiftr_div_pow2 by lia.
  replace (2 ^ Z.of_nat k / 2 ^ 1) with (2 ^ (Z.of_nat k - 1)) by (rewrite Z.pow_sub_r by lia; done).
  destruct (IH (c - 1) m ltac:(lia)) as (j & Hj & E & B1 & B2).
  exists (j + 1). split; [lia|]. rewrite E. split; [lia|].
  rewrite Z.pow_add_r, (Z.pow_add_r 2 (Z.of_nat k)) by lia.
  replace (2 ^ Z.of_nat k) with (2 ^ (Z.of_nat k - 1) * 2 ^ 1) in * by (rewrite <- Z.pow_add_r by lia; f_equal; lia).
  change (2 ^ 1) with 2 in *. lia.
Qed.

(** [flt_nrm] keeps the number that is meant, and its mantissa becomes normal. *)
Lemma nrm_normal s x m : 0 < m < 2 ^ 64 -> -32000 <= x <= 32767 ->
  exists k, 0 <= k < 64 /\ 2 ^ 63 <= m * 2 ^ k < 2 ^ 64 /\ flt_nrm (of_mant s x m) = of_mant s (x - k) (m * 2 ^ k).
Proof.
  intros Hm Hx. pose proof (split_mok m ltac:(lia)) as [[Hw1 Hw2] Hv].
  unfold flt_nrm. rewrite is_zero_val, of_mant_val by (try apply (split_mok m); lia).
  replace (m =? 0) with false by lia.
  set (e := if m1 _ =? 0 then _ else _).
  assert (exists i, (i = 0 \/ i = 32) /\ e = of_mant s (x - i) (m * 2 ^ i) /\ 0 < m * 2 ^ i < 2 ^ 64 /\ m * 2 ^ i / 2 ^ 32 <> 0) as (i & Hi & Ee & Hr & Ht).
  { unfold e, of_mant. cbn [m1 m2 flt_exp flt_sign]. unfold mval, word in *. cbn [fst snd] in *.
    destruct (Z.eqb_spec (m / 2 ^ 32) 0) as [E0|N0].
    - exists 32. split; [by right|]. assert (m < 2 ^ 32) by lia.
      rewrite Z.div_mul, Z.mod_mul, (Z.mod_small m) by lia. rewrite s16_small by lia. split; [done|]. lia.
    - exists 0. rewrite Z.mul_1_r, Z.sub_0_r. split; [by left|]. split; [done|]. lia. }
  clearbody e. subst e. set (m' := m * 2 ^ i) in *.
  pose proof (split_mok m' ltac:(lia)) as [[Hh Hl] Hv']. cbn [fst snd] in Hh, Hl.
  unfold of_mant at 1 2 3 4 5. cbn [m1 m2 flt_exp flt_sign mant].
  change 0x80000000 with (2 ^ 31). rewrite top_bit by (unfold word in Hh; lia).
  destruct (Z.ltb_spec (m' / 2 ^ 32) (2 ^ 31)) as [L|L].
  2:{ exists i. unfold mval in Hv'. cbn [fst snd] in Hv'. fold m'. split; [lia|]. split; [|done]. unfold word in *. lia. }
  destruct (nrm_count_val 31 (-1) (m' / 2 ^ 32)) as (j & Hj & E & B).
  { unfold word in Hh. change (Z.of_nat 31) with 31. lia. }
  change (2 ^ (Z.of_nat 31 - 1)) with 0x40000000 in E. unfold mant. cbn [m1 m2].
  rewrite E. change (Z.of_nat 31) with 31 in *.
  destruct (sft_val (m' / 2 ^ 32, m' mod 2 ^ 32) (-1 - j) ltac:(done)) as [A V].
  replace (0 <=? -1 - j) with false in V by lia. rewrite Hv' in V.
  replace (- (-1 - j)) with (j + 1) in V by lia.
  assert (2 ^ 63 <= m' * 2 ^ (j + 1) < 2 ^ 64) as R.
  { pose proof (Z.pow_pos_nonneg 2 j ltac:(lia) ltac:(lia)). rewrite Z.pow_add_r by lia.
    unfold mval in Hv'. cbn [fst snd] in Hv'. unfold word in *.
    set (h := m' / 2 ^ 32) in *. set (l := m' mod 2 ^ 32) in *. set (p := 2 ^ j) in *.
    assert (h * p <= 2 ^ 31 - 1) by (change (31 - 1) with 30 in B; lia).
    assert (l * p < 2 ^ 32 * p) by nia. assert (m' * p = h * p * 2 ^ 32 + l * p) by nia.
    assert (h * p * 2 ^ 32 + l * p < 2 ^ 63).
    { assert (h < 2 ^ (31 - j)) by (apply Z.mul_lt_mono_pos_r with p; [lia|]; unfold p; rewrite <- Z.pow_add_r by lia; replace (31 - j + j) with 31 by lia; lia).
      assert ((h + 1) * p <= 2 ^ 31) by (replace (2 ^ 31) with (2 ^ (31 - j) * p) by (unfold p; rewrite <- Z.pow_add_r by lia; f_equal; lia); nia). nia. }
    change (2 ^ 1) with 2. change (31 - 1) with 30 in B. nia. }
  rewrite (Z.mod_small (m' * 2 ^ (j + 1))) in V by lia.
  exists (i + (j + 1)). assert (m * 2 ^ (i + (j + 1)) = m' * 2 ^ (j + 1)) as -> by (unfold m'; rewrite Z.pow_add_r by lia; ring).
  split; [lia|]. split; [done|]. rewrite set_mant_eq by done. rewrite V. unfold set_exp. cbn [flt_sign flt_exp].
  rewrite s16_small by lia. f_equal. lia.
Qed.
Lemma nrm_zero s x : flt_nrm (of_mant s x 0) = of_mant 0 0 0.
Proof. done. Qed.

(** ** Sums *)

(** A number that the operations deal with: normal, or zero. *)
Definition valid (e : flt_arith) : Prop :=
  flt_ok e /\ (2 ^ 63 <= mant_val e \/ mant_val e = 0) /\ EXT_MIN < flt_exp e < EXT_MAX.

Lemma sub_val a b : mok a -> mok b -> mval b <= mval a ->
  mok (sub_mant a b) /\ mval (sub_mant a b) = mval a - mval b.
Proof.
  unfold mok, word, mval, sub_mant, u32. intros [A1 A2] [B1 B2] L. cbn [fst snd].
  assert ((a.2 - b.2) mod 2 ^ 32 = a.2 - b.2 + (if a.2 <? b.2 then 2 ^ 32 else 0)) as ->.
  { symmetry. destruct (Z.ltb_spec a.2 b.2); [apply Z.mod_unique with (-1) | rewrite Z.mod_small]; lia. }
  assert (((if a.2 <? b.2 then (a.1 - 1) mod 2 ^ 32 else a.1) - b.1) mod 2 ^ 32 = a.1 - b.1 - (if a.2 <? b.2 then 1 else 0)) as ->.
  { destruct (Z.ltb_spec a.2 b.2); [|rewrite Z.mod_small; lia].
    rewrite (Z.mod_small (a.1 - 1)) by lia. rewrite Z.mod_small; lia. }
  destruct (Z.ltb_spec a.2 b.2); lia.
Qed.
Lemma gt_val a b : mok a -> mok b -> (b.1 <? a.1) || ((a.1 =? b.1) && (b.2 <? a.2)) = (mval b <? mval a).
Proof.
  unfold mok, word, mval. intros [A1 A2] [B1 B2]. apply eq_true_iff_eq. rewrite orb_true_iff, andb_true_iff. lia.
Qed.

(** The sum of two numbers with the same exponent, before its mantissa is normal again. *)
Lemma add_aligned_sum s1 s2 x a1 a2 :
  is_sign s1 -> is_sign s2 -> 0 <= a1 < 2 ^ 64 -> 0 <= a2 < 2 ^ 64 -> -32000 <= x <= 32000 ->
  let t := sign_val s1 * a1 + sign_val s2 * a2 in
  exists s, is_sign s /\ t = sign_val s * Z.abs t /\
    add_aligned (of_mant s1 x a1) (of_mant s2 x a2) =
    if Z.abs t <? 2 ^ 64 then of_mant s x (Z.abs t) else of_mant s (x + 1) (Z.abs t / 2).
Proof.
  intros S1 S2 H1 H2 Hx t.
  pose proof (split_mok a1 H1) as [K1 V1]. pose proof (split_mok a2 H2) as [K2 V2].
  unfold add_aligned. cbn [flt_sign m1 m2 of_mant].
  change (mant (of_mant s1 x a1)) with (a1 / 2 ^ 32, a1 mod 2 ^ 32).
  change (mant (of_mant s2 x a2)) with (a2 / 2 ^ 32, a2 mod 2 ^ 32).
  change (mkFlt s1 x (a1 / 2 ^ 32) (a1 mod 2 ^ 32)) with (of_mant s1 x a1).
  change (mkFlt s2 x (a2 / 2 ^ 32) (a2 mod 2 ^ 32)) with (of_mant s2 x a2).
  destruct (Z.eqb_spec s1 s2) as [<-|N]; cbn [negb].
  - assert (t = sign_val s1 * (a1 + a2)) as Et by (unfold t; ring).
    assert (Z.abs t = a1 + a2) as Ea by (rewrite Et; destruct S1 as [-> | ->]; cbn [sign_val Z.eqb]; lia).
    exists s1. split; [done|]. rewrite Ea. split; [done|].
    destruct (add_val _ _ K2 K1) as [Ka Va]. rewrite V1, V2 in Va.
    destruct (flt_b64_add _ _) as [r c]. cbn [fst snd] in *. pose proof (mval_range _ Ka). destruct c.
    + replace (a1 + a2 <? 2 ^ 64) with false by lia.
      destruct (sft_val r 1 Ka) as [Ks Vs]. replace (0 <=? 1) with true in Vs by done. change (2 ^ 1) with 2 in Vs.
      generalize dependent (flt_b64_sft r 1). intros [h l] [Kh Kl] Vs. cbn [fst snd] in *.
      change (mval (h, l)) with (h * 2 ^ 32 + l) in Vs.
      assert (h < 2 ^ 31) as T by (clear - Vs H Kl; unfold word in *; dlia).
      assert (Z.lor h 0x80000000 = h + 2 ^ 31) as ->.
      { change 0x80000000 with (1 * 2 ^ 31). rewrite lor_disjoint; unfold word in *; lia. }
      rewrite set_mant_eq by (unfold mok, word in *; cbn [fst snd]; lia).
      assert (mval (h + 2 ^ 31, l) = (a1 + a2) / 2) as ->.
      { unfold mval at 1. cbn [fst snd]. clear - Vs Va. dlia. }
      unfold set_exp. cbn [flt_exp flt_sign of_mant]. by rewrite s16_small by lia.
    + replace (a1 + a2 <? 2 ^ 64) with true by lia. rewrite set_mant_eq by done. cbn [flt_exp flt_sign of_mant]. f_equal. lia.
  - pose proof (gt_val _ _ K1 K2) as G. cbn [fst snd] in G. rewrite G, V1, V2.
    assert (sign_val s2 = - sign_val s1) as Es by (destruct S1 as [-> | ->], S2 as [-> | ->]; done).
    assert (sign_val s1 = 1 \/ sign_val s1 = -1) as Eu by (destruct S1 as [-> | ->]; [by left | by right]).
    assert (t = sign_val s1 * (a1 - a2)) as Et by (unfold t; rewrite Es; ring).
    destruct (Z.ltb_spec a2 a1).
    + assert (Z.abs t = a1 - a2) as Ea by (rewrite Et; destruct Eu as [-> | ->]; lia).
      exists s1. rewrite Ea. split; [done|]. split; [done|]. replace (_ <? _) with true by lia.
      destruct (sub_val _ _ K1 K2 ltac:(lia)) as [Ks Vs]. rewrite set_mant_eq by done. rewrite Vs, V1, V2. done.
    + assert (Z.abs t = a2 - a1) as Ea by (rewrite Et; destruct Eu as [-> | ->]; lia).
      exists s2. rewrite Ea, Es. split; [done|]. split; [lia|]. replace (_ <? _) with true by lia.
      destruct (sub_val _ _ K2 K1 ltac:(lia)) as [Ks Vs]. rewrite set_mant_eq by done. rewrite Vs, V1, V2. done.
Qed.

Lemma align_eq e1 e2 : mok (mant e1) -> mok (mant e2) ->
  -16384 <= flt_exp e1 <= 16384 -> -16384 <= flt_exp e2 <= 16384 ->
  let x := Z.max (flt_exp e1) (flt_exp e2) in
  align e1 e2 = (of_mant (flt_sign e1) x (mant_val e1 / 2 ^ (x - flt_exp e1)),
                 of_mant (flt_sign e2) x (mant_val e2 / 2 ^ (x - flt_exp e2))).
Proof.
  intros K1 K2 R1 R2 x. unfold align.
  assert (forall e d, mok (mant e) -> 0 <= d -> -16384 <= flt_exp e <= 16384 -> flt_exp e + d = x ->
    set_mant (flt_b64_sft (mant e) d) (set_exp x e) = of_mant (flt_sign e) x (mant_val e / 2 ^ d)) as S.
  { intros e d K Hd R E. destruct (sft_val _ d K) as [Ks Vs]. replace (0 <=? d) with true in Vs by lia.
    rewrite set_mant_eq, Vs by done. unfold set_exp. cbn [flt_exp flt_sign]. by rewrite s16_small by lia. }
  assert (forall e, mok (mant e) -> flt_exp e = x -> e = of_mant (flt_sign e) x (mant_val e / 2 ^ (x - flt_exp e))) as N.
  { intros e K E. rewrite E, Z.sub_diag, Z.div_1_r, <- E. by apply of_mant_eq. }
  destruct (Z.ltb_spec (flt_exp e2 - flt_exp e1) 0); [|destruct (Z.ltb_spec 0 (flt_exp e2 - flt_exp e1))].
  - f_equal; [apply N; [done|lia]|].
    replace (- (flt_exp e2 - flt_exp e1)) with (x - flt_exp e2) by lia.
    replace (flt_exp e2 - (flt_exp e2 - flt_exp e1)) with x by lia. apply S; [done|lia..].
  - f_equal; [|apply N; [done|lia]].
    replace (flt_exp e2 - flt_exp e1) with (x - flt_exp e1) by lia.
    replace (flt_exp e1 + (x - flt_exp e1)) with x by lia. apply S; [done|lia..].
  - f_equal; apply N; try done; lia.
Qed.

(** A digit string [t] at the exponent [x], normalised: the number is the same, or one
    bit has been lost at the end. *)
Lemma normalised s x t : is_sign s -> t = sign_val s * Z.abs t -> Z.abs t < 2 ^ 65 -> -17000 <= x <= 17000 ->
  exists s' x' m, is_sign s' /\
    flt_chk (flt_nrm (if Z.abs t <? 2 ^ 64 then of_mant s x (Z.abs t) else of_mant s (x + 1) (Z.abs t / 2))) FLT_OK = number s' x' m /\
    (m = 0 /\ x' = 0 \/ 2 ^ 63 <= m < 2 ^ 64 /\ x - 64 < x' <= x + 1) /\ Z.sgn (mean s' x' m) = Z.sgn t /\
    (Z.abs t < 2 ^ 64 /\ mean s' x' m = t * 2 ^ (x + UNIT) \/
     x' = x + 1 /\ 2 ^ 64 <= Z.abs t /\ Z.abs (mean s' x' m - t * 2 ^ (x + UNIT)) <= 2 ^ (x + UNIT)).
Proof.
  intros Hs Et Ht Hx. pose proof (Z.pow_pos_nonneg 2 (x + UNIT) ltac:(lia) ltac:(unfold UNIT; lia)) as P.
  assert (sign_val s = 1 \/ sign_val s = -1) as Es by (destruct Hs as [-> | ->]; [by left | by right]).
  assert (forall x' m, 0 < m -> 0 <= x' + UNIT -> t <> 0 -> Z.sgn (mean s x' m) = Z.sgn t) as Sg.
  { intros x' m Hm Hx' Nt. pose proof (Z.pow_pos_nonneg 2 (x' + UNIT) ltac:(lia) ltac:(lia)).
    unfold mean. rewrite !Z.sgn_mul, (Z.sgn_pos m), (Z.sgn_pos (2 ^ _)), Et, Z.sgn_mul, (Z.sgn_pos (Z.abs t)) by lia. lia. }
  destruct (Z.eqb_spec t 0) as [->|Nt].
  { exists 0, 0, 0. split; [by left|]. split; [done|]. split; [by left|]. split; [done|]. left. split; [lia|done]. }
  destruct (Z.ltb_spec (Z.abs t) (2 ^ 64)) as [L|L].
  - destruct (nrm_normal s x (Z.abs t) ltac:(lia) ltac:(lia)) as (k & Hk & Hm & ->).
    exists s, (x - k), (Z.abs t * 2 ^ k). rewrite chk_number by lia.
    split; [done|]. split; [done|]. split; [right; lia|]. split; [apply Sg; unfold UNIT; lia|]. left. split; [done|].
    unfold mean. rewrite Et at 2.
    replace (x + UNIT) with (k + (x - k + UNIT)) by lia. rewrite (Z.pow_add_r 2 k) by (unfold UNIT; lia). ring.
  - assert (2 ^ 63 <= Z.abs t / 2 < 2 ^ 64) as Hm by dlia.
    destruct (nrm_normal s (x + 1) (Z.abs t / 2) ltac:(lia) ltac:(lia)) as (k & Hk & Hm' & E).
    assert (k = 0) as ->.
    { destruct (decide (k = 0)); [done|]. replace (2 ^ k) with (2 ^ (k - 1) * 2) in Hm' by (rewrite Z.mul_comm, <- Z.pow_succ_r by lia; f_equal; lia).
      pose proof (Z.pow_pos_nonneg 2 (k - 1) ltac:(lia) ltac:(lia)). nia. }
    rewrite E, Z.mul_1_r, Z.sub_0_r. exists s, (x + 1), (Z.abs t / 2). rewrite chk_number by lia.
    split; [done|]. split; [done|]. split; [right; lia|]. split; [apply Sg; unfold UNIT; lia|]. right. split; [done|]. split; [done|].
    unfold mean. replace (x + 1 + UNIT) with (1 + (x + UNIT)) by lia. rewrite (Z.pow_add_r 2 1) by (unfold UNIT; lia).
    change (2 ^ 1) with 2. set (p := 2 ^ (x + UNIT)) in *.
    assert (Z.abs t = 2 * (Z.abs t / 2) \/ Z.abs t = 2 * (Z.abs t / 2) + 1) as D by dlia.
    rewrite Et at 2. destruct Es as [-> | ->]; nia.
Qed.

Lemma valid_number e : valid e -> exists m, 0 <= m < 2 ^ 64 /\ e = of_mant (flt_sign e) (flt_exp e) m /\
  mant_val e = m /\ (e, FLT_OK) = number (flt_sign e) (flt_exp e) m.
Proof.
  intros ([K S] & M & R). exists (mant_val e). pose proof (mant_range e K).
  split; [done|]. split; [by apply of_mant_eq|]. split; [done|]. unfold number.
  unfold EXT_MIN, EXT_MAX in *. replace (16384 <=? flt_exp e) with false by lia. replace (flt_exp e <=? -16384) with false by lia.
  f_equal. by apply of_mant_eq.
Qed.
(** Bits that are shifted out at the end. *)
Lemma shifted_out a d u : 0 <= d -> 0 <= a -> 0 <= u ->
  0 <= a * 2 ^ u - a / 2 ^ d * 2 ^ (d + u) < 2 ^ (d + u).
Proof.
  intros Hd Ha Hu. rewrite Z.pow_add_r by lia.
  pose proof (Z.pow_pos_nonneg 2 d ltac:(lia) Hd). pose proof (Z.pow_pos_nonneg 2 u ltac:(lia) Hu).
  pose proof (Z.div_mod a (2 ^ d) ltac:(lia)). pose proof (Z.mod_pos_bound a (2 ^ d) ltac:(lia)).
  set (p := 2 ^ d) in *. set (q := 2 ^ u) in *. nia.
Qed.

Lemma sign_val_cases s : sign_val s = 1 \/ sign_val s = -1.
Proof. unfold sign_val. destruct (s =? 0); lia. Qed.

(** The digits that are added, against the numbers: the larger one is complete. *)
Lemma aligned_sum s1 s2 x1 x2 a1 a2 :
  2 ^ 63 <= a1 < 2 ^ 64 -> 2 ^ 63 <= a2 < 2 ^ 64 -> 0 <= x1 -> 0 <= x2 ->
  let x := Z.max x1 x2 in
  let t := sign_val s1 * (a1 / 2 ^ (x - x1)) + sign_val s2 * (a2 / 2 ^ (x - x2)) in
  let v := sign_val s1 * a1 * 2 ^ x1 + sign_val s2 * a2 * 2 ^ x2 in
  Z.abs (t * 2 ^ x - v) < 2 ^ x /\ Z.sgn t = Z.sgn v /\ (x1 = x2 -> t * 2 ^ x = v).
Proof.
  intros H1 H2 X1 X2 x t v.
  pose proof (shifted_out a1 (x - x1) x1 ltac:(lia) ltac:(lia) X1) as D1.
  pose proof (shifted_out a2 (x - x2) x2 ltac:(lia) ltac:(lia) X2) as D2.
  replace (x - x1 + x1) with x in D1 by lia. replace (x - x2 + x2) with x in D2 by lia.
  assert (forall d a, 2 ^ 63 <= a < 2 ^ 64 -> 0 < d -> 0 <= a / 2 ^ d < 2 ^ 63) as Q.
  { intros d a Ha Hd. split; [apply Z.div_pos; lia|]. apply Z.div_lt_upper_bound; [lia|].
    replace d with (1 + (d - 1)) by lia. rewrite Z.pow_add_r by lia. pose proof (Z.pow_pos_nonneg 2 (d - 1) ltac:(lia) ltac:(lia)). nia. }
  assert (forall x' a, 2 ^ 63 <= a < 2 ^ 64 -> x' < x -> 0 <= x' -> 0 < a * 2 ^ x' < 2 ^ 63 * 2 ^ x) as W.
  { intros x' a Ha Hl Hp. replace x with (1 + (x - x' - 1) + x') by lia. rewrite !Z.pow_add_r by lia.
    pose proof (Z.pow_pos_nonneg 2 x' ltac:(lia) ltac:(lia)). pose proof (Z.pow_pos_nonneg 2 (x - x' - 1) ltac:(lia) ltac:(lia)).
    change (2 ^ 1) with 2. nia. }
  pose proof (Z.pow_pos_nonneg 2 x ltac:(lia) ltac:(lia)) as P.
  destruct (Z.lt_trichotomy x1 x2) as [L|[L|L]].
  - specialize (Q (x - x1) a1 H1 ltac:(lia)). specialize (W x1 a1 H1 ltac:(lia) X1).
    unfold t, v. replace (x - x2) with 0 in * by lia. rewrite Z.div_1_r in *. replace x2 with x in * by lia.
    rewrite <- !Z.mul_assoc.
    set (y := a1 * 2 ^ x1) in *. set (z := a1 / 2 ^ (x - x1)) in *. set (p := 2 ^ x) in *.
    destruct (sign_val_cases s1) as [-> | ->], (sign_val_cases s2) as [-> | ->]; split_and!; try lia; nia.
  - subst x2. unfold t, v. replace (x - x1) with 0 in * by lia. rewrite !Z.div_1_r in *. replace x1 with x in * by lia.
    set (p := 2 ^ x) in *. split_and!; [lia| |intros _; ring].
    rewrite <- Z.mul_add_distr_r, Z.sgn_mul, (Z.sgn_pos p) by lia. lia.
  - specialize (Q (x - x2) a2 H2 ltac:(lia)). specialize (W x2 a2 H2 ltac:(lia) X2).
    unfold t, v. replace (x - x1) with 0 in * by lia. rewrite Z.div_1_r in *. replace x1 with x in * by lia.
    rewrite <- !Z.mul_assoc.
    set (y := a2 * 2 ^ x2) in *. set (z := a2 / 2 ^ (x - x2)) in *. set (p := 2 ^ x) in *.
    destruct (sign_val_cases s1) as [-> | ->], (sign_val_cases s2) as [-> | ->]; split_and!; try lia; nia.
Qed.

Lemma value_mean e : value e = sign_val (flt_sign e) * mant_val e * 2 ^ (flt_exp e + UNIT).
Proof. done. Qed.

Lemma add_number e1 e2 : valid e1 -> valid e2 ->
  let xm := Z.max (flt_exp e1) (flt_exp e2) in
  exists s x m, is_sign s /\ flt_add e1 e2 = number s x m /\
    (m = 0 /\ EXT_MIN < x < EXT_MAX \/ 2 ^ 63 <= m < 2 ^ 64 /\ x <= xm + 1 /\ (EXT_MIN + 63 < xm -> EXT_MIN < x)) /\
    Z.abs (mean s x m - (value e1 + value e2)) < 2 ^ (Z.max xm x + UNIT) /\
    Z.sgn (mean s x m) = Z.sgn (value e1 + value e2) /\
    (flt_exp e1 = flt_exp e2 -> flt_sign e1 <> flt_sign e2 -> mean s x m = value e1 + value e2).
Proof.
  intros V1 V2 xm. pose proof V1 as ([K1 S1] & M1 & R1). pose proof V2 as ([K2 S2] & M2 & R2).
  unfold EXT_MIN, EXT_MAX in *. unfold flt_add. rewrite !is_zero_val by done.
  assert (forall e, 2 ^ 63 <= mant_val e \/ mant_val e = 0 -> mok (mant e) -> mant_val e = 0 -> value e = 0) as Z0.
  { intros e _ _ E. rewrite value_mean, E. lia. }
  assert (forall x, 0 < 2 ^ (x + UNIT) \/ x + UNIT < 0) as P.
  { intros x. destruct (Z.ltb_spec (x + UNIT) 0); [by right|left; by apply Z.pow_pos_nonneg]. }
  assert (forall e, valid e -> exists s x m, is_sign s /\ (e, FLT_OK) = number s x m /\ x = flt_exp e /\ (m = 0 \/ 2 ^ 63 <= m < 2 ^ 64) /\ mean s x m = value e) as I.
  { intros e V. destruct (valid_number e V) as (m & Hm & _ & E & N). destruct V as ([K S] & M & R).
    exists (flt_sign e), (flt_exp e), m. rewrite value_mean, E. split_and!; try done. lia. }
  destruct (Z.eqb_spec (mant_val e2) 0) as [E2|N2].
  { destruct (I e1 V1) as (s & x & m & Hs & E & Ex & Hm & Em). exists s, x, m. rewrite E, Em, (Z0 e2), Z.add_0_r, Z.sub_diag by done.
    split_and!; try done; [|destruct (P (Z.max xm x)); unfold UNIT in *; lia].
    unfold EXT_MIN, EXT_MAX. destruct Hm as [->|Hm]; [left|right]; lia. }
  destruct (Z.eqb_spec (mant_val e1) 0) as [E1|N1].
  { destruct (I e2 V2) as (s & x & m & Hs & E & Ex & Hm & Em). exists s, x, m. rewrite E, Em, (Z0 e1), Z.add_0_l, Z.sub_diag by done.
    split_and!; try done; [|destruct (P (Z.max xm x)); unfold UNIT in *; lia].
    unfold EXT_MIN, EXT_MAX. destruct Hm as [->|Hm]; [left|right]; lia. }
  pose proof (mant_range _ K1) as B1. pose proof (mant_range _ K2) as B2.
  rewrite align_eq by (done || lia). fold xm. cbn [fst snd].
  destruct (aligned_sum (flt_sign e1) (flt_sign e2) (flt_exp e1 + UNIT) (flt_exp e2 + UNIT) (mant_val e1) (mant_val e2)) as (A1 & A2 & A3);
    [lia..|unfold UNIT; lia|unfold UNIT; lia|].
  replace (Z.max (flt_exp e1 + UNIT) (flt_exp e2 + UNIT)) with (xm + UNIT) in * by lia.
  replace (xm + UNIT - (flt_exp e1 + UNIT)) with (xm - flt_exp e1) in * by lia.
  replace (xm + UNIT - (flt_exp e2 + UNIT)) with (xm - flt_exp e2) in * by lia.
  fold (mean (flt_sign e1) (flt_exp e1) (mant_val e1)) in *. fold (mean (flt_sign e2) (flt_exp e2) (mant_val e2)) in *.
  fold (value e1) (value e2) in *.
  assert (forall e, mok (mant e) -> 0 <= xm - flt_exp e -> 0 <= mant_val e / 2 ^ (xm - flt_exp e) < 2 ^ 64) as D.
  { intros e K H. pose proof (mant_range e K). pose proof (Z.pow_pos_nonneg 2 (xm - flt_exp e) ltac:(lia) H).
    split; [apply Z.div_pos; lia|]. apply Z.div_lt_upper_bound; nia. }
  destruct (add_aligned_sum (flt_sign e1) (flt_sign e2) xm _ _ S1 S2 (D e1 K1 ltac:(lia)) (D e2 K2 ltac:(lia)) ltac:(lia)) as (s & Hs & Et & ->).
  set (t := sign_val (flt_sign e1) * _ + _) in *.
  assert (Z.abs t < 2 ^ 65) as T.
  { pose proof (D e1 K1 ltac:(lia)). pose proof (D e2 K2 ltac:(lia)). unfold t.
    destruct (sign_val_cases (flt_sign e1)) as [-> | ->], (sign_val_cases (flt_sign e2)) as [-> | ->]; lia. }
  destruct (normalised s xm t Hs Et T ltac:(lia)) as (s' & x' & m & Hs' & E & Hm & Sg & Ex).
  exists s', x', m. split; [done|]. split; [done|]. split; [unfold EXT_MIN, EXT_MAX; destruct Hm as [[-> ->]|[? ?]]; [by left|right; lia]|].
  pose proof (Z.pow_pos_nonneg 2 (xm + UNIT) ltac:(lia) ltac:(unfold UNIT; lia)) as Pm.
  split.
  { destruct Ex as [[_ Ex]|(-> & _ & Ex)].
    - rewrite Ex. apply Z.lt_le_trans with (2 ^ (xm + UNIT)); [lia|]. apply Z.pow_le_mono_r; lia.
    - replace (Z.max xm (xm + 1) + UNIT) with (1 + (xm + UNIT)) by lia. rewrite (Z.pow_add_r 2 1) by (unfold UNIT; lia).
      change (2 ^ 1) with 2. lia. }
  split; [congruence|]. intros Ee Ns. rewrite <- A3 by lia.
  destruct Ex as [[_ Ex]|(_ & Ht & _)]; [done|]. exfalso.
  pose proof (D e1 K1 ltac:(lia)). pose proof (D e2 K2 ltac:(lia)). unfold t in Ht.
  destruct S1 as [E1|E1], S2 as [E2|E2]; rewrite E1, E2 in *; try done; cbn [sign_val Z.eqb] in Ht; lia.
Qed.

(** The number of a result that is in range. *)
Lemma number_value s x m : 0 <= m < 2 ^ 64 -> EXT_MIN < x < EXT_MAX -> value (number s x m).1 = mean s x m.
Proof.
  intros Hm Hx. unfold number. replace (EXT_MAX <=? x) with false by lia. replace (x <=? EXT_MIN) with false by lia.
  by apply value_of_mant.
Qed.
Lemma number_sign s x m : is_sign s -> m = 0 /\ x < EXT_MAX \/ 2 ^ 63 <= m < 2 ^ 64 -> EXT_MIN < x ->
  let e := (number s x m).1 in mok (mant e) /\ (mant_val e = 0 <-> m = 0) /\ flt_sign e = s.
Proof.
  intros Hs Hm Hx. unfold number. replace (x <=? EXT_MIN) with false by lia.
  destruct (Z.leb_spec EXT_MAX x); cbn [fst]; (split; [apply split_mok; lia|]); (split; [|done]);
    rewrite of_mant_val by lia; lia.
Qed.
Lemma mean_sgn s x m : 0 < m -> 0 <= x + UNIT -> Z.sgn (mean s x m) = sign_val s.
Proof.
  intros Hm Hx. pose proof (Z.pow_pos_nonneg 2 (x + UNIT) ltac:(lia) Hx).
  unfold mean. rewrite !Z.sgn_mul, (Z.sgn_pos m), (Z.sgn_pos (2 ^ _)) by lia.
  destruct (sign_val_cases s) as [-> | ->]; done.
Qed.
Lemma negated_valid e : valid e -> valid (negated e) /\ value (negated e) = - value e.
Proof.
  intros ([K S] & M & R). unfold negated, value, mean, valid, flt_ok, is_sign, sign_val. cbn [flt_sign flt_exp set_sign].
  change (mant_val (set_sign _ e)) with (mant_val e). change (mant (set_sign _ e)) with (mant e).
  split; [by destruct S as [-> | ->]; cbn; auto|]. destruct S as [-> | ->]; cbn [Z.eqb]; ring.
Qed.

(** C19: flt_add gives the sum of two numbers up to a unit in the last place of the
    larger one, or of the sum if that is larger, with a mantissa that is normal, or zero;
    the sum of numbers of the same magnitude and opposite signs is exact.  flt_sub gives
    the difference likewise. *)
Theorem sum_of_numbers e1 e2 : valid e1 -> valid e2 ->
  let sum_ok r v e1 e2 := exists s x m, is_sign s /\ r = number s x m /\ (m = 0 \/ 2 ^ 63 <= m < 2 ^ 64) /\
    Z.abs (mean s x m - v) < 2 ^ (Z.max (Z.max (flt_exp e1) (flt_exp e2)) x + UNIT) /\
    (flt_exp e1 = flt_exp e2 -> flt_sign e1 <> flt_sign e2 -> mean s x m = v) in
  sum_ok (flt_add e1 e2) (value e1 + value e2) e1 e2 /\
  sum_ok (flt_sub e1 e2) (value e1 - value e2) e1 (negated e2).
Proof.
  intros V1 V2. destruct (negated_valid e2 V2) as [V2' E2].
  split; [destruct (add_number e1 e2 V1 V2) as (s & x & m & Hs & E & Hm & B & _ & Ex)
         |destruct (add_number e1 _ V1 V2') as (s & x & m & Hs & E & Hm & B & _ & Ex)];
    exists s, x, m; rewrite ?E2 in *; (split; [done|]); (split; [done|]); (split; [lia|]); by split.
Qed.

(** C20: flt_cmp orders numbers as they are meant, unless both are so small that their
    difference may underflow. *)
Theorem comparison e1 e2 : valid e1 -> valid e2 -> EXT_MIN + 63 < Z.max (flt_exp e1) (flt_exp e2) ->
  flt_cmp e1 e2 = Z.sgn (value e1 - value e2).
Proof.
  intros V1 V2 R. destruct (negated_valid e2 V2) as [V2' E2].
  destruct (add_number e1 _ V1 V2') as (s & x & m & Hs & E & Hm & _ & Sg & _). rewrite E2 in Sg.
  unfold Z.sub. rewrite <- Sg. unfold flt_cmp, flt_sub. rewrite E.
  assert (EXT_MIN < x) as Hx by (destruct Hm as [Hm|Hm]; [lia|by apply Hm]).
  destruct (number_sign s x m Hs ltac:(lia) Hx) as (K & Z0 & Es). cbn zeta in *.
  set (r := (number s x m).1) in *.
  assert ((m1 r =? 0) && (m2 r =? 0) = (m =? 0)) as ->.
  { unfold mant_val, mval, mok, word, mant in *. cbn [fst snd] in *. apply eq_true_iff_eq.
    rewrite andb_true_iff, !Z.eqb_eq. rewrite <- Z0. lia. }
  destruct (Z.eqb_spec m 0) as [->|N].
  - unfold mean. by rewrite Z.mul_0_r, Z.mul_0_l.
  - rewrite mean_sgn by (unfold EXT_MIN, UNIT in *; lia). rewrite Es. unfold sign_val. by destruct (s =? 0).
Qed.

(** ** The parts of a number *)

(** 1.0. *)
Definition ONE : Z := 2 ^ (63 + UNIT).

Lemma mean_abs s x m : 0 <= m -> 0 <= x + UNIT -> Z.abs (mean s x m) = m * 2 ^ (x + UNIT).
Proof.
  intros Hm Hx. pose proof (Z.pow_pos_nonneg 2 (x + UNIT) ltac:(lia) Hx). unfold mean.
  destruct (sign_val_cases s) as [-> | ->]; nia.
Qed.
(** The mantissa without its fraction. *)
Lemma truncated m d : 0 < d < 64 -> 2 ^ 63 <= m < 2 ^ 64 \/ m = 0 ->
  let t := m / 2 ^ d * 2 ^ d in 0 <= m - t < 2 ^ d /\ (2 ^ 63 <= t <= m \/ t = 0 /\ m = 0).
Proof.
  intros Hd Hm t. pose proof (Z.pow_pos_nonneg 2 d ltac:(lia) ltac:(lia)).
  pose proof (Z.div_mod m (2 ^ d) ltac:(lia)). pose proof (Z.mod_pos_bound m (2 ^ d) ltac:(lia)).
  split; [unfold t; lia|]. destruct Hm as [Hm|Hm]; [left|right; unfold t; rewrite Hm, Z.div_0_l; lia].
  split; [|unfold t; lia]. unfold t.
  assert (2 ^ (63 - d) <= m / 2 ^ d).
  { apply Z.div_le_lower_bound; [lia|]. rewrite <- Z.pow_add_r by lia. replace (d + (63 - d)) with 63 by lia. lia. }
  replace (2 ^ 63) with (2 ^ (63 - d) * 2 ^ d) by (rewrite <- Z.pow_add_r by lia; f_equal; lia). nia.
Qed.
Lemma modf_whole s x m : is_sign s -> 2 ^ 63 <= m < 2 ^ 64 \/ m = 0 -> 0 <= x < 63 ->
  let t := m / 2 ^ (63 - x) * 2 ^ (63 - x) in
  flt_modf (of_mant s x m) = (of_mant s x t, (flt_sub (of_mant s x m) (of_mant s x t)).1).
Proof.
  intros Hs Hm Hx t. unfold flt_modf. cbn [flt_exp of_mant].
  replace (x <? 0) with false by lia. replace (63 <=? x) with false by lia.
  fold (of_mant s x m). destruct (split_mok m ltac:(lia)) as [K V].
  change (mant (of_mant s x m)) with (m / 2 ^ 32, m mod 2 ^ 32).
  destruct (sft_val _ (63 - x) K) as [K1 V1]. replace (0 <=? 63 - x) with true in V1 by lia.
  destruct (sft_val _ (x - 63) K1) as [K2 V2]. replace (0 <=? x - 63) with false in V2 by lia.
  rewrite V1, V in V2. replace (- (x - 63)) with (63 - x) in V2 by lia. fold t in V2.
  destruct (truncated m (63 - x) ltac:(lia) Hm) as [T1 T2]. fold t in T1, T2.
  rewrite (Z.mod_small t) in V2 by lia. rewrite set_mant_eq by done. by rewrite V2.
Qed.

(** C21: flt_modf splits a number into an integer towards zero and a fraction below one:
    their sum is the number, exactly. *)
Theorem modf_splits e : valid e ->
  let p := flt_modf e in
  value p.1 + value p.2 = value e /\ Z.abs (value p.2) < ONE /\
  Z.abs (value p.1) <= Z.abs (value e) /\ exists n, value p.1 = n * ONE.
Proof.
  intros V p. pose proof V as ([K S] & M & R). pose proof (mant_range e K) as B.
  assert (value (mkFlt 0 0 0 0) = 0) as Z0 by done.
  assert (0 < ONE) as PO by (apply Z.pow_pos_nonneg; unfold UNIT; lia).
  assert (0 <= flt_exp e + UNIT) as PU by (unfold EXT_MIN, UNIT in *; lia).
  pose proof (Z.pow_pos_nonneg 2 (flt_exp e + UNIT) ltac:(lia) PU) as PX.
  destruct (Z.ltb_spec (flt_exp e) 0) as [L|L]; [|destruct (Z.leb_spec 63 (flt_exp e)) as [G|G]].
  - assert (p = (mkFlt 0 0 0 0, e)) as -> by (unfold p, flt_modf; by replace (flt_exp e <? 0) with true by lia).
    cbn [fst snd]. rewrite Z0. split_and!; [lia| |lia|by exists 0].
    unfold value. rewrite mean_abs by lia. unfold ONE. replace (63 + UNIT) with (63 + (- flt_exp e) + (flt_exp e + UNIT)) by lia.
    rewrite (Z.pow_add_r 2 (63 + - flt_exp e)) by lia. assert (2 ^ 64 <= 2 ^ (63 + - flt_exp e)) by (apply Z.pow_le_mono_r; lia). nia.
  - assert (p = (e, mkFlt 0 0 0 0)) as ->.
    { unfold p, flt_modf. replace (flt_exp e <? 0) with false by lia. by replace (63 <=? flt_exp e) with true by lia. }
    cbn [fst snd]. rewrite Z0. split_and!; [lia..|]. exists (sign_val (flt_sign e) * mant_val e * 2 ^ (flt_exp e - 63)).
    unfold value, mean, ONE. rewrite <- (Z.mul_assoc _ (2 ^ _)), <- Z.pow_add_r by (unfold UNIT; lia). do 2 f_equal. lia.
  - pose proof (of_mant_eq e K) as Ee.
    destruct (truncated (mant_val e) (63 - flt_exp e) ltac:(lia) ltac:(lia)) as [T1 T2].
    pose proof (modf_whole _ (flt_exp e) (mant_val e) S ltac:(lia) ltac:(lia)) as Em. cbn zeta in Em. rewrite <- Ee in Em.
    unfold p. rewrite Em. cbn [fst snd]. set (t := mant_val e / 2 ^ (63 - flt_exp e) * 2 ^ (63 - flt_exp e)) in *.
    assert (valid (of_mant (flt_sign e) (flt_exp e) t)) as Vt.
    { split; [apply of_mant_ok; [lia|done]|]. rewrite of_mant_val by lia. cbn [flt_exp of_mant]. lia. }
    destruct (negated_valid _ Vt) as [Vn En].
    destruct (add_number e _ V Vn) as (s & x & m & Hs & E & Hm & _ & _ & Ex). unfold flt_sub. rewrite E.
    cbn [flt_exp flt_sign of_mant negated set_sign] in Ex, Hm. rewrite Z.max_id in Hm.
    specialize (Ex eq_refl ltac:(destruct S as [E1|E1]; rewrite E1; done)). rewrite En in Ex.
    rewrite number_value by (unfold EXT_MIN, EXT_MAX in *; lia). rewrite Ex.
    rewrite (value_of_mant _ _ t) by lia.
    assert (value e - mean (flt_sign e) (flt_exp e) t = mean (flt_sign e) (flt_exp e) (mant_val e - t)) as D by (unfold value, mean; ring).
    split_and!; [lia| | |].
    + replace (value e + - _) with (value e - mean (flt_sign e) (flt_exp e) t) by lia. rewrite D, mean_abs by lia.
      unfold ONE. replace (63 + UNIT) with ((63 - flt_exp e) + (flt_exp e + UNIT)) by lia. rewrite (Z.pow_add_r 2 (63 - flt_exp e)) by lia. nia.
    + unfold value. rewrite !mean_abs by lia. nia.
    + exists (sign_val (flt_sign e) * (mant_val e / 2 ^ (63 - flt_exp e))). unfold mean, t, ONE.
      replace (63 + UNIT) with ((63 - flt_exp e) + (flt_exp e + UNIT)) by lia. rewrite (Z.pow_add_r 2 (63 - flt_exp e)) by lia. ring.
Qed.

(** A decision procedure for [valid], for concrete numbers. *)
Definition validb (e : flt_arith) : bool :=
  (0 <=? m1 e) && (m1 e <? 2 ^ 32) && (0 <=? m2 e) && (m2 e <? 2 ^ 32) &&
  ((flt_sign e =? 0) || (flt_sign e =? 1)) && ((2 ^ 63 <=? mant_val e) || (mant_val e =? 0)) &&
  (EXT_MIN <? flt_exp e) && (flt_exp e <? EXT_MAX).
Lemma validb_ok e : validb e = true -> valid e.
Proof. unfold validb, valid, flt_ok, mok, word, is_sign, mant. cbn [fst snd]. intros H. lia. Qed.

(** Numbers whose difference underflows compare equal. *)
Example close_numbers_equal :
  flt_cmp (of_mant 0 (-16383) (2 ^ 63)) (of_mant 0 (-16383) (2 ^ 63 + 1)) = 0 /\
  value (of_mant 0 (-16383) (2 ^ 63)) <> value (of_mant 0 (-16383) (2 ^ 63 + 1)).
Proof.
  split; [reflexivity|]. rewrite !value_of_mant by lia. unfold mean. change (sign_val 0) with 1.
  pose proof (Z.pow_pos_nonneg 2 (-16383 + UNIT) ltac:(lia) ltac:(unfold UNIT; lia)). nia.
Qed.
