(* ===== verification/FltMul.v ===== *)
(** * Products and quotients of the compilers' reals ([flt_mul.c], [flt_div.c])

    Both routines work on digits of 16 bits. *)
From Stdlib Require Import ZArith Lia Bool.
From stdpp Require Import base list.
From S2P Require Import Prelude Flt FltSpec.
Local Open Scope Z_scope.
Local Open Scope list_scope.

(** ** Digits *)

Definition BASE := 2 ^ 16.
Definition digit (x : Z) : Prop := 0 <= x < BASE.
(** The number with the digits [d 0], ..., [d (n - 1)], the highest one first. *)
Fixpoint num (d : nat -> Z) (n : nat) : Z :=
  match n with
  | O => 0
  | S k => num d k * BASE + d k
  end.
Definition dig (l : list Z) (i : nat) : Z := nth i l 0.
Definition digits_ok (l : list Z) : Prop := forall i, digit (dig l i).

Lemma land16 x : Z.land x 0xFFFF = x mod BASE.
Proof. change 0xFFFF with (Z.ones 16). by rewrite Z.land_ones. Qed.
Lemma num_ext d d' n : (forall i, (i < n)%nat -> d i = d' i) -> num d n = num d' n.
Proof. induction n as [|n IH]; intros H; cbn [num]; [done|]. rewrite IH, H by (lia || (intros; apply H; lia)). done. Qed.
Lemma num_range d n : (forall i, digit (d i)) -> 0 <= num d n < BASE ^ Z.of_nat n.
Proof.
  intros H. induction n as [|n IH]; [done|]. cbn [num]. specialize (H n). unfold digit in H.
  rewrite Nat2Z.inj_succ, Z.pow_succ_r by lia. nia.
Qed.
Lemma dig_insert_eq l i x : (i < length l)%nat -> dig (<[i := x]> l) i = x.
Proof. intros H. unfold dig. rewrite nth_lookup, list_lookup_insert_eq by done. done. Qed.
Lemma dig_insert_ne l i j x : i <> j -> dig (<[i := x]> l) j = dig l j.
Proof. intros H. unfold dig. by rewrite !nth_lookup, list_lookup_insert_ne. Qed.
Lemma dig_insert_out (l : list Z) i x : (length l <= i)%nat -> <[i := x]> l = l.
Proof. intros H. by apply list_insert_ge. Qed.
Lemma digits_insert l i x : digits_ok l -> digit x -> digits_ok (<[i := x]> l).
Proof.
  intros H Hx j. destruct (decide (i = j)) as [<-|N]; [|by rewrite dig_insert_ne].
  destruct (decide (i < length l)%nat) as [L|L]; [by rewrite dig_insert_eq|].
  rewrite dig_insert_out by lia. apply H.
Qed.
Lemma mod_digit x : digit (x mod BASE).
Proof. apply Z.mod_pos_bound. done. Qed.
#[export] Hint Resolve mod_digit digits_insert : core.

Lemma split_digits e : mok (mant e) -> digits_ok (flt_split e) /\ num (dig (flt_split e)) 4 = mant_val e /\ length (flt_split e) = 4%nat.
Proof.
  unfold mok, word. intros [H1 H2]. unfold flt_split. rewrite !land16, !Z.shiftr_div_pow2 by lia. change (2 ^ 16) with BASE.
  split_and!; [|unfold mant_val, mval, num, dig, BASE, mant in *; cbn [nth fst snd] in *; dlia|done].
  intros [|[|[|[|i]]]]; unfold dig; cbn [nth]; auto. destruct i; done.
Qed.

(** ** Multiplication *)

Lemma mul_row_num mpi mc i : digit mpi -> digits_ok mc -> forall j r k,
  (i + j < length r)%nat -> digits_ok r -> digit k ->
  let p := mul_row mpi mc i j r k in
  length p.1 = length r /\ digits_ok p.1 /\ digit p.2 /\
  (forall t, (t <= i \/ i + j < t)%nat -> dig p.1 t = dig r t) /\
  num (fun t => dig p.1 (i + 1 + t)) j + p.2 * BASE ^ Z.of_nat j =
  num (fun t => dig r (i + 1 + t)) j + mpi * num (dig mc) j + k.
Proof.
  intros Hm Hc. induction j as [|j IH]; intros r k L R K; cbn [mul_row].
  { split_and!; try done. cbn. lia. }
  set (c := nth j mc 0). set (tmp := if c =? 0 then _ else _).
  assert (digit c) as Dc by apply Hc.
  assert (tmp = dig r (i + 1 + j) + k + mpi * c) as Et.
  { unfold tmp. destruct (Z.eqb_spec c 0) as [E0|]; [rewrite E0; unfold dig; lia|].
    rewrite u32_small; [done|]. unfold word, digit, BASE in *. nia. }
  clearbody tmp. pose proof (R (i + 1 + j)%nat) as Dr.
  assert (0 <= tmp < BASE * BASE) as Bt by (unfold digit, BASE in *; nia).
  rewrite !land16, Z.shiftr_div_pow2 by lia. change (2 ^ 16) with BASE.
  assert (0 <= tmp / BASE < BASE) as Bq by (split; [apply Z.div_pos | apply Z.div_lt_upper_bound]; unfold BASE in *; lia).
  rewrite (Z.mod_small (tmp / BASE)) by done.
  destruct (IH (<[(i + 1 + j)%nat := tmp mod BASE]> r) (tmp / BASE)) as (A & B & C & D & E); [rewrite length_insert; lia|auto|done|].
  rewrite length_insert in A. split_and!; [done..| |].
  { intros t Ht. rewrite D by lia. apply dig_insert_ne. lia. }
  cbn [num]. rewrite D, dig_insert_eq by lia.
  rewrite (num_ext (fun t => dig (<[_ := _]> r) _) (fun t => dig r (i + 1 + t))) in E by (intros; apply dig_insert_ne; lia).
  rewrite Nat2Z.inj_succ, Z.pow_succ_r by lia. pose proof (Z.div_mod tmp BASE ltac:(done)) as Dm.
  fold (dig mc j) in c. fold c. set (N1 := num _ j) in *. set (N2 := num _ j) in E |- *. set (N3 := num _ j) in *.
  nia.
Qed.

Lemma mul_rows_num mp mc : digits_ok mp -> digits_ok mc -> forall i r,
  (i <= 4)%nat -> length r = 8%nat -> digits_ok r -> (forall t, (t < i)%nat -> dig r t = 0) ->
  let r' := mul_rows mp mc i r in
  length r' = 8%nat /\ digits_ok r' /\
  num (dig r') 8 = num (dig r) 8 + num (dig mp) i * num (dig mc) 4 * BASE ^ (4 - Z.of_nat i).
Proof.
  intros Hp Hc. induction i as [|i IH]; intros r Li Lr R Z0; cbn [mul_rows].
  { split_and!; try done. cbn [num]. lia. }
  fold (dig mp i). destruct (Z.eqb_spec (dig mp i) 0) as [E0|N0].
  - destruct (IH r ltac:(lia) Lr R) as (A & B & C); [intros; apply Z0; lia|]. split_and!; [done..|].
    rewrite C. cbn [num]. rewrite E0. replace (4 - Z.of_nat i) with (1 + (4 - Z.of_nat (S i))) by lia.
    rewrite Z.pow_add_r, Z.pow_1_r by lia. ring.
  - destruct (mul_row_num (dig mp i) mc i (Hp i) Hc 4 r 0 ltac:(lia) R ltac:(done)) as (A & B & C & D & E).
    destruct (mul_row (dig mp i) mc i 4 r 0) as [r1 k]. cbn [fst snd] in *.
    destruct (IH (<[i := k]> r1)) as (A' & B' & C'); [lia|rewrite length_insert; lia|auto| |].
    { intros t Ht. rewrite dig_insert_ne by lia. rewrite D by lia. apply Z0. lia. }
    split_and!; [done..|]. rewrite C'. change (num (dig mp) (S i)) with (num (dig mp) i * BASE + dig mp i). replace (4 - Z.of_nat i) with (1 + (4 - Z.of_nat (S i))) by lia.
    rewrite Z.pow_add_r, Z.pow_1_r by lia.
    assert (num (dig (<[i := k]> r1)) 8 = num (dig r) 8 + dig mp i * num (dig mc) 4 * BASE ^ (4 - Z.of_nat (S i))) as ->; [|ring].
    set (M := num (dig mc) 4) in *. pose proof (Z0 i ltac:(lia)) as Zi.
    assert (forall t, t <> i -> dig (<[i := k]> r1) t = dig r1 t) as Ne by (intros; by apply dig_insert_ne).
    assert (dig (<[i := k]> r1) i = k) as Eq by (apply dig_insert_eq; lia).
    change (BASE ^ Z.of_nat 4) with 0x10000000000000000 in E. clearbody M.
    destruct i as [|[|[|[|i]]]]; [..|lia]; cbn [num Nat.add] in E |- *;
      match goal with |- context [BASE ^ ?e] => let v := eval vm_compute in (BASE ^ e) in change (BASE ^ e) with v end;
      change BASE with 65536 in E |- *; rewrite Eq, !Ne by lia;
      repeat match goal with |- context [dig r1 ?t] => rewrite (D t) by lia end; lia.
Qed.

(** The highest bit of a digit. *)
Lemma top_digit d : digit d -> (Z.land d 0x8000 =? 0) = (d / 2 ^ 15 =? 0) /\ 0 <= d / 2 ^ 15 <= 1 /\
  u16 (Z.shiftl d 1) = 2 * d - BASE * (d / 2 ^ 15).
Proof.
  unfold digit, BASE. intros H. change 0x8000 with (2 ^ 15). rewrite top_bit by (change (15 + 1) with 16; lia).
  assert (0 <= d / 2 ^ 15 <= 1) as Q by dlia. split_and!; [|lia..|].
  - apply eq_true_iff_eq. rewrite Z.ltb_lt, Z.eqb_eq. dlia.
  - unfold u16. rewrite Z.shiftl_mul_pow2 by lia. symmetry. apply Z.mod_unique with (d / 2 ^ 15); dlia.
Qed.
Lemma shl1_val a b : digit a -> digit b -> shl1 a b = 2 * a - BASE * (a / 2 ^ 15) + b / 2 ^ 15.
Proof.
  intros Ha Hb. destruct (top_digit a Ha) as (_ & Qa & Ea). destruct (top_digit b Hb) as (Eb & Qb & _).
  unfold shl1. rewrite Ea, Eb. destruct (Z.eqb_spec (b / 2 ^ 15) 0) as [->|N]; [lia|].
  replace (b / 2 ^ 15) with 1 by lia. set (q := a / 2 ^ 15) in *.
  replace (2 * a - BASE * q) with ((a - 2 ^ 15 * q) * 2 ^ 1) by (unfold BASE; lia).
  rewrite Z.lor_comm, lor_disjoint by lia. lia.
Qed.

(** The four digits [d] as two words. *)
Definition words (s x : Z) (d : nat -> Z) : flt_arith :=
  mkFlt s x (u32 (Z.shiftl (d 0%nat) 16 + d 1%nat)) (u32 (Z.shiftl (d 2%nat) 16 + d 3%nat)).
Lemma words_eq s x d : (forall i, digit (d i)) -> words s x d = of_mant s x (num d 4).
Proof.
  intros H. unfold words. rewrite !Z.shiftl_mul_pow2 by lia.
  pose proof (H 0%nat) as H0. pose proof (H 1%nat) as H1. pose proof (H 2%nat) as H2. pose proof (H 3%nat) as H3.
  unfold digit, BASE in *. rewrite !u32_small by (unfold word; lia).
  unfold of_mant. cbn [num]. unfold BASE.
  set (h := d 0%nat * 2 ^ 16 + d 1%nat). set (l := d 2%nat * 2 ^ 16 + d 3%nat).
  replace ((((0 * 2 ^ 16 + d 0%nat) * 2 ^ 16 + d 1%nat) * 2 ^ 16 + d 2%nat) * 2 ^ 16 + d 3%nat) with (l + h * 2 ^ 32) by lia.
  rewrite Z.div_add, Z.mod_add, Z.div_small, Z.mod_small by lia. f_equal.
Qed.
Lemma round_up_val s x m : 0 <= m < 2 ^ 64 -> (m + 1 = 2 ^ 64 -> -32768 <= x < 32767) ->
  round_up (of_mant s x m) = if m + 1 =? 2 ^ 64 then of_mant s (x + 1) (2 ^ 63) else of_mant s x (m + 1).
Proof.
  intros Hm Hx. destruct (split_mok m Hm) as [[K1 K2] V]. unfold word, mval in *. cbn [fst snd] in *.
  assert (forall h l, word h -> word l -> h * 2 ^ 32 + l = m + 1 -> mkFlt s x h l = of_mant s x (m + 1)) as S.
  { unfold word. intros h l Hh Hl <-. unfold of_mant. rewrite Z.add_comm, Z.div_add, Z.mod_add, Z.div_small, Z.mod_small by lia. f_equal. }
  unfold round_up, u32. cbn [m1 m2 flt_sign flt_exp of_mant].
  set (h := m / 2 ^ 32) in *. set (l := m mod 2 ^ 32) in *.
  destruct (Z.eqb_spec l (2 ^ 32 - 1)) as [El|Nl].
  - rewrite El. change ((2 ^ 32 - 1 + 1) mod 2 ^ 32) with 0. cbn [Z.eqb].
    destruct (Z.eqb_spec h (2 ^ 32 - 1)) as [Eh|Nh].
    + rewrite Eh. change ((2 ^ 32 - 1 + 1) mod 2 ^ 32) with 0. cbn [Z.eqb].
      replace (m + 1 =? 2 ^ 64) with true by lia. by rewrite s16_small by lia.
    + rewrite Z.mod_small by lia. replace (h + 1 =? 0) with false by lia. replace (m + 1 =? 2 ^ 64) with false by lia.
      apply S; unfold word; lia.
  - rewrite Z.mod_small by lia. replace (l + 1 =? 0) with false by lia. replace (m + 1 =? 2 ^ 64) with false by lia.
    apply S; unfold word; lia.
Qed.

(** The digits of a product, its highest bit first. *)
Lemma product_digits r p c :
  length r = 8%nat -> digits_ok r -> num (dig r) 8 = p -> p < 2 ^ 128 ->
  c = (if Z.land (nth 0 r 0) 0x8000 =? 0 then 1 else 0) ->
  let r' := if Z.land (nth 0 r 0) 0x8000 =? 0 then shift_result r else r in
  (c = 0 -> 2 ^ 127 <= p) /\ (c = 1 -> p < 2 ^ 127) /\
  digits_ok r' /\ num (dig r') 4 = p * 2 ^ c / 2 ^ 64 /\
  (Z.land (nth 4 r' 0) 0x8000 =? 0) = ((p * 2 ^ c) mod 2 ^ 64 <? 2 ^ 63).
Proof.
  intros L R E Hp Ec. fold (dig r 0) in *.
  destruct (top_digit _ (R 0%nat)) as (B0 & Q0 & S0).
  assert (num (dig r) 8 = num (dig r) 4 * 2 ^ 64 + num (fun t => dig r (4 + t)) 4) as E8.
  { cbn [num Nat.add]. unfold BASE. lia. }
  pose proof (num_range (dig r) 4 R) as N4. pose proof (num_range (fun t => dig r (4 + t)) 4 ltac:(intros; apply R)) as N8.
  change (BASE ^ Z.of_nat 4) with (2 ^ 64) in *.
  pose proof (R 0%nat) as D0. pose proof (R 1%nat) as D1. pose proof (R 2%nat) as D2. pose proof (R 3%nat) as D3. pose proof (R 4%nat) as D4.
  assert (dig r 4 * 2 ^ 48 <= num (fun t => dig r (4 + t)) 4 < (dig r 4 + 1) * 2 ^ 48) as Ns.
  { pose proof (num_range (fun t => dig r (5 + t)) 3 ltac:(intros; apply R)) as N5.
    change (BASE ^ Z.of_nat 3) with (2 ^ 48) in N5. cbn [num Nat.add] in N5 |- *. unfold BASE in *. lia. }
  rewrite B0 in Ec |- *. destruct (Z.eqb_spec (dig r 0 / 2 ^ 15) 0) as [E0|N0]; subst c; cbn zeta.
  - destruct (top_digit _ D4) as (B4 & Q4 & S4).
    assert (dig (shift_result r) 4 = 2 * dig r 4 - BASE * (dig r 4 / 2 ^ 15)) as E4 by exact S4.
    assert (digits_ok (shift_result r)) as Ds.
    { intros i. unfold shift_result. fold (dig r 0) (dig r 1) (dig r 2) (dig r 3) (dig r 4).
      assert (forall a b, digit a -> digit b -> digit (shl1 a b)) as Sd.
      { intros a b Ha Hb. rewrite shl1_val by done. unfold digit, BASE in *. dlia. }
      destruct i as [|[|[|[|[|[|[|[|i]]]]]]]]; cbn [dig nth]; auto; try apply R; [apply mod_digit|].
      unfold dig. cbn [nth]. by destruct i. }
    assert (num (dig (shift_result r)) 4 = 2 * num (dig r) 4 + dig r 4 / 2 ^ 15) as E4'.
    { cbn [num]. unfold shift_result. cbn [dig nth]. fold (dig r 0) (dig r 1) (dig r 2) (dig r 3) (dig r 4).
      rewrite !shl1_val by done. rewrite E0. unfold BASE. ring. }
    destruct (top_digit _ (Ds 4%nat)) as (Bs & Qs & _). change (nth 4 (shift_result r) 0) with (dig (shift_result r) 4). rewrite Bs, E4, E4'.
    assert (dig r 0 < 2 ^ 15) by (unfold digit, BASE in *; dlia).
    assert (num (dig r) 4 < 2 ^ 63) by (cbn [num]; unfold digit, BASE in *; lia).
    clear - E E8 N4 N8 Ns H H0 Q4 D4 Ds. set (n4 := num (dig r) 4) in *. set (n8 := num (fun t => dig r (4 + t)) 4) in *. set (d4 := dig r 4) in *.
    assert (p * 2 ^ 1 = (2 * n4 + d4 / 2 ^ 15) * 2 ^ 64 + (2 * n8 - 2 ^ 64 * (d4 / 2 ^ 15))) as -> by lia.
    assert (0 <= 2 * n8 - 2 ^ 64 * (d4 / 2 ^ 15) < 2 ^ 64) by (unfold digit, BASE in *; dlia).
    rewrite Z.div_add_l, (Z.div_small (2 * n8 - _)) by lia.
    rewrite (Z.add_comm (_ * 2 ^ 64)), Z.mod_add, Z.mod_small by lia.
    split_and!; [lia|lia|done|lia|]. apply eq_true_iff_eq. rewrite Z.ltb_lt, Z.eqb_eq. unfold digit, BASE in *. dlia.
  - fold (dig r 4). destruct (top_digit _ D4) as (B4 & Q4 & _). rewrite B4, Z.mul_1_r.
    assert (2 ^ 15 <= dig r 0) by (unfold digit, BASE in *; dlia).
    assert (2 ^ 63 <= num (dig r) 4) by (cbn [num]; unfold digit, BASE in *; lia).
    rewrite <- E, E8. clear - R N4 N8 Ns H H0 Q4 D4. set (n4 := num (dig r) 4) in *. set (n8 := num (fun t => dig r (4 + t)) 4) in *. set (d4 := dig r 4) in *.
    rewrite Z.div_add_l, (Z.div_small n8) by lia. rewrite (Z.add_comm (n4 * _)), Z.mod_add, Z.mod_small by lia.
    split_and!; [lia|lia|done|lia|]. apply eq_true_iff_eq. rewrite Z.ltb_lt, Z.eqb_eq. unfold digit, BASE in *. dlia.
Qed.

Lemma lxor_sign s1 s2 : is_sign s1 -> is_sign s2 ->
  is_sign (Z.lxor s1 s2) /\ sign_val (Z.lxor s1 s2) = sign_val s1 * sign_val s2.
Proof. unfold is_sign. intros [-> | ->] [-> | ->]; cbn; auto. Qed.

(** The mantissa and the exponent that flt_mul computes from the product [p]. *)
Lemma mul_number e1 e2 : valid e1 -> valid e2 ->
  let p := mant_val e1 * mant_val e2 in
  exists x m, flt_mul e1 e2 = number (Z.lxor (flt_sign e1) (flt_sign e2)) x m /\
    flt_exp e1 + flt_exp e2 <= x <= flt_exp e1 + flt_exp e2 + 1 /\
    (p = 0 /\ m = 0 \/ 2 ^ 63 <= m < 2 ^ 64) /\
    2 * Z.abs (m * 2 ^ (63 + (x - (flt_exp e1 + flt_exp e2))) - p) <= 2 ^ (63 + (x - (flt_exp e1 + flt_exp e2))) /\
    (forall m0, p = m0 * 2 ^ 63 -> 2 ^ 63 <= m0 < 2 ^ 64 -> x = flt_exp e1 + flt_exp e2 /\ m = m0).
Proof.
  intros ([K1 S1] & M1 & R1) ([K2 S2] & M2 & R2) p. unfold EXT_MIN, EXT_MAX in *.
  pose proof (mant_range e1 K1) as B1. pose proof (mant_range e2 K2) as B2.
  destruct (split_digits e1 K1) as (D1 & N1 & _). destruct (split_digits e2 K2) as (D2 & N2 & _).
  destruct (mul_rows_num _ _ D1 D2 4 [0; 0; 0; 0; 0; 0; 0; 0]) as (L & R & E); [lia|done| | |].
  { intros i. do 8 (destruct i as [|i]; [by split|]). destruct i; by split. }
  { intros i Hi. do 4 (destruct i as [|i]; [done|]). lia. }
  rewrite N1, N2 in E. change (num (dig [0; 0; 0; 0; 0; 0; 0; 0]) 8) with 0 in E. rewrite Z.add_0_l, Z.mul_1_r in E. fold p in E.
  unfold flt_mul. set (r := mul_rows _ _ _ _) in *. set (sg := Z.lxor _ _).
  assert (0 <= p <= (2 ^ 64 - 1) * (2 ^ 64 - 1)) as Bp by (unfold p; nia).
  destruct (product_digits r p _ L R E ltac:(lia) eq_refl) as (C0 & C1 & D & Nm & Rb). cbn zeta in *.
  rewrite (s16_small (flt_exp e1 + flt_exp e2 + 1)) by lia. set (xs := flt_exp e1 + flt_exp e2) in *.
  assert (exists c, (c = 0 \/ c = 1) /\ (c = 0 -> 2 ^ 127 <= p) /\ (c = 1 -> p < 2 ^ 127) /\
    let q := if Z.land (nth 0 r 0) 0x8000 =? 0 then (s16 (xs + 1 - 1), shift_result r) else (xs + 1, r) in
    q.1 = xs + 1 - c /\ digits_ok q.2 /\ num (dig q.2) 4 = p * 2 ^ c / 2 ^ 64 /\
    (Z.land (nth 4 q.2 0) 0x8000 =? 0) = ((p * 2 ^ c) mod 2 ^ 64 <? 2 ^ 63)) as (c & Hc & C0' & C1' & Hq).
  { destruct (Z.land (nth 0 r 0) 0x8000 =? 0); [exists 1 | exists 0]; cbn zeta; (split; [lia|]); (split; [done|]); (split; [done|]); (split; [|done]); [|cbn; lia].
    rewrite s16_small by lia. cbn. lia. }
  cbn zeta in Hq. clear C0 C1 D Nm Rb. set (q := if _ : bool then _ else _) in *. destruct Hq as (Ex & D & Nm & Rb). clearbody q.
  fold (words sg q.1 (fun i => nth i q.2 0)). change (fun i => nth i q.2 0) with (dig q.2). rewrite words_eq by done.
  rewrite Rb, Ex, Nm. set (w := p * 2 ^ c) in *.
  assert (0 <= w < 2 ^ 128) as Bw by (unfold w; destruct Hc as [-> | ->]; [|specialize (C1' eq_refl)]; change (2 ^ 0) with 1; change (2 ^ 1) with 2; lia).
  pose proof (Z.div_mod w (2 ^ 64) ltac:(lia)) as Dw. pose proof (Z.mod_pos_bound w (2 ^ 64) ltac:(lia)) as Mw.
  set (h := w / 2 ^ 64) in *. set (l := w mod 2 ^ 64) in *.
  assert (0 <= h < 2 ^ 64) as Bh by lia.
  assert (p = 0 \/ 2 ^ 63 <= h) as Bn.
  { destruct (Z.eqb_spec p 0) as [?|N]; [by left|right].
    assert (2 ^ 126 <= p) by (unfold p in *; nia).
    assert (2 ^ 127 <= w); [|lia]. unfold w. destruct Hc as [-> | ->]; [specialize (C0' eq_refl)|]; change (2 ^ 0) with 1; change (2 ^ 1) with 2; lia. }
  assert (p = 0 -> h = 0 /\ l = 0) as Zp by (intros Z0; unfold w in *; rewrite Z0 in *; lia).
  assert (w = p * 2 ^ c) as Ew by done. clearbody w h l p.
  assert (forall x m, x = xs + 1 - c -> 2 * Z.abs (m * 2 ^ 64 - w) <= 2 ^ 64 ->
    2 * Z.abs (m * 2 ^ (63 + (x - xs)) - p) <= 2 ^ (63 + (x - xs))) as F.
  { intros x m -> H. rewrite Ew in H. destruct Hc as [-> | ->].
    - change (2 ^ 0) with 1 in H. replace (63 + (xs + 1 - 0 - xs)) with 64 by lia. lia.
    - change (2 ^ 1) with 2 in H. replace (63 + (xs + 1 - 1 - xs)) with 63 by lia. lia. }
  assert (forall m0, p = m0 * 2 ^ 63 -> 2 ^ 63 <= m0 < 2 ^ 64 -> c = 1 /\ h = m0 /\ l = 0) as X.
  { intros m0 E0 B0. assert (c = 1) as -> by (destruct Hc as [-> | ->]; [specialize (C0' eq_refl); lia|done]).
    change (2 ^ 1) with 2 in Ew. lia. }
  destruct (Z.ltb_spec l (2 ^ 63)) as [Ll|Ll].
  - exists (xs + 1 - c), h. rewrite chk_number by lia. split; [done|]. split; [lia|]. split; [destruct Bn; [left|right]; lia|].
    split; [apply F; [done|lia]|]. intros m0 E0 B0. destruct (X m0 E0 B0) as (-> & -> & _). lia.
  - assert (h + 1 = 2 ^ 64 -> c = 1) as C1.
    { intros Eh. destruct Hc as [-> | ->]; [exfalso|done]. change (2 ^ 0) with 1 in Ew. lia. }
    rewrite round_up_val by lia. destruct (Z.eqb_spec (h + 1) (2 ^ 64)) as [Eh|Nh].
    + rewrite (C1 Eh) in *.
      exists (xs + 1 - 1 + 1), (2 ^ 63). rewrite chk_number by lia. split; [done|]. split; [lia|]. split; [right; lia|].
      change (2 ^ 1) with 2 in Ew. replace (63 + (xs + 1 - 1 + 1 - xs)) with 64 by lia. split; [lia|].
      intros m0 E0 B0. destruct (X m0 E0 B0) as (_ & _ & ->). lia.
    + exists (xs + 1 - c), (h + 1). rewrite chk_number by lia. split; [done|]. split; [lia|]. split; [destruct Bn; [lia|right; lia]|].
      split; [apply F; [done|lia]|]. intros m0 E0 B0. destruct (X m0 E0 B0) as (_ & _ & ->). lia.
Qed.

(** ** Division *)

(** The digits from [j] on. *)
Definition win (l : list Z) (j n : nat) : Z := num (fun t => dig l (j + t)) n.

Lemma land_high x : word x -> (Z.land x 0xFFFF0000 =? 0) = (x <? BASE).
Proof.
  unfold word, BASE. intros H.
  assert (Z.land x 0xFFFF0000 = x / 2 ^ 16 * 2 ^ 16) as ->.
  { apply Z.bits_inj'. intros i Hi. rewrite <- Z.shiftl_mul_pow2, <- Z.shiftr_div_pow2 by lia.
    rewrite Z.land_spec, Z.shiftl_spec by lia.
    change 0xFFFF0000 with (Z.shiftl (Z.ones 16) 16). rewrite Z.shiftl_spec by lia.
    destruct (Z.ltb_spec i 16); [rewrite !(Z.testbit_neg_r _ (i - 16)) by lia; apply andb_false_r|].
    rewrite Z.shiftr_spec by lia. replace (i - 16 + 16) with i by lia.
    destruct (Z.ltb_spec (i - 16) 16); [rewrite Z.ones_spec_low by lia; apply andb_true_r|].
    rewrite Z.ones_spec_high by lia. rewrite andb_false_r. symmetry. apply Z.testbit_false; [done|].
    rewrite Z.div_small; [done|]. split; [lia|]. apply Z.lt_le_trans with (2 ^ 32); [lia|]. apply Z.pow_le_mono_r; lia. }
  apply eq_true_iff_eq. rewrite Z.eqb_eq, Z.ltb_lt. dlia.
Qed.

Lemma u16_digit x : digit (u16 x).
Proof. apply mod_digit. Qed.
Lemma u16_sub d md : digit d -> digit md -> u16 (d - md) = d - md + BASE * (if d <? md then 1 else 0).
Proof.
  unfold digit, u16, BASE. intros Hd Hm. symmetry. destruct (Z.ltb_spec d md); [apply Z.mod_unique with (-1) | rewrite Z.mod_small]; lia.
Qed.
#[export] Hint Resolve u16_digit : core.

(** The rows of the division: [q] times the divisor is subtracted, and the divisor added. *)
Lemma sub_row_num q v j : digit q -> digits_ok v -> forall i u k b,
  (j + i < length u)%nat -> digits_ok u -> digit k -> 0 <= b <= 1 ->
  let p := sub_row q v j i u k b in
  length p.1 = length u /\ digits_ok p.1 /\ digit p.2.1 /\ 0 <= p.2.2 <= 1 /\
  (forall t, (t <= j \/ j + i < t)%nat -> dig p.1 t = dig u t) /\
  win p.1 (j + 1) i - (p.2.1 + p.2.2) * BASE ^ Z.of_nat i = win u (j + 1) i - q * win v 1 i - k - b.
Proof.
  intros Hq Hv. induction i as [|i IH]; intros u k b L U K B; cbn [sub_row].
  { split_and!; first [done | lia | intros; done | unfold win; cbn; lia]. }
  fold (dig v (S i)) (dig u (j + S i)). set (vi := dig v (S i)). set (d := dig u (j + S i)).
  pose proof (Hv (S i)) as Dv. pose proof (U (j + S i)%nat) as Du. fold vi in Dv. fold d in Du.
  rewrite u32_small by (unfold word, digit, BASE in *; nia). set (tmp := q * vi + k + b).
  assert (tmp = q * vi + k + b) as Et by done. clearbody tmp. assert (0 <= tmp < BASE * BASE) as Bt by (rewrite Et; unfold digit, BASE in *; nia).
  rewrite !land16, Z.shiftr_div_pow2 by lia. change (2 ^ 16) with BASE.
  assert (0 <= tmp / BASE < BASE) as Bq by (split; [apply Z.div_pos | apply Z.div_lt_upper_bound]; unfold BASE in *; lia).
  rewrite (Z.mod_small (tmp / BASE)) by done.
  pose proof (Z.div_mod tmp BASE ltac:(done)) as Dm. pose proof (mod_digit tmp) as Md.
  set (md := tmp mod BASE) in *. set (nb := if d <? md then 1 else 0).
  assert (0 <= nb <= 1) as Bb by (unfold nb; destruct (d <? md); lia).
  assert (u16 (d - md) = d - md + BASE * nb) as Ew by by apply u16_sub. pose proof (u16_digit (d - md)) as Dw.
  set (w := u16 (d - md)) in *. clearbody w nb.
  destruct (IH (<[(j + S i)%nat := w]> u) (tmp / BASE) nb) as (A & A1 & A2 & A3 & A4 & E);
    [rewrite length_insert; lia|auto|done|done|].
  rewrite length_insert in A. split_and!; try done; try lia.
  { intros t Ht. rewrite A4 by lia. apply dig_insert_ne. lia. }
  unfold win in *. cbn [num].
  rewrite (num_ext (fun t => dig (<[_ := _]> u) _) (fun t => dig u (j + 1 + t))) in E by (intros; apply dig_insert_ne; lia).
  replace (j + 1 + i)%nat with (j + S i)%nat by lia. rewrite A4, dig_insert_eq by lia.
  fold d. change (1 + i)%nat with (S i). fold vi.
  rewrite Nat2Z.inj_succ, Z.pow_succ_r by lia.
  set (N1 := num (fun t => dig u (j + 1 + t)) i) in *. set (N2 := num (fun t => dig v (1 + t)) i) in *. set (N3 := num _ i) in *.
  rewrite Et in Dm at 1. clearbody md N1 N2 N3. apply (f_equal (Z.mul BASE)) in E. lia.
Qed.
Lemma add_row_num v j : digits_ok v -> forall i u b,
  (j + i < length u)%nat -> digits_ok u -> 0 <= b <= 1 ->
  let p := add_row v j i u b in
  length p.1 = length u /\ digits_ok p.1 /\ 0 <= p.2 <= 1 /\
  (forall t, (t <= j \/ j + i < t)%nat -> dig p.1 t = dig u t) /\
  win p.1 (j + 1) i + p.2 * BASE ^ Z.of_nat i = win u (j + 1) i + win v 1 i + b.
Proof.
  intros Hv. induction i as [|i IH]; intros u b L U B; cbn [add_row].
  { split_and!; first [done | lia | intros; done | unfold win; cbn; lia]. }
  fold (dig v (S i)) (dig u (j + S i)). set (vi := dig v (S i)). set (d := dig u (j + S i)).
  pose proof (Hv (S i)) as Dv. pose proof (U (j + S i)%nat) as Du. fold vi in Dv. fold d in Du.
  rewrite u32_small by (unfold word, digit, BASE in *; lia). set (tmp := vi + d + b).
  assert (tmp = vi + d + b) as Et by done. clearbody tmp. assert (0 <= tmp < 2 * BASE) as Bt by (rewrite Et; unfold digit, BASE in *; lia).
  rewrite !land16, Z.shiftr_div_pow2 by lia. change (2 ^ 16) with BASE.
  assert (0 <= tmp / BASE <= 1) as Bq by (unfold BASE in *; dlia).
  rewrite (Z.mod_small (tmp / BASE)) by (unfold BASE in *; lia).
  pose proof (Z.div_mod tmp BASE ltac:(done)) as Dm. pose proof (mod_digit tmp) as Md.
  destruct (IH (<[(j + S i)%nat := tmp mod BASE]> u) (tmp / BASE)) as (A & A1 & A3 & A4 & E);
    [rewrite length_insert; lia|auto|done|].
  rewrite length_insert in A. split_and!; try done; try lia.
  { intros t Ht. rewrite A4 by lia. apply dig_insert_ne. lia. }
  unfold win in *. cbn [num].
  rewrite (num_ext (fun t => dig (<[_ := _]> u) _) (fun t => dig u (j + 1 + t))) in E by (intros; apply dig_insert_ne; lia).
  replace (j + 1 + i)%nat with (j + S i)%nat by lia. rewrite A4, dig_insert_eq by lia. fold d. change (1 + i)%nat with (S i). fold vi.
  rewrite Nat2Z.inj_succ, Z.pow_succ_r by lia.
  set (N1 := num (fun t => dig u (j + 1 + t)) i) in *. set (N2 := num (fun t => dig v (1 + t)) i) in *. set (N3 := num _ i) in *.
  rewrite Et in Dm at 1. set (md := tmp mod BASE) in *. clearbody md N1 N2 N3.
  apply (f_equal (Z.mul BASE)) in E. lia.
Qed.

(** The estimate of a digit of the quotient is the quotient of the leading digits, if
    that is a digit. *)
Definition best (v12 u012 q : Z) : Prop := q * v12 <= u012 /\ (q = BASE - 1 \/ u012 < (q + 1) * v12).

Lemma est_loop_best v1 v2 u2 u01 : digit v1 -> digit v2 -> digit u2 -> forall turns q temp,
  Z.of_nat turns = q -> q < BASE -> temp = u01 - q * v1 -> 0 <= temp < 2 * BASE ->
  (q = BASE - 1 \/ u01 * BASE + u2 < (q + 1) * (v1 * BASE + v2)) ->
  let q' := est_loop turns v1 v2 u2 q temp in
  0 <= q' < BASE /\ best (v1 * BASE + v2) (u01 * BASE + u2) q'.
Proof.
  intros H1 H2 H3. induction turns as [|turns IH]; intros q temp Hq Hb Ht Hr Hs; cbn [est_loop].
  { split; [unfold BASE; lia|]. split; [|done]. unfold digit, BASE in *. nia. }
  rewrite land_high by (unfold word, BASE in *; lia). rewrite Z.shiftl_mul_pow2 by lia. change (2 ^ 16) with BASE.
  assert (u32 (v2 * q) = v2 * q) as -> by (apply u32_small; unfold word, digit, BASE in *; nia).
  destruct (Z.ltb_spec temp BASE) as [L|L]; cbn [andb].
  2:{ split; [unfold BASE in *; lia|]. split; [|done]. unfold digit, BASE in *. nia. }
  rewrite (u32_small (temp * BASE)) by (unfold word, digit, BASE in *; lia).
  rewrite (u32_small (temp * BASE + u2)) by (unfold word, digit, BASE in *; lia).
  destruct (Z.ltb_spec (temp * BASE + u2) (v2 * q)) as [C|C].
  2:{ split; [unfold BASE in *; lia|]. split; [|done]. subst temp. lia. }
  rewrite !u32_small by (unfold word, digit, BASE in *; lia).
  apply IH; [lia|lia|lia|unfold digit, BASE in *; lia|]. right. subst temp. lia.
Qed.
Lemma estimate_best v1 v2 u0 u1 u2 :
  2 ^ 15 <= v1 < BASE -> digit v2 -> 0 <= u0 <= v1 -> digit u1 -> digit u2 ->
  let q := estimate v1 v2 u0 u1 u2 in
  0 <= q < BASE /\ best (v1 * BASE + v2) ((u0 * BASE + u1) * BASE + u2) q.
Proof.
  intros H1 H2 H3 H4 H5. unfold estimate. rewrite Z.shiftl_mul_pow2 by lia. change (2 ^ 16) with BASE.
  replace (v1 =? 1) with false by lia.
  rewrite (u32_small (u0 * BASE + u1)) by (unfold word, digit, BASE in *; nia).
  set (u01 := u0 * BASE + u1). replace 0xFFFF with (BASE - 1) by done.
  destruct (Z.leb_spec v1 u0) as [L|L].
  - rewrite u32_small by (unfold word, u01, digit, BASE in *; nia).
    apply est_loop_best; [unfold digit, BASE in *; lia|done|done|rewrite Z2Nat.id; unfold BASE; lia|lia|done|unfold u01, digit, BASE in *; lia|by left].
  - pose proof (Z.div_mod u01 v1 ltac:(lia)) as D. pose proof (Z.mod_pos_bound u01 v1 ltac:(lia)) as M.
    assert (0 <= u01 / v1 < BASE) as Q.
    { split; [apply Z.div_pos; unfold u01, digit, BASE in *; lia|]. apply Z.div_lt_upper_bound; [lia|]. unfold u01, digit, BASE in *. nia. }
    rewrite u32_small by (unfold word, BASE in *; lia).
    apply est_loop_best; [unfold digit, BASE in *; lia|done|done|lia|lia|done|unfold BASE in *; lia|].
    right. set (q := u01 / v1) in *. assert (u01 + 1 <= (q + 1) * v1) by lia. unfold digit, BASE in *. nia.
Qed.

(** Digits of the divisor at the end that are 0 change nothing. *)
Lemma last_digit_zeros v n : let k := last_digit v n in (k <= n)%nat /\ forall t, (k < t <= n)%nat -> dig v t = 0.
Proof.
  induction n as [|n IH]; cbn [last_digit]; [split; lia|]. fold (dig v (S n)).
  destruct (Z.eqb_spec (dig v (S n)) 0) as [E|N]; [|split; lia]. destruct IH as [A B]. split; [lia|].
  intros t Ht. destruct (decide (t = S n)) as [->|]; [done|]. apply B. lia.
Qed.
Lemma insert_same l i : <[i := dig l i]> l = l.
Proof.
  destruct (decide (i < length l)%nat) as [L|L]; [|by rewrite dig_insert_out by lia].
  apply list_insert_id. unfold dig. rewrite nth_lookup. destruct (lookup_lt_is_Some_2 l i L) as [x E]. by rewrite E.
Qed.
Lemma sub_row_zeros q v j k n u : digits_ok u -> (k <= n)%nat -> (forall t, (k < t <= n)%nat -> dig v t = 0) ->
  sub_row q v j n u 0 0 = sub_row q v j k u 0 0.
Proof.
  intros U. induction n as [|n IH]; intros L Z0; [by replace k with 0%nat by lia|].
  destruct (decide (k = S n)) as [->|N]; [done|]. cbn [sub_row]. fold (dig v (S n)) (dig u (j + S n)).
  rewrite Z0 by lia. rewrite Z.mul_0_r. change (u32 (0 + 0 + 0)) with 0. change (Z.land 0 0xFFFF) with 0.
  change (Z.land (Z.shiftr 0 16) 0xFFFF) with 0. pose proof (U (j + S n)%nat) as Du.
  rewrite Z.sub_0_r. unfold u16. rewrite Z.mod_small by done. rewrite insert_same.
  replace (dig u (j + S n) <? 0) with false by (unfold digit in *; lia). apply IH; [lia|]. intros. apply Z0. lia.
Qed.
Lemma add_row_zeros v j k n u : digits_ok u -> (k <= n)%nat -> (forall t, (k < t <= n)%nat -> dig v t = 0) ->
  add_row v j n u 0 = add_row v j k u 0.
Proof.
  intros U. induction n as [|n IH]; intros L Z0; [by replace k with 0%nat by lia|].
  destruct (decide (k = S n)) as [->|N]; [done|]. cbn [add_row]. fold (dig v (S n)) (dig u (j + S n)).
  pose proof (U (j + S n)%nat) as Du. unfold digit, BASE in Du.
  rewrite Z0 by lia. rewrite Z.add_0_l, Z.add_0_r, u32_small by (unfold word; lia).
  rewrite !land16, Z.mod_small by done. rewrite insert_same, Z.shiftr_div_pow2, Z.div_small by lia. apply IH; [lia|]. intros. apply Z0. lia.
Qed.

Lemma win_range l j n : digits_ok l -> 0 <= win l j n < BASE ^ Z.of_nat n.
Proof. intros H. apply num_range. intros. apply H. Qed.
Lemma win5 l j : win l j 5 = dig l j * BASE ^ 4 + win l (j + 1) 4 /\ win l j 5 = win l j 4 * BASE + dig l (j + 4) /\
  win l j 5 = ((dig l j * BASE + dig l (j + 1)) * BASE + dig l (j + 2)) * BASE ^ 2 + win l (j + 3) 2.
Proof.
  unfold win. cbn [num]. rewrite !Nat.add_0_r. replace (j + 1 + 1)%nat with (j + 2)%nat by lia.
  replace (j + 1 + 2)%nat with (j + 3)%nat by lia. replace (j + 3 + 1)%nat with (j + 4)%nat by lia. replace (j + 1 + 3)%nat with (j + 4)%nat by lia.
  split_and!; ring.
Qed.
Lemma win4 l j : win l j 4 = (dig l j * BASE + dig l (j + 1)) * BASE ^ 2 + win l (j + 2) 2 /\ win l j 4 = dig l j * BASE ^ 3 + win l (j + 1) 3.
Proof.
  unfold win. cbn [num]. rewrite !Nat.add_0_r. replace (j + 1 + 1)%nat with (j + 2)%nat by lia.
  replace (j + 1 + 2)%nat with (j + 3)%nat by lia. replace (j + 2 + 1)%nat with (j + 3)%nat by lia. split; ring.
Qed.

(** The estimate is the digit of the quotient, or one more. *)
Lemma best_digit v u0 u1 u2 r vs V T q :
  V = v * BASE ^ 2 + vs -> T = ((u0 * BASE + u1) * BASE + u2) * BASE ^ 2 + r ->
  0 <= vs < BASE ^ 2 -> 0 <= r < BASE ^ 2 -> BASE ^ 3 <= V -> T < BASE * V -> 0 <= q < BASE ->
  best v ((u0 * BASE + u1) * BASE + u2) q -> - V < T - q * V < V.
Proof.
  set (u012 := (u0 * BASE + u1) * BASE + u2). intros EV ET Hs Hr HV HT Hq [B1 B2].
  assert (BASE ^ 3 = BASE * BASE ^ 2) as E3 by done. set (P := BASE ^ 2) in *. assert (0 < P) by done.
  split.
  - assert (q * vs <= BASE * P) by nia. assert (q * V = q * v * P + q * vs) by (rewrite EV; ring).
    assert (q * v * P <= u012 * P) by nia. destruct (Z.eqb_spec q 0) as [->|]; [lia|]. assert (q * vs < BASE * P) by nia. lia.
  - destruct B2 as [->|B2]; [lia|]. assert ((u012 + 1) * P <= (q + 1) * v * P) by nia. nia.
Qed.

(** [lia] with the powers of the base as numbers. *)
Ltac blia :=
  change (BASE ^ 2) with 0x100000000 in *; change (BASE ^ 3) with 0x1000000000000 in *;
  change (BASE ^ 4) with 0x10000000000000000 in *; change BASE with 65536 in *; lia.

(** One digit of the quotient: with the remainder, the digits of the dividend from [j]
    on, below the divisor, the next remainder is from [j + 1] on. *)
Lemma div_digit_spec v maxv j u :
  digits_ok v -> 2 ^ 15 <= dig v 1 -> (maxv <= 4)%nat -> (forall t, (maxv < t <= 4)%nat -> dig v t = 0) ->
  digits_ok u -> length u = 8%nat -> (j <= 3)%nat -> win u j 4 < win v 1 4 ->
  let p := div_digit v maxv j u in
  digit p.1 /\ digits_ok p.2 /\ length p.2 = 8%nat /\ (forall t, (j + 4 < t)%nat -> dig p.2 t = dig u t) /\
  win u j 5 = p.1 * win v 1 4 + win p.2 (j + 1) 4 /\ win p.2 (j + 1) 4 < win v 1 4.
Proof.
  intros Dv Hv Hm Hz Du Lu Hj Hr. unfold div_digit.
  fold (dig v 1) (dig v 2) (dig u (j + 0)) (dig u (j + 1)) (dig u (j + 2)). rewrite Nat.add_0_r.
  destruct (win5 u j) as (W1 & W2 & W3). destruct (win4 v 1) as (V1 & V2). destruct (win4 u j) as (_ & W4).
  destruct (win4 u (j + 1)) as (_ & W5).
  pose proof (win_range u (j + 1) 4 Du) as RW. pose proof (win_range u (j + 3) 2 Du) as R2. pose proof (win_range v (1 + 2) 2 Dv) as R3.
  pose proof (win_range v (1 + 1) 3 Dv) as R4. pose proof (win_range u (j + 1) 3 Du) as R5. pose proof (win_range u (j + 1 + 1) 3 Du) as R6. pose proof (win_range v 1 4 Dv) as RV.
  pose proof (Du j) as D0. pose proof (Du (j + 1)%nat) as D1. pose proof (Du (j + 2)%nat) as D2. pose proof (Du (j + 4)%nat) as D4.
  pose proof (Dv 1%nat) as E1. pose proof (Dv 2%nat) as E2. change (1 + 1)%nat with 2%nat in *.
  change (Z.of_nat 4) with 4 in *. change (Z.of_nat 3) with 3 in *. change (Z.of_nat 2) with 2 in *.
  assert (BASE ^ 3 <= win v 1 4) as HV by (unfold digit in *; blia).
  assert (win u j 5 < BASE * win v 1 4) as HT by (unfold digit in *; blia).
  destruct ((dig u j =? 0) && (dig u (j + 1) <? dig v 1)) eqn:Es; cbn zeta.
  { apply andb_true_iff in Es as [U0%Z.eqb_eq U1%Z.ltb_lt]. cbn [fst snd].
    split_and!; [unfold digit; blia|done|done|done|rewrite W1, U0; lia|unfold digit in *; blia]. }
  assert (dig u j <= dig v 1) as Lq by (unfold digit in *; blia).
  destruct (estimate_best (dig v 1) (dig v 2) (dig u j) (dig u (j + 1)) (dig u (j + 2))) as [Rq Bq];
    [unfold digit in *; lia|done|unfold digit in *; lia|done|done|].
  set (q := estimate _ _ _ _ _) in *.
  pose proof (best_digit _ _ _ _ _ _ _ _ q V1 W3 R3 R2 HV HT Rq Bq) as Bd.
  destruct (Z.eqb_spec q 0) as [Q0|Q0]; cbn [fst snd].
  { rewrite Q0 in *. assert (dig u j = 0) as U0 by (unfold digit in *; blia).
    split_and!; [unfold digit; blia|done|done|done|rewrite W1, U0; lia|lia]. }
  rewrite <- (sub_row_zeros q v j maxv 4 u Du Hm Hz).
  destruct (sub_row_num q v j Rq Dv 4 u 0 0) as (A & A1 & A2 & A3 & A4 & A5); [lia|done|done|lia|].
  destruct (sub_row q v j 4 u 0 0) as [u1 [k b]]. cbn [fst snd] in *. fold (dig u1 j).
  rewrite A4 by lia. change (BASE ^ Z.of_nat 4) with (BASE ^ 4) in *. rewrite (u32_small (k + b)) by (unfold word, digit in *; blia).
  pose proof (win_range u1 (j + 1) 4 A1) as R1. change (Z.of_nat 4) with 4 in *.
  assert (win u j 5 - q * win v 1 4 = (dig u j - (k + b)) * BASE ^ 4 + win u1 (j + 1) 4) as Dq by lia.
  assert (forall l x, length l = 8%nat -> win (<[j := x]> l) (j + 1) 4 = win l (j + 1) 4) as Wi.
  { intros l x _. apply num_ext. intros. apply dig_insert_ne. lia. }
  destruct (Z.ltb_spec (dig u j) (k + b)) as [L|L].
  - set (u2 := <[j := _]> u1). assert (digits_ok u2) as D2' by (unfold u2; auto).
    assert (length u2 = 8%nat) as L2 by (unfold u2; rewrite length_insert; lia).
    rewrite <- (add_row_zeros v j maxv 4 u2 D2' Hm Hz).
    destruct (add_row_num v j Dv 4 u2 0) as (B & B1 & B3 & B4 & B5); [lia|done|lia|].
    destruct (add_row v j 4 u2 0) as [u3 b3]. cbn [fst snd] in *.
    unfold u2 in B5 at 1. rewrite Wi in B5 by lia. change (BASE ^ Z.of_nat 4) with (BASE ^ 4) in *.
    pose proof (win_range u3 (j + 1) 4 B1) as R3'. change (Z.of_nat 4) with 4 in *.
    assert (dig u j - (k + b) + b3 = 0) as Zb by (blia).
    rewrite u32_small by (unfold word, digit in *; blia).
    split_and!; [unfold digit in *; blia..|auto|rewrite length_insert; lia| | |].
    + intros t Ht. rewrite dig_insert_ne, B4 by lia. unfold u2. rewrite dig_insert_ne, A4 by lia. done.
    + rewrite Wi by lia. blia.
    + rewrite Wi by lia. blia.
  - assert (dig u j - (k + b) = 0) as Zb by (blia).
    cbn [fst snd]. split_and!; [unfold digit in *; blia..|auto|rewrite length_insert; lia| | |].
    + intros t Ht. rewrite dig_insert_ne, A4 by lia. done.
    + rewrite Wi by lia. lia.
    + rewrite Wi by lia. lia.
Qed.

Lemma lor_digits a b : digit a -> digit b -> Z.lor (Z.lor 0 (u32 (Z.shiftl a 16))) b = a * BASE + b.
Proof.
  unfold digit, BASE. intros Ha Hb. rewrite Z.lor_0_l, Z.shiftl_mul_pow2, u32_small by (unfold word; lia).
  rewrite Z.lor_comm, lor_disjoint by lia. lia.
Qed.
Lemma div_loop_quotient v maxv u :
  digits_ok v -> 2 ^ 15 <= dig v 1 -> (maxv <= 4)%nat -> (forall t, (maxv < t <= 4)%nat -> dig v t = 0) ->
  digits_ok u -> length u = 8%nat -> win u 0 4 < win v 1 4 ->
  let r := div_loop 4 v maxv 0 u (0, 0) in
  mok r /\ mval r = num (dig u) 8 / win v 1 4.
Proof.
  intros Dv Hv Hm Hz D0 L0 R0. cbn [div_loop Nat.odd Nat.even negb Nat.ltb Nat.leb fst snd].
  set (V := win v 1 4) in *.
  destruct (div_digit_spec v maxv 0 u Dv Hv Hm Hz D0 L0 ltac:(lia) R0) as (Q0 & D1 & L1 & T1 & E1 & R1).
  destruct (div_digit v maxv 0 u) as [q0 u1]. cbn [fst snd Nat.add] in *.
  destruct (div_digit_spec v maxv 1 u1 Dv Hv Hm Hz D1 L1 ltac:(lia) R1) as (Q1 & D2 & L2 & T2 & E2 & R2).
  destruct (div_digit v maxv 1 u1) as [q1 u2]. cbn [fst snd Nat.add] in *.
  destruct (div_digit_spec v maxv 2 u2 Dv Hv Hm Hz D2 L2 ltac:(lia) R2) as (Q2 & D3 & L3 & T3 & E3 & R3).
  destruct (div_digit v maxv 2 u2) as [q2 u3]. cbn [fst snd Nat.add] in *.
  destruct (div_digit_spec v maxv 3 u3 Dv Hv Hm Hz D3 L3 ltac:(lia) R3) as (Q3 & D4 & L4 & T4 & E4 & R4).
  destruct (div_digit v maxv 3 u3) as [q3 u4]. cbn [fst snd Nat.add] in *. fold V in E1, E2, E3, E4, R4.
  rewrite !lor_digits by done.
  pose proof (T1 5%nat ltac:(lia)) as T15. pose proof (T1 6%nat ltac:(lia)) as T16. pose proof (T1 7%nat ltac:(lia)) as T17.
  pose proof (T2 6%nat ltac:(lia)) as T26. pose proof (T2 7%nat ltac:(lia)) as T27. pose proof (T3 7%nat ltac:(lia)) as T37.
  assert (num (dig u) 8 = (((q0 * BASE + q1) * BASE + q2) * BASE + q3) * V + win u4 4 4) as E.
  { destruct (win5 u1 1) as (_ & W1 & _). destruct (win5 u2 2) as (_ & W2 & _). destruct (win5 u3 3) as (_ & W3 & _). cbn [Nat.add] in *.
    assert (num (dig u) 8 = ((win u 0 5 * BASE + dig u 5) * BASE + dig u 6) * BASE + dig u 7) as -> by (unfold win; cbn [num Nat.add]; ring).
    rewrite E1, Z.mul_add_distr_r. rewrite <- T15, <- T16, <- T17. rewrite <- T26, <- T27 in *. rewrite <- T37 in *.
    transitivity (((q0 * V * BASE + win u1 1 5) * BASE + dig u2 6) * BASE + dig u3 7); [rewrite W1; lia|]. rewrite E2.
    transitivity ((((q0 * BASE + q1) * V) * BASE + win u2 2 5) * BASE + dig u3 7); [rewrite W2; lia|]. rewrite E3.
    transitivity ((((q0 * BASE + q1) * BASE + q2) * V) * BASE + win u3 3 5); [rewrite W3; lia|]. rewrite E4. ring. }
  pose proof (win_range u4 4 4 D4) as R5.
  split; [unfold mok, word, digit, BASE in *; cbn [fst snd]; lia|].
  rewrite E. unfold mval. cbn [fst snd]. rewrite Z.div_add_l, (Z.div_small (win u4 4 4)) by lia. unfold BASE. lia.
Qed.

Lemma valid_top e : valid e -> mant_val e <> 0 -> 2 ^ 15 <= dig (flt_split e) 0.
Proof.
  intros ([K S] & M & _) N. destruct (split_digits e K) as (D & E & _). cbn [num] in E.
  pose proof (D 0%nat). pose proof (D 1%nat). pose proof (D 2%nat). pose proof (D 3%nat). unfold digit, BASE in *. lia.
Qed.

(** A mantissa that is normal, or misses one bit. *)
Lemma nrm_one s x m : 2 ^ 62 <= m < 2 ^ 64 -> -32767 <= x <= 32767 ->
  exists k, 0 <= k <= 1 /\ 2 ^ 63 <= m * 2 ^ k < 2 ^ 64 /\ flt_nrm (of_mant s x m) = of_mant s (x - k) (m * 2 ^ k).
Proof.
  intros Hm Hx. destruct (split_mok m ltac:(lia)) as [[K1 K2] Hv]. unfold flt_nrm.
  rewrite is_zero_val, of_mant_val by (try apply (split_mok m); lia). replace (m =? 0) with false by lia.
  cbn [m1 of_mant]. unfold word, mval in *. cbn [fst snd] in *. replace (m / 2 ^ 32 =? 0) with false by lia.
  fold (of_mant s x m). cbn [m1 of_mant]. change 0x80000000 with (2 ^ 31). rewrite top_bit by (change (31 + 1) with 32; lia).
  destruct (Z.ltb_spec (m / 2 ^ 32) (2 ^ 31)) as [L|L].
  2:{ exists 0. rewrite Z.mul_1_r, Z.sub_0_r. split; [lia|]. split; [lia|done]. }
  assert (nrm_count 31 0x40000000 (-1) (m / 2 ^ 32) = -1) as ->.
  { cbn [nrm_count]. rewrite Z.land_comm. change 0x40000000 with (2 ^ 30). rewrite top_bit by (change (30 + 1) with 31; lia).
    by replace (m / 2 ^ 32 <? 2 ^ 30) with false by lia. }
  destruct (sft_val (m / 2 ^ 32, m mod 2 ^ 32) (-1)) as [A V]; [done|]. replace (0 <=? -1) with false in V by done.
  change (mant (of_mant s x m)) with (m / 2 ^ 32, m mod 2 ^ 32).
  unfold mval at 2 in V. cbn [fst snd] in V. rewrite Hv in V. change (- -1) with 1 in V. change (2 ^ 1) with 2 in V.
  rewrite (Z.mod_small (m * 2)) in V by lia.
  exists 1. change (2 ^ 1) with 2. split; [lia|]. split; [lia|]. rewrite set_mant_eq, V by done.
  unfold set_exp. cbn [flt_sign flt_exp of_mant]. by rewrite s16_small by lia.
Qed.
(** The quotient that flt_div computes. *)
Lemma div_number e1 e2 : valid e1 -> valid e2 -> mant_val e1 <> 0 -> mant_val e2 <> 0 ->
  let q := mant_val e1 * 2 ^ 63 / mant_val e2 in
  2 ^ 62 <= q < 2 ^ 64 /\
  exists k, 0 <= k <= 1 /\ 2 ^ 63 <= q * 2 ^ k < 2 ^ 64 /\
    flt_div e1 e2 = number (Z.lxor (flt_sign e1) (flt_sign e2)) (flt_exp e1 - flt_exp e2 - k) (q * 2 ^ k).
Proof.
  intros V1 V2 N1 N2 q. pose proof V1 as ([K1 S1] & M1 & R1). pose proof V2 as ([K2 S2] & M2 & R2). unfold EXT_MIN, EXT_MAX in *.
  pose proof (mant_range e1 K1) as B1. pose proof (mant_range e2 K2) as B2.
  assert (2 ^ 62 <= q < 2 ^ 64) as Bq.
  { split; [apply Z.div_le_lower_bound; lia|apply Z.div_lt_upper_bound; lia]. }
  split; [done|]. unfold flt_div. rewrite !is_zero_val by done.
  replace (mant_val e2 =? 0) with false by lia. replace (mant_val e1 =? 0) with false by lia. cbn zeta.
  destruct (sft_val (mant e1) 1 K1) as [Ks Vs]. replace (0 <=? 1) with true in Vs by done. fold (mant_val e1) in Vs.
  set (ms := flt_b64_sft _ _) in *. set (es := set_mant ms e1).
  assert (mant es = ms) as Es by (unfold es; destruct ms; done).
  destruct (split_digits es) as (Ds & Es4 & Ls); [by rewrite Es|]. rewrite <- Es in Vs. fold (mant_val es) in Vs.
  destruct (split_digits e2 K2) as (Dv & Ev & _).
  set (low := u16 _). assert (low = mant_val e1 mod 2 * 2 ^ 15) as El.
  { unfold low, u16. change 1 with (Z.ones 1) at 1. rewrite Z.land_ones, Z.shiftl_mul_pow2 by lia. change (2 ^ 1) with 2.
    unfold mant_val, mval, mant. cbn [fst snd]. change (2 ^ 32) with (2 ^ 31 * 2). rewrite Z.mul_assoc, Z.add_comm, Z.mod_add by lia.
    pose proof (Z.mod_pos_bound (m2 e1) 2 ltac:(lia)). rewrite Z.mod_small; lia. }
  set (u := flt_split es ++ [low; 0; 0; 0]). set (v := 0 :: flt_split e2).
  assert (0 <= mant_val e1 mod 2 < 2) as Bm by (apply Z.mod_pos_bound; lia).
  assert (digits_ok u) as Du.
  { intros i. destruct (decide (i < 4)%nat) as [L|L].
    - unfold u, dig. rewrite app_nth1 by lia. apply Ds.
    - unfold u, dig. rewrite app_nth2 by lia. rewrite Ls. destruct (i - 4)%nat as [|[|[|[|t]]]]; cbn [nth]; unfold digit, BASE; [lia..|]. destruct t; lia. }
  assert (num (dig u) 8 = mant_val e1 * 2 ^ 63) as Eu.
  { cbn [num]. cbn [num] in Es4. unfold u. unfold flt_split in *. cbn [app dig nth] in *. unfold BASE in *. rewrite El. dlia. }
  assert (win u 0 4 = mant_val es) as Eu4 by (rewrite <- Es4; done).
  assert (win v 1 4 = mant_val e2) as Ev4 by (rewrite <- Ev; done).
  assert (digits_ok v) as Dv' by (intros [|i]; [unfold dig, digit, BASE; cbn [nth v]; lia | apply Dv]).
  destruct (last_digit_zeros v 4) as [Lm Zm].
  destruct (div_loop_quotient v (last_digit v 4) u Dv' (valid_top e2 V2 N2) Lm Zm Du) as [Kr Vr].
  { unfold u. rewrite length_app, Ls. done. }
  { rewrite Eu4, Ev4, Vs. change (2 ^ 1) with 2. dlia. }
  set (r := div_loop _ _ _ _ _ _) in *. rewrite Eu, Ev4 in Vr. fold q in Vr.
  rewrite s16_small by lia.
  assert (mkFlt (Z.lxor (flt_sign e1) (flt_sign e2)) (flt_exp e1 - flt_exp e2) r.1 r.2 = of_mant (Z.lxor (flt_sign e1) (flt_sign e2)) (flt_exp e1 - flt_exp e2) q) as ->.
  { rewrite <- Vr. destruct r. by rewrite (of_mant_eq (mkFlt _ _ _ _)). }
  destruct (nrm_one (Z.lxor (flt_sign e1) (flt_sign e2)) (flt_exp e1 - flt_exp e2) q Bq ltac:(lia)) as (k & Hk & Hm & ->).
  exists k. split; [done|]. split; [done|]. by rewrite chk_number by lia.
Qed.

Lemma mean_mul s1 s2 x1 x2 a1 a2 : 0 <= x1 + UNIT -> 0 <= x2 + UNIT ->
  mean s1 x1 a1 * mean s2 x2 a2 = sign_val s1 * sign_val s2 * (a1 * a2) * 2 ^ (x1 + x2 + 2 * UNIT).
Proof.
  intros H1 H2. unfold mean. replace (x1 + x2 + 2 * UNIT) with ((x1 + UNIT) + (x2 + UNIT)) by lia.
  rewrite (Z.pow_add_r 2 (x1 + UNIT)) by done. ring.
Qed.

(** C17: flt_mul rounds the product of two numbers to the nearest number with a mantissa of
    64 bits: the mantissa is normal, or zero, and the error is half a unit in its last
    place at most.  An exponent out of range gives an overflow or an underflow. *)
Theorem product_rounded e1 e2 : valid e1 -> valid e2 ->
  exists x m, flt_mul e1 e2 = number (Z.lxor (flt_sign e1) (flt_sign e2)) x m /\
    (m = 0 \/ 2 ^ 63 <= m < 2 ^ 64) /\
    2 * Z.abs (mean (Z.lxor (flt_sign e1) (flt_sign e2)) x m * ONE - value e1 * value e2) <= 2 ^ (x + UNIT) * ONE.
Proof.
  intros V1 V2. destruct (mul_number e1 e2 V1 V2) as (x & m & E & Hx & Hm & B & _). cbn zeta in *.
  destruct V1 as ([_ S1] & _ & R1). destruct V2 as ([_ S2] & _ & R2). unfold EXT_MIN, EXT_MAX in *.
  exists x, m. split; [done|]. split; [destruct Hm as [[_ ?]|?]; [by left|by right]|].
  destruct (lxor_sign _ _ S1 S2) as [_ Es]. unfold value. rewrite mean_mul by (unfold UNIT; lia).
  unfold mean, ONE. rewrite Es. set (p := mant_val e1 * mant_val e2) in *. set (d := x - (flt_exp e1 + flt_exp e2)) in *.
  set (y := flt_exp e1 + flt_exp e2 + 2 * UNIT).
  assert (2 ^ (x + UNIT) * 2 ^ (63 + UNIT) = 2 ^ (63 + d) * 2 ^ y) as Ep.
  { rewrite <- !Z.pow_add_r by (unfold d, y, UNIT; lia). f_equal. unfold d, y. lia. }
  pose proof (Z.pow_pos_nonneg 2 y ltac:(lia) ltac:(unfold y, UNIT; lia)) as Py.
  rewrite <- !Z.mul_assoc, Ep. set (w := 2 ^ (63 + d)) in *. set (z := 2 ^ y) in *. clearbody w z.
  replace (sign_val (flt_sign e1) * (sign_val (flt_sign e2) * (m * (w * z))) - sign_val (flt_sign e1) * (sign_val (flt_sign e2) * (p * z)))
    with (sign_val (flt_sign e1) * sign_val (flt_sign e2) * ((m * w - p) * z)) by ring.
  rewrite !Z.abs_mul, (Z.abs_eq z) by lia.
  assert (Z.abs (sign_val (flt_sign e1)) = 1) as -> by (destruct (sign_val_cases (flt_sign e1)) as [-> | ->]; done).
  assert (Z.abs (sign_val (flt_sign e2)) = 1) as -> by (destruct (sign_val_cases (flt_sign e2)) as [-> | ->]; done). nia.
Qed.

(** C18: flt_div cuts the quotient of two numbers off, towards zero: what it misses is less
    than one unit in the last of 64 bits if the mantissa of the dividend is the larger
    one, and less than two otherwise.  A division by zero has a status of its own. *)
Theorem quotient_cut_off e1 e2 : valid e1 -> valid e2 ->
  (mant_val e2 = 0 -> (flt_div e1 e2).2 = FLT_DIV0) /\
  (mant_val e2 <> 0 -> mant_val e1 = 0 -> flt_div e1 e2 = (of_mant 0 0 0, FLT_OK)) /\
  (mant_val e2 <> 0 -> mant_val e1 <> 0 ->
   exists x m, flt_div e1 e2 = number (Z.lxor (flt_sign e1) (flt_sign e2)) x m /\ 2 ^ 63 <= m < 2 ^ 64 /\
     x = flt_exp e1 - flt_exp e2 - (if mant_val e1 <? mant_val e2 then 1 else 0) /\
     0 <= Z.abs (value e1) * ONE - Z.abs (mean (Z.lxor (flt_sign e1) (flt_sign e2)) x m) * Z.abs (value e2)
       < 2 ^ (flt_exp e1 - flt_exp e2 + UNIT) * Z.abs (value e2)).
Proof.
  intros V1 V2. pose proof V1 as ([K1 S1] & M1 & R1). pose proof V2 as ([K2 S2] & M2 & R2).
  unfold EXT_MIN, EXT_MAX in *. pose proof (mant_range e1 K1) as B1. pose proof (mant_range e2 K2) as B2. split_and!.
  - intros Z2. unfold flt_div. rewrite is_zero_val by done. by rewrite Z2.
  - intros N2 Z1. unfold flt_div. rewrite !is_zero_val by done. replace (mant_val e2 =? 0) with false by lia. by rewrite Z1.
  - intros N2 N1. destruct (div_number e1 e2 V1 V2 N1 N2) as (Bq & k & Hk & Hm & E).
    set (q := mant_val e1 * 2 ^ 63 / mant_val e2) in *.
    pose proof (Z.div_mod (mant_val e1 * 2 ^ 63) (mant_val e2) ltac:(lia)) as D.
    pose proof (Z.mod_pos_bound (mant_val e1 * 2 ^ 63) (mant_val e2) ltac:(lia)) as Mq. fold q in D.
    exists (flt_exp e1 - flt_exp e2 - k), (q * 2 ^ k). split; [done|]. split; [done|]. split.
    { assert (k = 0 \/ k = 1) as [-> | ->] by lia; change (2 ^ 0) with 1 in Hm; change (2 ^ 1) with 2 in Hm;
        destruct (Z.ltb_spec (mant_val e1) (mant_val e2)); try lia; exfalso; nia. }
    unfold value. rewrite !mean_abs by (unfold UNIT; lia). unfold ONE.
    set (a := mant_val e1) in *. set (b := mant_val e2) in *. set (r := (a * 2 ^ 63) mod b) in *.
    pose proof (Z.pow_pos_nonneg 2 (flt_exp e1 - flt_exp e2 + UNIT) ltac:(lia) ltac:(unfold UNIT; lia)) as P.
    pose proof (Z.pow_pos_nonneg 2 (flt_exp e2 + UNIT) ltac:(lia) ltac:(unfold UNIT; lia)) as P2.
    assert (q * 2 ^ k * 2 ^ (flt_exp e1 - flt_exp e2 - k + UNIT) = q * 2 ^ (flt_exp e1 - flt_exp e2 + UNIT)) as ->.
    { rewrite <- Z.mul_assoc, <- Z.pow_add_r by (unfold UNIT; lia). do 2 f_equal. lia. }
    assert (a * 2 ^ (flt_exp e1 + UNIT) * 2 ^ (63 + UNIT) = a * 2 ^ 63 * (2 ^ (flt_exp e1 - flt_exp e2 + UNIT) * 2 ^ (flt_exp e2 + UNIT))) as ->.
    { rewrite <- !Z.mul_assoc, <- !Z.pow_add_r by (unfold UNIT; lia). do 2 f_equal. lia. }
    set (w := 2 ^ (flt_exp e1 - flt_exp e2 + UNIT)) in *. set (z := 2 ^ (flt_exp e2 + UNIT)) in *. rewrite D.
    replace ((b * q + r) * (w * z) - q * w * (b * z)) with (r * (w * z)) by ring. split; nia.
Qed.
