(* ===== verification/FltText.v ===== *)
(** * Integers and text of the compilers' reals ([flt_ar2flt.c], [flt_flt2ar.c],
    [flt_str2fl.c]) *)
From Stdlib Require Import ZArith Lia Bool Ascii String.
From stdpp Require Import base list.
From S2P Require Import Prelude Flt FltStr FltSpec FltMul.
Local Open Scope Z_scope.
Local Open Scope list_scope.

(** ** Integers *)

Lemma words_of_long v : mval (u32 (Z.shiftr v 32), u32 v) = v mod 2 ^ 64.
Proof.
  unfold mval, u32. cbn [fst snd]. rewrite Z.shiftr_div_pow2 by lia. change (2 ^ 64) with (2 ^ 32 * 2 ^ 32).
  rewrite (Z.rem_mul_r v) by lia. lia.
Qed.
(** An integer [w] below 2 ** 64, as a number. *)
Definition integer (s w : Z) (e : flt_arith) : Prop :=
  w = 0 /\ e = of_mant s 0 0 \/
  exists k, 0 <= k < 64 /\ 2 ^ 63 <= w * 2 ^ k < 2 ^ 64 /\ e = of_mant s (63 - k) (w * 2 ^ k).
Lemma integer_value s w e : integer s w e -> value e = sign_val s * w * ONE.
Proof.
  intros [[-> ->]|(k & Hk & Hm & ->)].
  - rewrite value_of_mant by lia. unfold mean. lia.
  - rewrite value_of_mant by lia. unfold mean, ONE. replace (63 + UNIT) with (k + (63 - k + UNIT)) by lia.
    rewrite (Z.pow_add_r 2 k) by (unfold UNIT; lia). ring.
Qed.
Lemma integer_valid s w e : is_sign s -> integer s w e -> valid e.
Proof.
  intros Hs [[-> ->]|(k & Hk & Hm & ->)]; (split; [apply of_mant_ok; [lia|done]|]); rewrite of_mant_val by lia;
    cbn [flt_exp of_mant]; unfold EXT_MIN, EXT_MAX; lia.
Qed.
Lemma nrm_integer s w : 0 < w < 2 ^ 64 -> integer s w (flt_nrm (of_mant s 63 w)).
Proof. intros Hw. right. destruct (nrm_normal s 63 w Hw ltac:(lia)) as (k & A & B & C). by exists k. Qed.

Lemma integer_unique s w e e' : integer s w e -> integer s w e' -> e = e'.
Proof.
  assert (forall k k', 0 <= k -> 0 <= k' -> 2 ^ 63 <= w * 2 ^ k < 2 ^ 64 -> 2 ^ 63 <= w * 2 ^ k' < 2 ^ 64 -> k <= k') as L.
  { intros k k' Hk Hk' B B'. destruct (Z.leb_spec k k') as [|G]; [done|exfalso].
    replace k with (1 + (k - k' - 1) + k') in B by lia. rewrite !Z.pow_add_r in B by lia. change (2 ^ 1) with 2 in B.
    pose proof (Z.pow_pos_nonneg 2 (k - k' - 1) ltac:(lia) ltac:(lia)). nia. }
  intros [[-> ->]|(k & Hk & Hm & ->)] [[E ->]|(k' & Hk' & Hm' & ->)]; [done|lia|lia|].
  assert (k = k') as -> by (pose proof (L k k'); pose proof (L k' k); lia). done.
Qed.

(** The sign and the magnitude of a [long], signed or unsigned. *)
Definition arith_sign (n : Z) (uns : bool) : Z := if negb uns && (n <? 0) then 1 else 0.
Definition magnitude (n : Z) (uns : bool) : Z := if uns then n mod 2 ^ 64 else Z.abs n.

Lemma arith2flt_integer n uns : - 2 ^ 63 <= n < 2 ^ 63 ->
  0 <= magnitude n uns < 2 ^ 64 /\ integer (arith_sign n uns) (magnitude n uns) (flt_arith2flt n uns).
Proof.
  intros Hn. unfold flt_arith2flt, arith_sign, magnitude.
  set (p := if negb uns && (n <? 0) then (1, s64 (- n)) else (0, n)).
  assert (p = (if negb uns && (n <? 0) then 1 else 0, p.2) /\ p.2 mod 2 ^ 64 = (if uns then n mod 2 ^ 64 else Z.abs n) /\ (p.2 = 0 <-> n = 0)) as (Ep & Em & Ez).
  { unfold p. destruct uns; cbn [negb andb]; [done|]. destruct (Z.ltb_spec n 0); cbn [snd].
    - split; [done|]. unfold s64. rewrite sext_mod by lia. split; [rewrite Z.mod_small; lia|].
      destruct (Z.eqb_spec n (- 2 ^ 63)) as [->|]; [vm_compute; split; discriminate|]. rewrite sext_small; lia.
    - split; [done|]. rewrite Z.mod_small; lia. }
  rewrite Ep. cbn [fst snd]. rewrite <- Em. pose proof (Z.mod_pos_bound p.2 (2 ^ 64) ltac:(lia)) as B. split; [done|].
  pose proof (words_of_long p.2) as W.
  assert (mkFlt (if negb uns && (n <? 0) then 1 else 0) 63 (u32 (Z.shiftr p.2 32)) (u32 p.2) = of_mant (if negb uns && (n <? 0) then 1 else 0) 63 (p.2 mod 2 ^ 64)) as E.
  { rewrite <- W. apply (of_mant_eq (mkFlt _ _ _ _)). split; apply u32_word. }
  destruct (Z.eqb_spec p.2 0) as [E0|N0]; [rewrite E0; by left|]. rewrite E. apply nrm_integer.
  split; [|lia]. destruct uns.
  - cbn [negb andb] in *. change p.2 with n in *. assert (n mod 2 ^ 64 <> 0); [|lia]. intros H.
    apply Z.mod_divide in H as [z Hz]; lia.
  - rewrite Em. lia.
Qed.

(** The word that is shifted out. *)
Lemma high_word_lost h : u32 (Z.shiftl (u32 (Z.shiftl h 16)) 16) = 0.
Proof.
  unfold u32. rewrite !Z.shiftl_mul_pow2 by lia. rewrite Z.mul_mod_idemp_l by lia.
  rewrite <- Z.mul_assoc, <- Z.pow_add_r by lia. apply Z.mod_mul. lia.
Qed.
(** Converted to a real and back, a [long] is its low 32 bits, with its sign. *)
Lemma arith_there_and_back n uns : - 2 ^ 63 <= n < 2 ^ 63 ->
  let s := sign_val (arith_sign n uns) in
  value (flt_arith2flt n uns) = s * magnitude n uns * ONE /\
  flt_flt2arith (flt_arith2flt n uns) uns = (s * (magnitude n uns mod 2 ^ 32), FLT_OK).
Proof.
  intros Hn s. destruct (arith2flt_integer n uns Hn) as [B I]. split; [by apply integer_value|].
  assert (arith_sign n uns = 0 \/ arith_sign n uns = 1 /\ uns = false /\ n < 0) as Hs.
  { unfold arith_sign. destruct uns; cbn [negb andb]; [by left|]. destruct (Z.ltb_spec n 0); auto. }
  destruct I as [[Ew ->]|(k & Hk & Hm & ->)].
  { rewrite Ew, Z.mod_0_l, Z.mul_0_r by lia. assert (arith_sign n uns = 0) as ->; [|by destruct uns].
    destruct Hs as [|(_ & -> & ?)]; [done|]. cbn in Ew. lia. }
  set (w := magnitude n uns) in *. unfold flt_flt2arith. cbn [flt_sign flt_exp of_mant].
  replace (63 - k <? 0) with false by lia.
  assert (negb (arith_sign n uns =? 0) && uns = false) as -> by (destruct Hs as [->|(-> & -> & _)]; done).
  set (q := if _ <? 63 - k then _ else _). assert (q = (of_mant (arith_sign n uns) (63 - k) (w * 2 ^ k), FLT_OK)) as ->.
  { unfold q. destruct (Z.ltb_spec (62 + (if uns then 1 else 0)) (63 - k)) as [L|L]; [|done].
    destruct uns; [lia|]. assert (k = 0) as -> by lia. rewrite Z.mul_1_r in *. unfold w, magnitude in *.
    destruct (Z.eqb_spec n (- 2 ^ 63)) as [->|]; [done|]. lia. }
  cbn [fst snd flt_exp flt_sign of_mant].
  destruct (sft_val (mant (of_mant (arith_sign n uns) (63 - k) (w * 2 ^ k))) (63 - (63 - k))) as [Ka Va]; [apply split_mok; lia|].
  replace (0 <=? 63 - (63 - k)) with true in Va by lia. replace (63 - (63 - k)) with k in * by lia.
  fold (mant_val (of_mant (arith_sign n uns) (63 - k) (w * 2 ^ k))) in Va. rewrite of_mant_val, Z.div_mul in Va by lia.
  set (a := flt_b64_sft _ _) in *.
  rewrite high_word_lost, Z.lor_0_r. assert (a.2 = w mod 2 ^ 32) as ->.
  { rewrite <- Va. unfold mval. rewrite Z.add_comm, Z.mod_add by lia. destruct Ka. by rewrite Z.mod_small. }
  unfold s, sign_val. destruct Hs as [->|(-> & _)]; cbn [Z.eqb negb]; f_equal; lia.
Qed.

(** The integer part of a positive number below 2 ** 32. *)
Lemma small_exponent m x u : 2 ^ 63 <= m -> 0 <= x -> 0 <= u -> m * 2 ^ (x + u) < 2 ^ 32 * 2 ^ (63 + u) -> x < 32.
Proof.
  intros M X HU L. destruct (Z.ltb_spec x 32) as [|G]; [done|exfalso].
  assert (2 ^ 32 * 2 ^ (63 + u) <= 2 ^ 63 * 2 ^ (x + u)) as Hle.
  { rewrite <- !Z.pow_add_r by lia. apply Z.pow_le_mono_r; lia. }
  pose proof (Z.pow_pos_nonneg 2 (x + u) ltac:(lia) ltac:(lia)). nia.
Qed.
Lemma below_one m x u : 0 <= m < 2 ^ 64 -> x < 0 -> 0 <= x + u -> m * 2 ^ (x + u) / 2 ^ (63 + u) = 0.
Proof.
  intros M X HU. apply Z.div_small. replace (63 + u) with (64 + (- x - 1) + (x + u)) by lia.
  rewrite (Z.pow_add_r 2 (64 + _)), (Z.pow_add_r 2 64) by lia.
  pose proof (Z.pow_pos_nonneg 2 (x + u) ltac:(lia) HU). pose proof (Z.pow_pos_nonneg 2 (- x - 1) ltac:(lia) ltac:(lia)). nia.
Qed.
Lemma whole_part m x u : 0 <= x <= 63 -> 0 <= x + u -> m * 2 ^ (x + u) / 2 ^ (63 + u) = m / 2 ^ (63 - x).
Proof.
  intros X HU. replace (63 + u) with (63 - x + (x + u)) by lia. rewrite (Z.pow_add_r 2 (63 - x)) by lia.
  apply Z.div_mul_cancel_r; apply Z.pow_nonzero; lia.
Qed.
Lemma ONE_eq : ONE = 2 ^ (63 + UNIT).
Proof. done. Qed.
Lemma flt2arith_floor e uns : normal e -> flt_sign e = 0 -> value e < 2 ^ 32 * ONE ->
  flt_flt2arith e uns = (value e / ONE, FLT_OK).
Proof.
  intros ([K _] & M & R) S L. pose proof (mant_range e K) as B.
  assert (Ev : value e = mant_val e * 2 ^ (flt_exp e + UNIT)) by (rewrite value_mean, S; unfold sign_val; cbn [Z.eqb]; by rewrite Z.mul_1_l).
  assert (0 <= flt_exp e + UNIT) as PU by (clear -R; unfold EXT_MIN, UNIT in *; lia).
  assert (HU : 0 <= UNIT) by (clear; unfold UNIT; lia).
  rewrite Ev, ONE_eq in L |- *. clear Ev. generalize dependent UNIT. intros u L PU HU.
  unfold flt_flt2arith. rewrite S. cbn [Z.eqb negb andb].
  destruct (Z.ltb_spec (flt_exp e) 0) as [N|N]; [by rewrite below_one|].
  pose proof (small_exponent _ _ _ M N HU L) as X. rewrite whole_part by lia. assert ((62 + (if uns then 1 else 0) <? flt_exp e) = false) as -> by (destruct uns; lia).
  cbn [fst snd]. rewrite S. cbn [Z.eqb negb]. destruct (sft_val (mant e) (63 - flt_exp e) K) as [Ka Va].
  replace (0 <=? 63 - flt_exp e) with true in Va by lia. set (a := flt_b64_sft _ _) in *.
  rewrite high_word_lost, Z.lor_0_r. f_equal. fold (mant_val e) in Va. rewrite <- Va.
  assert (mval a < 2 ^ 32) as Sm.
  { rewrite Va. apply Z.div_lt_upper_bound; [apply Z.pow_pos_nonneg; lia|]. rewrite <- Z.pow_add_r by lia.
    apply Z.lt_le_trans with (2 ^ 64); [lia|]. apply Z.pow_le_mono_r; lia. }
  clear -Sm Ka. unfold mval, mok, word in *. assert (a.1 = 0) as -> by lia. lia.
Qed.

(** A negative number that is not an integer is cut off towards zero, below it if its
    magnitude is below one: -1.5 and -0.5 both give -1. *)
Example flt2arith_negative :
  flt_flt2arith (mkFlt 1 0 0xC0000000 0) false = (-1, FLT_OK) /\
  flt_flt2arith (mkFlt 1 (-1) 0x80000000 0) false = (-1, FLT_OK).
Proof. by vm_compute. Qed.

(** C22: a [long], signed or unsigned, converted to a real is the same number, exactly;
    a number of a magnitude below 2 ** 32 is itself when it is converted back, and a
    positive real below 2 ** 32 is truncated to the largest integer that is not above it. *)
Theorem arith_roundtrip :
  (forall n uns, - 2 ^ 63 <= n < 2 ^ 63 ->
     value (flt_arith2flt n uns) = (if uns then n mod 2 ^ 64 else n) * ONE) /\
  (forall n uns, - 2 ^ 32 < n < 2 ^ 32 -> uns = false \/ 0 <= n ->
     flt_flt2arith (flt_arith2flt n uns) uns = (n, FLT_OK)) /\
  (forall e uns, normal e -> flt_sign e = 0 -> value e < 2 ^ 32 * ONE ->
     exists n, flt_flt2arith e uns = (n, FLT_OK) /\ n * ONE <= value e < (n + 1) * ONE).
Proof.
  assert (Hm : forall n uns, - 2 ^ 63 <= n < 2 ^ 63 ->
    sign_val (arith_sign n uns) * magnitude n uns = if uns then n mod 2 ^ 64 else n).
  { intros n uns Hn. unfold sign_val, arith_sign, magnitude. destruct uns; cbn [negb andb Z.eqb]; [lia|].
    destruct (Z.ltb_spec n 0); cbn [Z.eqb]; lia. }
  split_and!.
  - intros n uns Hn. rewrite <- Hm by done. by apply arith_there_and_back.
  - intros n uns Hn Hu. destruct (arith_there_and_back n uns) as [_ ->]; [lia|]. f_equal.
    assert (Hs : magnitude n uns = Z.abs n) by (unfold magnitude; destruct uns; [rewrite Z.mod_small; lia|done]).
    rewrite Hs, Z.mod_small, <- Hs, Hm by lia. destruct uns; [rewrite Z.mod_small; lia|done].
  - intros e uns N S L. eexists. split; [by apply flt2arith_floor|].
    assert (0 < ONE) as PO by (apply Z.pow_pos_nonneg; unfold UNIT; lia).
    pose proof (Z.mul_div_le (value e) ONE PO). pose proof (Z.mul_succ_div_gt (value e) ONE PO). lia.
Qed.

(** ** Powers of ten *)

(** A number has the mantissa of 64 bits that is nearest to [p / r]. *)
Definition nearest (e : flt_arith) (p r : Z) : bool :=
  (flt_sign e =? 0) && (2 ^ 63 <=? mant_val e) && (mant_val e <? 2 ^ 64) &&
  (2 * Z.abs (value e * r - p * ONE) <=? 2 ^ (flt_exp e + UNIT) * r).
(** The same with both sides divided by a common power of two, so that it can be computed
    with numbers of ordinary size. *)
Definition near (e : flt_arith) (p r : Z) : bool :=
  let a := Z.max 0 (flt_exp e - 63) in
  let b := Z.max 0 (63 - flt_exp e) in
  (flt_sign e =? 0) && (2 ^ 63 <=? mant_val e) && (mant_val e <? 2 ^ 64) &&
  (-2200 <=? flt_exp e) && (2 * Z.abs (Z.shiftl (mant_val e * r) a - Z.shiftl p b) <=? Z.shiftl r a).
Lemma near_nearest e p r : near e p r = true -> nearest e p r = true.
Proof.
  unfold near, nearest. set (a := Z.max 0 (flt_exp e - 63)). set (b := Z.max 0 (63 - flt_exp e)).
  rewrite !andb_true_iff. intros [[[[Hs H1] H2] H3] H]. apply Z.leb_le in H, H3. split_and!; [done..|]. apply Z.leb_le.
  rewrite !Z.shiftl_mul_pow2 in H by lia. unfold value, mean, ONE. apply Z.eqb_eq in Hs. rewrite Hs. cbn [sign_val Z.eqb].
  set (u := flt_exp e - a + UNIT).
  assert (flt_exp e + UNIT = a + u) as -> by (unfold u; lia). assert (63 + UNIT = b + u) as -> by (unfold u, a, b; lia).
  assert (0 <= u) as Hu by (unfold u, a, UNIT; lia).
  rewrite !Z.pow_add_r by lia. pose proof (Z.pow_pos_nonneg 2 u ltac:(lia) Hu) as Pu.
  replace (1 * mant_val e * (2 ^ a * 2 ^ u) * r - p * (2 ^ b * 2 ^ u)) with ((mant_val e * r * 2 ^ a - p * 2 ^ b) * 2 ^ u) by ring.
  rewrite Z.abs_mul, (Z.abs_eq (2 ^ u)) by lia.
  replace (2 ^ a * 2 ^ u * r) with (r * 2 ^ a * 2 ^ u) by ring. nia.
Qed.

(** The entries of a table against [p], [p * m], [p * m * m], ... *)
Fixpoint all_near (table : list flt_arith) (m p : Z) (inv : bool) : bool :=
  match table with
  | [] => true
  | e :: rest => (if inv then near e 1 p else near e p 1) && all_near rest m (p * m) inv
  end.
Lemma all_near_entry table m inv : forall p j, all_near table m p inv = true ->
  0 <= j < Z.of_nat (length table) ->
  (if inv then nearest (entry table j) 1 (p * m ^ j) else nearest (entry table j) (p * m ^ j) 1) = true.
Proof.
  induction table as [|e rest IH]; intros p j H Hj; [cbn in Hj; lia|].
  cbn [all_near] in H. apply andb_true_iff in H as [H1 H2].
  destruct (Z.eqb_spec j 0) as [->|N].
  - rewrite Z.mul_1_r. destruct inv; by apply near_nearest.
  - replace j with (1 + (j - 1)) by lia. rewrite Z.pow_add_r, Z.pow_1_r, Z.mul_assoc by lia. unfold entry.
    replace (Z.to_nat (1 + (j - 1))) with (S (Z.to_nat (j - 1))) by lia. apply IH; [done|]. cbn [length] in Hj. lia.
Qed.

(** C24: the tables of powers of ten hold, for every exponent up to 27 and every multiple of
    28 up to 532, the number with 64 bits that is nearest to the power, and to its
    reciprocal. *)
Theorem powers_of_ten :
  (forall i, 0 <= i < SMALLSZ -> nearest (entry s10pow i) (10 ^ i) 1 = true /\ nearest (entry r_10pow i) 1 (10 ^ i) = true) /\
  (forall i, 0 <= i < BIGSZ -> nearest (entry big_10pow i) (10 ^ (28 * i)) 1 = true /\ nearest (entry r_big_10pow i) 1 (10 ^ (28 * i)) = true).
Proof.
  assert (all_near s10pow 10 1 false = true) as A by reflexivity.
  assert (all_near r_10pow 10 1 true = true) as B by reflexivity.
  assert (all_near big_10pow (10 ^ 28) 1 false = true) as C by reflexivity.
  assert (all_near r_big_10pow (10 ^ 28) 1 true = true) as D by reflexivity.
  unfold SMALLSZ, BIGSZ. split; intros i Hi; rewrite ?Z.pow_mul_r by lia; split.
  - by pose proof (all_near_entry _ _ _ _ i A Hi) as E; rewrite Z.mul_1_l in E.
  - by pose proof (all_near_entry _ _ _ _ i B Hi) as E; rewrite Z.mul_1_l in E.
  - by pose proof (all_near_entry _ _ _ _ i C Hi) as E; rewrite Z.mul_1_l in E.
  - by pose proof (all_near_entry _ _ _ _ i D Hi) as E; rewrite Z.mul_1_l in E.
Qed.

(** ** Reading an integer *)

(** The text of the decimal digits [ds], and their value. *)
Definition digit_text (ds : list Z) : list Z := map (fun d => d + 48) ds.
Definition decimal_value (n : Z) (ds : list Z) : Z := fold_left (fun n d => 10 * n + d) ds n.
Definition decimal_digits (ds : list Z) : Prop := Forall (fun d => 0 <= d <= 9) ds.

Lemma decimal_value_ge ds : forall n, decimal_digits ds -> 0 <= n -> n <= decimal_value n ds.
Proof.
  unfold decimal_value. induction ds as [|d ds IH]; intros n H Hn; cbn [fold_left]; [lia|].
  inversion H; subst. specialize (IH (10 * n + d) ltac:(done) ltac:(lia)). lia.
Qed.
Lemma add_digit_val m d : mok m -> 0 <= d <= 9 -> 10 * mval m + d < 2 ^ 64 ->
  mok (add_digit m (d + 48)) /\ mval (add_digit m (d + 48)) = 10 * mval m + d.
Proof.
  intros K Hd B. unfold add_digit. replace (d + 48 - 48) with d by lia.
  pose proof (mval_range m K) as R.
  destruct (sft_val m (-3) K) as [K3 V3]. replace (0 <=? -3) with false in V3 by done.
  destruct (sft_val m (-1) K) as [K1 V1]. replace (0 <=? -1) with false in V1 by done.
  change (2 ^ (- -3)) with 8 in V3. change (2 ^ (- -1)) with 2 in V1. rewrite Z.mod_small in V3, V1 by lia.
  destruct (add_val _ _ K3 K1) as [Ks Vs]. rewrite V3, V1 in Vs. pose proof (mval_range _ Ks).
  destruct (flt_b64_add _ _) as [s o]. cbn [fst snd] in *. destruct o; [lia|].
  assert (mok (0, d)) as Kd by (split; unfold word; cbn [fst snd]; lia).
  destruct (add_val s (0, d) Ks Kd) as [Kt Vt]. pose proof (mval_range _ Kt). change (mval (0, d)) with (0 * 2 ^ 32 + d) in Vt.
  destruct (flt_b64_add s (0, d)) as [t o]. cbn [fst snd] in *. destruct o; [lia|]. split; [done|]. lia.
Qed.
Lemma digits_decimal ds : forall m seen, decimal_digits ds -> mok m -> decimal_value (mval m) ds < 2 ^ 64 ->
  exists m', mok m' /\ mval m' = decimal_value (mval m) ds /\
    digits (digit_text ds) false seen m 0 = (m', 0, match ds with [] => seen | _ => true end, []).
Proof.
  induction ds as [|d ds IH]; intros m seen H K B; [by exists m|].
  inversion H; subst. cbn [digit_text map digits].
  assert (isdigit (d + 48) = true) as -> by (unfold isdigit; lia).
  pose proof (mval_range m K) as R. unfold decimal_value in B. cbn [fold_left] in B. fold (decimal_value (10 * mval m + d) ds) in B.
  pose proof (decimal_value_ge ds (10 * mval m + d) ltac:(done) ltac:(lia)).
  assert ((m.1 <=? 0x7FFFFFFF / 5) = true) as ->.
  { change (0x7FFFFFFF / 5) with 429496729. destruct K as [K1 K2]. unfold mval, word in *. lia. }
  destruct (add_digit_val m d K ltac:(lia) ltac:(lia)) as [Ka Va]. cbn [fst snd]. fold (digit_text ds).
  destruct (IH (add_digit m (d + 48)) true ltac:(done) Ka) as (m' & K' & V' & ->); [by rewrite Va|].
  exists m'. rewrite V', Va. split; [done|]. split; [done|]. by destruct ds.
Qed.

(** 1.0, the first entry of the tables. *)
Lemma mul_one e : valid e -> 2 ^ 63 <= mant_val e -> flt_mul e (of_mant 0 0 (2 ^ 63)) = (e, FLT_OK).
Proof.
  intros V M. assert (valid (of_mant 0 0 (2 ^ 63))) as V1.
  { split; [apply of_mant_ok; [lia|by left]|]. rewrite of_mant_val by lia. cbn [flt_exp of_mant]. unfold EXT_MIN, EXT_MAX. lia. }
  destruct (mul_number e _ V V1) as (x & m & E & _ & _ & _ & X). rewrite E. rewrite of_mant_val in X by lia.
  destruct (valid_number e V) as (m0 & B & _ & Em & N). rewrite Em in *.
  destruct (X m0 eq_refl ltac:(lia)) as [-> ->]. cbn [flt_exp flt_sign of_mant]. rewrite Z.add_0_r, Z.lxor_0_r. done.
Qed.
Lemma no_exponent e : valid e -> 2 ^ 63 <= mant_val e -> add_exponent e 0 FLT_OK = (e, FLT_OK).
Proof.
  intros V M. unfold add_exponent. change (0 <? 0) with false. cbv iota zeta.
  change (s32 (u64 0 / SMALLSZ)) with 0. change (s32 (u64 0 mod SMALLSZ)) with 0.
  change (entry s10pow 0) with (of_mant 0 0 (2 ^ 63)). rewrite (mul_one e) by done. cbn [Z.to_nat big_powers fst snd].
  change (entry big_10pow 0) with (of_mant 0 0 (2 ^ 63)). by rewrite mul_one by done.
Qed.

(** C23: the text of an integer with an optional sign, after white space, is read exactly, if
    its magnitude is below 2 ** 64; the result is what flt_arith2flt gives. *)
Theorem integer_text_read spaces sign ds :
  Forall (fun c => isspace c = true) spaces -> sign = [] \/ sign = [43] \/ sign = [45] ->
  ds <> [] -> decimal_digits ds -> decimal_value 0 ds < 2 ^ 64 ->
  let s := match sign with [45] => 1 | _ => 0 end in
  let n := decimal_value 0 ds in
  let r := flt_str2flt (spaces ++ sign ++ digit_text ds) in
  r.2 = FLT_OK /\ value r.1 = sign_val s * n * ONE /\
  (0 < n < 2 ^ 63 -> r.1 = flt_arith2flt (sign_val s * n) false).
Proof.
  intros Hsp Hs Nd Hd Hn s n r.
  assert (sign_char (skip_spaces (spaces ++ sign ++ digit_text ds)) = (s, digit_text ds)) as Es.
  { destruct ds as [|d ds]; [done|]. inversion Hd; subst.
    assert (skip_spaces (spaces ++ sign ++ digit_text (d :: ds)) = sign ++ digit_text (d :: ds)) as ->.
    { induction Hsp as [|c l Hc _ IH]; [|cbn [app skip_spaces]; by rewrite Hc].
      destruct Hs as [->|[->| ->]]; [|done..]. cbn [app skip_spaces digit_text map].
      by replace (isspace (d + 48)) with false by (unfold isspace; lia). }
    unfold s. destruct Hs as [->|[->| ->]]; [|done..]. cbn [app sign_char digit_text map].
    replace (d + 48 =? 45) with false by lia. by replace (d + 48 =? 43) with false by lia. }
  unfold r, flt_str2flt. rewrite Es. cbn [fst snd].
  destruct (digits_decimal ds (0, 0) false Hd ltac:(by split) Hn) as (m & K & V & ->).
  change (mval (0, 0)) with 0 in V. fold n in V.
  assert (match ds with [] => false | _ => true end = true) as -> by (by destruct ds). cbn [negb].
  pose proof (mval_range m K) as R. rewrite V in R.
  assert ((m.1 =? 0) && (m.2 =? 0) = (n =? 0)) as ->.
  { rewrite <- V. destruct K as [K1 K2]. unfold mval, word in *. apply eq_true_iff_eq. rewrite andb_true_iff. lia. }
  destruct (Z.eqb_spec n 0) as [E0|N0].
  { rewrite E0. split; [done|]. split; [unfold value, mean, mant_val, mval; cbn; lia|lia]. }
  assert (mkFlt s 63 m.1 m.2 = of_mant s 63 n) as -> by (rewrite <- V; destruct m; by rewrite (of_mant_eq (mkFlt s 63 _ _))).
  pose proof (nrm_integer s n ltac:(lia)) as I.
  assert (is_sign s) as Si by (unfold s; destruct Hs as [->|[->| ->]]; [by left|by left|by right]).
  pose proof (integer_valid s n _ Si I) as Vi.
  rewrite no_exponent; [|done|destruct I as [[? _]|(k & _ & B & ->)]; [lia|rewrite of_mant_val by lia; lia]].
  cbn [fst snd]. destruct (valid_number _ Vi) as (mv & B & Ee & _ & Nn). rewrite Ee, chk_number by done. rewrite <- Nn. cbn [fst snd].
  split; [done|]. split; [by apply integer_value|]. intros Hb.
  assert (sign_val s * n <> 0 /\ (sign_val s * n <? 0) = negb (s =? 0) /\ Z.abs (sign_val s * n) = n) as (_ & Sn & An).
  { unfold sign_val. destruct Si as [-> | ->]; cbn [Z.eqb negb]; lia. }
  apply (integer_unique s n); [done|].
  destruct (arith2flt_integer (sign_val s * n) false ltac:(lia)) as [_ I']. unfold arith_sign, magnitude in I'.
  rewrite Sn, An in I'. cbn [negb andb] in I'. by replace (if negb (s =? 0) then 1 else 0) with s in I' by (by destruct Si as [-> | ->]).
Qed.

(** The text of 2 ** 64: the digit that no longer fits is added all the same. *)
Example integer_too_long :
  flt_str2flt (digit_text [1; 8; 4; 4; 6; 7; 4; 4; 0; 7; 3; 7; 0; 9; 5; 5; 1; 6; 1; 6]) = (of_mant 0 0 0, FLT_OK).
Proof. reflexivity. Qed.

(** ** The package's own tests ([test.c]) *)

Definition text (s : string) : list Z := map (fun c => Z.of_nat (nat_of_ascii c)) (list_ascii_of_string s).
Inductive operation := Op_none | Op_add | Op_sub | Op_mul | Op_div | Op_int | Op_frac | Op_umin.
Record test := mkTest { op1 : string; op2 : string; oper : operation; result : string }.
(** The table; an operand that is missing is not used. *)
Definition tests : list test :=
  [ mkTest "1.0" EmptyString Op_none "1.0"; mkTest "-1.0" EmptyString Op_none "-1.0"; mkTest "0.0" EmptyString Op_none "0.0";
    mkTest "1.234567" EmptyString Op_none "1.234567"; mkTest "1.234567" EmptyString Op_int "1.0"; mkTest "1.234567" EmptyString Op_frac "2.34567e-1";
    mkTest "32768" "32768" Op_add "6.5536e+4"; mkTest "32768" "32767" Op_sub "1.0";
    mkTest "32768" "32768" Op_mul "1.073741824e+9"; mkTest "32768" "32768" Op_div "1.0";
    mkTest "1.234567e20" "-1.234567e20" Op_add "0.0"; mkTest "1e100" "1e100" Op_add "2.0e+100";
    mkTest "1e110" "10" Op_mul "1.0e+111"; mkTest "0.5e100" "0.5e100" Op_mul "2.5e+199" ].
Definition dotest (p : test) : bool :=
  let e1 := (flt_str2flt (text (op1 p))).1 in
  let e2 := (flt_str2flt (text (op2 p))).1 in
  let e :=
    match oper p with
    | Op_add => (flt_add e1 e2).1
    | Op_sub => (flt_sub e1 e2).1
    | Op_mul => (flt_mul e1 e2).1
    | Op_div => (flt_div e1 e2).1
    | Op_int => (flt_modf e1).1
    | Op_frac => (flt_modf e1).2
    | Op_umin => (flt_umin e1).1
    | Op_none => e1
    end in
  match flt_flt2str e 128 with
  | Some (inl s) => if decide (s = text (result p)) then true else false
  | _ => false
  end.

(** Every test succeeds. *)
Example package_tests : forallb dotest tests = true.
Proof. vm_compute. reflexivity. Qed.
