(* ===== verification/Witnesses.v ===== *)
(** * Concrete runs

    The theorems applied to concrete states of a machine with two-byte words and
    four-byte pointers. *)
From Stdlib Require Import ZArith Lia Bool.
From Stdlib Require Import Floats.SpecFloat.
From stdpp Require Import base gmap list.
From S2P Require Import Prelude Os Machine Log Warn Mem Wp Data Stack StackSpec DataSpec Text Proctab Frame Instr Calls Results.
From S2P Require Import Load Arith Logic Branch Pointer Misc Real Float FloatSpec Move Descr Switch Interp Decode Silent Boot.

Definition no_warnmask (_ : Z) : bool := false.
#[export] Instance ex_cfg : Config := {|
  wsize := 2; psize := 4; maxstack := 0; maxheap := 0; FRALimit := 8; PreIgnMask := 0;
  must_test := true; warnmask := no_warnmask; HB := 64; DB := 4; NProc := 1; ENTRY := 0;
  NLINE := 100; text := [0; 1; 2; 3]; proctab := [mkProc 0 0 4]
|}.

Lemma ex_ok : ConfigOk.
Proof.
  constructor; cbn; try lia; auto. repeat constructor; lia.
Qed.

(** [lay a l]: the bytes [l] from [a] upwards. *)
Fixpoint lay (m : gmap Z Z) (a : Z) (l : list Z) : gmap Z Z :=
  match l with [] => m | b :: l' => lay (<[a := b]> m) (a + 1) l' end.
Lemma bytes_ok_lay l : forall m a,
  bytes_ok m -> Forall is_byte l -> bytes_ok (lay m a l).
Proof.
  induction l as [|b l IH]; intros m a Hm Hl; cbn [lay]; [done|].
  inversion Hl; subst. apply IH; [by apply bytes_ok_insert | done].
Qed.
Lemma bytes_ok_empty : bytes_ok ∅.
Proof. intros a v H. by rewrite lookup_empty in H. Qed.

(** The operand stack holds the bytes [l], all defined integers. *)
Definition ex_LB : Z := ML + 1 - rsbsize.
Definition ex_SP (l : list Z) : Z := ex_LB - Z.of_nat (length l).
Definition ex (l : list Z) : state :=
  let sp := ex_SP l in
  mkState 0 0 64 sp ex_LB (ex_LB +p rsbsize) 0 false TR_HALT 0 0 (mkArea ∅ ∅ 8) 0 0
    (mkArea ∅ ∅ 1064) 1064
    (mkArea (lay ∅ sp l) (fill ∅ sp SH_INT (length l)) 1000) (ML + 1 - 1000)
    ∅ 100 0 1 0 true false 0 (mkWarn ∅ false []) mon0.
Lemma ex_Inv l :
  Forall is_byte l -> (Z.of_nat (length l) <=? 900) = true ->
  Z.of_nat (length l) mod 2 = 0 -> Inv (ex l).
Proof.
  intros Hl Hlen Hev.
  assert (Hsp : ex_SP l = 2147483624 - Z.of_nat (length l)) by reflexivity.
  assert (Hlb : ex_LB = 2147483624) by reflexivity.
  assert (Hml : ML = 2147483645) by reflexivity.
  unfold ex. constructor; cbn [SP LB AB stack SL HP data HL FRASize FRA alloc bytes];
    rewrite ?Hsp, ?Hlb, ?Hml; try (cbn; lia); try apply bytes_ok_empty; try reflexivity.
  - change wsize with 2. rewrite Zminus_mod, Hev. reflexivity.
  - by apply bytes_ok_lay; [apply bytes_ok_empty|].
Qed.

(** Decide a goal by evaluation. *)
Ltac by_eval := vm_compute; first [ reflexivity | congruence | discriminate | lia ].

Ltac ex_inv := apply ex_Inv; [repeat constructor; unfold is_byte; lia | reflexivity | reflexivity].

Lemma operands_ex k n l :
  Inv (ex l) -> (SP (ex l) + k <=? LB (ex l)) && has_room (SP (ex l) + k - n) (ex l) = true ->
  operands k n (ex l).
Proof. intros Hi H. apply andb_true_iff in H as [H1%Z.leb_le H2]. by split_and!. Qed.

Lemma ex_wi_size_2 : wi_size 2.
Proof. split; [by left | reflexivity]. Qed.

(** 300 + 5 on two-byte words. *)
Lemma signed_arithmetic_witness :
  wi_size 2 /\ operands 4 2 (ex [5; 0; 44; 1]) /\
  implements (DoADI 2) (ex [5; 0; 44; 1]) 4 2 (inr 305).
Proof.
  assert (H : operands 4 2 (ex [5; 0; 44; 1])) by (apply operands_ex; [ex_inv | reflexivity]).
  split; [apply ex_wi_size_2|]. split; [exact H|].
  assert (Hx : ~ (Add = Sub /\ stks (ex [5; 0; 44; 1]) (SP (ex [5; 0; 44; 1]) + 2) 2 = 0 /\
    stks (ex [5; 0; 44; 1]) (SP (ex [5; 0; 44; 1])) 2 = i_mins 2)) by (intros [E _]; discriminate E).
  pose proof (signed_arithmetic (ok := ex_ok) Add 2 (ex [5; 0; 44; 1]) ex_wi_size_2 H Hx) as G.
  vm_compute (exact_result _ _ _ _ _) in G. exact G.
Defined.

(** ** Warnings, memory *)
Lemma do_warn_counts_witness :
  (5 < WMSG /\ 0 <= occurrences 5 100 3 (mkWarn ∅ false [])) /\
  (forall n f l, occurrences n f l (do_warn 5 100 3 (mkWarn ∅ false [])) =
     occurrences n f l (mkWarn ∅ false []) + if (5 =? n) && ((100 =? f) && (3 =? l)) then 1 else 0).
Proof.
  split; [by vm_compute|].
  exact (proj1 (do_warn_counts 5 100 3 (mkWarn ∅ false []) ltac:(by vm_compute) ltac:(by vm_compute))).
Defined.

Lemma newHP_contract_witness :
  Inv (ex []) /\ is_ptr 2000 /\ newHP 2000 (ex []) = newHP_result 2000 (ex []).
Proof.
  assert (H : Inv (ex [])) by ex_inv. split_and!; [exact H|by split|].
  exact (proj1 (newHP_contract (ok := ex_ok) 2000 (ex []) H ltac:(by split))).
Defined.

Lemma newSP_contract_witness :
  Inv (ex [1; 2]) /\ newSP (SP (ex [1; 2]) - 4000) (ex [1; 2]) = newSP_result (SP (ex [1; 2]) - 4000) (ex [1; 2]).
Proof.
  assert (H : Inv (ex [1; 2])) by ex_inv. split; [exact H|].
  exact (proj1 (newSP_contract (ok := ex_ok) (SP (ex [1; 2]) - 4000) (ex [1; 2]) H)).
Defined.

Lemma stack_fast_paths_witness :
  Inv (ex [1; 2]) /\ decSP 2 (ex [1; 2]) = newSP (SP (ex [1; 2]) + 2) (ex [1; 2]).
Proof.
  assert (H : Inv (ex [1; 2])) by ex_inv. split; [exact H|].
  exact (proj1 (stack_fast_paths (ok := ex_ok) 2 (ex [1; 2]) H ltac:(lia) ltac:(reflexivity))).
Defined.

Lemma ex_pop_size n : (n = 1 \/ n = 2 \/ n = 4) -> pop_size n.
Proof.
  unfold pop_size, int_size. change wsize with 2.
  intros [->|[->| ->]]; (split; [split; [lia|]|]); (left; reflexivity) || (right; (lia || reflexivity)) || (left; lia).
Qed.

Lemma push_pop_integer_witness :
  (pop_size 4 /\ Inv (ex []) /\ room (width 4) (ex [])) /\
  exists s', (npush (-70000) 4 ;; spop 4) (ex []) = Ret (-70000) s' /\ restored (ex []) s'.
Proof.
  assert (Hi : Inv (ex [])) by ex_inv. assert (Hr : room (width 4) (ex [])) by reflexivity.
  assert (Hp : pop_size 4) by (apply ex_pop_size; auto).
  split; [by split_and!|]. exact (proj1 (push_pop_integer (ok := ex_ok) (-70000) 4 (ex []) Hp Hi Hr)).
Defined.

Lemma push_pop_pointer_witness :
  Inv (ex []) /\ room psize (ex []) /\
  exists s', (dppush 70000 ;; dppop) (ex []) = Ret 70000 s' /\ restored (ex []) s'.
Proof.
  assert (Hi : Inv (ex [])) by ex_inv. assert (Hr : room psize (ex [])) by reflexivity.
  split_and!; [done|done|]. exact (push_pop_pointer (ok := ex_ok) 70000 (ex []) Hi Hr).
Defined.

(** The heap reaches up to the stack. *)
Definition ex_full : state := set_HP ex_LB (set_HL ML (set_data (mkArea ∅ ∅ ML) (ex []))).
Lemma push_overflow_witness :
  (Inv ex_full /\ wsize <= SP ex_full /\ ~ room wsize ex_full) /\
  exists w, wpush 1 ex_full = Trap ESTACK (set_warn w ex_full).
Proof.
  assert (Hi : Inv ex_full).
  { assert (H : Inv (ex [])) by ex_inv. destruct H. constructor; cbn; try done. }
  assert (Hw : wsize <= SP ex_full) by (vm_compute; congruence).
  assert (Hr : ~ room wsize ex_full) by (vm_compute; congruence).
  split; [done|]. exact (proj1 (push_overflow (ok := ex_ok) ex_full Hi) 1 Hw Hr).
Defined.

Lemma data_roundtrip_witness :
  (int_size 2 /\ Inv (ex []) /\ on_data 20 2 (ex [])) /\
  exists w, (dt_stn 20 70000 2 ;; dt_ldu 20 2) (ex []) = Ret 4464 (set_warn w (put_dat 20 70000 SH_INT 2 (ex []))).
Proof.
  assert (Hi : Inv (ex [])) by ex_inv. assert (Hn : int_size 2) by (split; cbn; lia).
  assert (Hd : on_data 20 2 (ex [])) by (split; cbn; lia).
  split; [by split_and!|].
  exact (proj1 (data_roundtrip (ok := ex_ok) 20 70000 2 (ex []) Hn Hi Hd ltac:(reflexivity))).
Defined.

(** ** Program text *)
Lemma newPC_fragment_witness :
  rd_proctab DB [(0, 0)] [] = Some proctab /\ newPC 2 (ex []) = Ret tt (set_PC 2 (ex [])).
Proof.
  split; [reflexivity|].
  exact (newPC_fragment [(0, 0)] 2 (ex []) (mkProc 0 0 4) eq_refl ltac:(done) eq_refl).
Defined.

(** ** Arithmetic *)
Ltac ex_operands := apply operands_ex; [ex_inv | reflexivity].

(** 65535 + 2 wraps. *)
Lemma unsigned_arithmetic_witness :
  wi_size 2 /\ operands 4 2 (ex [2; 0; 255; 255]) /\
  implements (DoADU 2) (ex [2; 0; 255; 255]) 4 2 (inr 65537).
Proof.
  assert (H : operands 4 2 (ex [2; 0; 255; 255])) by ex_operands.
  split_and!; [apply ex_wi_size_2|exact H|].
  pose proof (unsigned_arithmetic (ok := ex_ok) Add 2 (ex [2; 0; 255; 255]) ex_wi_size_2 H) as G.
  vm_compute (uop_ref _ _ _ _) in G. exact G.
Defined.
(** 5 shifted left over 3. *)
Lemma shifts_witness :
  wi_size 2 /\ operands 4 2 (ex [3; 0; 5; 0]) /\ implements (DoSLI 2) (ex [3; 0; 5; 0]) 4 2 (inr 40).
Proof.
  assert (H : operands 4 2 (ex [3; 0; 5; 0])) by ex_operands.
  split_and!; [apply ex_wi_size_2|exact H|].
  pose proof (shifts (ok := ex_ok) Sli 2 (ex [3; 0; 5; 0]) ex_wi_size_2 H (or_introl eq_refl)) as G.
  vm_compute (shop_ref _ _ _ _ _) in G. exact G.
Defined.
(** The opposite of the smallest integer. *)
Lemma unary_arithmetic_witness :
  wi_size 2 /\ operands 2 2 (ex [0; 128]) /\ implements (DoNGI 2) (ex [0; 128]) 2 2 (inl EIOVFL).
Proof.
  assert (H : operands 2 2 (ex [0; 128])) by ex_operands.
  split_and!; [apply ex_wi_size_2|exact H|].
  pose proof (unary_arithmetic (ok := ex_ok) (Neg 2) (ex [0; 128]) ex_wi_size_2 H) as G.
  vm_compute (unop_ref _ _ _) in G. exact G.
Defined.

(** ** Comparisons, logic, sets *)
(** -1 against 1. *)
Lemma comparisons_witness :
  wi_size 2 /\ operands 4 2 (ex [1; 0; 255; 255]) /\ implements (DoCMI 2) (ex [1; 0; 255; 255]) 4 2 (inr (-1)).
Proof.
  assert (H : operands 4 2 (ex [1; 0; 255; 255])) by ex_operands.
  split_and!; [apply ex_wi_size_2|exact H|].
  pose proof (comparisons (ok := ex_ok) (Cmi 2) (ex [1; 0; 255; 255]) ex_wi_size_2 H) as G.
  vm_compute (Z.sgn _) in G. exact G.
Defined.
Lemma tests_witness :
  operands 2 2 (ex [0; 128]) /\ implements DoTLT (ex [0; 128]) 2 2 (inr 1).
Proof.
  assert (H : operands 2 2 (ex [0; 128])) by ex_operands.
  split; [exact H|]. pose proof (tests (ok := ex_ok) LT (ex [0; 128]) H) as G.
  vm_compute (stks _ _ _) in G. exact G.
Defined.
Lemma logical_operations_witness :
  Inv (ex [12; 0; 10; 1]) /\
  exists s', DoXOR 2 (ex [12; 0; 10; 1]) = Ret tt s' /\ combined 262 2 (spoiled (ex [12; 0; 10; 1])) s'.
Proof.
  assert (Hi : Inv (ex [12; 0; 10; 1])) by ex_inv. split; [exact Hi|].
  pose proof (logical_operations (ok := ex_ok) Xor 2 (ex [12; 0; 10; 1]) Hi ltac:(by vm_compute) eq_refl ltac:(by vm_compute)) as G.
  vm_compute (logop_fun _ _ _) in G. exact G.
Defined.
Lemma complement_operation_witness :
  Inv (ex [12; 0]) /\ exists s', DoCOM 2 (ex [12; 0]) = Ret tt s' /\ SP s' = SP (ex [12; 0]).
Proof.
  assert (Hi : Inv (ex [12; 0])) by ex_inv. split; [exact Hi|].
  destruct (complement_operation (ok := ex_ok) 2 (ex [12; 0]) Hi ltac:(by vm_compute) eq_refl ltac:(by vm_compute))
    as (s' & E & Esp & _). exact (ex_intro _ s' (conj E Esp)).
Defined.
Lemma rotations_witness :
  wi_size 2 /\ operands 4 2 (ex [1; 0; 1; 128]) /\
  exists v, implements (DoROL 2) (ex [1; 0; 1; 128]) 4 2 (inr v) /\ Z.testbit v 0 = true.
Proof.
  assert (H : operands 4 2 (ex [1; 0; 1; 128])) by ex_operands.
  split_and!; [apply ex_wi_size_2|exact H|].
  destruct (rotations (ok := ex_ok) Rol 2 (ex [1; 0; 1; 128]) ex_wi_size_2 H) as (v & Hv & Hb).
  exists v. split; [exact Hv|]. rewrite (Hb 0) by lia. reflexivity.
Defined.
(** Element 9 of a set of 16. *)
Lemma set_membership_witness :
  operands 4 2 (ex [9; 0; 0; 2]) /\ implements (DoINN 2) (ex [9; 0; 0; 2]) 4 2 (inr 1).
Proof.
  assert (H : operands 4 2 (ex [9; 0; 0; 2])) by ex_operands. split; [exact H|].
  exact (proj1 (set_membership (ok := ex_ok) 2 (ex [9; 0; 0; 2]) ltac:(by vm_compute) eq_refl H ltac:(by vm_compute))
    ltac:(by vm_compute)).
Defined.
Lemma singleton_sets_witness :
  operands 2 2 (ex [9; 0]) /\ implements (DoSET 2) (ex [9; 0]) 2 2 (inr 512).
Proof.
  assert (H : operands 2 2 (ex [9; 0])) by ex_operands. split; [exact H|].
  exact (proj1 (singleton_sets (ok := ex_ok) 2 (ex [9; 0]) ltac:(by vm_compute) eq_refl H ltac:(by vm_compute))
    ltac:(by vm_compute)).
Defined.
Lemma block_comparison_witness :
  operands 4 2 (ex [9; 1; 9; 2]) /\
  ((same_defined (ex [9; 1; 9; 2]) (SP (ex [9; 1; 9; 2])) (SP (ex [9; 1; 9; 2]) + 2) 2 /\
    implements (DoCMS 2) (ex [9; 1; 9; 2]) 4 2 (inr 0)) \/
   (~ same_defined (ex [9; 1; 9; 2]) (SP (ex [9; 1; 9; 2])) (SP (ex [9; 1; 9; 2]) + 2) 2 /\
    implements (DoCMS 2) (ex [9; 1; 9; 2]) 4 2 (inr 1))).
Proof.
  assert (H : operands 4 2 (ex [9; 1; 9; 2])) by ex_operands. split; [exact H|].
  exact (block_comparison (ok := ex_ok) 2 (ex [9; 1; 9; 2]) ltac:(by vm_compute) eq_refl H).
Defined.

(** ** Branches and conversions *)
Lemma conditional_branches_witness :
  Inv (ex [0; 0]) /\ continues (DoZEQ 2) (do_jump 2) (ex [0; 0]) 2.
Proof.
  assert (Hi : Inv (ex [0; 0])) by ex_inv. split; [exact Hi|].
  exact (proj1 (conditional_branches (ok := ex_ok) EQ 2 (ex [0; 0]) ltac:(by vm_compute) Hi) ltac:(by vm_compute)).
Defined.
(** -2 as a two byte integer becomes a four byte integer. *)
Definition ex_conv : state := ex [4; 0; 2; 0; 254; 255].
Lemma conversions_witness :
  conv_ready 2 4 ex_conv /\ conv_legal Cii 2 4 = true /\
  exists s', DoCII ex_conv = Ret tt s' /\ converted (spoiled ex_conv) 6 4 (-2) s'.
Proof.
  assert (H : conv_ready 2 4 ex_conv).
  { split; [unfold ex_conv; ex_inv|]. by vm_compute. }
  split_and!; [exact H|done|].
  exact (conversions (ok := ex_ok) Cii 2 4 ex_conv H eq_refl).
Defined.
Lemma illegal_conversions_witness :
  conv_legal Cuu 1 2 = false /\
  exists s', DoCUU (ex [2; 0; 1; 0]) = Trap EILLINS s' /\ after (spoiled (ex [2; 0; 1; 0])) 4 s'.
Proof.
  assert (Hi : Inv (ex [2; 0; 1; 0])) by ex_inv. split; [done|].
  exact (illegal_conversions (ok := ex_ok) Cuu 1 2 (ex [2; 0; 1; 0]) Hi ltac:(by vm_compute) eq_refl eq_refl
    (or_introl eq_refl) (or_intror (or_introl eq_refl)) eq_refl ltac:(done)).
Defined.

(** ** Calls

    A caller whose frame has the code RSB_STP of the first call
    in its Return Status Block. *)
Definition ex_caller : state :=
  let sp := ex_LB in
  mkState 0 2 64 sp sp (sp +p rsbsize) 0 false TR_HALT 0 0 (mkArea ∅ ∅ 8) 0 0
    (mkArea ∅ ∅ 1064) 1064
    (mkArea (lay ∅ sp [145; 43]) (fill ∅ sp SH_INT 22) 1000) (ML + 1 - 1000)
    (<[0 := ML + 1]> ∅) 100 0 1 20 true false 0 (mkWarn ∅ false []) mon0.
Lemma ex_caller_Inv : Inv ex_caller.
Proof.
  assert (Hl : bytes_ok (bytes (stack ex_caller))).
  { apply bytes_ok_lay; [apply bytes_ok_empty|]. repeat constructor; unfold is_byte; lia. }
  constructor; try exact Hl; try apply bytes_ok_empty; try (by vm_compute); try (by left; vm_compute).
Qed.
Lemma ex_frames_ok : frames_ok ex_caller.
Proof. by vm_compute. Qed.
Lemma ex_proc_ok : proc_ok 0 (mkProc 0 0 4).
Proof. by vm_compute. Qed.
Lemma ex_can_save : can_save RSB_CAL ex_caller.
Proof. split; [by right; left|]. constructor; try (by vm_compute). by right; left. Qed.
Lemma ex_calling : calling ex_caller.
Proof. constructor; try (by vm_compute). by exists (mkProc 0 0 4). Qed.

Lemma call_enters_procedure_witness :
  (Inv ex_caller /\ frames_ok ex_caller /\ proc_ok 0 (mkProc 0 0 4) /\ can_save RSB_CAL ex_caller) /\
  exists s', call 0 RSB_CAL ex_caller = Ret tt s' /\ entered 0 (mkProc 0 0 4) RSB_CAL ex_caller s'.
Proof.
  pose proof ex_caller_Inv. pose proof ex_frames_ok. pose proof ex_proc_ok. pose proof ex_can_save.
  split; [by split_and!|].
  exact (call_enters_procedure (ok := ex_ok) 0 (mkProc 0 0 4) RSB_CAL ex_caller ex_caller_Inv ex_frames_ok
    ex_proc_ok ex_can_save ltac:(by vm_compute)).
Defined.

(** The body pushes a word, which is the function result. *)
Lemma ex_body s1 :
  entered 0 (mkProc 0 0 4) RSB_CAL ex_caller s1 ->
  wp False (wpush 7) (fun _ => body_done 2 7 s1) (fun _ _ => False) s1.
Proof.
  intros [_ _ Elb _ Esp _ _ _ _ (_ & Ehp & _) _ Hi]. cbn [pr_nloc] in Esp.
  change (SP ex_caller - rsbsize) with 2147483602 in Elb. change (HP ex_caller) with 64 in Ehp.
  assert (Hr : room wsize s1).
  { unfold room, has_room. rewrite Ehp, Esp, Elb. reflexivity. }
  eapply (wp_wpush (ok := ex_ok)); [done|done|]. intros w.
  pose proof (Inv_pushed (ok := ex_ok) 7 (sh_flags 7 wsize) wsize s1 Hi eq_refl eq_refl Hr) as Hp.
  pose proof (SP_pushed 7 (sh_flags 7 wsize) wsize s1) as Esp2.
  pose proof (rest_pushed 7 (sh_flags 7 wsize) wsize s1) as Er.
  assert (Hw : 0 <= wsize) by by vm_compute.
  pose proof (stk_pushed_top 7 (sh_flags 7 wsize) wsize s1 Hw) as Ev.
  pose proof (fun a H => mget_pushed 7 (sh_flags 7 wsize) wsize s1 a H Hw) as Eb.
  generalize dependent (pushed 7 (sh_flags 7 wsize) wsize s1). intros s2 Hp Esp2 Er Ev Eb.
  pose proof (f_equal PI Er) as E1. pose proof (f_equal LB Er) as E2. pose proof (f_equal HP Er) as E3.
  pose proof (f_equal curr_frame Er) as E4. pose proof (f_equal frame_limit Er) as E5.
  pose proof (f_equal AB_list Er) as E6. cbn in E1, E2, E3, E4, E5, E6. change wsize with 2 in Esp2.
  constructor; cbn [PI LB stack curr_frame frame_limit AB_list set_warn].
  - by apply Inv_set_warn.
  - unfold lin_fil_room. cbn [HP set_warn]. rewrite E3, Ehp. by vm_compute.
  - done.
  - done.
  - intros a Ha. apply Eb. lia.
  - by rewrite E4, E5, E6.
  - split; [split; [by vm_compute|]|].
    + intros _. split_and!; [by left|by vm_compute|]. change (width 2) with 2. cbn. lia.
    + change (stk s2 (SP s2) 2 = 7). rewrite Esp2. exact Ev.
Qed.

Lemma call_return_roundtrip_witness :
  exists s', (call 0 RSB_CAL ;; wpush 7 ;; do_ret 2) ex_caller = Ret tt s' /\ resumed 2 7 ex_caller s'.
Proof.
  exact (call_return_roundtrip (ok := ex_ok) 0 (mkProc 0 0 4) 2 7 (wpush 7) ex_caller ex_caller_Inv ex_calling
    ex_frames_ok ex_proc_ok ex_can_save ltac:(by vm_compute) ex_body).
Defined.

(** The callee with its result on the stack. *)
Definition ex_callee : state :=
  match (call 0 RSB_CAL ;; wpush 7) ex_caller with Ret _ s => s | _ => ex_caller end.
Lemma ex_can_return :
  can_return (saved RSB_CAL ex_caller) (curr_frame ex_caller) ex_callee /\ result_on_stack 2 ex_callee.
Proof.
  assert (H : wp False (call 0 RSB_CAL ;; wpush 7)
    (fun _ s => can_return (saved RSB_CAL ex_caller) (curr_frame ex_caller) s /\ result_on_stack 2 s)
    (fun _ _ => False) ex_caller).
  { apply wp_bind. eapply (wp_called (ok := ex_ok)); [apply ex_caller_Inv|apply ex_frames_ok|apply ex_proc_ok
      |apply ex_can_save|by vm_compute|].
    intros s1 He. eapply wp_call; [by apply ex_body|done|]. cbv beta. intros _ s2 Hb. split.
    - eapply (can_return_body (ok := ex_ok)); [apply ex_caller_Inv|apply ex_calling|apply ex_proc_ok|apply ex_can_save
        |apply ex_frames_ok|exact He|exact Hb].
    - apply Hb. }
  destruct (wp_ret_inv _ _ _ H) as ([] & s' & E & H'). unfold ex_callee. rewrite E. exact H'.
Qed.
Lemma return_restores_witness :
  (can_return (saved RSB_CAL ex_caller) 0 ex_callee /\ result_on_stack 2 ex_callee) /\
  exists s1 s', do_ret 2 ex_callee = Ret tt s' /\ result_taken 2 (ret_ready 2 ex_callee) s1 /\
    returned (saved RSB_CAL ex_caller) 0 s1 s'.
Proof.
  destruct ex_can_return as [H1 H2]. split; [exact (conj H1 H2)|].
  exact (return_restores (ok := ex_ok) (saved RSB_CAL ex_caller) 0 2 ex_callee H1 eq_refl H2).
Defined.

(** A function result in the Function Return Area. *)
Definition ex_result : state :=
  set_FRA_def DEFINED (set_FRASize 2 (set_FRA (mkArea (lay ∅ 0 [7; 0]) (fill ∅ 0 SH_INT 2) 8) (ex []))).
Lemma function_result_witness :
  (Inv ex_result /\ result_size 2 /\ room (width 2) ex_result) /\
  exists s', lfr 2 ex_result = Ret tt s' /\ result_pushed 2 ex_result s' /\ FRA_def s' = UNDEFINED.
Proof.
  assert (Hi : Inv ex_result).
  { assert (H : Inv (ex [])) by ex_inv. destruct H. constructor; try done.
    apply bytes_ok_lay; [apply bytes_ok_empty|]. repeat constructor; unfold is_byte; lia. }
  assert (Hs : result_size 2) by (split_and!; [done|done|by left|by vm_compute]).
  assert (Hr : room (width 2) ex_result) by by vm_compute.
  split; [by split_and!|]. exact (function_result (ok := ex_ok) 2 ex_result Hi Hs Hr).
Defined.

(** ** A whole run

    A load file with the text [loc 5; loc 6] in one procedure, no arguments. *)
Definition ex_opt : options := mkOptions 0 0 8 0 no_warnmask [105; 110; 116; 46; 109; 101; 115; 115] log0.
Definition ex_fresh : fresh := mkFresh ∅ ∅ ∅ ∅ ∅.
(** A host on Linux, on which every call succeeds with the value 5; there is one
    spare file descriptor. *)
#[export] Instance ex_os : Os := {|
  os_reply cs := match cs with
                 | s_dup _ :: _ => mkReply (-1) 24 []
                 | s_signals :: _ => mkReply 0 0 []
                 | _ => mkReply 5 0 []
                 end;
  NSIG := 65; SIGILL := 4; SIGSYS := 31; SIGCHLD := 17; SIGIO := 29; SIGWINCH := 28;
  sig_kills sn := negb (bool_decide (sn ∈ [17; 18; 19; 20; 21; 22; 23; 28]));
  EMFILE := 24; timezone := 0; daylight := 0
|}.
#[export] Instance ex_host : Host := {| host_nan := fun n => if n =? 4 then 0x7fc00000 else 0x7ff8000000000000 |}.
Definition ex_magic : Z := 3757.
Definition ex_file : list Z :=
  [173; 14; 1; 0; 0; 0; 3; 0; 2; 0; 2; 0; 0; 0; 0; 0;  (* magic, flags, unresolved, version, sizes *)
   2; 0; 0; 0; 1; 0; 0; 0; 10; 0; 40; 0; 0; 0; 0; 0;    (* ntext, ndata, nproc, entry, nline, szdata *)
   5; 6;                                                (* text: loc 5, loc 6 *)
   0; 0; 0; 0].                                         (* nloc, ep *)
#[local] Abbreviation ex_boot := (boot ex_magic 3 ex_opt ex_fresh [] [] ex_file state0).
(** The value and the state of a computation that returns. *)
Definition returns {A} (r : result A) : bool := match r with Ret _ _ => true | _ => false end.
Definition value_of {A} (d : A) (r : result A) : A := match r with Ret a _ => a | _ => d end.
Definition state_of {A} (r : result A) : state := match r with Ret _ s => s | _ => state0 end.
Lemma returns_triple {A B C} (d : A * B * C) (r : result (A * B * C)) :
  returns r = true -> r = Ret ((value_of d r).1.1, (value_of d r).1.2, (value_of d r).2) (state_of r).
Proof. by destruct r as [[[]]| | |]. Qed.
Lemma returns_tt (r : result unit) : returns r = true -> r = Ret tt (state_of r).
Proof. by destruct r as [[]| | |]. Qed.

Definition ex_boot_cfg : Config := (value_of (ex_cfg, 0, log0) ex_boot).1.1.
Definition ex_flags : Z := (value_of (ex_cfg, 0, log0) ex_boot).1.2.
Definition ex_log : logst := (value_of (ex_cfg, 0, log0) ex_boot).2.
Definition ex_boot_state : state := state_of ex_boot.
Definition ex_start : state := state_of (start (cfg := ex_boot_cfg) ex_boot_state).
Definition ex_next : state := state_of (step (cfg := ex_boot_cfg) false ex_start).
Lemma ex_booted : ex_boot = Ret (ex_boot_cfg, ex_flags, ex_log) ex_boot_state.
Proof.
  assert (H : returns ex_boot = true) by (vm_cast_no_check (eq_refl true)).
  exact (returns_triple (ex_cfg, 0, log0) ex_boot H).
Qed.
Lemma ex_started : start (cfg := ex_boot_cfg) ex_boot_state = Ret tt ex_start.
Proof.
  assert (H : returns (start (cfg := ex_boot_cfg) ex_boot_state) = true) by (vm_cast_no_check (eq_refl true)).
  exact (returns_tt _ H).
Qed.
Lemma ex_stepped : step (cfg := ex_boot_cfg) false ex_start = Ret tt ex_next.
Proof.
  assert (H : returns (step (cfg := ex_boot_cfg) false ex_start) = true) by (vm_cast_no_check (eq_refl true)).
  exact (returns_tt _ H).
Qed.
Lemma ex_reachable : reachable (cfg := ex_boot_cfg) ex_boot_state true ex_next.
Proof.
  eapply reach_step; [apply reach_start, ex_started| |apply ex_stepped].
  vm_cast_no_check (eq_refl true).
Qed.
Lemma ex_file_ok : file_ok ex_file.
Proof. repeat constructor; lia. Qed.
Lemma machine_safe_witness :
  reachable (cfg := ex_boot_cfg) ex_boot_state true ex_next /\ Inv (cfg := ex_boot_cfg) ex_next.
Proof.
  split; [apply ex_reachable|].
  assert (Hg : fresh_ok ex_fresh) by (split_and!; apply bytes_ok_empty).
  assert (Hs : forall h, header_ok ex_opt h ->
    let cfg := machine ex_opt h 0 [] [] in vec_size [] + vec_size [] + (strings_size [] + strings_size []) < 2 ^ 60).
  { intros h (_ & Hp & _). cbv zeta. unfold vec_size, psize, machine. cbn. lia. }
  assert (Hb : boot ex_magic 3 ex_opt ex_fresh [] [] ex_file state0 = Ret (ex_boot_cfg, ex_flags, ex_log) ex_boot_state)
    by apply ex_booted.
  pose proof (machine_safe ex_magic 3 ex_opt ex_fresh [] [] Hg (eq_refl : o_FRALimit ex_opt < 2 ^ 31) (Forall_nil_2 _) (Forall_nil_2 _) Hs ex_file
    ex_boot_cfg ex_flags ex_log ex_boot_state true ex_next ex_file_ok Hb) as G.
  exact (G ex_reachable).
Defined.

(** ** Instructions *)
Lemma instruction_roundtrip_witness :
  (3, (i_loc, AMini 3 false)) ∈ DoCases /\
  one_instr (set_PC 3 (ex [])) = (x ← argument (AMini 3 false) 3; dispatch i_loc x) (set_PC (3 + 1) (set_PC 3 (ex []))).
Proof.
  assert (Hin : (3, (i_loc, AMini 3 false)) ∈ DoCases) by (apply (bool_decide_unpack _); by vm_compute).
  split; [exact Hin|].
  assert (Ht : text_at 3 [3]).
  { split; [done|]. split; [by vm_compute|]. intros [|[|i]] b H; inversion H; subst; reflexivity. }
  exact (instruction_roundtrip 3 i_loc (AMini 3 false) 3 (set_PC 3 (ex [])) (mkProc 0 0 4) Hin eq_refl Ht
    ltac:(by vm_compute) ltac:(done) eq_refl ltac:(by vm_compute)).
Defined.

(** Two states that differ in their warnings. *)
Lemma warnings_have_no_effect_witness :
  eqw (ex [5; 0]) (warned 3 (ex [5; 0])) /\
  same_outcome (step true (ex [5; 0])) (step true (warned 3 (ex [5; 0]))).
Proof.
  assert (H : eqw (ex [5; 0]) (warned 3 (ex [5; 0]))) by (by eexists).
  split; [exact H|]. exact (proj1 (warnings_have_no_effect 1 true _ _ H)).
Defined.

(** ** Blocks and descriptors *)
Lemma duplication_witness :
  (Inv (ex [1; 2]) /\ block_size 2 /\ room 2 (ex [1; 2])) /\
  exists s', DoDUP 2 (ex [1; 2]) = Ret tt s' /\ stk s' (SP s') 2 = 513.
Proof.
  assert (Hi : Inv (ex [1; 2])) by ex_inv. assert (Hb : block_size 2) by by vm_compute.
  assert (Hr : room 2 (ex [1; 2])) by reflexivity. split; [by split_and!|].
  destruct (duplication (ok := ex_ok) 2 (ex [1; 2]) Hi Hb ltac:(by vm_compute) Hr) as (s' & E & _ & Ev & _).
  vm_compute (stk (ex [1; 2]) _ _) in Ev. exact (ex_intro _ s' (conj E Ev)).
Defined.
Lemma exchange_witness :
  Inv (ex [1; 0; 2; 0]) /\
  exists s', DoEXG 2 (ex [1; 0; 2; 0]) = Ret tt s' /\ stk s' (SP (ex [1; 0; 2; 0])) 2 = 2 /\
    stk s' (SP (ex [1; 0; 2; 0]) + 2) 2 = 1.
Proof.
  assert (Hi : Inv (ex [1; 0; 2; 0])) by ex_inv. split; [exact Hi|].
  destruct (exchange (ok := ex_ok) 2 (ex [1; 0; 2; 0]) Hi ltac:(by vm_compute) ltac:(by vm_compute) eq_refl)
    as (s' & E & _ & E1 & E2 & _).
  exact (ex_intro _ s' (conj E (conj E1 E2))).
Defined.
(** A local variable of the frame, below the operands. *)
Definition ex_frame : state := ex [7; 0; 9; 0].
Lemma local_roundtrip_witness :
  Inv ex_frame /\
  exists s', (DoSTL (-2) ;; DoLOL (-2)) ex_frame = Ret tt s' /\ stk s' (ex_LB - 2) 2 = 7.
Proof.
  assert (Hi : Inv ex_frame) by (unfold ex_frame; ex_inv). split; [exact Hi|].
  destruct (local_roundtrip (ok := ex_ok) (-2) ex_frame Hi ltac:(by vm_compute) ltac:(by vm_compute) eq_refl) as (s' & E & _ & _ & Ev & _).
  exact (ex_intro _ s' (conj E Ev)).
Defined.

(** The operands [l] and the bytes [d] at address 20 of the data space. *)
Definition ex_data (l d : list Z) : state :=
  set_data (mkArea (lay ∅ 20 d) (fill ∅ 20 SH_INT (length d)) 1064) (ex l).
Lemma ex_data_Inv l d :
  Forall is_byte l -> Forall is_byte d -> (Z.of_nat (length l) <=? 900) = true ->
  Z.of_nat (length l) mod 2 = 0 -> Inv (ex_data l d).
Proof.
  intros Hl Hd Hlen Hev. pose proof (ex_Inv l Hl Hlen Hev) as []. constructor; try done.
  by apply bytes_ok_lay; [apply bytes_ok_empty|].
Qed.
Ltac ex_data_inv := apply ex_data_Inv; [repeat constructor; unfold is_byte; lia..|reflexivity|reflexivity].

(** Element 2 of an array of words with the bounds 1 and 3. *)
Definition ex_array : state := ex_data [20; 0; 0; 0; 2; 0; 40; 0; 0; 0] [1; 0; 3; 0; 2; 0].
Lemma array_address_witness :
  (wi_size 2 /\ Inv ex_array) /\
  exists s', DoAAR 2 ex_array = Ret tt s' /\ converted (spoiled ex_array) 10 4 42 s'.
Proof.
  assert (Hi : Inv ex_array) by (unfold ex_array; ex_data_inv).
  split; [exact (conj ex_wi_size_2 Hi)|].
  exact (array_address (ok := ex_ok) 2 ex_array ex_wi_size_2 Hi ltac:(by vm_compute) eq_refl
    ltac:(by vm_compute) ltac:(split; [by vm_compute|by left]) ltac:(right; vm_compute; split; intros _; discriminate)).
Defined.
(** Bounds 1 and 3 again, as they are specified: the routine does not reach element 3. *)
Definition ex_array3 : state := ex_data [20; 0; 0; 0; 3; 0; 40; 0; 0; 0] [1; 0; 2; 0; 2; 0].
Example upper_bound_misread :
  array_result 2 ex_array3 = inr 44 /\ exists s', DoAAR 2 ex_array3 = Trap EARRAY s'.
Proof.
  assert (Hi : Inv ex_array3) by (unfold ex_array3; ex_data_inv). split; [by vm_compute|].
  destruct (array_access_run (ok := ex_ok) 2 ex_array3 ex_wi_size_2 Hi ltac:(by vm_compute) eq_refl
    ltac:(by vm_compute) ltac:(split; [by vm_compute|by left])) as (s' & E & _). by exists s'.
Qed.
(** 4 is not in 1 .. 3. *)
Definition ex_range : state := ex_data [20; 0; 0; 0; 4; 0] [1; 0; 3; 0].
Lemma range_checked_witness :
  (wi_size 2 /\ Inv ex_range) /\
  exists s', after (spoiled ex_range) 4 s' /\ DoRCK 2 ex_range = Trap ERANGE s'.
Proof.
  assert (Hi : Inv ex_range) by (unfold ex_range; ex_data_inv).
  split; [exact (conj ex_wi_size_2 Hi)|].
  exact (range_checked (ok := ex_ok) 2 ex_range ex_wi_size_2 Hi ltac:(by vm_compute) ltac:(by vm_compute)).
Defined.
(** Default 1, lower bound 5, two entries: 2 and 3. *)
Definition ex_case : state := ex_data [20; 0; 0; 0; 6; 0] [1; 0; 0; 0; 5; 0; 1; 0; 2; 0; 0; 0; 3; 0; 0; 0].
Lemma indexed_case_jump_witness :
  (wi_size 2 /\ Inv ex_case) /\
  exists s1, after (spoiled ex_case) 6 s1 /\ DoCSA 2 ex_case = newPC 3 s1.
Proof.
  assert (Hi : Inv ex_case) by (unfold ex_case; ex_data_inv).
  split; [exact (conj ex_wi_size_2 Hi)|].
  exact (indexed_case_jump (ok := ex_ok) 2 ex_case ex_wi_size_2 Hi ltac:(by vm_compute) ltac:(by vm_compute)
    ltac:(by vm_compute) ltac:(by vm_compute)).
Defined.
(** Default 1, two entries: 5 with target 2, 6 with target 3. *)
Definition ex_search : state :=
  ex_data [20; 0; 0; 0; 6; 0] [1; 0; 0; 0; 2; 0; 5; 0; 2; 0; 0; 0; 6; 0; 3; 0; 0; 0].
Lemma searched_case_jump_witness :
  (wi_size 2 /\ Inv ex_search) /\
  exists s1, after (spoiled ex_search) 6 s1 /\ DoCSB 2 ex_search = newPC 3 s1.
Proof.
  assert (Hi : Inv ex_search) by (unfold ex_search; ex_data_inv).
  split; [exact (conj ex_wi_size_2 Hi)|].
  exact (searched_case_jump (ok := ex_ok) 2 ex_search ex_wi_size_2 Hi ltac:(by vm_compute) ltac:(by vm_compute)).
Defined.

(** ** Reals *)
Lemma ex_host_ok : HostOk.
Proof. constructor; by vm_compute. Qed.

(** 2.5 as a float. *)
Definition ex_real : double := fdiv (of_long 5) f_two.
Lemma push_pop_real_witness :
  (wf_size 4 /\ valid_double ex_real /\ Inv (ex []) /\ room 4 (ex [])) /\
  exists s', (fpush ex_real 4 ;; fpop 4) (ex []) = Ret ex_real s' /\ restored (ex []) s'.
Proof.
  assert (Hi : Inv (ex [])) by ex_inv. assert (Hn : wf_size 4) by by left.
  assert (Hv : valid_double ex_real) by by vm_compute. assert (Hr : room 4 (ex [])) by reflexivity.
  split; [by split_and!|].
  pose proof (push_pop_real (ok := ex_ok) (hok := ex_host_ok) ex_real 4 (ex []) Hn Hv Hi Hr) as G.
  vm_compute (rounded 4 ex_real) in G. exact G.
Defined.

(** -2.5 is -0.625 times two to the power two. *)
Definition ex_split : state := ex [0; 0; 32; 192].
Lemma float_split_witness :
  Inv ex_split /\ stf ex_split (SP ex_split) 4 = fneg ex_real /\
  exists s', DoFEF 4 ex_split = Ret tt s' /\ stks s' (SP s') 2 = 2 /\
    stf s' (SP s' + 2) 4 = fdiv (of_long (-5)) (of_long 8).
Proof.
  assert (Hi : Inv ex_split) by (unfold ex_split; ex_inv).
  assert (Ef : stf ex_split (SP ex_split) 4 = S754_finite true 5629499534213120 (-51)) by by vm_compute.
  split; [exact Hi|]. split; [by rewrite Ef|].
  destruct (float_split (ok := ex_ok) (hok := ex_host_ok) 4 ex_split true 5629499534213120 (-51) (or_introl eq_refl) Hi
    ltac:(by vm_compute) eq_refl Ef) as (_ & s' & E & _ & E1 & E2 & _).
  vm_compute (SFfrexp _ _ _).2 in E1. vm_compute (rounded _ _) in E2.
  exact (ex_intro _ s' (conj E (conj E1 E2))).
Defined.

(** 2.5 below 1. *)
Definition ex_reals : state := ex [0; 0; 128; 63; 0; 0; 32; 64].
Lemma real_comparison_witness :
  operands 8 2 ex_reals /\ implements (DoCMF 4) ex_reals 8 2 (inr 1).
Proof.
  assert (H : operands 8 2 ex_reals) by (unfold ex_reals; ex_operands). split; [exact H|].
  pose proof (real_comparison (ok := ex_ok) 4 ex_reals (or_introl eq_refl) H) as G.
  vm_compute (real_sign _ _) in G. exact G.
Defined.

(** 70000 does not fit in two bytes. *)
Definition ex_cfi : state := ex [2; 0; 4; 0; 0; 184; 136; 71].
Lemma real_to_integer_witness :
  conv_ready 4 2 ex_cfi /\ stf ex_cfi (SP ex_cfi + 4) 4 = of_long 70000 /\
  exists s', DoCFI ex_cfi = Trap ECONV s' /\ after (spoiled ex_cfi) 8 s'.
Proof.
  assert (H : conv_ready 4 2 ex_cfi).
  { split; [unfold ex_cfi; ex_inv|]. by vm_compute. }
  assert (Ef : stf ex_cfi (SP ex_cfi + 4) 4 = of_long 70000) by by vm_compute.
  split_and!; [exact H|exact Ef|].
  exact (real_to_integer (ok := ex_ok) 4 2 ex_cfi 70000 (or_intror (conj eq_refl eq_refl)) (or_introl eq_refl) H Ef
    ltac:(by vm_compute)).
Defined.

Definition ex_cif : state := ex [8; 0; 2; 0; 254; 255].
Lemma integer_real_roundtrip_witness :
  conv_ready 2 8 ex_cif /\
  exists s', (DoCIF ;; wpush 8 ;; wpush 2 ;; DoCFI) ex_cif = Ret tt s' /\ stks s' (SP s') 2 = -2.
Proof.
  assert (H : conv_ready 2 8 ex_cif).
  { split; [unfold ex_cif; ex_inv|]. by vm_compute. }
  split; [exact H|].
  destruct (integer_real_roundtrip (ok := ex_ok) (hok := ex_host_ok) 2 ex_cif (or_intror (conj eq_refl eq_refl)) H eq_refl)
    as (s' & E & _ & Ev & _).
  vm_compute (stks ex_cif _ _) in Ev. exact (ex_intro _ s' (conj E Ev)).
Defined.
