(* ===== verification/MonWitnesses.v ===== *)
(** * Concrete monitor calls

    The theorems about the monitor calls and signals, applied to the machine of
    [Witnesses] with a host that never refuses a call. *)
From Stdlib Require Import ZArith Lia Bool.
From stdpp Require Import base gmap list.
From S2P Require Import Prelude Os Machine Warn Mem Wp Sigtrp Data Stack StackSpec Mon MonStr MonLogic MonSpec.
From S2P Require Import Switch Interp Witnesses.

(** Reads return at most the bytes A and B; the signal 2 comes in when signals are
    asked for twice in succession. *)
Definition mon_reply (h : list syscall) : reply :=
  match h with
  | s_read _ n :: _ => if n <? 2 then mkReply 0 0 [] else mkReply 2 0 [65; 66]
  | s_write _ _ :: _ => mkReply 2 0 []
  | s_signals :: s_signals :: _ => mkReply 0 0 [2]
  | s_lseek _ _ _ :: _ | s_signals :: _ => mkReply 0 0 []
  | _ => mkReply 5 0 []
  end.
Definition mon_os : Os := {|
  os_reply := mon_reply; NSIG := 65; SIGILL := 4; SIGSYS := 31; SIGCHLD := 17; SIGIO := 29; SIGWINCH := 28;
  sig_kills sn := negb (bool_decide (sn ∈ [17; 18; 19; 20; 21; 22; 23; 28]));
  EMFILE := 24; timezone := 0; daylight := 0
|}.
Lemma mon_os_ok : OsOk (os := mon_os).
Proof.
  constructor.
  - intros c h Hc Hf. exfalso. revert Hf. unfold os_reply, mon_os, mon_reply.
    destruct c; try discriminate Hc; cbv beta iota; [discriminate|destruct (nbytes <? 2); discriminate|..|discriminate];
      discriminate.
  - intros fd n h Hn. right. unfold os_reply, mon_os, mon_reply.
    destruct (Z.ltb_spec n 2); cbn [r_val r_out length]; [change (s32 0) with 0 | change (s32 2) with 2]; lia.
  - intros fd h. discriminate.
  - intros h. discriminate.
Qed.

Lemma ex_sig_map l : sig_map_ok (ex l).
Proof. intros sn. unfold mget. cbn [mon ex sig_map mon0]. by rewrite lookup_empty. Qed.

(** The string "hi" at the stack pointer. *)
Lemma string_parameter_witness :
  Inv (ex [104; 105; 0; 0]) /\
  exists s', savestr 0 (SP (ex [104; 105; 0; 0])) (ex [104; 105; 0; 0]) = Ret (Some [104; 105]) s'.
Proof.
  set (s := ex [104; 105; 0; 0]).
  assert (Hi : Inv s) by ex_inv. split; [exact Hi|].
  assert (Hstr : string_at s (SP s) [104; 105]).
  { apply string_at_cons; [reflexivity..|discriminate|]. apply string_at_cons; [reflexivity..|discriminate|].
    apply string_at_nil; reflexivity. }
  destruct (string_parameter (ok := ex_ok) 0 (SP s) s Hi ltac:(by vm_compute)) as [(str & Hs & Hu & E)|[Hno _]].
  - rewrite <- (Hu _ Hstr) in E. eexists. exact E.
  - destruct (Hno _ Hstr).
Defined.


(** Two bytes at the top of the stack. *)
Definition ex_rw (fd b1 b2 : Z) : state := ex [fd; 0; 230; 255; 255; 127; 2; 0; 0; 0; b1; b2].
Lemma write_passes_memory_witness :
  (Inv (ex_rw 1 104 105) /\ is_in_mem (stk (ex_rw 1 104 105) (SP (ex_rw 1 104 105) + 2) 4) 2 (ex [104; 105]) = true) /\
  exists s', mon_write (os := mon_os) (ex_rw 1 104 105) = Ret tt s' /\ calls (mon s') = [s_write 1 [104; 105]].
Proof.
  assert (Hi : Inv (ex_rw 1 104 105)) by ex_inv. split; [by split|].
  pose proof (write_passes_memory (ok := ex_ok) (os := mon_os) (ook := mon_os_ok) (ex_rw 1 104 105)
           Hi (ex_sig_map _) ltac:(by vm_compute) eq_refl eq_refl ltac:(by vm_compute) ltac:(by vm_compute) eq_refl) as H.
  apply wp_ret_inv in H as ([] & s' & E & Hc & _). exists s'. split; [exact E|]. rewrite Hc. by vm_compute.
Defined.
Lemma read_fills_memory_witness :
  (Inv (ex_rw 0 0 0) /\ is_in_mem (stk (ex_rw 0 0 0) (SP (ex_rw 0 0 0) + 2) 4) 2 (ex [0; 0]) = true) /\
  exists s', mon_read (os := mon_os) (ex_rw 0 0 0) = Ret tt s' /\ mem_byte s' (LB (ex []) - 1) = 66.
Proof.
  assert (Hi : Inv (ex_rw 0 0 0)) by ex_inv. split; [by split|].
  pose proof (read_fills_memory (ok := ex_ok) (os := mon_os) (ook := mon_os_ok) (ex_rw 0 0 0)
           Hi (ex_sig_map _) ltac:(by vm_compute) eq_refl eq_refl ltac:(by vm_compute) ltac:(by vm_compute)
           ltac:(by vm_compute) eq_refl) as H.
  apply wp_ret_inv in H as ([] & s' & E & _ & Hb & _). exists s'. split; [exact E|].
  rewrite Hb by reflexivity. by vm_compute.
Defined.

(** The interrupt signal, mapped onto the trap 10, comes in while LOC is executed. *)
Definition sig_state : state := match do_sigtrp (os := mon_os) 10 2 (ex []) with Ret _ s => s | _ => ex [] end.
Definition sig_state2 : state :=
  match (signals (os := mon_os) ;; one_instr (os := mon_os)) sig_state with Ret _ s => s | _ => ex [] end.
Lemma mapped_signal_traps_witness :
  (do_sigtrp (os := mon_os) 10 2 (ex []) = Ret 0 sig_state /\
   (signals (os := mon_os) ;; one_instr (os := mon_os)) sig_state = Ret tt sig_state2) /\
  exists s4, turn (os := mon_os) sig_state = Trap 10 s4.
Proof.
  assert (E1 : do_sigtrp (os := mon_os) 10 2 (ex []) = Ret 0 sig_state) by (by vm_compute).
  assert (E2 : (signals (os := mon_os) ;; one_instr (os := mon_os)) sig_state = Ret tt sig_state2) by (by vm_compute).
  split; [by split|].
  destruct (mapped_signal_traps (os := mon_os) 10 2 0 (ex []) sig_state sig_state sig_state2) as (s4 & E & _);
    [lia|exact E1|lia|exact E2|by vm_compute|by vm_compute|by vm_compute|]. by exists s4.
Defined.
