(* ===== verification/MainWitnesses.v ===== *)
(** * Concrete runs of the program

    The theorems on the command line, the log mask, the loop, the tally, the
    disassembler and the dumps, for a load file that sets the file and line numbers and returns. *)
From Stdlib Require Import ZArith Lia Bool String.
From stdpp Require Import base gmap list.
From S2P Require Import Prelude Os Machine Log Warn Options Mem Wp Stack Text Switch Interp Tally Decode PrInstr Disasm Dump DumpSpec Core Boot Main Witnesses.
Local Open Scope Z_scope.
Local Open Scope list_scope.

Definition ex_prog : list Z :=
  [173; 14; 0; 0; 0; 0; 3; 0; 2; 0; 2; 0; 0; 0; 0; 0;
   7; 0; 0; 0; 1; 0; 0; 0; 10; 0; 40; 0; 0; 0; 0; 0;
   109; 0; 8; 149; 3; 150; 197;                         (* text: fil 8; lin 3; lni; ret 0 *)
   0; 0; 0; 0].
Definition ex_files (f : cstr) : option (list Z) := if bool_decide (f = str "e.out") then Some ex_prog else None.
#[local] Abbreviation ex_prepare := (prepare ex_magic 3 ex_fresh ex_files []).
#[local] Abbreviation ex_main := (main ex_magic 3 ex_fresh ex_files []).

(** A-Z9d2twx9, with one group more. *)
Definition ex_mask : mask := [([Range_ 65 90], 9); ([Class_ 100], 2); ([Class_ 116; Class_ 119; Class_ 120], 9); ([Class_ 100], 3)].
Ltac all_ok := repeat (cbn; first [apply Forall_nil_2 | apply Forall_cons_2 | split]); cbn; first [reflexivity | lia | done].
Lemma log_mask_witness :
  mask_ok ex_mask /\ mask_text ex_mask = str "A-Z9d2twx9d3" /\
  exists levels, set_lmask None (str "A-Z9d2twx9d3") ∅ state0 = Ret levels state0 /\
    forall c, mget levels c = level_of ex_mask c 0.
Proof.
  assert (H : mask_ok ex_mask) by all_ok. split; [exact H|]. split; [reflexivity|].
  destruct (log_mask ex_mask None ∅ state0 H) as (levels & E & Hl). exists levels. split; [exact E|].
  intros c. rewrite Hl. unfold mget. by rewrite lookup_empty.
Defined.

(** -s5 STOP=7 -s-1 -I12 e.out -t *)
Definition ex_options : list opt :=
  [StackLimit (Numeral false [5]); LogVar (str "STOP=7"); StackLimit (Numeral true [1]); IgnoreTrap (Numeral false [1; 2])].
Lemma command_line_witness :
  Forall opt_ok ex_options /\
  exists c, read_options [str "-s5"; str "STOP=7"; str "-s-1"; str "-I12"; str "e.out"; str "-t"] cmd0 state0
              = Ret (c, [str "e.out"; str "-t"]) state0 /\
    c_maxstack c = -1 /\ Z.testbit (c_PreIgnMask c) 12 = true /\ must_tally c = false /\ c_arglist c = [str "STOP=7"].
Proof.
  assert (H : Forall opt_ok ex_options) by all_ok. split; [exact H|].
  destruct (command_line ex_options [str "e.out"; str "-t"] cmd0 state0 H ltac:(cbn; lia) ltac:(reflexivity) ltac:(vm_compute; constructor))
    as (c & E & [] & Hi).
  exists c. split; [exact E|]. split; [exact set_s|]. split; [exact (Hi eq_refl 12 ltac:(lia))|]. split; [exact set_t|exact set_log].
Defined.

(** The machine of the load file, at the top of the loop. *)
Definition ex_prep : cmdline * (Config * Z * logst) :=
  value_of (cmd0, (ex_cfg, 0, log0)) (ex_prepare [str "STOP=2"] state0).
Definition ex_prep_state : state := state_of (ex_prepare [str "STOP=2"] state0).
Lemma ex_prepared : ex_prepare [str "STOP=2"] state0 = Ret (ex_prep.1, (ex_prep.2.1.1, ex_prep.2.1.2, ex_prep.2.2)) ex_prep_state.
Proof.
  assert (H : returns (ex_prepare [str "STOP=2"] state0) = true) by (vm_cast_no_check (eq_refl true)).
  unfold ex_prep, ex_prep_state. by destruct (ex_prepare [str "STOP=2"] state0) as [[c [[cfg F] lg]] s| | |].
Qed.
#[local] Abbreviation ex_first_call :=
  ((when (flag FB_EXTRA ex_prep.2.1.2) (warning (cfg := ex_prep.2.1.1) WEXTRIGN)) ;; start (cfg := ex_prep.2.1.1)).
Definition ex_stop_state : state := state_of (ex_first_call ex_prep_state).
Lemma ex_stop_started : ex_first_call ex_prep_state = Ret tt ex_stop_state.
Proof.
  assert (H : returns (ex_first_call ex_prep_state) = true) by (vm_cast_no_check (eq_refl true)).
  exact (returns_tt _ H).
Qed.
Lemma stop_ends_program_witness :
  getpar (str "STOP") (c_arglist ex_prep.1) = Some (str "2") /\
  exists r, ex_main 2 [str "STOP=2"] = Some r /\
    stopped_by (cfg := ex_prep.2.1.1) 2 (must_tally ex_prep.1 || counting ex_prep.2.1.2) false tally0 ex_stop_state r.
Proof.
  assert (Hs : getpar (str "STOP") (c_arglist ex_prep.1) = Some (str "2")) by (vm_compute; reflexivity).
  assert (Ha : getpar (str "AT") (c_arglist ex_prep.1) = None) by (vm_compute; reflexivity).
  assert (Hd : must_disassemble ex_prep.1 = false) by (vm_compute; reflexivity).
  split; [exact Hs|].
  assert (Hn : 0 < signed_value (skip_spaces (str "2")) < 2 ^ 63) by (split; reflexivity).
  destruct (stop_ends_program ex_magic 3 ex_fresh ex_files [] [str "STOP=2"] ex_prep.1 ex_prep.2.1.1 ex_prep.2.1.2
    ex_prep.2.2 ex_prep_state (str "2") ex_stop_state ex_prepared Hd Hs Ha ex_stop_started Hn) as (r & E & H & _).
  assert (E2 : Z.to_nat (signed_value (skip_spaces (str "2"))) = 2%nat) by reflexivity.
  rewrite E2 in E, H. exists r. split; [exact E|exact H].
Defined.

(** Everything is logged, the dumps included. *)
Definition ex_lg : logst :=
  mkLog [] 0 true 0 true 0 1 0 0 2 0 0 (str "int.log") 0 None (<[100 := 9]> (<[42 := 9]> (<[43 := 9]> ∅))).

Definition ex_rows : list (Z * list (Z * Z * Z)) := [(8, [(0, 1, 1); (3, 1, 1); (4, 1, 2)])].
Definition ex_end : state := match ex_main 10 [str "-t"] with Some (Ret _ s) => s | _ => state0 end.
(** Does a run end with the status 0 and these lines? *)
Definition ends_with (rows : list (Z * list (Z * Z * Z))) (r : option (result ending)) : bool :=
  match r with Some (Ret (Exits 0 (Some l)) _) => bool_decide (l = rows) | _ => false end.
Lemma ends_with_run rows r :
  ends_with rows r = true ->
  r = Some (Ret (Exits 0 (Some rows)) (match r with Some (Ret _ s) => s | _ => state0 end)).
Proof.
  destruct r as [[[|[|p|p] [l|]] s|nr s|m s|]|]; cbn [ends_with]; try discriminate.
  intros H. by rewrite (bool_decide_eq_true_1 _ H).
Qed.
Lemma ex_main_runs : ex_main 10 [str "-t"] = Some (Ret (Exits 0 (Some ex_rows)) ex_end).
Proof.
  assert (H : ends_with ex_rows (ex_main 10 [str "-t"]) = true) by (vm_cast_no_check (eq_refl true)).
  exact (ends_with_run ex_rows (ex_main 10 [str "-t"]) H).
Qed.
Lemma program_tally_witness :
  ex_main 10 [str "-t"] = Some (Ret (Exits 0 (Some ex_rows)) ex_end) /\
  exists cfg s1, run_loop (cfg := cfg) 10 false s1 = Some (Ret tt ex_end) /\
    forall f i e n, (exists r, In (f, r) ex_rows /\ In (i, e, n) r) <->
      f <> 0 /\ e = entries (f, i) (run_trace (cfg := cfg) 10 false s1) /\
      n = instructions (f, i) (run_trace (cfg := cfg) 10 false s1) /\ 0 < n.
Proof.
  split; [exact ex_main_runs|].
  destruct (program_tally ex_magic 3 ex_fresh ex_files [] 10 [str "-t"] 0 ex_rows ex_end ex_main_runs)
    as (c & cfg & FLAGS & lg & s0 & s1 & _ & _ & Hr & Ht).
  exists cfg, s1. split; [exact Hr|exact Ht].
Defined.

(** Two procedures, the second one first: fil 8; lin 3; lni and ret 0. *)
Definition ex_dis : Config := {|
  wsize := 2; psize := 4; maxstack := 0; maxheap := 0; FRALimit := 8; PreIgnMask := 0;
  must_test := true; warnmask := no_warnmask; HB := 64; DB := 7; NProc := 2; ENTRY := 1;
  NLINE := 100; text := [109; 0; 8; 149; 3; 150; 197]; proctab := [mkProc 1 5 7; mkProc 2 0 5]
|}.
Definition ex_instrs : list einstr :=
  [mkInstr 109 i_fil (ATwoUns false) 8; mkInstr 149 i_lin (AShortie 0 false) 3; mkInstr 150 i_lni ANone 0;
   mkInstr 197 i_ret (AMini 0 true) 0].
Definition ex_listing : list dline :=
  [LAddr 0; LProc 1 0 2; LInstr "FIL" (Some 8); LInstr "LIN" (Some 3); LProc 0 0 1; LInstr "LNI" None; LInstr "RET" (Some 0)].
Lemma disassembly_lists_program_witness :
  Forall einstr_ok ex_instrs /\ text (Config := ex_dis) = flat_map instr_bytes ex_instrs /\
  disassemble (cfg := ex_dis) state0 = Ret ex_listing state0.
Proof.
  assert (Hok : Forall einstr_ok ex_instrs).
  { assert (H : forall k e, DoCases !! k = Some (e_opc e, (e_mnem e, e_arg e)) -> encodes (e_arg e) (e_val e) -> einstr_ok e).
    { intros k e Hk He. split; [|exact He]. exact (list_elem_of_lookup_2 _ _ _ Hk). }
    constructor; [by apply (H 75%nat)|]. constructor; [by apply (H 115%nat)|]. constructor; [by apply (H 116%nat)|].
    constructor; [by apply (H 197%nat)|constructor]. }
  split; [exact Hok|]. split; [reflexivity|].
  assert (Ht : text_at (cfg := ex_dis) 0 (flat_map instr_bytes ex_instrs)).
  { split_and!; [lia|cbn; lia|]. intros i b H. rewrite Z.add_0_l, Nat2Z.id. exact H. }
  exact (disassembly_lists_program (cfg := ex_dis) ex_instrs [mkEp 0 5 1; mkEp 1 0 2] state0 Hok Ht eq_refl ltac:(reflexivity)
    eq_refl ltac:(repeat (constructor; [set_solver|]); constructor)
    ltac:(repeat (constructor; [left; vm_compute; tauto|]); constructor)).
Defined.

(** Dumps of a machine with two operands on its stack. *)
Lemma ex_table : NProc <= Z.of_nat (length proctab) /\ FRALimit < 2 ^ 31.
Proof. cbn. lia. Qed.
Lemma short_area ar lo hi : hi - lo <= 4000 -> short_runs ar lo hi.
Proof. intros H a n H1 H2 _. lia. Qed.
Lemma ex_short_stack : short_runs (stack (ex [1; 2])) (SP (ex [1; 2])) (ML + 1).
Proof. apply short_area. by vm_compute. Qed.
Lemma ex_short_data : short_runs (data (ex [1; 2])) 0 (HP (ex [1; 2])).
Proof. apply short_area. by vm_compute. Qed.
Lemma dumps_end_witness : Inv (ex [1; 2]) /\ exists l, dumps ex_lg (ex [1; 2]) = Ret l (ex [1; 2]).
Proof.
  pose proof ex_ok as Hok. assert (Hi : Inv (ex [1; 2])) by ex_inv. split; [exact Hi|].
  exact (dumps_end ex_lg (proj1 ex_table) (proj2 ex_table) (ex [1; 2]) Hi ex_short_stack ex_short_data).
Defined.
(** The block at the bottom of the stack is protected. *)
Definition ex_prot : state :=
  set_stack (set_shad (fill (shad (stack (ex [1; 2]))) ex_LB (Z.lor SH_INT SH_PROT) (Z.to_nat rsbsize)) (stack (ex [1; 2])))
    (ex [1; 2]).
(** Four bytes from an odd address: a byte, a word, a byte. *)
Lemma displ_undefs_words_witness :
  displ_undefs 4 5 state0 = Ret (UBytesWordsBytes 1 1 1) state0 /\ 1 + 1 * wsize + 1 = 4 /\ (5 + 1) mod wsize = 0.
Proof.
  pose proof ex_ok as Hok. assert (Hn : 0 < 4 <= 4000) by lia. assert (Ha : 0 <= 5 < 2 ^ 62) by lia.
  destruct (displ_undefs_words 4 5 state0 Hn Ha) as (u & E & H).
  assert (E' : displ_undefs 4 5 state0 = Ret (UBytesWordsBytes 1 1 1) state0) by reflexivity.
  split; [exact E'|]. rewrite E' in E. injection E as <-. cbn [split_of] in H.
  destruct H as (H1 & _ & _ & H2 & _). split; [exact H1|]. apply H2. lia.
Defined.
Lemma core_complete_witness :
  Inv (ex [1; 2]) /\
  exists c, core_dump (ex [1; 2]) = Ret c (ex [1; 2]) /\ field c "SP" = Some (SP (ex [1; 2])) /\ c_text c = [0; 1; 2; 3].
Proof.
  pose proof ex_ok as Hok. assert (Hi : Inv (ex [1; 2])) by ex_inv. split; [exact Hi|].
  assert (H1 : 0 <= DB < 2 ^ 31) by (cbn; lia). assert (H2 : length text = Z.to_nat DB) by reflexivity.
  assert (H3 : HL (ex [1; 2]) < 2 ^ 31) by (cbn; lia). assert (H4 : alloc (stack (ex [1; 2])) < 2 ^ 31) by (cbn; lia).
  destruct (core_complete (ex [1; 2]) Hi H1 H2 H3 H4) as (c & E & _ & (_ & _ & _ & Hsp & _) & _ & Ht & _).
  exists c. split; [exact E|]. split; [exact Hsp|exact Ht].
Defined.
