(* ===== verification/FltWitnesses.v ===== *)
(** * The theorems on the compilers' reals, at concrete numbers *)
From Stdlib Require Import ZArith Lia Bool.
From stdpp Require Import base list.
From S2P Require Import Prelude Flt FltStr FltSpec FltMul FltText.
Local Open Scope Z_scope.
Local Open Scope list_scope.

(** 3.0, 0.75 and -1.0/3.0. *)
Definition three : flt_arith := of_mant 0 1 (3 * 2 ^ 62).
Definition three_quarters : flt_arith := of_mant 0 (-1) (3 * 2 ^ 62).
Definition minus_third : flt_arith := of_mant 1 (-2) 0xAAAAAAAAAAAAAAAA.

Lemma sum_of_numbers_witness :
  exists s x m, flt_add three minus_third = number s x m /\
    Z.abs (mean s x m - (value three + value minus_third)) < 2 ^ (Z.max (Z.max 1 (-2)) x + UNIT).
Proof.
  destruct (sum_of_numbers three minus_third) as [(s & x & m & _ & E & _ & B & _) _];
    [apply validb_ok; reflexivity..|]. exists s, x, m. split; [exact E | exact B].
Defined.
Lemma comparison_witness : flt_cmp three three_quarters = Z.sgn (value three - value three_quarters).
Proof. apply comparison; [apply validb_ok; reflexivity..|reflexivity]. Defined.
Lemma modf_splits_witness :
  let p := flt_modf three_quarters in value p.1 + value p.2 = value three_quarters /\ Z.abs (value p.2) < ONE.
Proof.
  destruct (modf_splits three_quarters) as (A & B & _); [apply validb_ok; reflexivity|]. split; [exact A | exact B].
Defined.
Lemma product_rounded_witness :
  exists x m, flt_mul three minus_third = number 1 x m /\ (m = 0 \/ 2 ^ 63 <= m < 2 ^ 64) /\
    2 * Z.abs (mean 1 x m * ONE - value three * value minus_third) <= 2 ^ (x + UNIT) * ONE.
Proof. apply (product_rounded three minus_third); apply validb_ok; reflexivity. Defined.
Lemma quotient_cut_off_witness :
  exists x m, flt_div three_quarters minus_third = number 1 x m /\ 2 ^ 63 <= m < 2 ^ 64.
Proof.
  destruct (quotient_cut_off three_quarters minus_third) as (_ & _ & Q); [apply validb_ok; reflexivity..|].
  destruct Q as (x & m & E & B & _); [vm_compute; discriminate..|]. exists x, m. split; [exact E | exact B].
Defined.
(** 5000000000 has more than 32 bits: it comes back without the high one. *)
Lemma arith_roundtrip_witness :
  value (flt_arith2flt (-5000000000) false) = -5000000000 * ONE /\
  flt_flt2arith (flt_arith2flt (-4000000000) false) false = (-4000000000, FLT_OK) /\
  exists n, flt_flt2arith (mkFlt 0 1 0xE0000000 0) false = (n, FLT_OK) /\
    n * ONE <= value (mkFlt 0 1 0xE0000000 0) < (n + 1) * ONE.
Proof.
  destruct arith_roundtrip as (H1 & H2 & H3).
  split; [exact (H1 (-5000000000) false ltac:(lia))|]. split; [exact (H2 (-4000000000) false ltac:(lia) (or_introl eq_refl))|].
  apply H3; [|reflexivity|vm_compute; reflexivity].
  split; [split; [split; split; vm_compute; done|by left]|split; [vm_compute; done|split; reflexivity]].
Defined.
Lemma integer_text_read_witness : (flt_str2flt [32; 45; 52; 50]).1 = flt_arith2flt (-42) false.
Proof.
  destruct (integer_text_read [32] [45] [4; 2]) as (_ & _ & E).
  - repeat constructor.
  - by right; right.
  - discriminate.
  - repeat constructor; discriminate.
  - reflexivity.
  - apply E. vm_compute. split; reflexivity.
Defined.
